(** * Reactive core of Vue 2.5.17-beta.0: observer, dep, watcher, scheduler

    A shallow embedding of
      - src/core/observer/dep.js        (Dep, pushTarget, popTarget)
      - src/core/observer/watcher.js    (Watcher)
      - src/core/observer/index.js      (Observer, observe, defineReactive, set)
      - src/core/observer/array.js      (the seven intercepted array methods)
      - src/core/observer/scheduler.js  (queueWatcher, flushSchedulerQueue)
      - src/core/instance/state.js      (getData, createComputedGetter)

    JavaScript objects live in explicit stores indexed by natural numbers;
    every function of the source is a state-passing function in the monad
    [M].  User supplied functions (getters, callbacks, data factories) are
    programs of the small instruction type [code]; calls that may re-enter
    the reactive system go through a record [Rec] of entry points, which the
    fuel-indexed interpreter [interp] closes. *)

From stdpp Require Import gmap strings list fin_maps sorting.
From Stdlib Require Import ZArith Lia Ascii.

Open Scope Z_scope.
Open Scope nat_scope.

(** ** JavaScript values *)

Inductive jsval :=
| VUndef
| VNull
| VBool (b : bool)
| VNum (z : Z)
| VNaN
| VStr (s : string)
| VRef (r : nat).

#[global] Instance jsval_eq_dec : EqDecision jsval.
Proof. solve_decision. Defined.

#[global] Instance jsval_inhabited : Inhabited jsval := populate VUndef.

(** [a === b]: NaN is the one value that is not equal to itself;
    references are compared by identity. *)
Definition strict_eq (a b : jsval) : bool :=
  match a, b with
  | VNaN, _ => false
  | _, VNaN => false
  | _, _ => bool_decide (a = b)
  end.

(** util [isObject]: [obj !== null && typeof obj === 'object']. *)
Definition isObject (v : jsval) : bool :=
  match v with VRef _ => true | _ => false end.

Definition truthy (v : jsval) : bool :=
  match v with
  | VUndef | VNull | VNaN => false
  | VBool b => b
  | VNum z => negb (z =? 0)%Z
  | VStr s => negb (bool_decide (s = EmptyString))
  | VRef _ => true
  end.

(** Property keys: array indices and other numbers, or names.  A [KName]
    is never the decimal spelling of a number. *)
Inductive pkey :=
| KNum (z : Z)
| KName (s : string).

#[global] Instance pkey_eq_dec : EqDecision pkey.
Proof. solve_decision. Defined.

(** ** Functions stored in objects

    A user function is an index into the program table of the environment;
    the accessors installed by [defineReactive] are closures over a cell. *)
Inductive fn :=
| FUser (f : nat)
| FReactiveGetter (c : nat)
| FReactiveSetter (c : nat).

#[global] Instance fn_eq_dec : EqDecision fn.
Proof. solve_decision. Defined.

Inductive method := Mpush | Mpop | Mshift | Munshift | Msplice | Msort | Mreverse.

#[global] Instance method_eq_dec : EqDecision method.
Proof. solve_decision. Defined.

Definition methodsToPatch : list method :=
  [Mpush; Mpop; Mshift; Munshift; Msplice; Msort; Mreverse].

(** ** User programs

    What a user function may do to the reactive system, with the rest of
    the function as continuation. *)
Inductive code :=
| Return (v : jsval)
| Throw (e : jsval)
| Get (o : jsval) (k : pkey) (cont : jsval -> code)
| Put (o : jsval) (k : pkey) (v : jsval) (cont : code)
| Computed (w : nat) (cont : jsval -> code)
| Invoke (a : jsval) (m : method) (args : list jsval) (cont : jsval -> code)
| VueSet (target : jsval) (k : pkey) (v : jsval) (cont : jsval -> code)
| Emit (tag : jsval) (cont : code).

(** ** Objects *)

Inductive slot :=
| Data (v : jsval)
| Accessor (g s : option fn).

Record prop := MkProp {
  p_slot : slot;
  p_enumerable : bool;
  p_configurable : bool
}.

Record object := Object {
  o_isArray : bool;
  o_elems : list jsval;
  o_props : list (pkey * prop);
  o_ob : option nat;
  o_intercepted : bool;
  o_extensible : bool;
  o_plain : bool;
  o_isVue : bool;
  o_isVNode : bool
}.

#[global] Instance object_inhabited : Inhabited object :=
  populate (Object false [] [] None false true true false false).

(** The closure of one [defineReactive] call. *)
Record cell := Cell {
  c_obj : nat;
  c_dep : nat;
  c_val : jsval;
  c_childOb : option nat;
  c_shallow : bool;
  c_getter : option fn;
  c_setter : option fn;
  c_customSetter : option fn
}.

#[global] Instance cell_inhabited : Inhabited cell :=
  populate (Cell 0 0 VUndef None false None None None).

Record observer := Observer {
  ob_value : nat;
  ob_dep : nat;
  ob_vmCount : nat
}.

#[global] Instance observer_inhabited : Inhabited observer :=
  populate (Observer 0 0 0).

Record watcher := Watcher {
  w_vm : nat;
  w_expression : string;
  w_cb : fn;
  w_deep : bool;
  w_user : bool;
  w_computed : bool;
  w_sync : bool;
  w_dirty : bool;
  w_active : bool;
  w_dep : option nat;
  w_deps : list nat;
  w_newDeps : list nat;
  w_depIds : gset nat;
  w_newDepIds : gset nat;
  w_before : option fn;
  w_getter : fn;
  w_value : jsval
}.

#[global] Instance watcher_inhabited : Inhabited watcher :=
  populate (Watcher 0 EmptyString (FUser 0) false false false false false false
                    None [] [] ∅ ∅ None (FUser 0) VUndef).

Record component := Component {
  vm_watcher : option nat;
  vm_watchers : list nat;
  vm_isMounted : bool;
  vm_isBeingDestroyed : bool;
  vm_inactive : bool
}.

#[global] Instance component_inhabited : Inhabited component :=
  populate (Component None [] false false false).

(** ** What the core emits to its collaborators *)

Inductive warning :=
| WInfiniteLoop (user : bool) (expression : string)
| WSetOnPrimitive
| WAvoidAddingReactive.

Inductive event :=
| EWarn (w : warning) (vm : option nat)
| EHandleError (e : jsval) (vm : nat) (info : string)
| ECallHook (vm : nat) (hook : string)
| EActivate (vm : nat)
| ENextTick
| EUser (tag : jsval).

#[global] Instance warning_eq_dec : EqDecision warning.
Proof. solve_decision. Defined.

#[global] Instance event_eq_dec : EqDecision event.
Proof. solve_decision. Defined.

(** ** The state of the page *)

Record State := MkState {
  heap : gmap nat object;
  next_ref : nat;
  cells : gmap nat cell;
  next_cell : nat;
  observers : gmap nat observer;
  next_ob : nat;
  subs : gmap nat (list nat);
  dep_uid : nat;
  watchers : gmap nat watcher;
  watcher_uid : nat;
  vms : gmap nat component;
  target : option nat;
  targetStack : list nat;
  shouldObserve : bool;
  queue : list nat;
  activatedChildren : list nat;
  has : gset nat;
  circular : gmap nat nat;
  waiting : bool;
  flushing : bool;
  index : nat;
  log : list event
}.

Definition set_heap (f : gmap nat object -> gmap nat object) (s : State) : State :=
  MkState (f (heap s)) (next_ref s) (cells s) (next_cell s) (observers s) (next_ob s)
    (subs s) (dep_uid s) (watchers s) (watcher_uid s) (vms s) (target s) (targetStack s)
    (shouldObserve s) (queue s) (activatedChildren s) (has s) (circular s) (waiting s)
    (flushing s) (index s) (log s).
Definition set_next_ref (x : nat) (s : State) : State :=
  MkState (heap s) x (cells s) (next_cell s) (observers s) (next_ob s) (subs s)
    (dep_uid s) (watchers s) (watcher_uid s) (vms s) (target s) (targetStack s)
    (shouldObserve s) (queue s) (activatedChildren s) (has s) (circular s) (waiting s)
    (flushing s) (index s) (log s).
Definition set_cells (f : gmap nat cell -> gmap nat cell) (s : State) : State :=
  MkState (heap s) (next_ref s) (f (cells s)) (next_cell s) (observers s) (next_ob s)
    (subs s) (dep_uid s) (watchers s) (watcher_uid s) (vms s) (target s) (targetStack s)
    (shouldObserve s) (queue s) (activatedChildren s) (has s) (circular s) (waiting s)
    (flushing s) (index s) (log s).
Definition set_next_cell (x : nat) (s : State) : State :=
  MkState (heap s) (next_ref s) (cells s) x (observers s) (next_ob s) (subs s)
    (dep_uid s) (watchers s) (watcher_uid s) (vms s) (target s) (targetStack s)
    (shouldObserve s) (queue s) (activatedChildren s) (has s) (circular s) (waiting s)
    (flushing s) (index s) (log s).
Definition set_observers (f : gmap nat observer -> gmap nat observer) (s : State) : State :=
  MkState (heap s) (next_ref s) (cells s) (next_cell s) (f (observers s)) (next_ob s)
    (subs s) (dep_uid s) (watchers s) (watcher_uid s) (vms s) (target s) (targetStack s)
    (shouldObserve s) (queue s) (activatedChildren s) (has s) (circular s) (waiting s)
    (flushing s) (index s) (log s).
Definition set_next_ob (x : nat) (s : State) : State :=
  MkState (heap s) (next_ref s) (cells s) (next_cell s) (observers s) x (subs s)
    (dep_uid s) (watchers s) (watcher_uid s) (vms s) (target s) (targetStack s)
    (shouldObserve s) (queue s) (activatedChildren s) (has s) (circular s) (waiting s)
    (flushing s) (index s) (log s).
Definition set_subs (f : gmap nat (list nat) -> gmap nat (list nat)) (s : State) : State :=
  MkState (heap s) (next_ref s) (cells s) (next_cell s) (observers s) (next_ob s)
    (f (subs s)) (dep_uid s) (watchers s) (watcher_uid s) (vms s) (target s)
    (targetStack s) (shouldObserve s) (queue s) (activatedChildren s) (has s)
    (circular s) (waiting s) (flushing s) (index s) (log s).
Definition set_dep_uid (x : nat) (s : State) : State :=
  MkState (heap s) (next_ref s) (cells s) (next_cell s) (observers s) (next_ob s)
    (subs s) x (watchers s) (watcher_uid s) (vms s) (target s) (targetStack s)
    (shouldObserve s) (queue s) (activatedChildren s) (has s) (circular s) (waiting s)
    (flushing s) (index s) (log s).
Definition set_watchers (f : gmap nat watcher -> gmap nat watcher) (s : State) : State :=
  MkState (heap s) (next_ref s) (cells s) (next_cell s) (observers s) (next_ob s)
    (subs s) (dep_uid s) (f (watchers s)) (watcher_uid s) (vms s) (target s)
    (targetStack s) (shouldObserve s) (queue s) (activatedChildren s) (has s)
    (circular s) (waiting s) (flushing s) (index s) (log s).
Definition set_watcher_uid (x : nat) (s : State) : State :=
  MkState (heap s) (next_ref s) (cells s) (next_cell s) (observers s) (next_ob s)
    (subs s) (dep_uid s) (watchers s) x (vms s) (target s) (targetStack s)
    (shouldObserve s) (queue s) (activatedChildren s) (has s) (circular s) (waiting s)
    (flushing s) (index s) (log s).
Definition set_vms (f : gmap nat component -> gmap nat component) (s : State) : State :=
  MkState (heap s) (next_ref s) (cells s) (next_cell s) (observers s) (next_ob s)
    (subs s) (dep_uid s) (watchers s) (watcher_uid s) (f (vms s)) (target s)
    (targetStack s) (shouldObserve s) (queue s) (activatedChildren s) (has s)
    (circular s) (waiting s) (flushing s) (index s) (log s).
Definition set_target (x : option nat) (s : State) : State :=
  MkState (heap s) (next_ref s) (cells s) (next_cell s) (observers s) (next_ob s)
    (subs s) (dep_uid s) (watchers s) (watcher_uid s) (vms s) x (targetStack s)
    (shouldObserve s) (queue s) (activatedChildren s) (has s) (circular s) (waiting s)
    (flushing s) (index s) (log s).
Definition set_targetStack (x : list nat) (s : State) : State :=
  MkState (heap s) (next_ref s) (cells s) (next_cell s) (observers s) (next_ob s)
    (subs s) (dep_uid s) (watchers s) (watcher_uid s) (vms s) (target s) x
    (shouldObserve s) (queue s) (activatedChildren s) (has s) (circular s) (waiting s)
    (flushing s) (index s) (log s).
Definition set_shouldObserve (x : bool) (s : State) : State :=
  MkState (heap s) (next_ref s) (cells s) (next_cell s) (observers s) (next_ob s)
    (subs s) (dep_uid s) (watchers s) (watcher_uid s) (vms s) (target s) (targetStack s)
    x (queue s) (activatedChildren s) (has s) (circular s) (waiting s) (flushing s)
    (index s) (log s).
Definition set_queue (x : list nat) (s : State) : State :=
  MkState (heap s) (next_ref s) (cells s) (next_cell s) (observers s) (next_ob s)
    (subs s) (dep_uid s) (watchers s) (watcher_uid s) (vms s) (target s) (targetStack s)
    (shouldObserve s) x (activatedChildren s) (has s) (circular s) (waiting s)
    (flushing s) (index s) (log s).
Definition set_activatedChildren (x : list nat) (s : State) : State :=
  MkState (heap s) (next_ref s) (cells s) (next_cell s) (observers s) (next_ob s)
    (subs s) (dep_uid s) (watchers s) (watcher_uid s) (vms s) (target s) (targetStack s)
    (shouldObserve s) (queue s) x (has s) (circular s) (waiting s) (flushing s)
    (index s) (log s).
Definition set_has (x : gset nat) (s : State) : State :=
  MkState (heap s) (next_ref s) (cells s) (next_cell s) (observers s) (next_ob s)
    (subs s) (dep_uid s) (watchers s) (watcher_uid s) (vms s) (target s) (targetStack s)
    (shouldObserve s) (queue s) (activatedChildren s) x (circular s) (waiting s)
    (flushing s) (index s) (log s).
Definition set_circular (x : gmap nat nat) (s : State) : State :=
  MkState (heap s) (next_ref s) (cells s) (next_cell s) (observers s) (next_ob s)
    (subs s) (dep_uid s) (watchers s) (watcher_uid s) (vms s) (target s) (targetStack s)
    (shouldObserve s) (queue s) (activatedChildren s) (has s) x (waiting s) (flushing s)
    (index s) (log s).
Definition set_waiting (x : bool) (s : State) : State :=
  MkState (heap s) (next_ref s) (cells s) (next_cell s) (observers s) (next_ob s)
    (subs s) (dep_uid s) (watchers s) (watcher_uid s) (vms s) (target s) (targetStack s)
    (shouldObserve s) (queue s) (activatedChildren s) (has s) (circular s) x
    (flushing s) (index s) (log s).
Definition set_flushing (x : bool) (s : State) : State :=
  MkState (heap s) (next_ref s) (cells s) (next_cell s) (observers s) (next_ob s)
    (subs s) (dep_uid s) (watchers s) (watcher_uid s) (vms s) (target s) (targetStack s)
    (shouldObserve s) (queue s) (activatedChildren s) (has s) (circular s) (waiting s) x
    (index s) (log s).
Definition set_index (x : nat) (s : State) : State :=
  MkState (heap s) (next_ref s) (cells s) (next_cell s) (observers s) (next_ob s)
    (subs s) (dep_uid s) (watchers s) (watcher_uid s) (vms s) (target s) (targetStack s)
    (shouldObserve s) (queue s) (activatedChildren s) (has s) (circular s) (waiting s)
    (flushing s) x (log s).
Definition emit (e : event) (s : State) : State :=
  MkState (heap s) (next_ref s) (cells s) (next_cell s) (observers s) (next_ob s)
    (subs s) (dep_uid s) (watchers s) (watcher_uid s) (vms s) (target s) (targetStack s)
    (shouldObserve s) (queue s) (activatedChildren s) (has s) (circular s) (waiting s)
    (flushing s) (index s) (log s ++ [e]).

Definition empty_state : State :=
  MkState ∅ 0 ∅ 0 ∅ 0 ∅ 0 ∅ 0 ∅ None [] true [] [] ∅ ∅ false false 0 [].

(** ** Results and the state monad

    A JavaScript call returns, throws, or (in the model) runs out of the
    fuel that bounds call depth. *)
Inductive Res (A : Type) :=
| Ok (a : A) (s : State)
| Exn (e : jsval) (s : State)
| Diverge.
Arguments Ok {A} a s.
Arguments Exn {A} e s.
Arguments Diverge {A}.

Definition M (A : Type) : Type := State -> Res A.

Definition ret {A} (a : A) : M A := fun s => Ok a s.
Definition throw {A} (e : jsval) : M A := fun s => Exn e s.
Definition bind {A B} (m : M A) (k : A -> M B) : M B :=
  fun s => match m s with
           | Ok a s1 => k a s1
           | Exn e s1 => Exn e s1
           | Diverge => Diverge
           end.
Definition gets {A} (f : State -> A) : M A := fun s => Ok (f s) s.
Definition modify (f : State -> State) : M unit := fun s => Ok tt (f s).

Notation "x <- m ;; k" := (bind m (fun x => k))
  (at level 20, m at level 99, k at level 200, only parsing).
Notation "m ;; k" := (bind m (fun _ => k))
  (at level 100, k at level 200, only parsing, right associativity).

Definition when (b : bool) (m : M unit) : M unit := if b then m else ret tt.

(** [try { body } catch (e) { handler e }] *)
Definition try_catch {A} (body : M A) (handler : jsval -> M A) : M A :=
  fun s => match body s with
           | Exn e s1 => handler e s1
           | r => r
           end.

(** [try { x = body } finally { fin x }]: [fin] sees [x], still [dflt] when
    the body threw; an exception of [fin] replaces the pending outcome. *)
Definition try_finally {A} (dflt : A) (body : M A) (fin : A -> M unit) : M A :=
  fun s => match body s with
           | Ok a s1 => match fin a s1 with
                        | Ok _ s2 => Ok a s2
                        | Exn e s2 => Exn e s2
                        | Diverge => Diverge
                        end
           | Exn e s1 => match fin dflt s1 with
                         | Ok _ s2 => Exn e s2
                         | Exn e' s2 => Exn e' s2
                         | Diverge => Diverge
                         end
           | Diverge => Diverge
           end.

(** [for (i = 0; i < l.length; i++) body(l[i])] over a snapshot [l]. *)
Fixpoint for_each {A} (l : list A) (body : A -> M unit) : M unit :=
  match l with
  | [] => ret tt
  | x :: r => body x ;; for_each r body
  end.

(** [let i = l.length; while (i--) body(l[i])] *)
Definition for_each_rev {A} (l : list A) (body : A -> M unit) : M unit :=
  for_each (reverse l) body.

(** ** Environment

    What is fixed for one page: the build mode, the platform, and the table
    of user functions ([this], arguments). *)
Record Env := MkEnv {
  production : bool;
  serverRendering : bool;
  program : nat -> jsval -> list jsval -> code;
  nativeSort : list jsval -> list jsval -> list jsval
}.

(** Entry points through which the functions below call back into code
    that can reach them again. *)
Record Rec := MkRec {
  r_call : fn -> jsval -> list jsval -> M jsval;
  r_notify : nat -> M unit;
  r_observe : jsval -> bool -> M (option nat);
  r_traverse : jsval -> M unit;
  r_dependArray : jsval -> M unit
}.

Definition TypeError : jsval := VStr "TypeError".

Definition quote : string := String "034"%char EmptyString.

(** Modelled from the spec: the error-reporting hook [handleError]
    (util/error.js is not part of the sources) records the failure and
    returns, so that execution continues. *)
Definition handleError (e : jsval) (vm : nat) (info : string) : M unit :=
  modify (emit (EHandleError e vm info)).

(** Modelled from the spec: [warn] (util/debug.js) reports a non-fatal
    diagnostic. *)
Definition warn (w : warning) (vm : option nat) : M unit :=
  modify (emit (EWarn w vm)).

(** Modelled from the spec: [nextTick] (util/next-tick.js) schedules one
    future call of its argument; the only callback this core ever passes
    is [flushSchedulerQueue]. *)
Definition nextTick_flushSchedulerQueue : M unit :=
  modify (emit ENextTick).

(** Modelled from the spec: util [remove (arr, item)] removes one
    occurrence of [item], and does nothing if it is absent. *)
Fixpoint remove (item : nat) (arr : list nat) : list nat :=
  match arr with
  | [] => []
  | x :: r => if decide (x = item) then r else x :: remove item r
  end.

(** *** Store access *)

Definition the_watcher (w : nat) : M watcher := gets (fun s => watchers s !!! w).
Definition upd_watcher (w : nat) (f : watcher -> watcher) : M unit :=
  modify (set_watchers (fun m => <[w := f (m !!! w)]> m)).
Definition the_subs (d : nat) : M (list nat) := gets (fun s => subs s !!! d).
Definition the_object (r : nat) : M object := gets (fun s => heap s !!! r).
Definition upd_object (r : nat) (f : object -> object) : M unit :=
  modify (set_heap (fun m => <[r := f (m !!! r)]> m)).
Definition the_cell (c : nat) : M cell := gets (fun s => cells s !!! c).
Definition upd_cell (c : nat) (f : cell -> cell) : M unit :=
  modify (set_cells (fun m => <[c := f (m !!! c)]> m)).
Definition the_observer (o : nat) : M observer := gets (fun s => observers s !!! o).
Definition upd_observer (o : nat) (f : observer -> observer) : M unit :=
  modify (set_observers (fun m => <[o := f (m !!! o)]> m)).
Definition the_vm (v : nat) : M component := gets (fun s => vms s !!! v).
Definition upd_vm (v : nat) (f : component -> component) : M unit :=
  modify (set_vms (fun m => <[v := f (m !!! v)]> m)).

Definition with_dirty (b : bool) (W : watcher) : watcher :=
  Watcher (w_vm W) (w_expression W) (w_cb W) (w_deep W) (w_user W) (w_computed W)
    (w_sync W) b (w_active W) (w_dep W) (w_deps W) (w_newDeps W) (w_depIds W)
    (w_newDepIds W) (w_before W) (w_getter W) (w_value W).
Definition with_active (b : bool) (W : watcher) : watcher :=
  Watcher (w_vm W) (w_expression W) (w_cb W) (w_deep W) (w_user W) (w_computed W)
    (w_sync W) (w_dirty W) b (w_dep W) (w_deps W) (w_newDeps W) (w_depIds W)
    (w_newDepIds W) (w_before W) (w_getter W) (w_value W).
Definition with_value (v : jsval) (W : watcher) : watcher :=
  Watcher (w_vm W) (w_expression W) (w_cb W) (w_deep W) (w_user W) (w_computed W)
    (w_sync W) (w_dirty W) (w_active W) (w_dep W) (w_deps W) (w_newDeps W) (w_depIds W)
    (w_newDepIds W) (w_before W) (w_getter W) v.
Definition with_dep (d : option nat) (W : watcher) : watcher :=
  Watcher (w_vm W) (w_expression W) (w_cb W) (w_deep W) (w_user W) (w_computed W)
    (w_sync W) (w_dirty W) (w_active W) d (w_deps W) (w_newDeps W) (w_depIds W)
    (w_newDepIds W) (w_before W) (w_getter W) (w_value W).
Definition with_depsets (deps newDeps : list nat) (depIds newDepIds : gset nat)
    (W : watcher) : watcher :=
  Watcher (w_vm W) (w_expression W) (w_cb W) (w_deep W) (w_user W) (w_computed W)
    (w_sync W) (w_dirty W) (w_active W) (w_dep W) deps newDeps depIds
    newDepIds (w_before W) (w_getter W) (w_value W).

(** ** dep.js *)

(** [new Dep()]: [this.id = uid++; this.subs = []]. *)
Definition new_Dep : M nat :=
  d <- gets dep_uid ;;
  modify (set_dep_uid (S d)) ;;
  modify (set_subs (fun m => <[d := []]> m)) ;;
  ret d.

Definition Dep_addSub (d sub : nat) : M unit :=
  modify (set_subs (fun m => <[d := (m !!! d) ++ [sub]]> m)).

Definition Dep_removeSub (d sub : nat) : M unit :=
  modify (set_subs (fun m => <[d := remove sub (m !!! d)]> m)).

(** The top of [targetStack] is the head of the list. *)
Definition pushTarget (_target : option nat) : M unit :=
  t <- gets target ;;
  match t with
  | Some a => modify (fun s => set_targetStack (a :: targetStack s) s)
  | None => ret tt
  end ;;
  modify (set_target _target).

Definition popTarget : M unit :=
  st <- gets targetStack ;;
  match st with
  | a :: rest => modify (set_targetStack rest) ;; modify (set_target (Some a))
  | [] => modify (set_target None)
  end.

(** ** scheduler.js, first half *)

Definition MAX_UPDATE_COUNT : nat := 100.

(** The [while] loop of [queueWatcher]; the loop variable [i] of the source
    is [p - 1], so that the result is the splice position [i + 1] (in the
    source [i] is [-1] for an empty queue). *)
Fixpoint splice_position (q : list nat) (index id : nat) (p : nat) : nat :=
  match p with
  | O => O
  | S i => if (index <? i) && (id <? q !!! i)
           then splice_position q index id i
           else S i
  end.

(** [queue.splice(p, 0, w)] *)
Definition splice_in (p : nat) (w : nat) (q : list nat) : list nat :=
  take p q ++ w :: drop p q.

(** The presence map [has] holds [true] for the identities in the set;
    [has[id] = null] removes the identity (the source only ever tests
    [has[id] == null]). *)
Definition queueWatcher (w : nat) : M unit :=
  let id := w in
  h <- gets has ;;
  if bool_decide (id ∈ h) then ret tt
  else
    modify (set_has ({[id]} ∪ h)) ;;
    fl <- gets flushing ;;
    (if negb fl then
       modify (fun s => set_queue (queue s ++ [w]) s)
     else
       modify (fun s =>
         set_queue (splice_in (splice_position (queue s) (index s) id
                                 (length (queue s))) w (queue s)) s)) ;;
    wt <- gets waiting ;;
    if negb wt then
      modify (set_waiting true) ;;
      nextTick_flushSchedulerQueue
    else ret tt.

(** ** watcher.js *)

Section Watcher.
Variable R : Rec.

Definition Watcher_addDep (w dep : nat) : M unit :=
  let id := dep in
  W <- the_watcher w ;;
  if negb (bool_decide (id ∈ w_newDepIds W)) then
    upd_watcher w (fun W => with_depsets (w_deps W) (w_newDeps W ++ [dep])
                              (w_depIds W) ({[id]} ∪ w_newDepIds W) W) ;;
    if negb (bool_decide (id ∈ w_depIds W)) then Dep_addSub dep w
    else ret tt
  else ret tt.

Definition Watcher_cleanupDeps (w : nat) : M unit :=
  W <- the_watcher w ;;
  for_each_rev (w_deps W) (fun dep =>
    W <- the_watcher w ;;
    if negb (bool_decide (dep ∈ w_newDepIds W)) then Dep_removeSub dep w
    else ret tt) ;;
  upd_watcher w (fun W => with_depsets (w_newDeps W) [] (w_newDepIds W) ∅ W).

Definition Dep_depend (d : nat) : M unit :=
  t <- gets target ;;
  match t with
  | Some w => Watcher_addDep w d
  | None => ret tt
  end.

Definition Watcher_get (w : nat) : M jsval :=
  pushTarget (Some w) ;;
  W <- the_watcher w ;;
  let vm := w_vm W in
  try_finally VUndef
    (try_catch
       (r_call R (w_getter W) (VRef vm) [VRef vm])
       (fun e =>
          W <- the_watcher w ;;
          if w_user W then
            handleError e vm
              ("getter for watcher " +:+ quote +:+ w_expression W +:+ quote) ;;
            ret VUndef
          else throw e))
    (fun value =>
       W <- the_watcher w ;;
       when (w_deep W) (r_traverse R value) ;;
       popTarget ;;
       Watcher_cleanupDeps w).

Definition Watcher_getAndInvoke (w : nat) (cb : jsval -> list jsval -> M jsval)
    : M unit :=
  value <- Watcher_get w ;;
  W <- the_watcher w ;;
  if negb (strict_eq value (w_value W)) || isObject value || w_deep W then
    let oldValue := w_value W in
    upd_watcher w (with_value value) ;;
    upd_watcher w (with_dirty false) ;;
    W <- the_watcher w ;;
    if w_user W then
      try_catch
        (cb (VRef (w_vm W)) [value; oldValue] ;; ret tt)
        (fun e =>
           W <- the_watcher w ;;
           handleError e (w_vm W)
             ("callback for watcher " +:+ quote +:+ w_expression W +:+ quote))
    else
      cb (VRef (w_vm W)) [value; oldValue] ;; ret tt
  else ret tt.

Definition Watcher_run (w : nat) : M unit :=
  W <- the_watcher w ;;
  if w_active W then
    Watcher_getAndInvoke w (fun this args => r_call R (w_cb W) this args)
  else ret tt.

Definition Watcher_update (w : nat) : M unit :=
  W <- the_watcher w ;;
  if w_computed W then
    match w_dep W with
    | None => throw TypeError
    | Some d =>
        l <- the_subs d ;;
        if length l =? 0 then
          upd_watcher w (with_dirty true)
        else
          Watcher_getAndInvoke w (fun _ _ => r_notify R d ;; ret VUndef)
    end
  else if w_sync W then
    Watcher_run w
  else
    queueWatcher w.

Definition Watcher_evaluate (w : nat) : M jsval :=
  W <- the_watcher w ;;
  (if w_dirty W then
     v <- Watcher_get w ;;
     upd_watcher w (with_value v) ;;
     upd_watcher w (with_dirty false)
   else ret tt) ;;
  W <- the_watcher w ;;
  ret (w_value W).

Definition Watcher_depend (w : nat) : M unit :=
  W <- the_watcher w ;;
  t <- gets target ;;
  match w_dep W, t with
  | Some d, Some _ => Dep_depend d
  | _, _ => ret tt
  end.

Definition Watcher_teardown (w : nat) : M unit :=
  W <- the_watcher w ;;
  if w_active W then
    V <- the_vm (w_vm W) ;;
    (if negb (vm_isBeingDestroyed V) then
       upd_vm (w_vm W) (fun V => Component (vm_watcher V) (remove w (vm_watchers V))
                                   (vm_isMounted V) (vm_isBeingDestroyed V)
                                   (vm_inactive V))
     else ret tt) ;;
    for_each_rev (w_deps W) (fun dep => Dep_removeSub dep w) ;;
    upd_watcher w (with_active false)
  else ret tt.

Definition Dep_notify (d : nat) : M unit :=
  subs <- the_subs d ;;
  for_each subs (fun sub => Watcher_update sub).

End Watcher.

(** ** The object model of the platform

    Own properties with their descriptors; array elements are data
    properties, a hole reads as [undefined].  The prototype chain is
    [Object.prototype], preceded by [Array.prototype] for arrays. *)

Fixpoint assoc_get (k : pkey) (l : list (pkey * prop)) : option prop :=
  match l with
  | [] => None
  | (k', p) :: r => if decide (k' = k) then Some p else assoc_get k r
  end.

Fixpoint assoc_put (k : pkey) (p : prop) (l : list (pkey * prop)) : list (pkey * prop) :=
  match l with
  | [] => [(k, p)]
  | (k', p') :: r => if decide (k' = k) then (k, p) :: r else (k', p') :: assoc_put k p r
  end.

Definition with_elems (l : list jsval) (o : object) : object :=
  Object (o_isArray o) l (o_props o) (o_ob o) (o_intercepted o) (o_extensible o)
    (o_plain o) (o_isVue o) (o_isVNode o).
Definition with_props (l : list (pkey * prop)) (o : object) : object :=
  Object (o_isArray o) (o_elems o) l (o_ob o) (o_intercepted o) (o_extensible o)
    (o_plain o) (o_isVue o) (o_isVNode o).
Definition with_ob (ob : option nat) (o : object) : object :=
  Object (o_isArray o) (o_elems o) (o_props o) ob (o_intercepted o) (o_extensible o)
    (o_plain o) (o_isVue o) (o_isVNode o).
Definition with_intercepted (b : bool) (o : object) : object :=
  Object (o_isArray o) (o_elems o) (o_props o) (o_ob o) b (o_extensible o)
    (o_plain o) (o_isVue o) (o_isVNode o).

(** [Object.getOwnPropertyDescriptor (o, k)] *)
Definition own_prop (k : pkey) (o : object) : option prop :=
  match assoc_get k (o_props o) with
  | Some p => Some p
  | None =>
      match k with
      | KNum z =>
          if o_isArray o && (0 <=? z)%Z
          then (fun v => MkProp (Data v) true true) <$> (o_elems o !! Z.to_nat z)
          else None
      | KName _ => None
      end
  end.

Definition Object_prototype_keys : list string :=
  ["constructor"; "hasOwnProperty"; "isPrototypeOf"; "propertyIsEnumerable";
   "toLocaleString"; "toString"; "valueOf"; "__proto__"; "__defineGetter__";
   "__defineSetter__"; "__lookupGetter__"; "__lookupSetter__"].

Definition Array_prototype_keys : list string :=
  ["length"; "push"; "pop"; "shift"; "unshift"; "splice"; "sort"; "reverse";
   "concat"; "join"; "slice"; "indexOf"; "lastIndexOf"; "forEach"; "map";
   "filter"; "reduce"; "reduceRight"; "some"; "every"; "find"; "findIndex";
   "fill"; "includes"; "keys"; "values"; "entries"; "copyWithin"].

(** [key in Object.prototype] *)
Definition in_Object_prototype (k : pkey) : bool :=
  match k with
  | KName s => bool_decide (s ∈ Object_prototype_keys)
  | KNum _ => false
  end.

(** [key in target], for an object [o] *)
Definition key_in (k : pkey) (o : object) : bool :=
  match own_prop k o with
  | Some _ => true
  | None =>
      in_Object_prototype k ||
      match k with
      | KName s => (o_isArray o && bool_decide (s ∈ Array_prototype_keys))
                   || (bool_decide (s = "__ob__") && bool_decide (is_Some (o_ob o)))
      | KNum _ => false
      end
  end.

(** [arr.length = n] *)
Definition set_length (n : nat) (l : list jsval) : list jsval :=
  take n l ++ replicate (n - length l) VUndef.

(** [arr[i] = v] *)
Definition set_elem (i : nat) (v : jsval) (l : list jsval) : list jsval :=
  if i <? length l then <[i := v]> l
  else l ++ replicate (i - length l) VUndef ++ [v].

(** [ToInteger]; strings that spell numbers are not modelled. *)
Definition to_integer (v : jsval) : Z :=
  match v with
  | VNum z => z
  | VBool true => 1%Z
  | _ => 0%Z
  end.

Definition alloc_object (o : object) : M nat :=
  r <- gets next_ref ;;
  modify (set_next_ref (S r)) ;;
  modify (set_heap (fun m => <[r := o]> m)) ;;
  ret r.

Definition plain_object (props : list (pkey * prop)) : object :=
  Object false [] props None false true true false false.
Definition plain_array (elems : list jsval) : object :=
  Object true elems [] None false true false false false.
Definition data_prop (v : jsval) : prop := MkProp (Data v) true true.

Section Platform.
Variable env : Env.
Variable R : Rec.

(** The expression [o[k]]. *)
Definition js_get (o : jsval) (k : pkey) : M jsval :=
  match o with
  | VRef r =>
      obj <- the_object r ;;
      match own_prop k obj with
      | Some (MkProp (Data v) _ _) => ret v
      | Some (MkProp (Accessor (Some g) _) _ _) => r_call R g o []
      | Some (MkProp (Accessor None _) _ _) => ret VUndef
      | None =>
          if o_isArray obj && bool_decide (k = KName "length")
          then ret (VNum (Z.of_nat (length (o_elems obj))))
          else ret VUndef
      end
  | VUndef | VNull => throw TypeError
  | _ => ret VUndef
  end.

(** The statement [o[k] = v] of strict code. *)
Definition js_put (o : jsval) (k : pkey) (v : jsval) : M unit :=
  match o with
  | VRef r =>
      obj <- the_object r ;;
      match assoc_get k (o_props obj) with
      | Some (MkProp (Data _) e c) =>
          upd_object r (fun obj =>
            with_props (assoc_put k (MkProp (Data v) e c) (o_props obj)) obj)
      | Some (MkProp (Accessor _ (Some st)) _ _) => r_call R st o [v] ;; ret tt
      | Some (MkProp (Accessor _ None) _ _) => throw TypeError
      | None =>
          match k with
          | KNum z =>
              if o_isArray obj && (0 <=? z)%Z then
                if (Z.to_nat z <? length (o_elems obj)) || o_extensible obj
                then upd_object r (fun obj =>
                       with_elems (set_elem (Z.to_nat z) v (o_elems obj)) obj)
                else throw TypeError
              else if o_extensible obj
              then upd_object r (fun obj =>
                     with_props (assoc_put k (data_prop v) (o_props obj)) obj)
              else throw TypeError
          | KName s =>
              if o_isArray obj && bool_decide (s = "length") then
                upd_object r (fun obj =>
                  with_elems (set_length (Z.to_nat (to_integer v)) (o_elems obj)) obj)
              else if o_extensible obj
              then upd_object r (fun obj =>
                     with_props (assoc_put k (data_prop v) (o_props obj)) obj)
              else throw TypeError
          end
      end
  | VUndef | VNull => throw TypeError
  | _ => ret tt
  end.

(** The methods of [Array.prototype] that array.js caches as [original],
    applied to the array [r].  A method that has to create an element
    beyond the end of an array that is not extensible throws a
    [TypeError] at the first such element: [push] and [unshift] with at
    least one argument before anything has changed; [splice] with more
    items than deleted elements after the array of the deleted elements
    has been made, at once when elements behind them would have to move
    up, and otherwise when the items that replace the deleted elements
    have been stored. *)
Definition original (m : method) (r : nat) (args : list jsval) : M jsval :=
  obj <- the_object r ;;
  let l := o_elems obj in
  match m with
  | Mpush =>
      if (0 <? length args) && negb (o_extensible obj) then throw TypeError
      else
        upd_object r (with_elems (l ++ args)) ;;
        ret (VNum (Z.of_nat (length (l ++ args))))
  | Mpop =>
      match reverse l with
      | [] => ret VUndef
      | x :: _ => upd_object r (with_elems (removelast l)) ;; ret x
      end
  | Mshift =>
      match l with
      | [] => ret VUndef
      | x :: rest => upd_object r (with_elems rest) ;; ret x
      end
  | Munshift =>
      if (0 <? length args) && negb (o_extensible obj) then throw TypeError
      else
        upd_object r (with_elems (args ++ l)) ;;
        ret (VNum (Z.of_nat (length (args ++ l))))
  | Msplice =>
      let len := Z.of_nat (length l) in
      match args with
      | [] => removed <- alloc_object (plain_array []) ;; ret (VRef removed)
      | start :: rest =>
          let rs := to_integer start in
          let st := Z.to_nat (if (rs <? 0)%Z then Z.max (len + rs) 0 else Z.min rs len) in
          let dc := match rest with
                    | [] => length l - st
                    | c :: _ => Z.to_nat (Z.min (Z.max (to_integer c) 0)
                                                (len - Z.of_nat st))
                    end in
          let items := drop 1 rest in
          if (dc <? length items) && negb (o_extensible obj) then
            removed <- alloc_object (plain_array (take dc (drop st l))) ;;
            (if st + dc <? length l then ret tt
             else upd_object r (with_elems (take st l ++ take dc items))) ;;
            throw TypeError
          else
            upd_object r (with_elems (take st l ++ items ++ drop (st + dc) l)) ;;
            removed <- alloc_object (plain_array (take dc (drop st l))) ;;
            ret (VRef removed)
      end
  | Msort =>
      upd_object r (with_elems (nativeSort env args l)) ;;
      ret (VRef r)
  | Mreverse =>
      upd_object r (with_elems (reverse l)) ;;
      ret (VRef r)
  end.

End Platform.

(** ** observer/index.js and observer/array.js *)

Definition with_vmCount (n : nat) (O : observer) : observer :=
  Observer (ob_value O) (ob_dep O) n.
Definition with_val (v : jsval) (C : cell) : cell :=
  Cell (c_obj C) (c_dep C) v (c_childOb C) (c_shallow C) (c_getter C) (c_setter C)
    (c_customSetter C).
Definition with_childOb (ob : option nat) (C : cell) : cell :=
  Cell (c_obj C) (c_dep C) (c_val C) ob (c_shallow C) (c_getter C) (c_setter C)
    (c_customSetter C).

Definition alloc_cell (C : cell) : M nat :=
  c <- gets next_cell ;;
  modify (set_next_cell (S c)) ;;
  modify (set_cells (fun m => <[c := C]> m)) ;;
  ret c.

Definition alloc_observer (O : observer) : M nat :=
  o <- gets next_ob ;;
  modify (set_next_ob (S o)) ;;
  modify (set_observers (fun m => <[o := O]> m)) ;;
  ret o.

Definition toggleObserving (value : bool) : M unit :=
  modify (set_shouldObserve value).

(** util [isUndef] and [isPrimitive] *)
Definition isUndef (v : jsval) : bool :=
  match v with VUndef | VNull => true | _ => false end.
Definition isPrimitive (v : jsval) : bool :=
  match v with VStr _ | VNum _ | VNaN | VBool _ => true | _ => false end.

(** Modelled from the spec: util [isValidArrayIndex] accepts exactly the
    valid non-negative integer indices. *)
Definition isValidArrayIndex (k : pkey) : bool :=
  match k with
  | KNum z => (0 <=? z)%Z
  | KName _ => false
  end.

(** [Array.isArray (v)] *)
Definition isArray (v : jsval) : M bool :=
  match v with
  | VRef r => obj <- the_object r ;; ret (o_isArray obj)
  | _ => ret false
  end.

(** Whether [Object.defineProperty (o, k, desc)] with a configurable
    descriptor succeeds: a property that exists has to be configurable,
    one that does not needs an extensible object. *)
Definition definable (k : pkey) (o : object) : bool :=
  match own_prop k o with
  | Some p => p_configurable p
  | None => o_extensible o
  end.

(** [Object.keys (obj)] *)
Definition Object_keys (o : object) : list pkey :=
  (if o_isArray o then (fun i => KNum (Z.of_nat i)) <$> seq 0 (length (o_elems o))
   else []) ++
  (fst <$> filter (fun kp => p_enumerable (snd kp) = true) (o_props o)).

Section Observer.
Variable env : Env.
Variable R : Rec.

Definition observeArray (items : list jsval) : M unit :=
  for_each items (fun item => r_observe R item false ;; ret tt).

(** [val] is [None] when the call has two arguments only.  The call of
    [Object.defineProperty] at the end throws a [TypeError] when [obj]
    cannot take the property ([definable]); the cell, which stands for
    the closure of the accessor pair, exists once the property does. *)
Definition defineReactive (obj : nat) (key : pkey) (val : option jsval)
    (customSetter : option fn) (shallow : bool) : M unit :=
  dep <- new_Dep ;;
  o <- the_object obj ;;
  let property := own_prop key o in
  match property with
  | Some (MkProp _ _ false) => ret tt
  | _ =>
      let getter := match property with
                    | Some (MkProp (Accessor g _) _ _) => g
                    | _ => None
                    end in
      let setter := match property with
                    | Some (MkProp (Accessor _ st) _ _) => st
                    | _ => None
                    end in
      val <- (match val with
              | None =>
                  if negb (bool_decide (is_Some getter)) || bool_decide (is_Some setter)
                  then js_get R (VRef obj) key
                  else ret VUndef
              | Some v => ret v
              end) ;;
      childOb <- (if negb shallow then r_observe R val false else ret None) ;;
      o' <- the_object obj ;;
      if definable key o' then
        c <- alloc_cell (Cell obj dep val childOb shallow getter setter customSetter) ;;
        upd_object obj (fun o =>
          with_props (assoc_put key
            (MkProp (Accessor (Some (FReactiveGetter c)) (Some (FReactiveSetter c)))
                    true true) (o_props o)) o)
      else throw TypeError
  end.

Definition walk (obj : nat) : M unit :=
  o <- the_object obj ;;
  for_each (Object_keys o) (fun key => defineReactive obj key None None false).

(** [new Observer (value)]; both [protoAugment] and [copyAugment] make
    the seven methods of this one array the intercepted ones. *)
Definition new_Observer (value : nat) : M nat :=
  dep <- new_Dep ;;
  ob <- alloc_observer (Observer value dep 0) ;;
  upd_object value (with_ob (Some ob)) ;;
  o <- the_object value ;;
  (if o_isArray o then
     upd_object value (with_intercepted true) ;;
     observeArray (o_elems o)
   else
     walk value) ;;
  ret ob.

Definition observe (value : jsval) (asRootData : bool) : M (option nat) :=
  match value with
  | VRef r =>
      o <- the_object r ;;
      if o_isVNode o then ret None
      else
        ob <- (match o_ob o with
               | Some ob => ret (Some ob)
               | None =>
                   so <- gets shouldObserve ;;
                   if so && negb (serverRendering env) &&
                      (o_isArray o || o_plain o) && o_extensible o &&
                      negb (o_isVue o)
                   then ob <- new_Observer r ;; ret (Some ob)
                   else ret None
               end) ;;
        match ob with
        | Some b =>
            (if asRootData
             then upd_observer b (fun O => with_vmCount (S (ob_vmCount O)) O)
             else ret tt) ;;
            ret ob
        | None => ret ob
        end
  | _ => ret None
  end.

Definition dependArray (value : jsval) : M unit :=
  match value with
  | VRef r =>
      o <- the_object r ;;
      for_each (o_elems o) (fun e =>
        (match e with
         | VRef er =>
             eo <- the_object er ;;
             match o_ob eo with
             | Some ob => O <- the_observer ob ;; Dep_depend (ob_dep O)
             | None => ret tt
             end
         | _ => ret tt
         end) ;;
        isA <- isArray e ;;
        if isA then r_dependArray R e else ret tt)
  | _ => ret tt
  end.

Definition reactiveGetter (c : nat) : M jsval :=
  C <- the_cell c ;;
  value <- (match c_getter C with
            | Some getter => r_call R getter (VRef (c_obj C)) []
            | None => ret (c_val C)
            end) ;;
  t <- gets target ;;
  (match t with
   | Some _ =>
       Dep_depend (c_dep C) ;;
       C <- the_cell c ;;
       match c_childOb C with
       | Some childOb =>
           O <- the_observer childOb ;;
           Dep_depend (ob_dep O) ;;
           isA <- isArray value ;;
           if isA then dependArray value else ret tt
       | None => ret tt
       end
   | None => ret tt
   end) ;;
  ret value.

Definition reactiveSetter (c : nat) (newVal : jsval) : M unit :=
  C <- the_cell c ;;
  value <- (match c_getter C with
            | Some getter => r_call R getter (VRef (c_obj C)) []
            | None => ret (c_val C)
            end) ;;
  if strict_eq newVal value ||
     (negb (strict_eq newVal newVal) && negb (strict_eq value value))
  then ret tt
  else
    (match c_customSetter C with
     | Some customSetter =>
         if negb (production env)
         then r_call R customSetter VUndef [] ;; ret tt
         else ret tt
     | None => ret tt
     end) ;;
    (match c_setter C with
     | Some setter => r_call R setter (VRef (c_obj C)) [newVal] ;; ret tt
     | None => upd_cell c (with_val newVal)
     end) ;;
    childOb <- (if negb (c_shallow C) then r_observe R newVal false else ret None) ;;
    upd_cell c (with_childOb childOb) ;;
    r_notify R (c_dep C).

(** array.js: the function installed for [method] on [arrayMethods]. *)
Definition mutator (method : method) (this : nat) (args : list jsval) : M jsval :=
  result <- original env method this args ;;
  o <- the_object this ;;
  let inserted := match method with
                  | Mpush | Munshift => Some args
                  | Msplice => Some (drop 2 args)
                  | _ => None
                  end in
  match o_ob o with
  | None => throw TypeError
  | Some ob =>
      (match inserted with
       | Some inserted => observeArray inserted
       | None => ret tt
       end) ;;
      O <- the_observer ob ;;
      r_notify R (ob_dep O) ;;
      ret result
  end.

(** The call [a.method (...args)]. *)
Definition invoke (a : jsval) (m : method) (args : list jsval) : M jsval :=
  match a with
  | VRef r =>
      o <- the_object r ;;
      if o_isArray o then
        if o_intercepted o then mutator m r args else original env m r args
      else throw TypeError
  | _ => throw TypeError
  end.

Definition set (target : jsval) (key : pkey) (val : jsval) : M jsval :=
  (if negb (production env) && (isUndef target || isPrimitive target)
   then warn WSetOnPrimitive None else ret tt) ;;
  isA <- isArray target ;;
  if isA && isValidArrayIndex key then
    match target, key with
    | VRef r, KNum z =>
        upd_object r (fun o =>
          with_elems (set_length (Nat.max (length (o_elems o)) (Z.to_nat z))
                        (o_elems o)) o) ;;
        invoke target Msplice [VNum z; VNum 1; val] ;;
        ret val
    | _, _ => ret val
    end
  else
    match target with
    | VRef r =>
        o <- the_object r ;;
        if key_in key o && negb (in_Object_prototype key) then
          js_put R target key val ;;
          ret val
        else
          vmCount <- (match o_ob o with
                      | Some ob => O <- the_observer ob ;; ret (ob_vmCount O)
                      | None => ret 0
                      end) ;;
          if o_isVue o || negb (vmCount =? 0) then
            (if negb (production env) then warn WAvoidAddingReactive None
             else ret tt) ;;
            ret val
          else
            match o_ob o with
            | None => js_put R target key val ;; ret val
            | Some ob =>
                O <- the_observer ob ;;
                defineReactive (ob_value O) key (Some val) None false ;;
                r_notify R (ob_dep O) ;;
                ret val
            end
    | _ => throw TypeError
    end.

End Observer.

(** ** instance/state.js *)

Section StateJs.
Variable R : Rec.

Definition getData (data : fn) (vm : nat) : M jsval :=
  pushTarget None ;;
  try_finally VUndef
    (try_catch
       (r_call R data (VRef vm) [VRef vm])
       (fun e =>
          handleError e vm "data()" ;;
          r <- alloc_object (plain_object []) ;;
          ret (VRef r)))
    (fun _ => popTarget).

(** The function returned by [createComputedGetter], for the computed
    watcher [w] found in [this._computedWatchers]. *)
Definition computedGetter (w : nat) : M jsval :=
  Watcher_depend w ;;
  Watcher_evaluate R w.

(** Modelled from the spec: [traverse] (observer/traverse.js is not part
    of the sources) walks the value structurally, recursing into every
    reachable object or array property, purely to force reads. *)
Definition traverse (val : jsval) : M unit :=
  match val with
  | VRef r =>
      o <- the_object r ;;
      for_each_rev (Object_keys o) (fun key =>
        v <- js_get R val key ;;
        r_traverse R v)
  | _ => ret tt
  end.

End StateJs.

(** ** watcher.js: the constructor *)

Record options := Options {
  opt_deep : bool;
  opt_user : bool;
  opt_computed : bool;
  opt_sync : bool;
  opt_before : option fn
}.

Section Constructor.
Variable env : Env.
Variable R : Rec.

(** [expOrFn] is a function; [text] is [expOrFn.toString ()]. *)
Definition new_Watcher (vm : nat) (expOrFn : fn) (text : string) (cb : fn)
    (opts : option options) (isRenderWatcher : bool) : M nat :=
  uid <- gets watcher_uid ;;
  let this := S uid in
  (if isRenderWatcher
   then upd_vm vm (fun V => Component (Some this) (vm_watchers V) (vm_isMounted V)
                              (vm_isBeingDestroyed V) (vm_inactive V))
   else ret tt) ;;
  upd_vm vm (fun V => Component (vm_watcher V) (vm_watchers V ++ [this])
                        (vm_isMounted V) (vm_isBeingDestroyed V) (vm_inactive V)) ;;
  let o := default (Options false false false false None) opts in
  modify (set_watcher_uid this) ;;
  modify (set_watchers (fun m =>
    <[this := Watcher vm (if production env then EmptyString else text) cb
                (opt_deep o) (opt_user o) (opt_computed o) (opt_sync o)
                (opt_computed o) true None [] [] ∅ ∅ (opt_before o) expOrFn
                VUndef]> m)) ;;
  (if opt_computed o then
     upd_watcher this (with_value VUndef) ;;
     d <- new_Dep ;;
     upd_watcher this (with_dep (Some d))
   else
     v <- Watcher_get R this ;;
     upd_watcher this (with_value v)) ;;
  ret this.

End Constructor.

(** ** scheduler.js, second half *)

(** [queue.sort((a, b) => a.id - b.id)] *)
Definition sort_queue (q : list nat) : list nat := merge_sort (≤) q.

Section Scheduler.
Variable env : Env.
Variable R : Rec.

Definition resetSchedulerState : M unit :=
  modify (set_index 0) ;;
  modify (set_queue []) ;;
  modify (set_activatedChildren []) ;;
  modify (set_has ∅) ;;
  (if negb (production env) then modify (set_circular ∅) else ret tt) ;;
  modify (set_waiting false) ;;
  modify (set_flushing false).

(** Modelled from the spec: [callHook] and [activateChildComponent]
    (instance/lifecycle.js) notify the collaborators. *)
Definition callHook (vm : nat) (hook : string) : M unit :=
  modify (emit (ECallHook vm hook)).
Definition activateChildComponent (vm : nat) : M unit :=
  modify (emit (EActivate vm)).

Definition callUpdatedHooks (queue : list nat) : M unit :=
  for_each_rev queue (fun watcher =>
    W <- the_watcher watcher ;;
    let vm := w_vm W in
    V <- the_vm vm ;;
    if bool_decide (vm_watcher V = Some watcher) && vm_isMounted V
    then callHook vm "updated"
    else ret tt).

Definition callActivatedHooks (queue : list nat) : M unit :=
  for_each queue (fun vm =>
    upd_vm vm (fun V => Component (vm_watcher V) (vm_watchers V) (vm_isMounted V)
                          (vm_isBeingDestroyed V) true) ;;
    activateChildComponent vm).

(** The body of the [for] loop of [flushSchedulerQueue] at the cursor
    [index]; the result is [false] on [break]. *)
Definition flush_step : M bool :=
  q <- gets queue ;;
  i <- gets index ;;
  let watcher := q !!! i in
  W <- the_watcher watcher ;;
  (match w_before W with
   | Some before => r_call R before VUndef [] ;; ret tt
   | None => ret tt
   end) ;;
  let id := watcher in
  modify (fun s => set_has (has s ∖ {[id]}) s) ;;
  Watcher_run R watcher ;;
  h <- gets has ;;
  if negb (production env) && bool_decide (id ∈ h) then
    c <- gets circular ;;
    let n := default 0 (c !! id) + 1 in
    modify (set_circular (<[id := n]> c)) ;;
    if MAX_UPDATE_COUNT <? n then
      W <- the_watcher watcher ;;
      warn (WInfiniteLoop (w_user W) (w_expression W)) (Some (w_vm W)) ;;
      ret false
    else ret true
  else ret true.

(** [for (...; index < queue.length; index++) body]; [fuel] bounds the
    number of iterations. *)
Fixpoint flush_loop (fuel : nat) : M unit :=
  match fuel with
  | O => fun _ => Diverge
  | S fuel' =>
      q <- gets queue ;;
      i <- gets index ;;
      if i <? length q then
        continue <- flush_step ;;
        if continue : bool then
          modify (fun s => set_index (S (index s)) s) ;;
          flush_loop fuel'
        else ret tt
      else ret tt
  end.

Definition flushSchedulerQueue (fuel : nat) : M unit :=
  modify (set_flushing true) ;;
  modify (fun s => set_queue (sort_queue (queue s)) s) ;;
  modify (set_index 0) ;;
  flush_loop fuel ;;
  activatedQueue <- gets activatedChildren ;;
  updatedQueue <- gets queue ;;
  resetSchedulerState ;;
  callActivatedHooks activatedQueue ;;
  callUpdatedHooks updatedQueue.

End Scheduler.

(** ** User programs and the interpreter *)

Section Exec.
Variable env : Env.
Variable R : Rec.

Fixpoint exec (c : code) (s : State) {struct c} : Res jsval :=
  match c with
  | Return v => Ok v s
  | Throw e => Exn e s
  | Get o k cont =>
      match js_get R o k s with
      | Ok v s1 => exec (cont v) s1
      | Exn e s1 => Exn e s1
      | Diverge => Diverge
      end
  | Put o k v cont =>
      match js_put R o k v s with
      | Ok _ s1 => exec cont s1
      | Exn e s1 => Exn e s1
      | Diverge => Diverge
      end
  | Computed w cont =>
      match computedGetter R w s with
      | Ok v s1 => exec (cont v) s1
      | Exn e s1 => Exn e s1
      | Diverge => Diverge
      end
  | Invoke a m args cont =>
      match invoke env R a m args s with
      | Ok v s1 => exec (cont v) s1
      | Exn e s1 => Exn e s1
      | Diverge => Diverge
      end
  | VueSet t k v cont =>
      match set env R t k v s with
      | Ok v s1 => exec (cont v) s1
      | Exn e s1 => Exn e s1
      | Diverge => Diverge
      end
  | Emit tag cont => exec cont (emit (EUser tag) s)
  end.

Definition call (f : fn) (this : jsval) (args : list jsval) : M jsval :=
  match f with
  | FUser i => exec (program env i this args)
  | FReactiveGetter c => reactiveGetter R c
  | FReactiveSetter c => reactiveSetter env R c (hd VUndef args) ;; ret VUndef
  end.

End Exec.

Definition bottom : Rec :=
  MkRec (fun _ _ _ _ => Diverge) (fun _ _ => Diverge) (fun _ _ _ => Diverge)
        (fun _ _ => Diverge) (fun _ _ => Diverge).

(** [interp env n] runs calls nested at most [n] deep. *)
Fixpoint interp (env : Env) (fuel : nat) : Rec :=
  match fuel with
  | O => bottom
  | S n =>
      let R := interp env n in
      MkRec (call env R) (Dep_notify R) (observe env R) (traverse R) (dependArray R)
  end.

(** ** Scenarios and invariants used in the statements *)

Definition push_pop (x : option nat) : M unit := pushTarget x ;; popTarget.

(** A page in which node 1 is being evaluated and a data factory has
    suspended recording with [pushTarget ()]. *)
Definition suspended_in_1 : State :=
  set_targetStack [1] empty_state.

(** The dependency lists of a node and its sets of identities agree. *)
Definition deps_consistent (W : watcher) : Prop :=
  (∀ d, d ∈ w_deps W ↔ d ∈ w_depIds W) ∧
  (∀ d, d ∈ w_newDeps W ↔ d ∈ w_newDepIds W).

(** A node subscribed to a Subject holds that Subject in its current or
    in its previous dependency set. *)
Definition subs_tracked (s : State) : Prop :=
  ∀ w d, w ∈ subs s !!! d →
         d ∈ w_depIds (watchers s !!! w) ∨ d ∈ w_newDepIds (watchers s !!! w).

(** A subscriber appears at most once per Subject. *)
Definition subs_nodup (s : State) : Prop :=
  ∀ d, NoDup (subs s !!! d).

Definition graph_ok (s : State) : Prop :=
  subs_nodup s ∧ subs_tracked s ∧ ∀ w, deps_consistent (watchers s !!! w).

(** The loop body of [cleanupDeps]. *)
Definition cleanup_body (w dep : nat) : M unit :=
  W <- the_watcher w ;;
  if negb (bool_decide (dep ∈ w_newDepIds W)) then Dep_removeSub dep w
  else ret tt.

(** Subject 0 has subscribers 1 and 2; node 1 read Subjects 0 and 3 in its
    previous evaluation and Subject 0 so far in the current one. *)
Definition graph_example : State :=
  set_subs (fun _ => <[0 := [1; 2]]> (<[3 := [1]]> ∅))
    (set_watchers (fun _ =>
       <[1 := with_depsets [0; 3] [0] {[0; 3]} {[0]} inhabitant]>
         (<[2 := with_depsets [0] [] {[0]} ∅ inhabitant]> ∅))
       empty_state).

(** The entries of the queue whose run has not started: all of them
    before the flush, those behind the cursor during it. *)
Definition unrun (s : State) : list nat :=
  if flushing s then drop (S (index s)) (queue s) else queue s.

(** Every entry that has not started to run carries its presence marker,
    and no identity waits twice. *)
Definition presence_ok (s : State) : Prop :=
  (∀ x, x ∈ unrun s → x ∈ has s) ∧ NoDup (unrun s).

(** A flush in progress: node 1 is running, nodes 3 and 5 wait. *)
Definition enqueue_example : State :=
  set_flushing true (set_queue [1; 3; 5] (set_has {[3; 5]} empty_state)).

(** The first statements of [flushSchedulerQueue], up to its loop. *)
Definition flush_prologue : M unit :=
  modify (set_flushing true) ;;
  modify (fun s => set_queue (sort_queue (queue s)) s) ;;
  modify (set_index 0).

(** A component instance. *)
Definition vm_object : object :=
  Object false [] [] None false true false true false.

(** *** A watch that rewrites its own dependency

    [data = { a: 1 }] with the user watch
    [vm.$watch (() => data.a, v => { data.a = v + 1 })],
    followed by the write [data.a = 2].  The component is object 0, the
    data object is object 1, the watch is node 1. *)
Definition increment (v : jsval) : jsval :=
  match v with
  | VNum z => VNum (z + 1)
  | _ => VNaN
  end.

Definition loop_program (i : nat) (this : jsval) (args : list jsval) : code :=
  match i with
  | 0 => Get (VRef 1) (KName "a") Return
  | 1 => Put (VRef 1) (KName "a") (increment (hd VUndef args)) (Return VUndef)
  | _ => Return VUndef
  end.

Definition loop_env (prod : bool) : Env :=
  MkEnv prod false loop_program (fun _ l => l).

Definition loop_setup (prod : bool) : M unit :=
  let env := loop_env prod in
  let R := interp env 20 in
  vm <- alloc_object vm_object ;;
  data <- alloc_object (plain_object [(KName "a", data_prop (VNum 1))]) ;;
  observe env R (VRef data) true ;;
  new_Watcher env R vm (FUser 0) "a" (FUser 1)
    (Some (Options false true false false None)) false ;;
  js_put R (VRef data) (KName "a") (VNum 2).

Definition state_of (r : Res unit) : State :=
  match r with
  | Ok _ s => s
  | Exn _ s => s
  | Diverge => empty_state
  end.

Definition loop_page (prod : bool) : State := state_of (loop_setup prod empty_state).

(** The equality rule of [reactiveSetter]: the write is dropped when
    [newVal === value || (newVal !== newVal && value !== value)]. *)
Definition setter_unchanged (newVal value : jsval) : bool :=
  strict_eq newVal value ||
  (negb (strict_eq newVal newVal) && negb (strict_eq value value)).

(** The test of [getAndInvoke]:
    [value !== this.value || isObject (value) || this.deep]. *)
Definition invoke_test (value old : jsval) (deep : bool) : bool :=
  negb (strict_eq value old) || isObject value || deep.

(** The state in which [getAndInvoke] calls its callback. *)
Definition store_value (w : nat) (value : jsval) (s : State) : State :=
  set_watchers (fun m => <[w := with_dirty false (m !!! w)]> m)
    (set_watchers (fun m => <[w := with_value value (m !!! w)]> m) s).

(** *** A computed property whose value is an object

    [data = { n: 1, o: {} }], the computed property
    [c () { data.n; return data.o }] (node 1) and a render function that
    reads [c] (node 2).  The component is object 0, the inner object is
    object 1, the data object is object 2. *)
Definition computed_program (i : nat) (this : jsval) (args : list jsval) : code :=
  match i with
  | 0 => Get (VRef 2) (KName "n") (fun _ => Get (VRef 2) (KName "o") Return)
  | 1 => Computed 1 Return
  | _ => Return VUndef
  end.

Definition computed_env : Env :=
  MkEnv false false computed_program (fun _ l => l).

Definition computed_setup : M unit :=
  let env := computed_env in
  let R := interp env 20 in
  vm <- alloc_object vm_object ;;
  inner <- alloc_object (plain_object []) ;;
  data <- alloc_object (plain_object [(KName "n", data_prop (VNum 1));
                                      (KName "o", data_prop (VRef inner))]) ;;
  observe env R (VRef data) true ;;
  new_Watcher env R vm (FUser 0) "c" (FUser 2)
    (Some (Options false false true false None)) false ;;
  new_Watcher env R vm (FUser 1) "render" (FUser 2) None true ;;
  ret tt.

Definition computed_page : State := state_of (computed_setup empty_state).

(** The first statement of [reactiveGetter] and [reactiveSetter]:
    [const value = getter ? getter.call (obj) : val]. *)
Definition cell_read (R : Rec) (C : cell) : M jsval :=
  match c_getter C with
  | Some getter => r_call R getter (VRef (c_obj C)) []
  | None => ret (c_val C)
  end.

(** The three steps of [reactiveSetter] between the comparison and the
    notification. *)
Definition setter_custom (env : Env) (R : Rec) (C : cell) : M unit :=
  match c_customSetter C with
  | Some customSetter =>
      if negb (production env)
      then r_call R customSetter VUndef [] ;; ret tt
      else ret tt
  | None => ret tt
  end.

Definition setter_store (R : Rec) (c : nat) (C : cell) (newVal : jsval) : M unit :=
  match c_setter C with
  | Some setter => r_call R setter (VRef (c_obj C)) [newVal] ;; ret tt
  | None => upd_cell c (with_val newVal)
  end.

Definition setter_wrap (R : Rec) (C : cell) (newVal : jsval) : M (option nat) :=
  if negb (c_shallow C) then r_observe R newVal false else ret None.

(** *** A shallow reactive property

    [defineReactive (props, 'x', 0, null, true)] on the plain object 1,
    with a second plain object 2 at hand. *)
Definition shallow_env : Env :=
  MkEnv false false (fun _ _ _ => Return VUndef) (fun _ l => l).

Definition shallow_setup : M unit :=
  let env := shallow_env in
  let R := interp env 20 in
  alloc_object vm_object ;;
  props <- alloc_object (plain_object []) ;;
  alloc_object (plain_object []) ;;
  defineReactive R props (KName "x") (Some (VNum 0)) None true.

Definition shallow_page : State := state_of (shallow_setup empty_state).

(** The [catch] clause of [Watcher.get]. *)
Definition get_catch (w vm : nat) (e : jsval) : M jsval :=
  W <- the_watcher w ;;
  if w_user W then
    handleError e vm ("getter for watcher " +:+ quote +:+ w_expression W +:+ quote) ;;
    ret VUndef
  else throw e.

(** The [finally] clause of [Watcher.get]. *)
Definition get_finally (R : Rec) (w : nat) (value : jsval) : M unit :=
  W <- the_watcher w ;;
  when (w_deep W) (r_traverse R value) ;;
  popTarget ;;
  Watcher_cleanupDeps w.

(** [popTarget] as a function on states. *)
Definition popped (s : State) : State :=
  match targetStack s with
  | a :: rest => set_target (Some a) (set_targetStack rest s)
  | [] => set_target None s
  end.

(** The deep traversal of [get], when the node asks for one, returns. *)
Definition traversal_returns (R : Rec) (w : nat) (value : jsval) (s s' : State) : Prop :=
  if w_deep (watchers s !!! w) then r_traverse R value s = Ok tt s' else s' = s.

(** *** Watches that fail

    [data = { a: 1 }] and three watches on [data.a], created in this
    order: node 1, whose getter throws once [a] is no longer 1, which is
    a user watch iff [user1]; the user watch 2, whose callback throws;
    the user watch 3.  Then [data.a = 2]. *)
Definition failing_program (i : nat) (this : jsval) (args : list jsval) : code :=
  match i with
  | 0 => Get (VRef 1) (KName "a") (fun v =>
           if bool_decide (v = VNum 1) then Return v else Throw (VStr "boom"))
  | 1 => Emit (VStr "cb1") (Return VUndef)
  | 2 => Get (VRef 1) (KName "a") Return
  | 3 => Throw (VStr "bang")
  | 4 => Emit (VStr "cb3") (Return VUndef)
  | _ => Return VUndef
  end.

Definition failing_env : Env :=
  MkEnv false false failing_program (fun _ l => l).

Definition failing_setup (user1 : bool) : M unit :=
  let env := failing_env in
  let R := interp env 20 in
  vm <- alloc_object vm_object ;;
  data <- alloc_object (plain_object [(KName "a", data_prop (VNum 1))]) ;;
  observe env R (VRef data) true ;;
  new_Watcher env R vm (FUser 0) "w1" (FUser 1)
    (Some (Options false user1 false false None)) false ;;
  new_Watcher env R vm (FUser 2) "w2" (FUser 3)
    (Some (Options false true false false None)) false ;;
  new_Watcher env R vm (FUser 2) "w3" (FUser 4)
    (Some (Options false true false false None)) false ;;
  js_put R (VRef data) (KName "a") (VNum 2).

Definition failing_page (user1 : bool) : State :=
  state_of (failing_setup user1 empty_state).

(** [pushTarget] as a function on states. *)
Definition pushed (t : option nat) (s : State) : State :=
  set_target t
    match target s with
    | Some a => set_targetStack (a :: targetStack s) s
    | None => s
    end.

Definition getter_info (W : watcher) : string :=
  "getter for watcher " +:+ quote +:+ w_expression W +:+ quote.

Definition callback_info (W : watcher) : string :=
  "callback for watcher " +:+ quote +:+ w_expression W +:+ quote.

(** The state in which the getter of node [w] is called. *)
Definition getter_call (R : Rec) (w : nat) (s : State) : Res jsval :=
  let W := watchers s !!! w in
  r_call R (w_getter W) (VRef (w_vm W)) [VRef (w_vm W)] (pushed (Some w) s).

(** What [mutator] hands to [observeArray]: the arguments of [push] and
    [unshift], the arguments of [splice] from the third on. *)
Definition inserted_args (m : method) (args : list jsval) : option (list jsval) :=
  match m with
  | Mpush | Munshift => Some args
  | Msplice => Some (drop 2 args)
  | _ => None
  end.

Definition observe_inserted (R : Rec) (m : method) (args : list jsval) : M unit :=
  match inserted_args m args with
  | Some inserted => observeArray R inserted
  | None => ret tt
  end.

(** *** A wrapped array

    [data = { list: [1, 2, 3] }] with a render function that reads
    [data.list] (node 1).  The component is object 0, the array is
    object 1, the data object is object 2. *)
Definition array_program (i : nat) (this : jsval) (args : list jsval) : code :=
  match i with
  | 0 => Get (VRef 2) (KName "list") Return
  | _ => Return VUndef
  end.

Definition array_env : Env :=
  MkEnv false false array_program (fun _ l => l).

Definition array_setup : M unit :=
  let env := array_env in
  let R := interp env 20 in
  vm <- alloc_object vm_object ;;
  arr <- alloc_object (plain_array [VNum 1; VNum 2; VNum 3]) ;;
  data <- alloc_object (plain_object [(KName "list", data_prop (VRef arr))]) ;;
  observe env R (VRef data) true ;;
  new_Watcher env R vm (FUser 0) "render" (FUser 1) None true ;;
  ret tt.

Definition array_page : State := state_of (array_setup empty_state).

(** The statements of [set] for an array and a valid index, with the
    method that [target.splice] resolves to. *)
Definition set_array (splice : list jsval → M jsval) (r : nat) (z : Z) (val : jsval)
    : M jsval :=
  upd_object r (fun o =>
    with_elems (set_length (Nat.max (length (o_elems o)) (Z.to_nat z)) (o_elems o)) o) ;;
  splice [VNum z; VNum 1; val] ;;
  ret val.

(** The accessor pair that [defineReactive] installs for the cell [c]. *)
Definition reactive_prop (c : nat) : prop :=
  MkProp (Accessor (Some (FReactiveGetter c)) (Some (FReactiveSetter c))) true true.

(** The state after [defineReactive (obj, key, val)] for a key that [obj]
    does not have, once [observe (val)] has returned [childOb] in [s1];
    [dep] is the identity of the new Subject. *)
Definition installed (obj : nat) (key : pkey) (val : jsval) (dep : nat)
    (childOb : option nat) (s1 : State) : State :=
  set_heap (fun m =>
      <[obj := with_props (assoc_put key (reactive_prop (next_cell s1))
                             (o_props (m !!! obj))) (m !!! obj)]> m)
    (set_cells (fun m =>
        <[next_cell s1 := Cell obj dep val childOb false None None None]> m)
       (set_next_cell (S (next_cell s1)) s1)).

(** [vmCount] of the wrapper of an object, 0 without wrapper. *)
Definition vmCount_of (s : State) (o : object) : nat :=
  match o_ob o with
  | Some ob => ob_vmCount (observers s !!! ob)
  | None => 0
  end.

(** The state after [new Dep ()]. *)
Definition with_new_dep (s : State) : State :=
  set_subs (fun m => <[dep_uid s := []]> m) (set_dep_uid (S (dep_uid s)) s).

(** *** Properties of the state that calls preserve

    [keeps P m]: whenever [m] returns or throws, it does so in a state
    that satisfies [P] again. *)
Definition keeps (P : State → Prop) {A} (m : M A) : Prop :=
  ∀ s, P s → match m s with
             | Ok _ s' => P s'
             | Exn _ s' => P s'
             | Diverge => True
             end.

Definition Rec_keeps (P : State → Prop) (R : Rec) : Prop :=
  (∀ f this args, keeps P (r_call R f this args)) ∧
  (∀ d, keeps P (r_notify R d)) ∧
  (∀ v b, keeps P (r_observe R v b)) ∧
  (∀ v, keeps P (r_traverse R v)) ∧
  (∀ v, keeps P (r_dependArray R v)).

(** [P] does not look beyond the queue, the presence markers, the
    flushing flag and the cursor. *)
Definition scheduler_only (P : State → Prop) : Prop :=
  ∀ s s', queue s' = queue s → has s' = has s → flushing s' = flushing s →
          index s' = index s → P s → P s'.

Definition enqueue_stable (P : State → Prop) : Prop :=
  ∀ w s s', queueWatcher w s = Ok tt s' → P s → P s'.

(** Every entry point of [R] preserves every such property. *)
Definition passive (R : Rec) : Prop :=
  ∀ P, scheduler_only P → enqueue_stable P → Rec_keeps P R.

(** [hoare Pre m Post]: started in a state of [Pre], [m] can only return
    in a state of [Post]. *)
Definition hoare (Pre : State → Prop) {A} (m : M A) (Post : State → Prop) : Prop :=
  ∀ s, Pre s → match m s with
               | Ok _ s' => Post s'
               | _ => True
               end.

(** The body of the loop of [flushSchedulerQueue] for the node [watcher]
    found at the cursor. *)
Definition step_at (env : Env) (R : Rec) (watcher : nat) : M bool :=
  W <- the_watcher watcher ;;
  (match w_before W with
   | Some before => r_call R before VUndef [] ;; ret tt
   | None => ret tt
   end) ;;
  let id := watcher in
  modify (fun s => set_has (has s ∖ {[id]}) s) ;;
  Watcher_run R watcher ;;
  h <- gets has ;;
  if negb (production env) && bool_decide (id ∈ h) then
    c <- gets circular ;;
    let n := default 0 (c !! id) + 1 in
    modify (set_circular (<[id := n]> c)) ;;
    if MAX_UPDATE_COUNT <? n then
      W <- the_watcher watcher ;;
      warn (WInfiniteLoop (w_user W) (w_expression W)) (Some (w_vm W)) ;;
      ret false
    else ret true
  else ret true.

(** The state of the scheduler at the head of the loop: flushing, with
    the entries from the cursor on in strictly ascending order of
    identity and carrying their presence markers. *)
Definition head_ok (s : State) : Prop :=
  flushing s = true ∧
  StronglySorted (<) (drop (index s) (queue s)) ∧
  (∀ x, x ∈ drop (index s) (queue s) → x ∈ has s).

(** The state of the scheduler while the node at the cursor [i] is
    processed: the entries up to the cursor are [pre], those behind it
    ascend strictly and carry their markers; [held] is the node at the
    cursor as long as its own marker is still set. *)
Definition running_ok (i : nat) (pre base : list nat) (held : option nat)
    (s : State) : Prop :=
  flushing s = true ∧ index s = i ∧ i < length (queue s) ∧
  take (S i) (queue s) = pre ∧
  StronglySorted (<) (drop (S i) (queue s)) ∧
  (∀ x, x ∈ drop (S i) (queue s) → x ∈ has s) ∧
  sublist base (queue s) ∧
  (∀ c, held = Some c → c ∈ has s ∧ c ∉ drop (S i) (queue s)).

(** One completed iteration of the loop, from head to head. *)
Definition flush_next (env : Env) (R : Rec) (s s2 : State) : Prop :=
  index s < length (queue s) ∧
  ∃ s', flush_step env R s = Ok true s' ∧ s2 = set_index (S (index s')) s'.

(** *** Two watches invalidated together

    [data = { a: 1, b: 1 }]; the user watch 1 reads [a], the user watch 2
    reads [a] and [b]; each callback leaves a mark.  [order_page] is the
    page after the single write [data.a = 2], [order_page_ba] the page
    after [data.b = 2; data.a = 2], where node 2 was enqueued first. *)
Definition order_program (i : nat) (this : jsval) (args : list jsval) : code :=
  match i with
  | 0 => Get (VRef 1) (KName "a") Return
  | 1 => Emit (VStr "n1") (Return VUndef)
  | 2 => Get (VRef 1) (KName "a") (fun a =>
           Get (VRef 1) (KName "b") (fun _ => Return a))
  | 3 => Emit (VStr "n2") (Return VUndef)
  | _ => Return VUndef
  end.

Definition order_env : Env :=
  MkEnv false false order_program (fun _ l => l).

Definition order_setup (write_b : bool) : M unit :=
  let env := order_env in
  let R := interp env 20 in
  vm <- alloc_object vm_object ;;
  data <- alloc_object (plain_object [(KName "a", data_prop (VNum 1));
                                      (KName "b", data_prop (VNum 1))]) ;;
  observe env R (VRef data) true ;;
  new_Watcher env R vm (FUser 0) "a" (FUser 1)
    (Some (Options false true false false None)) false ;;
  new_Watcher env R vm (FUser 2) "a + b" (FUser 3)
    (Some (Options false true false false None)) false ;;
  (if write_b then js_put R (VRef data) (KName "b") (VNum 2) else ret tt) ;;
  js_put R (VRef data) (KName "a") (VNum 2).

Definition order_page : State := state_of (order_setup false empty_state).
Definition order_page_ba : State := state_of (order_setup true empty_state).

(** *** The check against circular updates

    The body of the loop of [flushSchedulerQueue] in two halves: the run
    of the node at the cursor, and the check that follows it. *)
Definition run_at (R : Rec) (watcher : nat) : M unit :=
  W <- the_watcher watcher ;;
  (match w_before W with
   | Some before => r_call R before VUndef [] ;; ret tt
   | None => ret tt
   end) ;;
  let id := watcher in
  modify (fun s => set_has (has s ∖ {[id]}) s) ;;
  Watcher_run R watcher.

Definition check_at (env : Env) (watcher : nat) : M bool :=
  let id := watcher in
  h <- gets has ;;
  if negb (production env) && bool_decide (id ∈ h) then
    c <- gets circular ;;
    let n := default 0 (c !! id) + 1 in
    modify (set_circular (<[id := n]> c)) ;;
    if MAX_UPDATE_COUNT <? n then
      W <- the_watcher watcher ;;
      warn (WInfiniteLoop (w_user W) (w_expression W)) (Some (w_vm W)) ;;
      ret false
    else ret true
  else ret true.

(** [circular[id] = (circular[id] || 0) + 1] *)
Definition count_up (id : nat) (s : State) : State :=
  set_circular (<[id := default 0 (circular s !! id) + 1]> (circular s)) s.

(** The diagnostic about the node [id]. *)
Definition diagnostic (id : nat) (s : State) : event :=
  EWarn (WInfiniteLoop (w_user (watchers s !!! id)) (w_expression (watchers s !!! id)))
        (Some (w_vm (watchers s !!! id))).

(** [k] iterations of the loop of [flushSchedulerQueue], as long as none
    of them breaks; the result tells whether the loop is still going. *)
Fixpoint flush_steps (env : Env) (R : Rec) (k : nat) : M bool :=
  match k with
  | O => ret true
  | S k' =>
      continue <- flush_step env R ;;
      if continue : bool then
        modify (fun s => set_index (S (index s)) s) ;;
        flush_steps env R k'
      else ret false
  end.

(** *** Two watches that invalidate each other

    [data = { a: 1, b: 1 }] with
    [vm.$watch (() => data.a, v => { data.b = v })] (node 1) and
    [vm.$watch (() => data.b, v => { data.a = v + 1 })] (node 2),
    followed by the write [data.a = 2]. *)
Definition pingpong_program (i : nat) (this : jsval) (args : list jsval) : code :=
  match i with
  | 0 => Get (VRef 1) (KName "a") Return
  | 1 => Put (VRef 1) (KName "b") (hd VUndef args) (Return VUndef)
  | 2 => Get (VRef 1) (KName "b") Return
  | 3 => Put (VRef 1) (KName "a") (increment (hd VUndef args)) (Return VUndef)
  | _ => Return VUndef
  end.

Definition pingpong_env : Env :=
  MkEnv false false pingpong_program (fun _ l => l).

Definition pingpong_setup : M unit :=
  let env := pingpong_env in
  let R := interp env 20 in
  vm <- alloc_object vm_object ;;
  data <- alloc_object (plain_object [(KName "a", data_prop (VNum 1));
                                      (KName "b", data_prop (VNum 1))]) ;;
  observe env R (VRef data) true ;;
  new_Watcher env R vm (FUser 0) "a" (FUser 1)
    (Some (Options false true false false None)) false ;;
  new_Watcher env R vm (FUser 2) "b" (FUser 3)
    (Some (Options false true false false None)) false ;;
  js_put R (VRef data) (KName "a") (VNum 2).

Definition pingpong_page : State := state_of (pingpong_setup empty_state).

(** The flush of [loop_page] at the head of its loop, with the counter
    of node 1 already at the threshold. *)
Definition loop_start (prod : bool) : State :=
  state_of (flush_prologue (loop_page prod)).

Definition loop_at_threshold : State :=
  set_circular {[1 := MAX_UPDATE_COUNT]} (loop_start false).

Definition loop_ran : State :=
  state_of (run_at (interp (loop_env false) 20) 1 loop_at_threshold).

(** *** Nested evaluations

    [pushTarget (x)] for each node of [xs] in turn, and [n] calls of
    [popTarget ()]. *)
Definition push_all (xs : list nat) : M unit :=
  for_each xs (fun x => pushTarget (Some x)).

Fixpoint pop_times (n : nat) : M unit :=
  match n with
  | O => ret tt
  | S n' => popTarget ;; pop_times n'
  end.

(** *** Subscribers that wait for the flush

    Every subscriber of the Subject [d] is a node that is neither
    computed nor synchronous. *)
Definition plain_subscribers (s : State) (d : nat) : Prop :=
  ∀ w, w ∈ subs s !!! d →
       w_computed (watchers s !!! w) = false ∧ w_sync (watchers s !!! w) = false.

(** The nodes of [l] that [queueWatcher] admits when called on them in
    turn, [h] being the presence markers at the start. *)
Fixpoint admitted (h : gset nat) (l : list nat) : list nat :=
  match l with
  | [] => []
  | w :: r => if decide (w ∈ h) then admitted h r
              else w :: admitted ({[w]} ∪ h) r
  end.

(** [graph_example] with node 1 active. *)
Definition teardown_example : State :=
  set_watchers (fun m => <[1 := with_active true (m !!! 1)]> m) graph_example.

(** [order_page] after its flush. *)
Definition order_flushed : State :=
  state_of (flushSchedulerQueue order_env (interp order_env 20) 10 order_page).

(** *** Values that [observe] leaves alone

    [v] is not an object, or is a VNode, or carries no wrapper and fails
    one of the conditions under which [observe] constructs one. *)
Definition unobservable (env : Env) (s : State) (v : jsval) : Prop :=
  match v with
  | VRef r =>
      o_isVNode (heap s !!! r) = true ∨
      (o_ob (heap s !!! r) = None ∧
       (shouldObserve s = false ∨ serverRendering env = true ∨
        (o_isArray (heap s !!! r) = false ∧ o_plain (heap s !!! r) = false) ∨
        o_extensible (heap s !!! r) = false ∨ o_isVue (heap s !!! r) = true))
  | _ => True
  end.

(** A page with the frozen array [[1, 2]] as object 0. *)
Definition frozen_page : State :=
  set_heap (fun _ => {[0 := Object true [VNum 1; VNum 2] [] None false false false
                                   false false]})
    (set_next_ref 1 empty_state).

(** A page with the array [[1, 2]] as object 0. *)
Definition array_of_numbers : State :=
  set_heap (fun _ => {[0 := plain_array [VNum 1; VNum 2]]})
    (set_next_ref 1 empty_state).

(** The state after [new Observer (r)] for an array [r] whose elements
    need no wrapper. *)
Definition wrapped_array (r : nat) (s : State) : State :=
  set_heap (fun m => <[r := with_intercepted true
                               (with_ob (Some (next_ob s)) (m !!! r))]> m)
    (set_observers (fun m => <[next_ob s := Observer r (dep_uid s) 0]> m)
       (set_next_ob (S (next_ob s)) (with_new_dep s))).

(** *** Properties that [walk] converts without calling anything

    A property that is not configurable, or a configurable data property
    whose value is not an object. *)
Definition simple_prop (p : prop) : Prop :=
  p_configurable p = false ∨
  ∃ v e, p = MkProp (Data v) e true ∧ isObject v = false.

(** The objects [o] and [o'] differ in their own properties at most. *)
Definition same_but_props (o o' : object) : Prop :=
  with_props (o_props o) o' = o.

(** A page with the plain object [{ a: 1, b: 'x' }] as object 0, where
    [b] is not enumerable. *)
Definition object_page : State :=
  set_heap (fun _ => {[0 := plain_object
                              [(KName "a", data_prop (VNum 1));
                               (KName "b", MkProp (Data (VStr "x")) false true)]]})
    (set_next_ref 1 empty_state).

(** The state after the first statements of [new Observer (r)], up to
    [def (value, '__ob__', this)]. *)
Definition wrapped_object (r : nat) (s : State) : State :=
  set_heap (fun m => <[r := with_ob (Some (next_ob s)) (m !!! r)]> m)
    (set_observers (fun m => <[next_ob s := Observer r (dep_uid s) 0]> m)
       (set_next_ob (S (next_ob s)) (with_new_dep s))).

(** A page with the plain object [{ get x () { throw 'bang' } }] as
    object 0; the getter is function 3 of [failing_program]. *)
Definition accessor_page : State :=
  set_heap (fun _ => {[0 := plain_object
                              [(KName "x", MkProp (Accessor (Some (FUser 3)) None)
                                                  true true)]]})
    (set_next_ref 1 empty_state).

(** ** observer/index.js: del *)

(** util [hasOwn (obj, key)]; [__ob__] is the own property that the
    Observer constructor defines, [length] the one every array has. *)
Definition hasOwn (k : pkey) (o : object) : bool :=
  bool_decide (is_Some (own_prop k o)) ||
  match k with
  | KName s => (bool_decide (s = "__ob__") && bool_decide (is_Some (o_ob o))) ||
               (o_isArray o && bool_decide (s = "length"))
  | KNum _ => false
  end.

Fixpoint assoc_del (k : pkey) (l : list (pkey * prop)) : list (pkey * prop) :=
  match l with
  | [] => []
  | (k', p) :: r => if decide (k' = k) then r else (k', p) :: assoc_del k r
  end.

(** The statement [delete o[k]] of strict code, for an own property:
    a property that is not configurable cannot be deleted.  An array
    element, which [del] never reaches here, is left as a hole, which
    reads as [undefined]. *)
Definition js_delete (r : nat) (k : pkey) : M unit :=
  obj <- the_object r ;;
  match assoc_get k (o_props obj) with
  | Some (MkProp _ _ true) =>
      upd_object r (fun obj => with_props (assoc_del k (o_props obj)) obj)
  | Some (MkProp _ _ false) => throw TypeError
  | None =>
      match k with
      | KName s =>
          if bool_decide (s = "__ob__") && bool_decide (is_Some (o_ob obj))
          then upd_object r (with_ob None)
          else if o_isArray obj && bool_decide (s = "length") then throw TypeError
          else ret tt
      | KNum z =>
          if o_isArray obj && (0 <=? z)%Z && (Z.to_nat z <? length (o_elems obj))
          then upd_object r (fun obj =>
                 with_elems (<[Z.to_nat z := VUndef]> (o_elems obj)) obj)
          else ret tt
      end
  end.

Section Del.
Variable env : Env.
Variable R : Rec.
(** The two diagnostics of [del], which are not among the constructors
    of [warning]: "Cannot delete reactive property on undefined, null,
    or primitive value" and "Avoid deleting properties on a Vue instance
    or its root $data - just set it to null." *)
Variable cannotDelete : warning.
Variable avoidDeleting : warning.

Definition del (target : jsval) (key : pkey) : M unit :=
  (if negb (production env) && (isUndef target || isPrimitive target)
   then warn cannotDelete None else ret tt) ;;
  isA <- isArray target ;;
  if isA && isValidArrayIndex key then
    match key with
    | KNum z => invoke env R target Msplice [VNum z; VNum 1] ;; ret tt
    | KName _ => ret tt
    end
  else
    match target with
    | VRef r =>
        o <- the_object r ;;
        vmCount <- (match o_ob o with
                    | Some ob => O <- the_observer ob ;; ret (ob_vmCount O)
                    | None => ret 0
                    end) ;;
        if o_isVue o || negb (vmCount =? 0) then
          (if negb (production env) then warn avoidDeleting None else ret tt)
        else if negb (hasOwn key o) then ret tt
        else
          js_delete r key ;;
          match o_ob o with
          | None => ret tt
          | Some ob =>
              O <- the_observer ob ;;
              r_notify R (ob_dep O)
          end
    | VUndef | VNull => throw TypeError
    | VStr s =>
        match key with
        | KNum z => if (0 <=? z)%Z && (Z.to_nat z <? String.length s)
                    then throw TypeError else ret tt
        | KName n => if bool_decide (n = "length") then throw TypeError else ret tt
        end
    | _ => ret tt
    end.

End Del.

(** [object_page] after [observe] of its object. *)
Definition observed_page : State :=
  match observe shallow_env (interp shallow_env 1) (VRef 0) false object_page with
  | Ok _ s => s
  | _ => object_page
  end.

(** The scheduler while the entry at the cursor [i] is processed. *)
Definition flush_at (i : nat) (s : State) : Prop :=
  flushing s = true ∧ index s = i ∧ i < length (queue s).

(** [vm._watcher === watcher && vm._isMounted], for the component of the
    node [w]. *)
Definition render_of_mounted (s : State) (w : nat) : bool :=
  bool_decide (vm_watcher (vms s !!! w_vm (watchers s !!! w)) = Some w) &&
  vm_isMounted (vms s !!! w_vm (watchers s !!! w)).

(** No element of the array [r] is itself an array. *)
Definition flat_array (s : State) (r : nat) : Prop :=
  ∀ er, VRef er ∈ o_elems (heap s !!! r) → o_isArray (heap s !!! er) = false.

(** A page with the array [[o]] as object 1, where [o] is object 0 and
    has the wrapper 0 with Subject 5, and the node 1 being evaluated. *)
Definition elements_page : State :=
  set_target (Some 1)
    (set_observers (fun _ => {[0 := Observer 0 5 0]})
       (set_heap (fun _ => {[0 := with_ob (Some 0) (plain_object []);
                             1 := plain_array [VRef 0; VNum 7]]})
          (set_next_ref 2 empty_state))).

(** The states [s] and [s'] agree on everything but the components and
    the log. *)
Definition same_core (s s' : State) : Prop :=
  queue s' = queue s ∧ has s' = has s ∧ flushing s' = flushing s ∧
  waiting s' = waiting s ∧ index s' = index s ∧ heap s' = heap s ∧
  watchers s' = watchers s ∧ subs s' = subs s ∧ cells s' = cells s ∧
  activatedChildren s' = activatedChildren s.

(** A queue that holds the node 1 of [teardown_example] after its
    [teardown]. *)
Definition stale_queue : State :=
  set_has {[1]} (set_queue [1] (set_waiting true
    (state_of (Watcher_teardown 1 teardown_example)))).

(** *** What every call into the system preserves

    [ends_in P r]: the outcome [r], a return or an exception, leaves a
    state of [P]. *)
Definition ends_in {A} (P : State → Prop) (r : Res A) : Prop :=
  match r with
  | Ok _ s' => P s'
  | Exn _ s' => P s'
  | Diverge => True
  end.

(** The entry points of the reactive system, started in [s] with calls
    nested through [R]: user functions and reactive accessors, property
    reads and writes, the array methods, [set] and [del], [notify],
    [observe], the methods of a watcher, a computed getter and the flush
    of the scheduler. *)
Definition entries_end_in (P : State → Prop) (env : Env) (R : Rec) (s : State) : Prop :=
  (∀ f this args, ends_in P (call env R f this args s)) ∧
  (∀ o k, ends_in P (js_get R o k s)) ∧
  (∀ o k v, ends_in P (js_put R o k v s)) ∧
  (∀ a m args, ends_in P (invoke env R a m args s)) ∧
  (∀ t k v, ends_in P (set env R t k v s)) ∧
  (∀ a b t k, ends_in P (del env R a b t k s)) ∧
  (∀ d, ends_in P (Dep_notify R d s)) ∧
  (∀ v b, ends_in P (observe env R v b s)) ∧
  (∀ w, ends_in P (Watcher_get R w s)) ∧
  (∀ w, ends_in P (Watcher_run R w s)) ∧
  (∀ w, ends_in P (Watcher_update R w s)) ∧
  (∀ w, ends_in P (Watcher_evaluate R w s)) ∧
  (∀ w, ends_in P (computedGetter R w s)) ∧
  (∀ n, ends_in P (flushSchedulerQueue env R n s)).

(** No watcher of the page asks for a deep traversal. *)
Definition no_deep (s : State) : Prop :=
  ∀ w, w_deep (watchers s !!! w) = false.

(** [Dep.target] is [t] and [targetStack] is [ts]; no [pushTarget ()] is
    pending, that is, the stack is empty when [Dep.target] is unset. *)
Definition recording (i : option nat * list nat) (s : State) : Prop :=
  target s = i.1 ∧ targetStack s = i.2 ∧ (i.1 = None → i.2 = []) ∧ no_deep s.

(** *** A deep watch whose traversal throws

    [data = { o: { get x () { if (data.f) throw 'boom' } }, f: 0 }] and
    the deep user watch 1 on [data.o]; then [data.f = 1].  The component
    is object 0, the inner object is object 1, the data object is
    object 2. *)
Definition deep_program (i : nat) (this : jsval) (args : list jsval) : code :=
  match i with
  | 0 => Get (VRef 2) (KName "o") Return
  | 1 => Get (VRef 2) (KName "f") (fun v =>
           if truthy v then Throw (VStr "boom") else Return VUndef)
  | _ => Return VUndef
  end.

Definition deep_env : Env :=
  MkEnv false false deep_program (fun _ l => l).

Definition deep_setup : M unit :=
  let env := deep_env in
  let R := interp env 20 in
  vm <- alloc_object vm_object ;;
  inner <- alloc_object (plain_object
             [(KName "x", MkProp (Accessor (Some (FUser 1)) None) true true)]) ;;
  data <- alloc_object (plain_object [(KName "o", data_prop (VRef inner));
                                      (KName "f", data_prop (VNum 0))]) ;;
  observe env R (VRef data) true ;;
  new_Watcher env R vm (FUser 0) "o" (FUser 2)
    (Some (Options true true false false None)) false ;;
  js_put R (VRef data) (KName "f") (VNum 1).

Definition deep_page : State := state_of (deep_setup empty_state).

(** *** The intercepted methods: arrays that cannot grow, elements that
    are inserted *)

(** Whether [m], called with [args] on an array that holds [l], has to
    create an element beyond the end of the array. *)
Definition grows (m : method) (args l : list jsval) : bool :=
  match m with
  | Mpush | Munshift => 0 <? length args
  | Msplice =>
      match args with
      | [] => false
      | start :: rest =>
          let len := Z.of_nat (length l) in
          let rs := to_integer start in
          let st := Z.to_nat (if (rs <? 0)%Z then Z.max (len + rs) 0 else Z.min rs len) in
          let dc := match rest with
                    | [] => length l - st
                    | c :: _ => Z.to_nat (Z.min (Z.max (to_integer c) 0)
                                                (len - Z.of_nat st))
                    end in
          dc <? length (drop 1 rest)
      end
  | _ => false
  end.

(** [s1] differs from [s] in the heap at most. *)
Definition heap_only (s s1 : State) : Prop :=
  s1 = set_next_ref (next_ref s1) (set_heap (fun _ => heap s1) s).

(** An object that [observe] wraps, or has wrapped, without calling
    anything: it is no VNode, and it carries a wrapper, or is an
    extensible array of values that are no objects, or an extensible
    plain object whose enumerable properties are simple. *)
Definition leaf_object (o : object) : Prop :=
  o_isVNode o = false ∧
  (is_Some (o_ob o) ∨
   (o_ob o = None ∧ o_extensible o = true ∧ o_isVue o = false ∧
    ((o_isArray o = true ∧ Forall (fun v => isObject v = false) (o_elems o)) ∨
     (o_isArray o = false ∧ o_plain o = true ∧ NoDup (fst <$> o_props o) ∧
      ∀ k p, assoc_get k (o_props o) = Some p → p_enumerable p = true →
             simple_prop p)))).

Definition wrappable (s : State) (v : jsval) : Prop :=
  match v with
  | VRef r => leaf_object (heap s !!! r)
  | _ => True
  end.

(** What [observe] of such values leaves as it is. *)
Definition wraps_only (s s' : State) : Prop :=
  shouldObserve s' = shouldObserve s ∧ watchers s' = watchers s ∧
  log s' = log s ∧ queue s' = queue s ∧ has s' = has s ∧
  flushing s' = flushing s ∧ waiting s' = waiting s ∧ target s' = target s ∧
  dep_uid s ≤ dep_uid s' ∧ next_ob s ≤ next_ob s' ∧
  (∀ d, d < dep_uid s → subs s' !!! d = subs s !!! d) ∧
  (∀ o, o < next_ob s → observers s' !!! o = observers s !!! o) ∧
  (∀ r, is_Some (o_ob (heap s !!! r)) → heap s' !!! r = heap s !!! r) ∧
  (∀ r, leaf_object (heap s !!! r) → leaf_object (heap s' !!! r)).
(** The node [t] is a subscriber of every Subject that it holds in its
    current or in its previous dependency set. *)
Definition listens (s : State) (t : nat) : Prop :=
  ∀ d, d ∈ w_depIds (watchers s !!! t) ∨ d ∈ w_newDepIds (watchers s !!! t) →
       t ∈ subs s !!! d.
(** [Object.preventExtensions (o)] *)
Definition with_extensible (b : bool) (o : object) : object :=
  Object (o_isArray o) (o_elems o) (o_props o) (o_ob o) (o_intercepted o) b
    (o_plain o) (o_isVue o) (o_isVNode o).

(** [array_page] after [Object.preventExtensions (data.list)]. *)
Definition sealed_array_page : State :=
  set_heap (fun m => <[1 := with_extensible false (m !!! 1)]> m) array_page.

(** [array_page] with the plain object [{ a: 1 }] as object 3. *)
Definition item_page : State :=
  state_of ((alloc_object (plain_object [(KName "a", data_prop (VNum 1))]) ;; ret tt)
              array_page).

(** * Properties *)

(** ** Reading the stores after an update *)

Lemma watcher_after_upd (s : State) (w : nat) (f : watcher -> watcher) (w' : nat) :
  watchers (set_watchers (fun m => <[w := f (m !!! w)]> m) s) !!! w' =
  if decide (w = w') then f (watchers s !!! w) else watchers s !!! w'.
Proof.
  simpl. destruct (decide (w = w')) as [->|Hne].
  - apply lookup_total_insert_eq.
  - by apply lookup_total_insert_ne.
Qed.

Lemma subs_after_upd (s : State) (d : nat) (l : list nat) (d' : nat) :
  subs (set_subs (fun m => <[d := l]> m) s) !!! d' =
  if decide (d = d') then l else subs s !!! d'.
Proof.
  simpl. destruct (decide (d = d')) as [->|Hne].
  - apply lookup_total_insert_eq.
  - by apply lookup_total_insert_ne.
Qed.

(** ** The active-computation stack (dep.js) *)

Section TargetStack.

(** With an active node, or with an empty stack, a push followed by a
    pop gives back the state it started from. *)
Lemma push_pop_restores (x : option nat) (s : State) :
  is_Some (target s) ∨ targetStack s = [] →
  ∃ s', push_pop x s = Ok tt s' ∧
        target s' = target s ∧ targetStack s' = targetStack s.
Proof.
  intros H. unfold push_pop, pushTarget, popTarget, bind, gets, modify.
  destruct (target s) as [a|] eqn:Ht; simpl.
  - eexists; split; [reflexivity|]. simpl. by rewrite ?Ht.
  - destruct H as [[? ?]|Hst]; [done|].
    rewrite Hst. simpl. eexists; split; [reflexivity|]. simpl. by rewrite ?Ht, ?Hst.
Qed.

(** While the active node is absent, recording a read does nothing. *)
Lemma depend_suspended (d : nat) (s : State) :
  target s = None → Dep_depend d s = Ok tt s.
Proof. intros H. unfold Dep_depend, bind, gets. by rewrite H. Qed.

Lemma pushTarget_None_suspends (d : nat) (s : State) :
  ∃ s', pushTarget None s = Ok tt s' ∧ Dep_depend d s' = Ok tt s'.
Proof.
  unfold pushTarget, bind, gets, modify.
  destruct (target s); simpl; eexists; (split; [reflexivity|]);
    by apply depend_suspended.
Qed.

End TargetStack.

(** C10 (defect of the code): the push of [pushTarget] is skipped when no
    node is active, so a push and its matching pop do not restore an
    absent active node over a non-empty stack.  From the initial page,
    [pushTarget (1); pushTarget ()] leaves no active node; the nested
    evaluation of node 2, [pushTarget (2); popTarget ()], then makes node 1
    active again instead of restoring "none", and recording a read of
    subject 7 subscribes node 1 although recording was suspended. *)
Theorem C10_push_pop_unbalanced :
  (pushTarget (Some 1) ;; pushTarget None) empty_state = Ok tt suspended_in_1 ∧
  target suspended_in_1 = None ∧
  ∃ s', push_pop (Some 2) suspended_in_1 = Ok tt s' ∧
        target s' = Some 1 ∧ targetStack s' = [] ∧
        ∃ s'', Dep_depend 7 s' = Ok tt s'' ∧ subs s'' !!! 7 = [1].
Proof.
  split; [reflexivity|]. split; [reflexivity|].
  eexists. split; [reflexivity|]. split; [reflexivity|]. split; [reflexivity|].
  eexists. split; [reflexivity|]. vm_compute. reflexivity.
Qed.

(** ** Dependency registration and reconciliation (watcher.js) *)

Section Remove.

Lemma remove_notin (x : nat) (l : list nat) : x ∉ l → remove x l = l.
Proof.
  induction l as [|y l IH]; simpl; [done|].
  intros Hx. apply not_elem_of_cons in Hx as [Hne Hx].
  destruct (decide (y = x)); [congruence|]. by rewrite IH.
Qed.

Lemma elem_of_remove_inv (x y : nat) (l : list nat) : y ∈ remove x l → y ∈ l.
Proof.
  induction l as [|z l IH]; simpl; [done|].
  destruct (decide (z = x)).
  - intros. by apply elem_of_cons; right.
  - intros [->|H]%elem_of_cons; [apply elem_of_cons; by left|].
    apply elem_of_cons; right. by apply IH.
Qed.

Lemma elem_of_remove_ne (x y : nat) (l : list nat) :
  y ≠ x → y ∈ l → y ∈ remove x l.
Proof.
  intros Hne. induction l as [|z l IH]; simpl; [done|].
  intros [->|H]%elem_of_cons.
  - destruct (decide (z = x)); [congruence|]. apply elem_of_cons; by left.
  - destruct (decide (z = x)); [done|]. apply elem_of_cons; right. by apply IH.
Qed.

Lemma NoDup_remove (x : nat) (l : list nat) : NoDup l → NoDup (remove x l).
Proof.
  induction 1 as [|y l Hy Hl IH]; simpl; [constructor|].
  destruct (decide (y = x)); [done|].
  constructor; [|done]. intros H. apply Hy. by eapply elem_of_remove_inv.
Qed.

Lemma not_elem_of_remove (x : nat) (l : list nat) : NoDup l → x ∉ remove x l.
Proof.
  induction 1 as [|y l Hy Hl IH]; simpl; [apply not_elem_of_nil|].
  destruct (decide (y = x)) as [->|Hne]; [done|].
  apply not_elem_of_cons. split; [congruence|done].
Qed.

End Remove.

Lemma addDep_result (w d : nat) (s : State) :
  Watcher_addDep w d s = Ok tt
    (let W := watchers s !!! w in
     if decide (d ∈ w_newDepIds W) then s
     else
       let s1 := set_watchers (fun m =>
                   <[w := with_depsets (w_deps W) (w_newDeps W ++ [d]) (w_depIds W)
                            ({[d]} ∪ w_newDepIds W) W]> m) s in
       if decide (d ∈ w_depIds W) then s1
       else set_subs (fun m => <[d := (m !!! d) ++ [w]]> m) s1).
Proof.
  unfold Watcher_addDep, Dep_addSub, bind, the_watcher, upd_watcher, gets, modify, ret.
  simpl. destruct (decide (d ∈ w_newDepIds (watchers s !!! w))) as [Hin|Hin].
  - by rewrite bool_decide_eq_true_2.
  - rewrite bool_decide_eq_false_2 by done. simpl.
    destruct (decide (d ∈ w_depIds (watchers s !!! w))) as [Hin'|Hin'].
    + by rewrite bool_decide_eq_true_2.
    + by rewrite bool_decide_eq_false_2.
Qed.

Lemma cleanup_loop (w : nat) (l : list nat) (s : State) :
  ∃ s', for_each l (cleanup_body w) s = Ok tt s' ∧
        s' = set_subs (fun _ => subs s') s ∧
        (∀ d, d ∉ l ∨ d ∈ w_newDepIds (watchers s !!! w) →
              subs s' !!! d = subs s !!! d) ∧
        (∀ d x, x ∈ subs s' !!! d → x ∈ subs s !!! d) ∧
        (∀ d x, x ≠ w → x ∈ subs s !!! d → x ∈ subs s' !!! d) ∧
        (∀ d, NoDup (subs s !!! d) → NoDup (subs s' !!! d)) ∧
        (∀ d, d ∈ l → d ∉ w_newDepIds (watchers s !!! w) →
              NoDup (subs s !!! d) → w ∉ subs s' !!! d).
Proof.
  revert s. induction l as [|x l IH]; intros s.
  - exists s. split; [done|]. split; [by destruct s|].
    repeat split; try done. intros d Hd. by apply elem_of_nil in Hd.
  - simpl. unfold bind at 1. unfold cleanup_body at 1.
    unfold bind, the_watcher, gets, Dep_removeSub, modify, ret. simpl.
    destruct (decide (x ∈ w_newDepIds (watchers s !!! w))) as [Hin|Hin].
    + rewrite bool_decide_eq_true_2 by done. simpl.
      destruct (IH s) as (s' & Hrun & Hfr & Hkeep & Hsub & Hoth & Hnd & Hrm).
      exists s'. split; [done|]. split; [done|].
      split; [|split; [done|split; [done|split; [done|]]]].
      * intros d [Hd|Hd]; apply Hkeep; [left|by right].
        intros ?. apply Hd. apply elem_of_cons; by right.
      * intros d [->|Hd]%elem_of_cons Hn; [done|]. by apply Hrm.
    + rewrite bool_decide_eq_false_2 by done. simpl.
      set (s1 := set_subs _ s).
      destruct (IH s1) as (s' & Hrun & Hfr & Hkeep & Hsub & Hoth & Hnd & Hrm).
      assert (Hs1 : ∀ d, subs s1 !!! d =
                if decide (x = d) then remove w (subs s !!! x) else subs s !!! d)
        by (intros d; apply subs_after_upd).
      exists s'. split; [done|]. split.
      { rewrite Hfr at 1. by destruct s. }
      split; [|split; [|split; [|split]]].
      * intros d Hd. rewrite Hkeep.
        -- rewrite Hs1. destruct (decide (x = d)) as [->|]; [|done].
           destruct Hd as [Hd|Hd]; [|done]. exfalso. apply Hd, elem_of_cons; by left.
        -- destruct Hd as [Hd|Hd]; [left|by right].
           intros ?. apply Hd, elem_of_cons; by right.
      * intros d y Hy. apply Hsub in Hy. rewrite Hs1 in Hy.
        destruct (decide (x = d)) as [->|]; [|done]. by eapply elem_of_remove_inv.
      * intros d y Hne Hy. apply Hoth; [done|]. rewrite Hs1.
        destruct (decide (x = d)) as [->|]; [|done]. by apply elem_of_remove_ne.
      * intros d Hd. apply Hnd. rewrite Hs1.
        destruct (decide (x = d)) as [->|]; [|done]. by apply NoDup_remove.
      * intros d Hd Hn Hdup.
        assert (Hdup1 : NoDup (subs s1 !!! d)).
        { rewrite Hs1. destruct (decide (x = d)) as [->|]; [|done].
          by apply NoDup_remove. }
        destruct (decide (d ∈ l)) as [Hl|Hl].
        -- by apply Hrm.
        -- apply elem_of_cons in Hd as [->|Hd]; [|done].
           rewrite Hkeep by (by left). rewrite Hs1, decide_True by done.
           by apply not_elem_of_remove.
Qed.

Lemma addDep_graph_ok (w d : nat) (s s1 : State) :
  graph_ok s → Watcher_addDep w d s = Ok tt s1 → graph_ok s1.
Proof.
  intros (Hnd & Htr & Hco). rewrite addDep_result. intros [= <-]. simpl.
  destruct (decide (d ∈ w_newDepIds (watchers s !!! w))) as [Hin|Hin]; [done|].
  set (W := watchers s !!! w) in *.
  set (W' := with_depsets _ _ _ _ W).
  assert (HW : ∀ w', (<[w := W']> (watchers s) : gmap nat watcher) !!! w' =
                     if decide (w = w') then W' else watchers s !!! w').
  { intros w'. destruct (decide (w = w')) as [->|].
    - apply lookup_total_insert_eq.
    - by apply lookup_total_insert_ne. }
  assert (Hco' : ∀ w', deps_consistent
                         ((<[w := W']> (watchers s) : gmap nat watcher) !!! w')).
  { intros w'. rewrite HW. destruct (decide (w = w')) as [<-|]; [|apply Hco].
    destruct (Hco w) as [H1 H2]. fold W in H1, H2. split; simpl; [done|].
    intros d'. rewrite elem_of_app, list_elem_of_singleton, elem_of_union,
      elem_of_singleton, H2. tauto. }
  assert (Hmono : ∀ w' d', d' ∈ w_depIds (watchers s !!! w') ∨
                           d' ∈ w_newDepIds (watchers s !!! w') →
            d' ∈ w_depIds ((<[w := W']> (watchers s) : gmap nat watcher) !!! w') ∨
            d' ∈ w_newDepIds ((<[w := W']> (watchers s) : gmap nat watcher) !!! w')).
  { intros w' d'. rewrite HW. destruct (decide (w = w')) as [<-|]; [|done].
    simpl. fold W. rewrite elem_of_union. tauto. }
  destruct (decide (d ∈ w_depIds W)) as [Hin'|Hin']; simpl.
  - split; [done|]. split; [|done]. intros w' d' Hw'. apply Hmono. by apply Htr.
  - assert (Hs : ∀ d', (<[d := subs s !!! d ++ [w]]> (subs s) : gmap nat (list nat))
                         !!! d' =
                       if decide (d = d') then subs s !!! d ++ [w] else subs s !!! d').
    { intros d'. destruct (decide (d = d')) as [->|].
      - apply lookup_total_insert_eq.
      - by apply lookup_total_insert_ne. }
    split; [|split; [|done]].
    + intros d'. rewrite Hs. destruct (decide (d = d')) as [<-|]; [|apply Hnd].
      apply NoDup_app. split; [apply Hnd|]. split; [|apply NoDup_singleton].
      intros x Hx ->%list_elem_of_singleton.
      destruct (Htr _ _ Hx) as [Hx'|Hx']; [by apply Hin'|by apply Hin].
    + intros w' d'. rewrite Hs. destruct (decide (d = d')) as [<-|].
      * rewrite elem_of_app, list_elem_of_singleton. intros [Hx| ->].
        -- apply Hmono. by apply Htr.
        -- rewrite HW, decide_True by done. right. simpl. apply elem_of_union.
           left. by apply elem_of_singleton.
      * intros Hx. apply Hmono. by apply Htr.
Qed.

Lemma cleanupDeps_result (w : nat) (s : State) :
  ∃ s', for_each (reverse (w_deps (watchers s !!! w))) (cleanup_body w) s = Ok tt s' ∧
        Watcher_cleanupDeps w s = Ok tt
          (set_watchers (fun m =>
             <[w := with_depsets (w_newDeps (m !!! w)) [] (w_newDepIds (m !!! w)) ∅
                      (m !!! w)]> m) s').
Proof.
  destruct (cleanup_loop w (reverse (w_deps (watchers s !!! w))) s) as (s' & Hrun & _).
  exists s'. split; [done|].
  change (Watcher_cleanupDeps w s) with
    (match for_each (reverse (w_deps (watchers s !!! w))) (cleanup_body w) s with
     | Ok _ s1 => upd_watcher w (fun W =>
                    with_depsets (w_newDeps W) [] (w_newDepIds W) ∅ W) s1
     | Exn e s1 => Exn e s1
     | Diverge => Diverge
     end).
  rewrite Hrun. reflexivity.
Qed.

(** C6: registering a dependency touches the current-cycle set only for a
    Subject that is not yet in it and the subscriber list only for a
    Subject that is in neither set, and is idempotent; reconciliation
    swaps the sets, unsubscribes the node from every Subject of the
    previous cycle that the current cycle did not read, and both keep
    every subscriber list free of duplicates. *)
Theorem C6_dependency_registration (s : State) (w d : nat) :
  graph_ok s →
  (∃ s1, Watcher_addDep w d s = Ok tt s1 ∧
     (d ∈ w_newDepIds (watchers s !!! w) → s1 = s) ∧
     (d ∉ w_newDepIds (watchers s !!! w) →
        w_newDepIds (watchers s1 !!! w) = {[d]} ∪ w_newDepIds (watchers s !!! w) ∧
        w_newDeps (watchers s1 !!! w) = w_newDeps (watchers s !!! w) ++ [d] ∧
        subs s1 !!! d = if decide (d ∈ w_depIds (watchers s !!! w))
                        then subs s !!! d else subs s !!! d ++ [w]) ∧
     (∀ d', d' ≠ d → subs s1 !!! d' = subs s !!! d') ∧
     Watcher_addDep w d s1 = Ok tt s1 ∧
     subs_nodup s1 ∧ graph_ok s1) ∧
  (∃ s2, Watcher_cleanupDeps w s = Ok tt s2 ∧
     w_depIds (watchers s2 !!! w) = w_newDepIds (watchers s !!! w) ∧
     w_deps (watchers s2 !!! w) = w_newDeps (watchers s !!! w) ∧
     w_newDepIds (watchers s2 !!! w) = ∅ ∧
     w_newDeps (watchers s2 !!! w) = [] ∧
     (∀ d', d' ∈ w_depIds (watchers s !!! w) →
            d' ∉ w_newDepIds (watchers s !!! w) → w ∉ subs s2 !!! d') ∧
     (∀ d', d' ∈ w_newDepIds (watchers s !!! w) → subs s2 !!! d' = subs s !!! d') ∧
     subs_nodup s2 ∧ graph_ok s2).
Proof.
  intros Hok. split.
  - eexists. split; [apply addDep_result|].
    pose proof (addDep_graph_ok w d s _ Hok (addDep_result w d s)) as Hok1.
    revert Hok1. cbv zeta.
    destruct (decide (d ∈ w_newDepIds (watchers s !!! w))) as [Hin|Hin].
    + intros Hok1. split; [done|]. split; [done|]. split; [done|].
      split; [|split; [apply Hok1|done]].
      rewrite addDep_result. cbv zeta. by rewrite decide_True.
    + intros Hok1. split; [done|].
      assert (Hin2 : d ∈ ({[d]} ∪ w_newDepIds (watchers s !!! w) : gset nat)).
      { apply elem_of_union. left. by apply elem_of_singleton. }
      destruct (decide (d ∈ w_depIds (watchers s !!! w))) as [Hin'|Hin'].
      * split.
        { intros _. simpl. rewrite lookup_total_insert_eq. done. }
        split; [done|]. split; [|split; [apply Hok1|done]].
        rewrite addDep_result. cbv zeta. simpl. rewrite lookup_total_insert_eq.
        simpl. by rewrite decide_True.
      * split.
        { intros _. simpl. rewrite !lookup_total_insert_eq. done. }
        split.
        { intros d' Hne. simpl. by rewrite lookup_total_insert_ne. }
        split; [|split; [apply Hok1|done]].
        rewrite addDep_result. cbv zeta. simpl.
        rewrite lookup_total_insert_eq. simpl. by rewrite decide_True.
  - destruct Hok as (Hnd & Htr & Hco).
    destruct (cleanupDeps_result w s) as (s' & Hloop & Hres).
    destruct (cleanup_loop w (reverse (w_deps (watchers s !!! w))) s)
      as (s'' & Hrun & Hfr & Hkeep & Hsub & Hoth & Hnd' & Hrm).
    rewrite Hloop in Hrun. injection Hrun as <-.
    assert (Hws : watchers s' = watchers s) by (rewrite Hfr; done).
    eexists. split; [exact Hres|].
    simpl. rewrite !lookup_total_insert_eq. rewrite !Hws. simpl.
    assert (Hgone : ∀ d', d' ∈ w_depIds (watchers s !!! w) →
                     d' ∉ w_newDepIds (watchers s !!! w) → w ∉ subs s' !!! d').
    { intros d' Hd Hn. apply Hrm; [|done|apply Hnd].
      apply elem_of_reverse. by apply (Hco w). }
    split; [done|]. split; [done|]. split; [done|]. split; [done|].
    split; [done|]. split; [intros d' Hd; apply Hkeep; by right|].
    assert (Hnd2 : ∀ d', NoDup (subs s' !!! d')) by (intros d'; apply Hnd', Hnd).
    split; [done|]. split; [done|]. split.
    + intros w' d' Hx. simpl in Hx. simpl.
      rewrite lookup_total_insert. rewrite Hws.
      destruct (decide (w = w')) as [<-|].
      * simpl. left.
        destruct (decide (d' ∈ w_newDepIds (watchers s !!! w))) as [|Hn]; [done|].
        exfalso. destruct (Htr _ _ (Hsub _ _ Hx)) as [Hd|Hd]; [|done].
        by apply (Hgone d').
      * apply Htr. by apply Hsub.
    + intros w'. simpl. rewrite lookup_total_insert, Hws.
      destruct (decide (w = w')) as [<-|]; [|apply Hco].
      destruct (Hco w) as [H1 H2]. split; simpl; [done|].
      intros d'. split; [by intros ?%elem_of_nil|by intros ?%elem_of_empty].
Qed.

Lemma graph_example_ok : graph_ok graph_example.
Proof.
  assert (Hs : ∀ d, subs graph_example !!! d =
                    if decide (d = 0) then [1; 2]
                    else if decide (d = 3) then [1] else []).
  { intros d. unfold graph_example. simpl.
    rewrite !lookup_total_insert, lookup_total_empty.
    repeat case_decide; subst; done. }
  assert (Hw : ∀ w, watchers graph_example !!! w =
                    if decide (w = 1)
                    then with_depsets [0; 3] [0] {[0; 3]} {[0]} inhabitant
                    else if decide (w = 2)
                         then with_depsets [0] [] {[0]} ∅ inhabitant
                         else inhabitant).
  { intros w. unfold graph_example. simpl.
    rewrite !lookup_total_insert, lookup_total_empty.
    repeat case_decide; subst; done. }
  split; [|split].
  - intros d. rewrite Hs. repeat case_decide; repeat constructor; set_solver.
  - intros w d. rewrite Hs, Hw. repeat case_decide; simpl; set_solver.
  - intros w. rewrite Hw. split; intros d; repeat case_decide; simpl; set_solver.
Qed.

(** Witness for C6: on [graph_example], reconciling node 1 unsubscribes it
    from Subject 3, which it read in the previous cycle only. *)
Lemma C6_witness :
  graph_ok graph_example ∧
  ∃ s2, Watcher_cleanupDeps 1 graph_example = Ok tt s2 ∧
        (1 ∉ subs s2 !!! 3) ∧ subs_nodup s2.
Proof.
  split; [exact graph_example_ok|].
  destruct (C6_dependency_registration graph_example 1 3 graph_example_ok)
    as [_ (s2 & Hrun & _ & _ & _ & _ & Hgone & _ & Hnd & _)].
  exists s2. split; [exact Hrun|]. split; [|exact Hnd].
  apply Hgone.
  - unfold graph_example. simpl. rewrite lookup_total_insert_eq. simpl. set_solver.
  - unfold graph_example. simpl. rewrite lookup_total_insert_eq. simpl. set_solver.
Defined.

(** ** The scheduler's enqueue (scheduler.js) *)

Lemma splice_position_spec (pre rest suffix : list nat) (index w : nat) :
  length pre = S index →
  ∃ k, k ≤ length rest ∧
       splice_position (pre ++ rest ++ suffix) index w (length pre + length rest)
         = length pre + k ∧
       (∀ x, x ∈ drop k rest → w < x) ∧
       (StronglySorted (≤) rest → ∀ x, x ∈ take k rest → x ≤ w).
Proof.
  intros Hpre. revert suffix. induction rest as [|x r IH] using rev_ind; intros suffix.
  - exists 0. split; [done|]. split.
    + simpl. rewrite Nat.add_0_r, Hpre. simpl.
      rewrite (proj2 (Nat.ltb_ge index index)) by lia. done.
    + split; [by intros x ?%elem_of_nil|by intros _ x ?%elem_of_nil].
  - rewrite length_app. simpl.
    replace (length pre + (length r + 1)) with (S (length pre + length r)) by lia.
    simpl.
    rewrite (proj2 (Nat.ltb_lt index (length pre + length r))) by lia.
    assert (Hx : (pre ++ (r ++ [x]) ++ suffix) !!! (length pre + length r) = x).
    { apply list_lookup_total_correct.
      rewrite lookup_app_r by lia.
      replace (length pre + length r - length pre) with (length r) by lia.
      rewrite <- app_assoc. rewrite lookup_app_r by lia.
      by rewrite Nat.sub_diag. }
    rewrite Hx. simpl.
    destruct (w <? x) eqn:Hlt.
    + apply Nat.ltb_lt in Hlt.
      destruct (IH (x :: suffix)) as (k & Hk & Hpos & Hgt & Hle).
      exists k. split; [lia|]. split.
      { rewrite <- Hpos. f_equal. by rewrite <- app_assoc. }
      split.
      * intros y. rewrite drop_app_le by lia.
        intros [Hy| ->%list_elem_of_singleton]%elem_of_app; [by apply Hgt|done].
      * intros Hs y. rewrite take_app_le by lia.
        apply Hle. by apply StronglySorted_app_1_l in Hs.
    + apply Nat.ltb_ge in Hlt.
      exists (length r + 1). split; [lia|]. split; [lia|]. split.
      * rewrite drop_ge by (rewrite length_app; simpl; lia).
        by intros y ?%elem_of_nil.
      * intros Hs y. rewrite take_ge by (rewrite length_app; simpl; lia).
        intros [Hy| ->%list_elem_of_singleton]%elem_of_app; [|done].
        apply StronglySorted_app in Hs as (Hc & _ & _).
        specialize (Hc y x Hy). rewrite list_elem_of_singleton in Hc.
        specialize (Hc eq_refl). lia.
Qed.

(** Where [queueWatcher] splices during a flush. *)
Lemma splice_during_flush (q : list nat) (index w : nat) :
  index < length q →
  ∃ k, let rest := drop (S index) q in
       let p := splice_position q index w (length q) in
       k ≤ length rest ∧ p = S index + k ∧
       splice_in p w q = take (S index) q ++ take k rest ++ w :: drop k rest ∧
       (∀ x, x ∈ drop k rest → w < x) ∧
       (StronglySorted (≤) rest → ∀ x, x ∈ take k rest → x ≤ w).
Proof.
  intros Hi.
  destruct (splice_position_spec (take (S index) q) (drop (S index) q) [] index w)
    as (k & Hk & Hpos & Hgt & Hle).
  { rewrite length_take. lia. }
  rewrite app_nil_r, take_drop in Hpos.
  rewrite length_take, length_drop in Hpos.
  replace (S index `min` length q + (length q - S index)) with (length q) in Hpos by lia.
  replace (S index `min` length q) with (S index) in Hpos by lia.
  exists k. cbv zeta. split; [done|]. split; [done|]. split; [|done].
  rewrite Hpos. unfold splice_in.
  assert (Hlen : length (take (S index) q) = S index) by (rewrite length_take; lia).
  pose proof (take_app_add' (take (S index) q) (drop (S index) q) (S index) k
                (eq_sym Hlen)) as Ht.
  pose proof (drop_app_add' (take (S index) q) (drop (S index) q) (S index) k
                (eq_sym Hlen)) as Hd.
  rewrite take_drop in Ht, Hd. rewrite Ht, Hd. by rewrite <- app_assoc.
Qed.

Lemma splice_sorted_le (rest : list nat) (k w : nat) :
  (∀ x, x ∈ drop k rest → w < x) →
  (StronglySorted (≤) rest → ∀ x, x ∈ take k rest → x ≤ w) →
  StronglySorted (≤) rest →
  StronglySorted (≤) (take k rest ++ w :: drop k rest).
Proof.
  intros Hgt Hle Hs. specialize (Hle Hs).
  rewrite <- (take_drop k rest) in Hs.
  apply StronglySorted_app in Hs as (Hc & H1 & H2).
  apply StronglySorted_app. split; [|split; [done|]].
  - intros x1 x2 Hx1 [->|Hx2]%elem_of_cons; [by apply Hle|by apply Hc].
  - apply StronglySorted_cons. split; [|done].
    apply Forall_forall. intros x Hx. apply Hgt in Hx. lia.
Qed.

Lemma splice_sorted_lt (rest : list nat) (k w : nat) :
  (∀ x, x ∈ drop k rest → w < x) →
  (StronglySorted (≤) rest → ∀ x, x ∈ take k rest → x ≤ w) →
  w ∉ rest →
  StronglySorted (<) rest →
  StronglySorted (<) (take k rest ++ w :: drop k rest).
Proof.
  intros Hgt Hle Hw Hs.
  assert (Hs' : StronglySorted (≤) rest).
  { clear -Hs. induction Hs as [|x l Hl IH Hx]; constructor; [done|].
    eapply Forall_impl; [exact Hx|]. simpl. lia. }
  specialize (Hle Hs').
  rewrite <- (take_drop k rest) in Hs, Hw.
  apply StronglySorted_app in Hs as (Hc & H1 & H2).
  apply StronglySorted_app. split; [|split; [done|]].
  - intros x1 x2 Hx1 [->|Hx2]%elem_of_cons; [|by apply Hc].
    specialize (Hle _ Hx1).
    assert (x1 ≠ w); [|lia].
    intros ->. apply Hw, elem_of_app. by left.
  - apply StronglySorted_cons. split; [|done].
    apply Forall_forall. intros x Hx. by apply Hgt.
Qed.

Lemma queueWatcher_result (w : nat) (s : State) :
  queueWatcher w s = Ok tt
    (if decide (w ∈ has s) then s
     else
       let s1 := set_has ({[w]} ∪ has s) s in
       let s2 := if flushing s
                 then set_queue (splice_in (splice_position (queue s) (index s) w
                                              (length (queue s))) w (queue s)) s1
                 else set_queue (queue s ++ [w]) s1 in
       if waiting s then s2 else emit ENextTick (set_waiting true s2)).
Proof.
  unfold queueWatcher, nextTick_flushSchedulerQueue, bind, gets, modify, ret.
  destruct (decide (w ∈ has s)) as [Hin|Hin].
  - by rewrite bool_decide_eq_true_2.
  - rewrite bool_decide_eq_false_2 by done. simpl.
    destruct (flushing s); simpl; destruct (waiting s); reflexivity.
Qed.

Lemma queueWatcher_fields (w : nat) (s : State) :
  ∃ s', queueWatcher w s = Ok tt s' ∧
        index s' = index s ∧ flushing s' = flushing s ∧
        (w ∈ has s → s' = s) ∧
        (w ∉ has s →
           has s' = {[w]} ∪ has s ∧
           queue s' = if flushing s
                      then splice_in (splice_position (queue s) (index s) w
                                        (length (queue s))) w (queue s)
                      else queue s ++ [w]).
Proof.
  eexists. split; [apply queueWatcher_result|].
  destruct (decide (w ∈ has s)) as [Hin|Hin]; [done|]. cbv zeta.
  destruct (flushing s) eqn:Hfl, (waiting s); simpl; rewrite ?Hfl; done.
Qed.

Lemma queueWatcher_spec (s : State) (w : nat) :
  presence_ok s →
  (flushing s = true → index s < length (queue s)) →
  ∃ s', queueWatcher w s = Ok tt s' ∧
    presence_ok s' ∧
    (w ∈ has s → s' = s) ∧
    (w ∉ has s →
       has s' = {[w]} ∪ has s ∧ index s' = index s ∧ flushing s' = flushing s ∧
       w ∈ unrun s' ∧
       (flushing s = false → queue s' = queue s ++ [w]) ∧
       (flushing s = true →
          take (S (index s)) (queue s') = take (S (index s)) (queue s) ∧
          ∃ k, k ≤ length (unrun s) ∧
               queue s' = take (S (index s) + k) (queue s) ++
                          w :: drop (S (index s) + k) (queue s) ∧
               unrun s' = take k (unrun s) ++ w :: drop k (unrun s) ∧
               (StronglySorted (≤) (unrun s) → StronglySorted (≤) (unrun s')) ∧
               (StronglySorted (<) (unrun s) → StronglySorted (<) (unrun s')))).
Proof.
  intros [Hsub Hnd] Hidx.
  destruct (queueWatcher_fields w s) as (s' & Hrun & Hi & Hf & Hsame & Hnew).
  exists s'. split; [done|].
  destruct (decide (w ∈ has s)) as [Hin|Hin].
  { rewrite (Hsame Hin). done. }
  destruct (Hnew Hin) as [Hh Hq]. clear Hsame Hnew.
  assert (Hw : w ∉ unrun s) by (intros ?; by apply Hin, Hsub).
  unfold presence_ok, unrun in *. rewrite Hf, Hi, Hh.
  destruct (flushing s) eqn:Hfl.
  - specialize (Hidx eq_refl).
    destruct (splice_during_flush (queue s) (index s) w Hidx)
      as (k & Hk & Hp & Hq' & Hgt & Hle).
    cbv zeta in *. rewrite <- Hq in Hq'. clear Hq.
    set (rest := drop (S (index s)) (queue s)) in *.
    assert (Hrest' : drop (S (index s)) (queue s') = take k rest ++ w :: drop k rest).
    { rewrite Hq'. rewrite drop_app_length'; [done|]. rewrite length_take. lia. }
    rewrite Hrest'.
    split; [split|split; [done|intros _]].
    + intros x Hx. apply elem_of_union.
      apply elem_of_app in Hx as [Hx|[->|Hx]%elem_of_cons].
      * right. apply Hsub. rewrite <- (take_drop k rest). apply elem_of_app. by left.
      * left. by apply elem_of_singleton.
      * right. apply Hsub. rewrite <- (take_drop k rest). apply elem_of_app. by right.
    + rewrite <- (take_drop k rest) in Hnd, Hw.
      apply NoDup_app in Hnd as (H1 & H2 & H3).
      apply NoDup_app. split; [done|]. split.
      * intros x Hx [->|Hx']%elem_of_cons.
        -- apply Hw, elem_of_app. by left.
        -- by apply (H2 x).
      * constructor; [|done]. intros ?. apply Hw, elem_of_app. by right.
    + split; [done|]. split; [done|]. split; [done|]. split.
      { apply elem_of_app. right. apply elem_of_cons. by left. }
      split; [done|]. intros _. split.
      { rewrite Hq'. rewrite take_app_length'; [done|]. rewrite length_take. lia. }
      exists k. split; [done|]. split.
      { rewrite Hq'. unfold rest.
        by rewrite app_assoc, take_take_drop, drop_drop. }
      split; [done|].
      split; [by apply splice_sorted_le|]. by apply splice_sorted_lt.
  - rewrite Hq. split; [split|split; [done|intros _]].
    + intros x Hx. apply elem_of_union.
      apply elem_of_app in Hx as [Hx| ->%list_elem_of_singleton].
      * right. by apply Hsub.
      * left. by apply elem_of_singleton.
    + apply NoDup_app. split; [done|]. split; [|apply NoDup_singleton].
      by intros x Hx ->%list_elem_of_singleton.
    + split; [done|]. split; [done|]. split; [done|]. split.
      { apply elem_of_app. right. by apply list_elem_of_singleton. }
      split; [done|]. intros [=].
Qed.

(** C3 (amended): enqueue does nothing for a node whose presence marker
    is set, so no identity ever waits twice; a node without marker (in
    particular one whose run has started in this flush) is admitted:
    appended before the flush, and during the flush spliced behind the
    cursor, leaving the processed part untouched and at the position that
    keeps the not-yet-run part in ascending identity order. *)
Theorem C3_enqueue (s : State) (w : nat) :
  presence_ok s →
  (flushing s = true → index s < length (queue s)) →
  ∃ s', queueWatcher w s = Ok tt s' ∧
    presence_ok s' ∧
    (w ∈ has s → s' = s) ∧
    (w ∉ has s →
       has s' = {[w]} ∪ has s ∧ index s' = index s ∧ flushing s' = flushing s ∧
       w ∈ unrun s' ∧
       (flushing s = false → queue s' = queue s ++ [w]) ∧
       (flushing s = true →
          take (S (index s)) (queue s') = take (S (index s)) (queue s) ∧
          ∃ k, k ≤ length (unrun s) ∧
               queue s' = take (S (index s) + k) (queue s) ++
                          w :: drop (S (index s) + k) (queue s) ∧
               unrun s' = take k (unrun s) ++ w :: drop k (unrun s) ∧
               (StronglySorted (≤) (unrun s) → StronglySorted (≤) (unrun s')) ∧
               (StronglySorted (<) (unrun s) → StronglySorted (<) (unrun s')))).
Proof. exact (queueWatcher_spec s w). Qed.

Lemma enqueue_example_ok : presence_ok enqueue_example.
Proof.
  split.
  - intros x. unfold unrun, enqueue_example. simpl. set_solver.
  - unfold unrun, enqueue_example. simpl. repeat constructor; set_solver.
Qed.

(** Witness for C3: with node 1 running and nodes 3 and 5 waiting, node 4
    is spliced between them and node 3 is not admitted again. *)
Lemma C3_witness :
  presence_ok enqueue_example ∧
  (∃ s', queueWatcher 4 enqueue_example = Ok tt s' ∧ queue s' = [1; 3; 4; 5]) ∧
  queueWatcher 3 enqueue_example = Ok tt enqueue_example.
Proof.
  split; [exact enqueue_example_ok|]. split.
  - destruct (C3_enqueue enqueue_example 4 enqueue_example_ok)
      as (s' & Hrun & _); [simpl; lia|].
    exists s'. split; [exact Hrun|].
    vm_compute in Hrun. injection Hrun as <-. reflexivity.
  - destruct (C3_enqueue enqueue_example 3 enqueue_example_ok)
      as (s' & Hrun & _ & Hsame & _); [simpl; lia|].
    rewrite Hrun. f_equal. apply Hsame. unfold enqueue_example. simpl. set_solver.
Defined.

(** Counterexample to C3 as stated: in the flush of [loop_page] the first
    iteration of the loop runs node 1, whose callback writes its own
    dependency; the enqueue that follows admits identity 1 a second time
    within the same cycle. *)
Lemma C3_counterexample :
  queue (loop_page false) = [1] ∧
  ∃ s', (flush_prologue ;; flush_step (loop_env false) (interp (loop_env false) 20))
          (loop_page false) = Ok true s' ∧
        index s' = 0 ∧ queue s' = [1; 1].
Proof.
  split; [vm_compute; reflexivity|].
  eexists. split; [vm_compute; reflexivity|]. split; vm_compute; reflexivity.
Qed.

(** ** Computed nodes (watcher.js) *)

Lemma getAndInvoke_result (R : Rec) (w : nat) (cb : jsval → list jsval → M jsval)
    (s : State) :
  Watcher_getAndInvoke R w cb s =
  match Watcher_get R w s with
  | Ok value s1 =>
      let W1 := watchers s1 !!! w in
      if invoke_test value (w_value W1) (w_deep W1) then
        let s2 := store_value w value s1 in
        if w_user W1 then
          try_catch (cb (VRef (w_vm W1)) [value; w_value W1] ;; ret tt)
            (fun e =>
               W <- the_watcher w ;;
               handleError e (w_vm W)
                 ("callback for watcher " +:+ quote +:+ w_expression W +:+ quote))
            s2
        else (cb (VRef (w_vm W1)) [value; w_value W1] ;; ret tt) s2
      else Ok tt s1
  | Exn e s1 => Exn e s1
  | Diverge => Diverge
  end.
Proof.
  unfold Watcher_getAndInvoke. unfold bind at 1.
  destruct (Watcher_get R w s) as [value s1|e s1|]; [|done|done].
  unfold bind at 1. unfold the_watcher at 1, gets at 1. cbv zeta.
  unfold invoke_test.
  destruct (negb (strict_eq value (w_value (watchers s1 !!! w))) || isObject value
            || w_deep (watchers s1 !!! w)); [|done].
  unfold store_value, bind, upd_watcher, the_watcher, gets, modify, try_catch,
    handleError. simpl.
  rewrite !lookup_total_insert_eq. simpl.
  destruct (w_user (watchers s1 !!! w)); done.
Qed.

(** C1 (amended): when a Subject it depends on notifies a computed node,
    the node only sets its dirty flag if its own Subject has no
    subscriber (the getter is not run; [evaluate] recomputes at the next
    read); otherwise it recomputes at once, and it notifies its own Subject
    exactly when the new value is not strictly equal to the old one, or is
    an object or array, or the node is deep. *)
Theorem C1_computed_update (R : Rec) (s : State) (w d : nat) :
  w_computed (watchers s !!! w) = true →
  w_dep (watchers s !!! w) = Some d →
  (subs s !!! d = [] →
     Watcher_update R w s =
       Ok tt (set_watchers (fun m => <[w := with_dirty true (m !!! w)]> m) s)) ∧
  (subs s !!! d ≠ [] →
     match Watcher_get R w s with
     | Ok value s1 =>
         let W1 := watchers s1 !!! w in
         if invoke_test value (w_value W1) (w_deep W1) then
           let s2 := store_value w value s1 in
           w_value (watchers s2 !!! w) = value ∧
           w_dirty (watchers s2 !!! w) = false ∧
           Watcher_update R w s =
             if w_user W1 then
               try_catch (r_notify R d ;; ret tt)
                 (fun e =>
                    W <- the_watcher w ;;
                    handleError e (w_vm W)
                      ("callback for watcher " +:+ quote +:+ w_expression W +:+ quote))
                 s2
             else (r_notify R d ;; ret tt) s2
         else Watcher_update R w s = Ok tt s1
     | Exn e s1 => Watcher_update R w s = Exn e s1
     | Diverge => Watcher_update R w s = Diverge
     end) ∧
  (w_dirty (watchers s !!! w) = false →
     Watcher_evaluate R w s = Ok (w_value (watchers s !!! w)) s) ∧
  (w_dirty (watchers s !!! w) = true →
     ∀ v s1, Watcher_get R w s = Ok v s1 →
             Watcher_evaluate R w s = Ok v (store_value w v s1)).
Proof.
  intros Hc Hd.
  assert (Hupd : Watcher_update R w s =
            if length (subs s !!! d) =? 0
            then Ok tt (set_watchers (fun m => <[w := with_dirty true (m !!! w)]> m) s)
            else Watcher_getAndInvoke R w (fun _ _ => r_notify R d ;; ret VUndef) s).
  { unfold Watcher_update. unfold bind at 1. unfold the_watcher at 1, gets at 1.
    rewrite Hc, Hd. unfold bind at 1. unfold the_subs at 1, gets at 1.
    destruct (length (subs s !!! d) =? 0); done. }
  split; [|split; [|split]].
  - intros Hs. rewrite Hupd, Hs. done.
  - intros Hs. rewrite Hupd.
    destruct (subs s !!! d) as [|x l] eqn:Hl; [done|]. simpl.
    rewrite getAndInvoke_result.
    destruct (Watcher_get R w s) as [value s1|e s1|]; [|done|done].
    cbv zeta. destruct (invoke_test _ _ _); [|done].
    split; [|split].
    + unfold store_value. simpl. by rewrite !lookup_total_insert_eq.
    + unfold store_value. simpl. by rewrite !lookup_total_insert_eq.
    + destruct (w_user (watchers s1 !!! w)).
      * unfold try_catch, bind, ret.
        destruct (r_notify R d (store_value w value s1)); done.
      * unfold bind, ret. destruct (r_notify R d (store_value w value s1)); done.
  - intros Hdirty. unfold Watcher_evaluate, bind, the_watcher, gets, ret.
    by rewrite Hdirty.
  - intros Hdirty v s1 Hget.
    unfold Watcher_evaluate. unfold bind at 1. unfold the_watcher at 1, gets at 1.
    rewrite Hdirty. unfold bind at 1 2. rewrite Hget.
    unfold store_value, bind, upd_watcher, the_watcher, gets, modify, ret. simpl.
    by rewrite !lookup_total_insert_eq.
Qed.

(** Witness for C1: on [computed_page] the computed node 1 has the render
    node 2 as subscriber of its Subject 4. *)
Lemma C1_witness :
  w_computed (watchers computed_page !!! 1) = true ∧
  w_dep (watchers computed_page !!! 1) = Some 4 ∧
  subs computed_page !!! 4 = [2] ∧
  Watcher_evaluate (interp computed_env 20) 1 computed_page
    = Ok (VRef 1) computed_page.
Proof.
  assert (H1 : w_computed (watchers computed_page !!! 1) = true)
    by (vm_compute; reflexivity).
  assert (H2 : w_dep (watchers computed_page !!! 1) = Some 4)
    by (vm_compute; reflexivity).
  split; [exact H1|]. split; [exact H2|]. split; [vm_compute; reflexivity|].
  destruct (C1_computed_update (interp computed_env 20) computed_page 1 4 H1 H2)
    as (_ & _ & Hclean & _).
  rewrite Hclean; [|vm_compute; reflexivity].
  f_equal.
Defined.

(** Counterexample to C1 as stated: the computed node 1 of
    [computed_page] holds the object 1 and recomputes to the very same
    object, which the rule of the property setters counts as unchanged;
    it notifies its own Subject all the same, and the render node 2 that
    subscribes to it is enqueued. *)
Lemma C1_counterexample :
  w_value (watchers computed_page !!! 1) = VRef 1 ∧
  queue computed_page = [] ∧
  setter_unchanged (VRef 1) (VRef 1) = true ∧
  ∃ s', Watcher_update (interp computed_env 20) 1 computed_page = Ok tt s' ∧
        w_value (watchers s' !!! 1) = VRef 1 ∧
        queue s' = [2].
Proof.
  split; [vm_compute; reflexivity|]. split; [vm_compute; reflexivity|].
  split; [vm_compute; reflexivity|].
  eexists. split; [vm_compute; reflexivity|]. split; vm_compute; reflexivity.
Qed.

(** ** The property setter (observer/index.js) *)

Lemma bind_Ok {A B} (m : M A) (k : A → M B) (s s' : State) (a : A) :
  m s = Ok a s' → bind m k s = k a s'.
Proof. intros H. unfold bind. by rewrite H. Qed.

Lemma bind_Exn {A B} (m : M A) (k : A → M B) (s s' : State) (e : jsval) :
  m s = Exn e s' → bind m k s = Exn e s'.
Proof. intros H. unfold bind. by rewrite H. Qed.

Lemma reactiveSetter_result (env : Env) (R : Rec) (c : nat) (newVal : jsval) (s : State) :
  reactiveSetter env R c newVal s =
  (let C := cells s !!! c in
   value <- cell_read R C ;;
   if setter_unchanged newVal value then ret tt
   else
     setter_custom env R C ;;
     setter_store R c C newVal ;;
     childOb <- setter_wrap R C newVal ;;
     upd_cell c (with_childOb childOb) ;;
     r_notify R (c_dep C)) s.
Proof. reflexivity. Qed.

(** C2 (amended): a write of a value identical to the current one (by
    [===], or both not equal to themselves) stops after reading the
    current value: nothing is stored and no Subject is notified.  Any
    other write stores the new value (through the pre-existing setter
    when the property has one), wraps it unless the property is shallow,
    and then calls [notify] of the property's Subject once, as its last
    step. *)
Theorem C2_setter (env : Env) (R : Rec) (c : nat) (newVal value : jsval)
    (s s0 : State) :
  cell_read R (cells s !!! c) s = Ok value s0 →
  (c_getter (cells s !!! c) = None → value = c_val (cells s !!! c) ∧ s0 = s) ∧
  (setter_unchanged newVal value = true →
     reactiveSetter env R c newVal s = Ok tt s0) ∧
  (setter_unchanged newVal value = false →
     ∀ s1 s2 childOb s3,
       setter_custom env R (cells s !!! c) s0 = Ok tt s1 →
       setter_store R c (cells s !!! c) newVal s1 = Ok tt s2 →
       setter_wrap R (cells s !!! c) newVal s2 = Ok childOb s3 →
       let s4 := set_cells (fun m => <[c := with_childOb childOb (m !!! c)]> m) s3 in
       reactiveSetter env R c newVal s = r_notify R (c_dep (cells s !!! c)) s4 ∧
       c_childOb (cells s4 !!! c) = childOb ∧
       (c_setter (cells s !!! c) = None → c_val (cells s2 !!! c) = newVal) ∧
       (c_shallow (cells s !!! c) = true → childOb = None ∧ s3 = s2) ∧
       (c_shallow (cells s !!! c) = false →
          r_observe R newVal false s2 = Ok childOb s3)).
Proof.
  intros Hread. split; [|split].
  - intros Hg. unfold cell_read in Hread. rewrite Hg in Hread.
    by injection Hread as <- <-.
  - intros Hsame. rewrite reactiveSetter_result. cbv zeta.
    rewrite (bind_Ok _ _ _ _ _ Hread). by rewrite Hsame.
  - intros Hdiff s1 s2 childOb s3 Hcustom Hstore Hwrap. cbv zeta.
    split; [|split; [|split; [|split]]].
    + rewrite reactiveSetter_result. cbv zeta.
      rewrite (bind_Ok _ _ _ _ _ Hread). rewrite Hdiff.
      rewrite (bind_Ok _ _ _ _ _ Hcustom).
      rewrite (bind_Ok _ _ _ _ _ Hstore).
      rewrite (bind_Ok _ _ _ _ _ Hwrap).
      reflexivity.
    + simpl. by rewrite lookup_total_insert_eq.
    + intros Hs. unfold setter_store in Hstore. rewrite Hs in Hstore.
      injection Hstore as <-. simpl. by rewrite lookup_total_insert_eq.
    + intros Hs. unfold setter_wrap in Hwrap. rewrite Hs in Hwrap.
      by injection Hwrap as <- <-.
    + intros Hs. unfold setter_wrap in Hwrap. by rewrite Hs in Hwrap.
Qed.

(** Witness for C2: the property [a] of [loop_page] holds 2; writing 2
    again changes nothing. *)
Lemma C2_witness :
  cell_read (interp (loop_env false) 20) (cells (loop_page false) !!! 0)
    (loop_page false) = Ok (VNum 2) (loop_page false) ∧
  reactiveSetter (loop_env false) (interp (loop_env false) 20) 0 (VNum 2)
    (loop_page false) = Ok tt (loop_page false).
Proof.
  assert (H : cell_read (interp (loop_env false) 20) (cells (loop_page false) !!! 0)
                (loop_page false) = Ok (VNum 2) (loop_page false))
    by (vm_compute; reflexivity).
  split; [exact H|].
  destruct (C2_setter (loop_env false) (interp (loop_env false) 20) 0 (VNum 2)
              (VNum 2) (loop_page false) (loop_page false) H) as (_ & Hsame & _).
  apply Hsame. reflexivity.
Defined.

(** Counterexample to C2 as stated: the property [x] of [shallow_page] is
    shallow; assigning the plain object 2 to it stores the object and
    notifies, but does not wrap it, although the object can be wrapped. *)
Lemma C2_counterexample :
  c_shallow (cells shallow_page !!! 0) = true ∧
  ∃ s', js_put (interp shallow_env 20) (VRef 1) (KName "x") (VRef 2) shallow_page
          = Ok tt s' ∧
        c_val (cells s' !!! 0) = VRef 2 ∧
        c_childOb (cells s' !!! 0) = None ∧
        o_ob (heap s' !!! 2) = None ∧
        ∃ ob s'', observe shallow_env (interp shallow_env 20) (VRef 2) false s'
                    = Ok (Some ob) s''.
Proof.
  split; [vm_compute; reflexivity|].
  eexists. split; [vm_compute; reflexivity|].
  split; [vm_compute; reflexivity|]. split; [vm_compute; reflexivity|].
  split; [vm_compute; reflexivity|].
  eexists. eexists. vm_compute. reflexivity.
Qed.

(** ** Evaluation of a node and its failures (watcher.js) *)

Lemma pushTarget_result (t : option nat) (s : State) :
  pushTarget t s = Ok tt (set_target t
    match target s with
    | Some a => set_targetStack (a :: targetStack s) s
    | None => s
    end).
Proof. unfold pushTarget, bind, gets, modify. by destruct (target s). Qed.

Lemma popTarget_result (s : State) : popTarget s = Ok tt (popped s).
Proof. unfold popTarget, popped, bind, gets, modify. by destruct (targetStack s). Qed.

Lemma Watcher_get_result (R : Rec) (w : nat) (s : State) :
  Watcher_get R w s =
  (pushTarget (Some w) ;;
   W <- the_watcher w ;;
   try_finally VUndef
     (try_catch (r_call R (w_getter W) (VRef (w_vm W)) [VRef (w_vm W)])
                (get_catch w (w_vm W)))
     (get_finally R w)) s.
Proof. reflexivity. Qed.

(** The [finally] clause always pops the stack and reconciles. *)
Lemma get_finally_result (R : Rec) (w : nat) (value : jsval) (s s' : State) :
  traversal_returns R w value s s' →
  ∃ s'', get_finally R w value s = Ok tt s'' ∧
         Watcher_cleanupDeps w (popped s') = Ok tt s'' ∧
         target s'' = target (popped s') ∧
         targetStack s'' = targetStack (popped s') ∧
         w_newDeps (watchers s'' !!! w) = [] ∧
         w_newDepIds (watchers s'' !!! w) = ∅ ∧
         w_deps (watchers s'' !!! w) = w_newDeps (watchers s' !!! w) ∧
         w_depIds (watchers s'' !!! w) = w_newDepIds (watchers s' !!! w).
Proof.
  intros Htr.
  destruct (cleanupDeps_result w (popped s')) as (s1 & Hloop & Hres).
  destruct (cleanup_loop w (reverse (w_deps (watchers (popped s') !!! w))) (popped s'))
    as (s1' & Hrun & Hfr & _).
  rewrite Hloop in Hrun. injection Hrun as <-.
  assert (Hw : watchers (popped s') = watchers s').
  { unfold popped. by destruct (targetStack s'). }
  eexists. split; [|split; [exact Hres|]].
  - unfold get_finally. unfold bind at 1. unfold the_watcher at 1, gets at 1.
    unfold traversal_returns in Htr. unfold when.
    destruct (w_deep (watchers s !!! w)).
    + rewrite (bind_Ok _ _ _ _ _ Htr).
      rewrite (bind_Ok _ _ _ _ _ (popTarget_result s')). exact Hres.
    + subst s'. unfold bind at 1. unfold ret at 1.
      rewrite (bind_Ok _ _ _ _ _ (popTarget_result s)). exact Hres.
  - simpl. rewrite !lookup_total_insert_eq. simpl.
    rewrite Hfr. simpl. rewrite Hw. done.
Qed.

Lemma get_after_getter (R : Rec) (w : nat) (s : State) :
  Watcher_get R w s =
  match getter_call R w s with
  | Ok v s1 =>
      match get_finally R w v s1 with
      | Ok _ s3 => Ok v s3
      | Exn e' s3 => Exn e' s3
      | Diverge => Diverge
      end
  | Exn e s1 =>
      if w_user (watchers s1 !!! w) then
        match get_finally R w VUndef
                (emit (EHandleError e (w_vm (watchers s !!! w))
                         (getter_info (watchers s1 !!! w))) s1) with
        | Ok _ s3 => Ok VUndef s3
        | Exn e' s3 => Exn e' s3
        | Diverge => Diverge
        end
      else
        match get_finally R w VUndef s1 with
        | Ok _ s3 => Exn e s3
        | Exn e' s3 => Exn e' s3
        | Diverge => Diverge
        end
  | Diverge => Diverge
  end.
Proof.
  rewrite Watcher_get_result.
  rewrite (bind_Ok _ _ _ _ _ (pushTarget_result (Some w) s)).
  fold (pushed (Some w) s).
  unfold bind at 1. unfold the_watcher at 1, gets at 1.
  assert (HW : watchers (pushed (Some w) s) = watchers s).
  { unfold pushed. by destruct (target s). }
  rewrite HW. unfold getter_call. cbv zeta.
  unfold try_finally, try_catch.
  destruct (r_call R _ _ _ _) as [v s1|e s1|]; [done| |done].
  unfold get_catch. unfold bind at 1. unfold the_watcher at 1, gets at 1.
  destruct (w_user (watchers s1 !!! w)); [|done].
  unfold bind, handleError, modify, ret. done.
Qed.




(** ** [set] (observer/index.js) *)

Lemma splice_set_elem (i : nat) (val : jsval) (l : list jsval) :
  let l' := set_length (Nat.max (length l) i) l in
  take i l' ++ [val] ++ drop (i + (if i <? length l' then 1 else 0)) l'
  = set_elem i val l.
Proof.
  cbv zeta. unfold set_length, set_elem.
  destruct (i <? length l) eqn:Hi.
  - apply Nat.ltb_lt in Hi.
    replace (length l `max` i) with (length l) by lia.
    rewrite (take_ge l (length l)) by lia. rewrite Nat.sub_diag. simpl.
    rewrite app_nil_r.
    rewrite (proj2 (Nat.ltb_lt i (length l))) by lia.
    rewrite Nat.add_1_r. symmetry. by apply insert_take_drop.
  - apply Nat.ltb_ge in Hi.
    replace (length l `max` i) with i by lia.
    rewrite (take_ge l i) by lia.
    assert (Hlen : length (l ++ replicate (i - length l) VUndef) = i).
    { rewrite length_app, length_replicate. lia. }
    rewrite Hlen. rewrite (proj2 (Nat.ltb_ge i i)) by lia.
    rewrite take_ge by lia. rewrite drop_ge by lia.
    by rewrite <- app_assoc.
Qed.

Lemma set_array_native (env : Env) (r : nat) (z : Z) (val : jsval) (s : State) :
  (0 ≤ z)%Z → r < next_ref s →
  Z.to_nat z < length (o_elems (heap s !!! r)) ∨ o_extensible (heap s !!! r) = true →
  ∃ removed s1,
    (upd_object r (fun o =>
       with_elems (set_length (Nat.max (length (o_elems o)) (Z.to_nat z)) (o_elems o)) o) ;;
     original env Msplice r [VNum z; VNum 1; val]) s = Ok removed s1 ∧
    o_elems (heap s1 !!! r) = set_elem (Z.to_nat z) val (o_elems (heap s !!! r)) ∧
    o_ob (heap s1 !!! r) = o_ob (heap s !!! r) ∧
    observers s1 = observers s ∧ subs s1 = subs s ∧ watchers s1 = watchers s ∧
    cells s1 = cells s ∧ log s1 = log s ∧ queue s1 = queue s ∧ has s1 = has s.
Proof.
  intros Hz Hr Hok.
  set (l := o_elems (heap s !!! r)).
  set (l' := set_length (length l `max` Z.to_nat z) l).
  assert (Hlen : length l' = length l `max` Z.to_nat z).
  { unfold l', set_length. rewrite length_app, length_take, length_replicate. lia. }
  unfold original, bind, the_object, upd_object, alloc_object, gets, modify, ret.
  simpl. rewrite lookup_total_insert_eq. simpl. fold l. fold l'.
  rewrite (proj2 (Z.ltb_ge z 0)) by lia.
  replace (Z.to_nat (z `min` Z.of_nat (length l'))) with (Z.to_nat z) by lia.
  match goal with |- context [(?d <? 1) && ?b] =>
    assert (Hc : (d <? 1) && b = false) end.
  { destruct Hok as [Hlt|Hext].
    - fold l in Hlt. apply andb_false_intro1. apply Nat.ltb_ge. lia.
    - rewrite Hext. apply andb_false_r. }
  rewrite Hc.
  eexists _, _. split; [reflexivity|]. simpl.
  rewrite lookup_total_insert_ne by lia.
  rewrite !lookup_total_insert_eq. simpl.
  split; [|done].
  rewrite <- (splice_set_elem (Z.to_nat z) val l). fold l'.
  do 3 f_equal.
  destruct (Z.to_nat z <? length l') eqn:Hi.
  - apply Nat.ltb_lt in Hi. lia.
  - apply Nat.ltb_ge in Hi. lia.
Qed.

(** On an array that is not extensible, [set] at an index beyond the end
    leaves the array with its length grown and throws. *)
Lemma set_array_refused (env : Env) (r : nat) (z : Z) (val : jsval) (s : State) :
  (0 ≤ z)%Z → r < next_ref s →
  length (o_elems (heap s !!! r)) ≤ Z.to_nat z →
  o_extensible (heap s !!! r) = false →
  ∃ s1,
    (upd_object r (fun o =>
       with_elems (set_length (Nat.max (length (o_elems o)) (Z.to_nat z)) (o_elems o)) o) ;;
     original env Msplice r [VNum z; VNum 1; val]) s = Exn TypeError s1 ∧
    o_elems (heap s1 !!! r) = set_length (Z.to_nat z) (o_elems (heap s !!! r)) ∧
    o_ob (heap s1 !!! r) = o_ob (heap s !!! r) ∧
    observers s1 = observers s ∧ subs s1 = subs s ∧ watchers s1 = watchers s ∧
    cells s1 = cells s ∧ log s1 = log s ∧ queue s1 = queue s ∧ has s1 = has s.
Proof.
  intros Hz Hr Hge Hext.
  set (l := o_elems (heap s !!! r)) in *.
  set (l' := set_length (length l `max` Z.to_nat z) l).
  assert (Hlen : length l' = Z.to_nat z).
  { unfold l', set_length. rewrite length_app, length_take, length_replicate. lia. }
  assert (Hl' : l' = set_length (Z.to_nat z) l).
  { unfold l'. f_equal. lia. }
  unfold original, bind, the_object, upd_object, alloc_object, gets, modify, ret, throw.
  simpl. rewrite lookup_total_insert_eq. simpl. fold l. fold l'.
  rewrite (proj2 (Z.ltb_ge z 0)) by lia.
  replace (Z.to_nat (z `min` Z.of_nat (length l'))) with (Z.to_nat z) by lia.
  rewrite Hext.
  match goal with |- context [(?d <? 1) && negb false] =>
    assert (Hd : d = 0) by lia; rewrite Hd end.
  change ((0 <? 1) && negb false) with true. cbv iota. rewrite Nat.add_0_r.
  rewrite (proj2 (Nat.ltb_ge (Z.to_nat z) (length l'))) by lia.
  eexists. split; [reflexivity|]. simpl.
  rewrite lookup_total_insert_eq. simpl.
  split; [|split; [|done]].
  - rewrite app_nil_r. rewrite take_ge by lia. exact Hl'.
  - rewrite lookup_total_insert_ne by lia. by rewrite lookup_total_insert_eq.
Qed.

Lemma set_on_object (env : Env) (R : Rec) (r : nat) (key : pkey) (val : jsval)
    (s : State) :
  set env R (VRef r) key val s =
  (let o := heap s !!! r in
   if o_isArray o && isValidArrayIndex key then
     match key with
     | KNum z => set_array (invoke env R (VRef r) Msplice) r z val
     | KName _ => ret val
     end
   else if key_in key o && negb (in_Object_prototype key) then
     js_put R (VRef r) key val ;; ret val
   else if o_isVue o || negb (vmCount_of s o =? 0) then
     (if negb (production env) then warn WAvoidAddingReactive None else ret tt) ;;
     ret val
   else
     match o_ob o with
     | None => js_put R (VRef r) key val ;; ret val
     | Some ob =>
         let O := observers s !!! ob in
         defineReactive R (ob_value O) key (Some val) None false ;;
         r_notify R (ob_dep O) ;;
         ret val
     end) s.
Proof.
  unfold set. simpl isUndef. simpl isPrimitive. rewrite andb_false_r.
  unfold bind at 1. unfold ret at 1.
  unfold bind at 1. unfold isArray at 1, bind at 1, the_object at 1, gets at 1, ret at 1.
  cbv zeta.
  destruct (o_isArray (heap s !!! r) && isValidArrayIndex key) eqn:Harr.
  - destruct key; reflexivity.
  - unfold bind at 1. unfold the_object at 1, gets at 1.
    destruct (key_in key (heap s !!! r) && negb (in_Object_prototype key)); [done|].
    unfold vmCount_of.
    destruct (o_ob (heap s !!! r)) as [ob|] eqn:Hob.
    + unfold bind at 1. unfold bind at 1. unfold the_observer at 1, gets at 1.
      unfold ret at 1.
      destruct (o_isVue (heap s !!! r) || negb (ob_vmCount (observers s !!! ob) =? 0));
        [done|].
      reflexivity.
    + unfold bind at 1. unfold ret at 1.
      destruct (o_isVue (heap s !!! r) || negb (0 =? 0)); done.
Qed.

Lemma defineReactive_new (R : Rec) (obj : nat) (key : pkey) (val : jsval)
    (s : State) (childOb : option nat) (s1 : State) :
  own_prop key (heap s !!! obj) = None →
  r_observe R val false (with_new_dep s) = Ok childOb s1 →
  definable key (heap s1 !!! obj) = true →
  defineReactive R obj key (Some val) None false s =
    Ok tt (installed obj key val (dep_uid s) childOb s1).
Proof.
  intros Hown Hobs Hdef. unfold defineReactive.
  unfold bind at 1. unfold new_Dep at 1, bind, gets, modify, ret, the_object.
  simpl. rewrite Hown. simpl.
  unfold with_new_dep in Hobs. rewrite Hobs. rewrite Hdef. reflexivity.
Qed.

(** [defineReactive] on an object that cannot take the property. *)
Lemma defineReactive_refused (R : Rec) (obj : nat) (key : pkey) (val : jsval)
    (s : State) (childOb : option nat) (s1 : State) :
  own_prop key (heap s !!! obj) = None →
  r_observe R val false (with_new_dep s) = Ok childOb s1 →
  definable key (heap s1 !!! obj) = false →
  defineReactive R obj key (Some val) None false s = Exn TypeError s1.
Proof.
  intros Hown Hobs Hdef. unfold defineReactive.
  unfold bind at 1. unfold new_Dep at 1, bind, gets, modify, ret, the_object.
  simpl. rewrite Hown. simpl.
  unfold with_new_dep in Hobs. rewrite Hobs. rewrite Hdef. reflexivity.
Qed.

Lemma mutator_result (env : Env) (R : Rec) (m : method) (a ob : nat)
    (args : list jsval) (s s1 s2 : State) (result : jsval) :
  original env m a args s = Ok result s1 →
  o_ob (heap s1 !!! a) = Some ob →
  observe_inserted R m args s1 = Ok tt s2 →
  mutator env R m a args s =
    (r_notify R (ob_dep (observers s2 !!! ob)) ;; ret result) s2.
Proof.
  intros Horig Hob Hobs.
  unfold mutator. rewrite (bind_Ok _ _ _ _ _ Horig).
  unfold bind at 1. unfold the_object at 1, gets at 1. cbv zeta.
  rewrite Hob.
  fold (inserted_args m args). fold (observe_inserted R m args).
  rewrite (bind_Ok _ _ _ _ _ Hobs). reflexivity.
Qed.

Lemma invoke_array (env : Env) (R : Rec) (r : nat) (m : method) (args : list jsval)
    (s : State) :
  o_isArray (heap s !!! r) = true →
  invoke env R (VRef r) m args s =
    if o_intercepted (heap s !!! r) then mutator env R m r args s
    else original env m r args s.
Proof.
  intros Ha. unfold invoke. unfold bind at 1. unfold the_object at 1, gets at 1.
  rewrite Ha. by destruct (o_intercepted (heap s !!! r)).
Qed.




(** ** What a call can do to the scheduler

    Outside [flushSchedulerQueue] the queue, the presence markers, the
    flushing flag and the cursor are only touched by [queueWatcher]; so a
    property of these four that every enqueue preserves is preserved by
    every call of the reactive system, at any nesting depth. *)

Create HintDb keeps.

Section Passive.
Variable P : State → Prop.
Hypothesis P_sched : scheduler_only P.
Hypothesis P_enq : enqueue_stable P.

Lemma keeps_ret {A} (a : A) : keeps P (ret a).
Proof. intros s H. exact H. Qed.

Lemma keeps_throw {A} (e : jsval) : keeps P (throw e : M A).
Proof. intros s H. exact H. Qed.

Lemma keeps_gets {A} (f : State → A) : keeps P (gets f).
Proof. intros s H. exact H. Qed.

Lemma keeps_bind {A B} (m : M A) (k : A → M B) :
  keeps P m → (∀ a, keeps P (k a)) → keeps P (bind m k).
Proof.
  intros Hm Hk s H. unfold bind. specialize (Hm s H).
  destruct (m s) as [a s1|e s1|]; [|done|done]. by apply Hk.
Qed.

Lemma keeps_modify (f : State → State) :
  (∀ s, queue (f s) = queue s ∧ has (f s) = has s ∧
        flushing (f s) = flushing s ∧ index (f s) = index s) →
  keeps P (modify f).
Proof.
  intros Hf s H. simpl. destruct (Hf s) as (H1 & H2 & H3 & H4).
  by apply (P_sched s).
Qed.

Lemma keeps_try_catch {A} (body : M A) (handler : jsval → M A) :
  keeps P body → (∀ e, keeps P (handler e)) → keeps P (try_catch body handler).
Proof.
  intros Hb Hh s H. unfold try_catch. specialize (Hb s H).
  destruct (body s) as [a s1|e s1|]; [done| |done]. by apply Hh.
Qed.

Lemma keeps_try_finally {A} (dflt : A) (body : M A) (fin : A → M unit) :
  keeps P body → (∀ a, keeps P (fin a)) → keeps P (try_finally dflt body fin).
Proof.
  intros Hb Hf s H. unfold try_finally. specialize (Hb s H).
  destruct (body s) as [a s1|e s1|]; [| |done].
  - specialize (Hf a s1 Hb). by destruct (fin a s1).
  - specialize (Hf dflt s1 Hb). by destruct (fin dflt s1).
Qed.

Lemma keeps_for_each {A} (l : list A) (body : A → M unit) :
  (∀ a, keeps P (body a)) → keeps P (for_each l body).
Proof.
  intros Hb. induction l as [|x l IH]; simpl.
  - apply keeps_ret.
  - apply keeps_bind; [apply Hb|]. intros _. exact IH.
Qed.

Lemma keeps_queueWatcher (w : nat) : keeps P (queueWatcher w).
Proof.
  intros s H. destruct (queueWatcher_fields w s) as (s' & Hrun & _).
  rewrite Hrun. by apply (P_enq w s).
Qed.


Ltac keeps_frame := apply keeps_modify; intros ?; repeat split; reflexivity.

Ltac keeps_go :=
  repeat first
    [ assumption
    | progress cbv zeta
    | match goal with
      | |- keeps _ (ret _) => apply keeps_ret
      | |- keeps _ (throw _) => apply keeps_throw
      | |- keeps _ (gets _) => apply keeps_gets
      | |- keeps _ (queueWatcher _) => apply keeps_queueWatcher
      | |- keeps _ (modify _) => keeps_frame
      | |- keeps _ (for_each _ _) => apply keeps_for_each; intros ?
      | |- keeps _ (try_catch _ _) => apply keeps_try_catch; [|intros ?]
      | |- keeps _ (try_finally _ _ _) => apply keeps_try_finally; [|intros ?]
      | |- keeps _ (bind _ _) => apply keeps_bind; [|intros ?]
      | |- keeps _ (if ?b then _ else _) => destruct b
      | |- keeps _ (match ?x with _ => _ end) => destruct x
      end
    | solve [auto with keeps nocore] ].

Lemma keeps_the_watcher (w : nat) : keeps P (the_watcher w).
Proof. unfold the_watcher. keeps_go. Qed.
#[local] Hint Resolve keeps_the_watcher : keeps.

Lemma keeps_upd_watcher (w : nat) (f : watcher → watcher) : keeps P (upd_watcher w f).
Proof. unfold upd_watcher. keeps_go. Qed.
#[local] Hint Resolve keeps_upd_watcher : keeps.

Lemma keeps_the_subs (d : nat) : keeps P (the_subs d).
Proof. unfold the_subs. keeps_go. Qed.
#[local] Hint Resolve keeps_the_subs : keeps.

Lemma keeps_the_object (r : nat) : keeps P (the_object r).
Proof. unfold the_object. keeps_go. Qed.
#[local] Hint Resolve keeps_the_object : keeps.

Lemma keeps_upd_object (r : nat) (f : object → object) : keeps P (upd_object r f).
Proof. unfold upd_object. keeps_go. Qed.
#[local] Hint Resolve keeps_upd_object : keeps.

Lemma keeps_the_cell (c : nat) : keeps P (the_cell c).
Proof. unfold the_cell. keeps_go. Qed.
#[local] Hint Resolve keeps_the_cell : keeps.

Lemma keeps_upd_cell (c : nat) (f : cell → cell) : keeps P (upd_cell c f).
Proof. unfold upd_cell. keeps_go. Qed.
#[local] Hint Resolve keeps_upd_cell : keeps.

Lemma keeps_the_observer (o : nat) : keeps P (the_observer o).
Proof. unfold the_observer. keeps_go. Qed.
#[local] Hint Resolve keeps_the_observer : keeps.

Lemma keeps_upd_observer (o : nat) (f : observer → observer) : keeps P (upd_observer o f).
Proof. unfold upd_observer. keeps_go. Qed.
#[local] Hint Resolve keeps_upd_observer : keeps.

Lemma keeps_the_vm (v : nat) : keeps P (the_vm v).
Proof. unfold the_vm. keeps_go. Qed.
#[local] Hint Resolve keeps_the_vm : keeps.

Lemma keeps_upd_vm (v : nat) (f : component → component) : keeps P (upd_vm v f).
Proof. unfold upd_vm. keeps_go. Qed.
#[local] Hint Resolve keeps_upd_vm : keeps.

Lemma keeps_handleError (e : jsval) (vm : nat) (info : string) : keeps P (handleError e vm info).
Proof. unfold handleError. keeps_go. Qed.
#[local] Hint Resolve keeps_handleError : keeps.

Lemma keeps_warn (w : warning) (vm : option nat) : keeps P (warn w vm).
Proof. unfold warn. keeps_go. Qed.
#[local] Hint Resolve keeps_warn : keeps.

Lemma keeps_new_Dep : keeps P (new_Dep).
Proof. unfold new_Dep. keeps_go. Qed.
#[local] Hint Resolve keeps_new_Dep : keeps.

Lemma keeps_Dep_addSub (d w : nat) : keeps P (Dep_addSub d w).
Proof. unfold Dep_addSub. keeps_go. Qed.
#[local] Hint Resolve keeps_Dep_addSub : keeps.

Lemma keeps_Dep_removeSub (d w : nat) : keeps P (Dep_removeSub d w).
Proof. unfold Dep_removeSub. keeps_go. Qed.
#[local] Hint Resolve keeps_Dep_removeSub : keeps.

Lemma keeps_pushTarget (t : option nat) : keeps P (pushTarget t).
Proof. unfold pushTarget. keeps_go. Qed.
#[local] Hint Resolve keeps_pushTarget : keeps.

Lemma keeps_popTarget : keeps P (popTarget).
Proof. unfold popTarget. keeps_go. Qed.
#[local] Hint Resolve keeps_popTarget : keeps.

Lemma keeps_alloc_object (o : object) : keeps P (alloc_object o).
Proof. unfold alloc_object. keeps_go. Qed.
#[local] Hint Resolve keeps_alloc_object : keeps.

Lemma keeps_alloc_cell (c : cell) : keeps P (alloc_cell c).
Proof. unfold alloc_cell. keeps_go. Qed.
#[local] Hint Resolve keeps_alloc_cell : keeps.

Lemma keeps_alloc_observer (o : observer) : keeps P (alloc_observer o).
Proof. unfold alloc_observer. keeps_go. Qed.
#[local] Hint Resolve keeps_alloc_observer : keeps.

Lemma keeps_isArray (v : jsval) : keeps P (isArray v).
Proof. unfold isArray. destruct v; keeps_go. Qed.
#[local] Hint Resolve keeps_isArray : keeps.

Lemma keeps_Watcher_addDep (w d : nat) : keeps P (Watcher_addDep w d).
Proof. unfold Watcher_addDep. keeps_go. Qed.
#[local] Hint Resolve keeps_Watcher_addDep : keeps.

Lemma keeps_Watcher_cleanupDeps (w : nat) : keeps P (Watcher_cleanupDeps w).
Proof. unfold Watcher_cleanupDeps. unfold for_each_rev; keeps_go. Qed.
#[local] Hint Resolve keeps_Watcher_cleanupDeps : keeps.

Lemma keeps_Dep_depend (d : nat) : keeps P (Dep_depend d).
Proof. unfold Dep_depend. keeps_go. Qed.
#[local] Hint Resolve keeps_Dep_depend : keeps.

Lemma keeps_Watcher_depend (w : nat) : keeps P (Watcher_depend w).
Proof. unfold Watcher_depend. keeps_go. Qed.
#[local] Hint Resolve keeps_Watcher_depend : keeps.

Section PassiveRec.
Variable env : Env.
Variable R : Rec.
Hypothesis HR : Rec_keeps P R.

Lemma keeps_r_call (f : fn) (this : jsval) (args : list jsval) :
  keeps P (r_call R f this args).
Proof. apply HR. Qed.
Lemma keeps_r_notify (d : nat) : keeps P (r_notify R d).
Proof. apply HR. Qed.
Lemma keeps_r_observe (v : jsval) (b : bool) : keeps P (r_observe R v b).
Proof. apply HR. Qed.
Lemma keeps_r_traverse (v : jsval) : keeps P (r_traverse R v).
Proof. apply HR. Qed.
Lemma keeps_r_dependArray (v : jsval) : keeps P (r_dependArray R v).
Proof. apply HR. Qed.
#[local] Hint Resolve keeps_r_call keeps_r_notify keeps_r_observe keeps_r_traverse
  keeps_r_dependArray : keeps.

Lemma keeps_Watcher_get (w : nat) : keeps P (Watcher_get R w).
Proof. unfold Watcher_get. unfold when; keeps_go. Qed.
#[local] Hint Resolve keeps_Watcher_get : keeps.

Lemma keeps_Watcher_getAndInvoke (w : nat) (cb : jsval → list jsval → M jsval) (Hcb : ∀ this args, keeps P (cb this args)) : keeps P (Watcher_getAndInvoke R w cb).
Proof. unfold Watcher_getAndInvoke. keeps_go. Qed.
#[local] Hint Resolve keeps_Watcher_getAndInvoke : keeps.

Lemma keeps_Watcher_run (w : nat) : keeps P (Watcher_run R w).
Proof.
  unfold Watcher_run. keeps_go;
    apply keeps_Watcher_getAndInvoke; intros ? ?; keeps_go.
Qed.
#[local] Hint Resolve keeps_Watcher_run : keeps.

Lemma keeps_Watcher_update (w : nat) : keeps P (Watcher_update R w).
Proof.
  unfold Watcher_update. keeps_go;
    apply keeps_Watcher_getAndInvoke; intros ? ?; keeps_go.
Qed.
#[local] Hint Resolve keeps_Watcher_update : keeps.

Lemma keeps_Watcher_evaluate (w : nat) : keeps P (Watcher_evaluate R w).
Proof. unfold Watcher_evaluate. keeps_go. Qed.
#[local] Hint Resolve keeps_Watcher_evaluate : keeps.

Lemma keeps_Dep_notify (d : nat) : keeps P (Dep_notify R d).
Proof. unfold Dep_notify. keeps_go. Qed.
#[local] Hint Resolve keeps_Dep_notify : keeps.

Lemma keeps_js_get (o : jsval) (k : pkey) : keeps P (js_get R o k).
Proof. unfold js_get. keeps_go. Qed.
#[local] Hint Resolve keeps_js_get : keeps.

Lemma keeps_js_put (o : jsval) (k : pkey) (v : jsval) : keeps P (js_put R o k v).
Proof. unfold js_put. keeps_go. Qed.
#[local] Hint Resolve keeps_js_put : keeps.

Lemma keeps_original (m : method) (r : nat) (args : list jsval) : keeps P (original env m r args).
Proof. unfold original. keeps_go. Qed.
#[local] Hint Resolve keeps_original : keeps.

Lemma keeps_observeArray (items : list jsval) : keeps P (observeArray R items).
Proof. unfold observeArray. keeps_go. Qed.
#[local] Hint Resolve keeps_observeArray : keeps.

Lemma keeps_defineReactive (obj : nat) (key : pkey) (val : option jsval) (cs : option fn) (sh : bool) : keeps P (defineReactive R obj key val cs sh).
Proof. unfold defineReactive. keeps_go. Qed.
#[local] Hint Resolve keeps_defineReactive : keeps.

Lemma keeps_walk (obj : nat) : keeps P (walk R obj).
Proof. unfold walk. keeps_go. Qed.
#[local] Hint Resolve keeps_walk : keeps.

Lemma keeps_new_Observer (value : nat) : keeps P (new_Observer R value).
Proof. unfold new_Observer. keeps_go. Qed.
#[local] Hint Resolve keeps_new_Observer : keeps.

Lemma keeps_observe (value : jsval) (b : bool) : keeps P (observe env R value b).
Proof. unfold observe. keeps_go. Qed.
#[local] Hint Resolve keeps_observe : keeps.

Lemma keeps_dependArray (value : jsval) : keeps P (dependArray R value).
Proof. unfold dependArray. keeps_go. Qed.
#[local] Hint Resolve keeps_dependArray : keeps.

Lemma keeps_reactiveGetter (c : nat) : keeps P (reactiveGetter R c).
Proof. unfold reactiveGetter. keeps_go. Qed.
#[local] Hint Resolve keeps_reactiveGetter : keeps.

Lemma keeps_reactiveSetter (c : nat) (newVal : jsval) : keeps P (reactiveSetter env R c newVal).
Proof. unfold reactiveSetter. keeps_go. Qed.
#[local] Hint Resolve keeps_reactiveSetter : keeps.

Lemma keeps_mutator (m : method) (this : nat) (args : list jsval) : keeps P (mutator env R m this args).
Proof. unfold mutator. keeps_go. Qed.
#[local] Hint Resolve keeps_mutator : keeps.

Lemma keeps_invoke (a : jsval) (m : method) (args : list jsval) : keeps P (invoke env R a m args).
Proof. unfold invoke. keeps_go. Qed.
#[local] Hint Resolve keeps_invoke : keeps.

Lemma keeps_set (target : jsval) (key : pkey) (val : jsval) : keeps P (set env R target key val).
Proof. unfold set. keeps_go. Qed.
#[local] Hint Resolve keeps_set : keeps.

Lemma keeps_computedGetter (w : nat) : keeps P (computedGetter R w).
Proof. unfold computedGetter. keeps_go. Qed.
#[local] Hint Resolve keeps_computedGetter : keeps.

Lemma keeps_traverse (val : jsval) : keeps P (traverse R val).
Proof. unfold traverse. unfold for_each_rev; keeps_go. Qed.
#[local] Hint Resolve keeps_traverse : keeps.

Lemma keeps_getData (data : fn) (vm : nat) : keeps P (getData R data vm).
Proof. unfold getData. keeps_go. Qed.
#[local] Hint Resolve keeps_getData : keeps.

Lemma keeps_exec (c : code) : keeps P (exec env R c).
Proof.
  induction c as [v|e|o k cont IH|o k v cont IH|w cont IH|a m args cont IH
                 |t k v cont IH|tag cont IH].
  - apply keeps_ret.
  - apply keeps_throw.
  - change (keeps P (bind (js_get R o k) (fun v => exec env R (cont v)))).
    keeps_go.
  - change (keeps P (bind (js_put R o k v) (fun _ => exec env R cont))).
    keeps_go.
  - change (keeps P (bind (computedGetter R w) (fun v => exec env R (cont v)))).
    keeps_go.
  - change (keeps P (bind (invoke env R a m args) (fun v => exec env R (cont v)))).
    keeps_go.
  - change (keeps P (bind (set env R t k v) (fun v => exec env R (cont v)))).
    keeps_go.
  - change (keeps P (bind (modify (emit (EUser tag))) (fun _ => exec env R cont))).
    keeps_go.
Qed.
#[local] Hint Resolve keeps_exec : keeps.

Lemma keeps_call (f : fn) (this : jsval) (args : list jsval) :
  keeps P (call env R f this args).
Proof. unfold call. keeps_go. Qed.

End PassiveRec.

Lemma interp_keeps (env : Env) (n : nat) : Rec_keeps P (interp env n).
Proof.
  induction n as [|n IH].
  - repeat split; intros; intros s Hs; exact I.
  - simpl. split; [|split; [|split; [|split]]]; simpl.
    + intros f this args. by apply keeps_call.
    + intros d. by apply keeps_Dep_notify.
    + intros v b. by apply keeps_observe.
    + intros v. by apply keeps_traverse.
    + intros v. by apply keeps_dependArray.
Qed.

End Passive.

Lemma interp_passive (env : Env) (n : nat) : passive (interp env n).
Proof. intros P Hs He. by apply interp_keeps. Qed.

(** ** The flush loop (scheduler.js) *)

Lemma hoare_bind {A B} (Pre Mid Post : State → Prop) (m : M A) (k : A → M B) :
  hoare Pre m Mid → (∀ a, hoare Mid (k a) Post) → hoare Pre (bind m k) Post.
Proof.
  intros Hm Hk s H. unfold bind. specialize (Hm s H).
  destruct (m s) as [a s1|e s1|]; [|done|done]. by apply Hk.
Qed.

Lemma keeps_hoare {A} (P : State → Prop) (m : M A) : keeps P m → hoare P m P.
Proof. intros H s Hs. specialize (H s Hs). by destruct (m s). Qed.

Lemma running_ok_scheduler_only (i : nat) (pre base : list nat) (held : option nat) :
  scheduler_only (running_ok i pre base held).
Proof.
  intros s s' Hq Hh Hf Hi. unfold running_ok. rewrite Hq, Hh, Hf, Hi. done.
Qed.

Lemma sublist_splice (p w : nat) (q : list nat) : sublist q (take p q ++ w :: drop p q).
Proof.
  rewrite <- (take_drop p q) at 1.
  apply sublist_app; [done|]. by apply sublist_cons.
Qed.

Lemma elem_of_take_in {A} (x : A) (k : nat) (l : list A) : x ∈ take k l → x ∈ l.
Proof. intros H. rewrite <- (take_drop k l). apply elem_of_app. by left. Qed.

Lemma elem_of_drop_in {A} (x : A) (k : nat) (l : list A) : x ∈ drop k l → x ∈ l.
Proof. intros H. rewrite <- (take_drop k l). apply elem_of_app. by right. Qed.

Lemma running_ok_enqueue_stable (i : nat) (pre base : list nat) (held : option nat) :
  enqueue_stable (running_ok i pre base held).
Proof.
  intros w s s' Hrun (Hfl & Hi & Hlen & Hpre & Hsort & Hhas & Hsub & Hheld).
  assert (Hpres : presence_ok s).
  { split; unfold unrun; rewrite Hfl, Hi; [done|].
    clear -Hsort. induction Hsort as [|x l Hl IH Hx]; constructor; [|done].
    intros Hin. rewrite Forall_forall in Hx. specialize (Hx _ Hin). lia. }
  destruct (queueWatcher_spec s w Hpres) as (s1 & Hrun1 & _ & Hsame & Hnew).
  { intros _. by rewrite Hi. }
  rewrite Hrun in Hrun1. injection Hrun1 as <-.
  destruct (decide (w ∈ has s)) as [Hin|Hin].
  { rewrite (Hsame Hin). done. }
  destruct (Hnew Hin) as (Hh & Hi' & Hf' & Hw & _ & Hflush).
  destruct (Hflush Hfl) as (Htake & k & Hk & Hq & Hun & _ & Hlt).
  unfold unrun in Hun, Hlt. rewrite Hf', Hfl, Hi', Hi in Hun, Hlt.
  rewrite Hi in Htake, Hq. clear Hw.
  unfold running_ok. rewrite Hf', Hi', Hi, Hh.
  split; [done|]. split; [done|]. split.
  { rewrite Hq. rewrite length_app. simpl. rewrite length_take, length_drop. lia. }
  split; [by rewrite Htake|]. split; [by apply Hlt|]. split.
  { intros x. rewrite Hun. intros Hx. apply elem_of_union.
    apply elem_of_app in Hx as [Hx|[->|Hx]%elem_of_cons].
    - right. apply Hhas. by eapply elem_of_take_in.
    - left. by apply elem_of_singleton.
    - right. apply Hhas. by eapply elem_of_drop_in. }
  split.
  { rewrite Hq. etrans; [exact Hsub|]. apply sublist_splice. }
  intros c Hc. destruct (Hheld c Hc) as [Hc1 Hc2]. split.
  - apply elem_of_union. by right.
  - rewrite Hun. intros Hx.
    apply elem_of_app in Hx as [Hx|[->|Hx]%elem_of_cons].
    + apply Hc2. by eapply elem_of_take_in.
    + done.
    + apply Hc2. by eapply elem_of_drop_in.
Qed.

Lemma step_at_hoare (env : Env) (R : Rec) (i : nat) (pre base : list nat) (cur : nat) :
  passive R →
  hoare (running_ok i pre base (Some cur)) (step_at env R cur)
        (running_ok i pre base None).
Proof.
  intros HR.
  pose proof (running_ok_scheduler_only i pre base (Some cur)) as Hs1.
  pose proof (running_ok_enqueue_stable i pre base (Some cur)) as He1.
  pose proof (running_ok_scheduler_only i pre base None) as Hs2.
  pose proof (running_ok_enqueue_stable i pre base None) as He2.
  pose proof (HR _ Hs1 He1) as HR1. pose proof (HR _ Hs2 He2) as HR2.
  unfold step_at.
  eapply hoare_bind; [apply keeps_hoare, keeps_the_watcher|]. intros W.
  eapply (hoare_bind _ (running_ok i pre base (Some cur))).
  { apply keeps_hoare. destruct (w_before W).
    - apply keeps_bind; [apply HR1|]. intros _. apply keeps_ret.
    - apply keeps_ret. }
  intros _. cbv zeta.
  eapply (hoare_bind _ (running_ok i pre base None)).
  { intros s (Hfl & Hi & Hlen & Hpre & Hsort & Hhas & Hsub & Hheld). simpl.
    destruct (Hheld cur eq_refl) as [Hc1 Hc2].
    split; [done|]. split; [done|]. split; [done|]. split; [done|].
    split; [done|]. split; [|split; [done|done]].
    intros x Hx. apply elem_of_difference. split; [by apply Hhas|].
    intros ->%elem_of_singleton. done. }
  intros _.
  eapply hoare_bind; [apply keeps_hoare; by apply keeps_Watcher_run|]. intros _.
  apply keeps_hoare.
  apply keeps_bind; [apply keeps_gets|]. intros h.
  destruct (negb (production env) && bool_decide (cur ∈ h)); [|apply keeps_ret].
  apply keeps_bind; [apply keeps_gets|]. intros c. cbv zeta.
  apply keeps_bind.
  { apply keeps_modify; [done|]. intros s. done. }
  intros _.
  destruct (MAX_UPDATE_COUNT <? default 0 (c !! cur) + 1); [|apply keeps_ret].
  apply keeps_bind; [apply keeps_the_watcher|]. intros W'.
  apply keeps_bind; [by apply keeps_warn|]. intros _. apply keeps_ret.
Qed.

Lemma flush_step_at (env : Env) (R : Rec) (s : State) :
  flush_step env R s = step_at env R (queue s !!! index s) s.
Proof. reflexivity. Qed.

Lemma flush_next_ok (env : Env) (R : Rec) (s s2 : State) :
  passive R → head_ok s → flush_next env R s s2 →
  head_ok s2 ∧ index s2 = S (index s) ∧
  take (S (index s)) (queue s2) = take (S (index s)) (queue s) ∧
  sublist (queue s) (queue s2) ∧
  (∀ x, x ∈ drop (S (index s)) (queue s) → queue s !!! index s < x).
Proof.
  intros HR (Hfl & Hsort & Hhas) (Hlen & s' & Hstep & ->).
  destruct (lookup_lt_is_Some_2 (queue s) (index s) Hlen) as [cur Hcur].
  assert (Hcur' : queue s !!! index s = cur) by (by apply list_lookup_total_correct).
  rewrite (drop_S _ _ _ Hcur) in Hsort, Hhas.
  apply StronglySorted_cons in Hsort as [Hlt Hsort].
  rewrite Forall_forall in Hlt.
  assert (H1 : running_ok (index s) (take (S (index s)) (queue s)) (queue s)
                 (Some cur) s).
  { split; [done|]. split; [done|]. split; [done|]. split; [done|].
    split; [done|]. split.
    { intros x Hx. apply Hhas. apply elem_of_cons. by right. }
    split; [done|]. intros c [= <-]. split.
    - apply Hhas. apply elem_of_cons. by left.
    - intros Hin. specialize (Hlt _ Hin). lia. }
  pose proof (step_at_hoare env R _ _ _ cur HR s H1) as H2.
  rewrite flush_step_at, Hcur' in Hstep. rewrite Hstep in H2.
  destruct H2 as (Hfl' & Hi' & Hlen' & Hpre' & Hsort' & Hhas' & Hsub' & _).
  split; [|split; [|split; [|split]]].
  - split; [done|]. simpl. rewrite Hi'. done.
  - simpl. by rewrite Hi'.
  - done.
  - done.
  - rewrite Hcur'. intros x Hx. by apply Hlt.
Qed.

Lemma sorted_le_nodup_lt (l : list nat) :
  StronglySorted (≤) l → NoDup l → StronglySorted (<) l.
Proof.
  induction 1 as [|x l Hl IH Hx]; intros Hnd; [constructor|].
  apply NoDup_cons in Hnd as [Hx' Hnd].
  constructor; [by apply IH|].
  rewrite Forall_forall in *. intros y Hy. specialize (Hx y Hy).
  assert (x ≠ y) by (by intros ->). lia.
Qed.

Lemma prologue_ok (s0 : State) :
  presence_ok s0 → flushing s0 = false →
  ∃ start, flush_prologue s0 = Ok tt start ∧
           queue start ≡ₚ queue s0 ∧ StronglySorted (<) (queue start) ∧
           index start = 0 ∧ head_ok start.
Proof.
  intros [Hsub Hnd] Hfl. unfold unrun in Hsub, Hnd. rewrite Hfl in Hsub, Hnd.
  eexists. split; [reflexivity|]. simpl.
  assert (Hperm : sort_queue (queue s0) ≡ₚ queue s0)
    by apply merge_sort_Permutation.
  assert (Hsorted : StronglySorted (<) (sort_queue (queue s0))).
  { apply sorted_le_nodup_lt.
    - apply (StronglySorted_merge_sort (≤)).
    - by rewrite Hperm. }
  split; [done|]. split; [done|]. split; [done|].
  split; [done|]. simpl. split; [done|].
  intros x Hx. apply Hsub. by rewrite <- Hperm.
Qed.

Lemma flush_heads (env : Env) (R : Rec) (start s : State) :
  passive R → head_ok start →
  rtc (flush_next env R) start s →
  head_ok s ∧ sublist (queue start) (queue s).
Proof.
  intros HR Hstart Hrtc. induction Hrtc as [s|s s1 s2 Hnext _ IH].
  - done.
  - destruct (flush_next_ok env R s s1 HR Hstart Hnext) as (H1 & _ & _ & Hsub & _).
    destruct (IH H1) as [H2 Hsub2]. split; [done|]. by etrans.
Qed.

Lemma flush_loop_next (env : Env) (R : Rec) (fuel : nat) (s s' : State) :
  index s < length (queue s) →
  flush_step env R s = Ok true s' →
  flush_loop env R (S fuel) s = flush_loop env R fuel (set_index (S (index s')) s').
Proof.
  intros Hlen Hstep. simpl. unfold bind at 1. unfold gets at 1.
  unfold bind at 1. unfold gets at 1.
  rewrite (proj2 (Nat.ltb_lt _ _) Hlen).
  rewrite (bind_Ok _ _ _ _ _ Hstep). reflexivity.
Qed.

(** C4: the flush sorts the queue into strictly ascending order of
    identity before it iterates; at every head of the loop the entries
    from the cursor on ascend strictly, so the node that runs next has the
    smallest identity of all nodes that have not run; an iteration moves
    the cursor by one and leaves the entries up to the cursor as they
    are, nodes enqueued meanwhile being placed among the remaining ones
    only.  Of two nodes invalidated together, the one created first
    reacts first, also when it was enqueued last. *)
Theorem C4_flush_order (env : Env) (n : nat) (s0 : State) :
  presence_ok s0 → flushing s0 = false →
  ∃ start, flush_prologue s0 = Ok tt start ∧
    queue start ≡ₚ queue s0 ∧ StronglySorted (<) (queue start) ∧
    index start = 0 ∧
    (∀ s, rtc (flush_next env (interp env n)) start s →
          head_ok s ∧ sublist (queue start) (queue s)) ∧
    (∀ s s2, rtc (flush_next env (interp env n)) start s →
             flush_next env (interp env n) s s2 →
             index s2 = S (index s) ∧
             take (S (index s)) (queue s2) = take (S (index s)) (queue s) ∧
             (∀ x, x ∈ drop (S (index s)) (queue s) → queue s !!! index s < x)) ∧
    (∀ fuel s s', index s < length (queue s) →
                  flush_step env (interp env n) s = Ok true s' →
                  flush_loop env (interp env n) (S fuel) s =
                  flush_loop env (interp env n) fuel (set_index (S (index s')) s')) ∧
    (∃ s', flushSchedulerQueue order_env (interp order_env 20) 10 order_page
             = Ok tt s' ∧
           log s' = [ENextTick; EUser (VStr "n1"); EUser (VStr "n2")]) ∧
    (queue order_page_ba = [2; 1] ∧
     ∃ s', flushSchedulerQueue order_env (interp order_env 20) 10 order_page_ba
             = Ok tt s' ∧
           log s' = [ENextTick; EUser (VStr "n1"); EUser (VStr "n2")]).
Proof.
  intros Hpres Hfl.
  destruct (prologue_ok s0 Hpres Hfl) as (start & Hrun & Hperm & Hsort & Hidx & Hhead).
  exists start. split; [done|]. split; [done|]. split; [done|]. split; [done|].
  pose proof (interp_passive env n) as HR.
  split; [|split; [|split; [|split]]].
  - intros s Hrtc. by apply (flush_heads env (interp env n) start s).
  - intros s s2 Hrtc Hnext.
    destruct (flush_heads env _ start s HR Hhead Hrtc) as [Hs _].
    destruct (flush_next_ok env _ s s2 HR Hs Hnext) as (_ & H1 & H2 & _ & H3).
    done.
  - intros fuel s s'. apply flush_loop_next.
  - eexists. split; [vm_compute; reflexivity|]. vm_compute. reflexivity.
  - split; [vm_compute; reflexivity|].
    eexists. split; [vm_compute; reflexivity|]. vm_compute. reflexivity.
Qed.


Lemma order_page_ba_ok : presence_ok order_page_ba.
Proof.
  assert (Hq : unrun order_page_ba = [2; 1]) by (vm_compute; reflexivity).
  assert (Hh : has order_page_ba = {[1; 2]}) by (vm_compute; reflexivity).
  split; rewrite Hq.
  - rewrite Hh. clear. intros x Hx. set_solver.
  - clear. repeat constructor; set_solver.
Qed.

Lemma C4_witness :
  presence_ok order_page_ba ∧ flushing order_page_ba = false ∧
  ∃ start, flush_prologue order_page_ba = Ok tt start ∧
           StronglySorted (<) (queue start) ∧ queue start = [1; 2].
Proof.
  assert (Hfl : flushing order_page_ba = false) by (vm_compute; reflexivity).
  split; [exact order_page_ba_ok|]. split; [exact Hfl|].
  destruct (C4_flush_order order_env 20 order_page_ba order_page_ba_ok Hfl)
    as (start & Hrun & _ & Hsort & _).
  exists start. split; [exact Hrun|]. split; [exact Hsort|].
  clear Hsort Hfl. vm_compute in Hrun. injection Hrun as <-. reflexivity.
Defined.


(** ** The check against circular updates *)

Lemma bind_assoc {A B C} (m : M A) (k : A → M B) (k' : B → M C) (s : State) :
  bind (bind m k) k' s = bind m (fun a => bind (k a) k') s.
Proof. unfold bind. by destruct (m s). Qed.

Lemma bind_ext {A B} (m : M A) (k k' : A → M B) (s : State) :
  (∀ a s', k a s' = k' a s') → bind m k s = bind m k' s.
Proof. intros H. unfold bind. destruct (m s); [apply H|done|done]. Qed.

Lemma step_at_split (env : Env) (R : Rec) (id : nat) (s : State) :
  step_at env R id s = (run_at R id ;; check_at env id) s.
Proof.
  symmetry. unfold step_at, run_at. cbv zeta.
  etrans; [apply bind_assoc|]. apply bind_ext. intros W s0.
  etrans; [apply bind_assoc|]. apply bind_ext. intros [] s1.
  etrans; [apply bind_assoc|]. apply bind_ext. intros [] s2.
  reflexivity.
Qed.

Lemma check_at_result (env : Env) (id : nat) (s : State) :
  production env = false →
  check_at env id s =
  if bool_decide (id ∈ has s) then
    if MAX_UPDATE_COUNT <? default 0 (circular s !! id) + 1
    then Ok false (emit (diagnostic id s) (count_up id s))
    else Ok true (count_up id s)
  else Ok true s.
Proof.
  intros Hdev. unfold check_at. cbv zeta. rewrite Hdev.
  unfold bind at 1. unfold gets at 1. simpl negb. rewrite andb_true_l.
  destruct (bool_decide (id ∈ has s)); [|done].
  unfold bind at 1. unfold gets at 1.
  unfold bind at 1. unfold modify at 1.
  fold (count_up id s).
  destruct (MAX_UPDATE_COUNT <? default 0 (circular s !! id) + 1); done.
Qed.

Lemma check_at_production (env : Env) (id : nat) (s : State) :
  production env = true → check_at env id s = Ok true s.
Proof. intros Hprod. unfold check_at. cbv zeta. by rewrite Hprod. Qed.

Lemma flush_loop_break (env : Env) (R : Rec) (fuel : nat) (s s' : State) :
  index s < length (queue s) →
  flush_step env R s = Ok false s' →
  flush_loop env R (S fuel) s = Ok tt s'.
Proof.
  intros Hlen Hstep. simpl. unfold bind at 1. unfold gets at 1.
  unfold bind at 1. unfold gets at 1.
  rewrite (proj2 (Nat.ltb_lt _ _) Hlen).
  rewrite (bind_Ok _ _ _ _ _ Hstep). reflexivity.
Qed.


(** C5 (amended): in a build that is not the production build, the check
    that follows the run of the node at the cursor looks at the node's
    own presence marker.  If the marker is not set again, nothing is
    counted.  If it is (the node was enqueued again during its own run),
    the node's counter goes up by one; as long as the counter stays
    within [MAX_UPDATE_COUNT] the loop goes on with the next entry, and
    once it exceeds it the scheduler reports the diagnostic, which
    carries the node's [user] flag, its expression and its component,
    and the loop ends without advancing the cursor.  The watch that
    rewrites its own dependency is stopped in its 101st run with exactly
    one diagnostic, and the flush then resets the scheduler. *)
Theorem C5_runaway_guard (env : Env) (R : Rec) (s s1 : State) (id : nat) :
  production env = false →
  index s < length (queue s) →
  queue s !!! index s = id →
  run_at R id s = Ok tt s1 →
  (id ∉ has s1 →
     flush_step env R s = Ok true s1 ∧
     ∀ fuel, flush_loop env R (S fuel) s =
             flush_loop env R fuel (set_index (S (index s1)) s1)) ∧
  (id ∈ has s1 → default 0 (circular s1 !! id) < MAX_UPDATE_COUNT →
     flush_step env R s = Ok true (count_up id s1) ∧
     ∀ fuel, flush_loop env R (S fuel) s =
             flush_loop env R fuel (set_index (S (index s1)) (count_up id s1))) ∧
  (id ∈ has s1 → MAX_UPDATE_COUNT ≤ default 0 (circular s1 !! id) →
     flush_step env R s = Ok false (emit (diagnostic id s1) (count_up id s1)) ∧
     ∀ fuel, flush_loop env R (S fuel) s =
             Ok tt (emit (diagnostic id s1) (count_up id s1))) ∧
  circular (count_up id s1) !! id = Some (default 0 (circular s1 !! id) + 1) ∧
  log (emit (diagnostic id s1) (count_up id s1)) =
    log s1 ++ [EWarn (WInfiniteLoop (w_user (watchers s1 !!! id))
                                    (w_expression (watchers s1 !!! id)))
                     (Some (w_vm (watchers s1 !!! id)))] ∧
  index (emit (diagnostic id s1) (count_up id s1)) = index s1 ∧
  queue (emit (diagnostic id s1) (count_up id s1)) = queue s1 ∧
  (∃ s', flush_steps (loop_env false) (interp (loop_env false) 20) 100
           (loop_start false) = Ok true s' ∧
         log s' = [ENextTick] ∧ circular s' !! 1 = Some 100) ∧
  (∃ s', flush_steps (loop_env false) (interp (loop_env false) 20) 101
           (loop_start false) = Ok false s' ∧
         index s' = 100 ∧ circular s' !! 1 = Some 101) ∧
  (∃ s', flushSchedulerQueue (loop_env false) (interp (loop_env false) 20) 200
           (loop_page false) = Ok tt s' ∧
         log s' = [ENextTick; EWarn (WInfiniteLoop true "a") (Some 0)] ∧
         c_val (cells s' !!! 0) = VNum 103 ∧
         queue s' = [] ∧ flushing s' = false).
Proof.
  intros Hdev Hlen Hid Hrun.
  assert (Hstep : flush_step env R s = check_at env id s1).
  { rewrite flush_step_at, Hid, step_at_split.
    by rewrite (bind_Ok _ _ _ _ _ Hrun). }
  rewrite (check_at_result env id s1 Hdev) in Hstep.
  split; [|split; [|split; [|split; [|split; [|split; [|split]]]]]].
  - intros Hn. rewrite bool_decide_eq_false_2 in Hstep by done.
    split; [done|]. intros fuel. by apply flush_loop_next.
  - intros Hin Hlt. rewrite bool_decide_eq_true_2 in Hstep by done.
    rewrite (proj2 (Nat.ltb_ge _ _)) in Hstep by lia.
    split; [done|]. intros fuel.
    by rewrite (flush_loop_next env R fuel s _ Hlen Hstep).
  - intros Hin Hge. rewrite bool_decide_eq_true_2 in Hstep by done.
    rewrite (proj2 (Nat.ltb_lt _ _)) in Hstep by lia.
    split; [done|]. intros fuel. by apply flush_loop_break.
  - simpl. by rewrite lookup_insert_eq.
  - reflexivity.
  - reflexivity.
  - reflexivity.
  - clear. split; [|split].
    + eexists. split; [vm_compute; reflexivity|].
      split; vm_compute; reflexivity.
    + eexists. split; [vm_compute; reflexivity|].
      split; vm_compute; reflexivity.
    + eexists. split; [vm_compute; reflexivity|].
      split; [vm_compute; reflexivity|].
      split; [vm_compute; reflexivity|].
      split; vm_compute; reflexivity.
Qed.

Lemma C5_witness :
  production (loop_env false) = false ∧
  index loop_at_threshold < length (queue loop_at_threshold) ∧
  queue loop_at_threshold !!! index loop_at_threshold = 1 ∧
  run_at (interp (loop_env false) 20) 1 loop_at_threshold = Ok tt loop_ran ∧
  flush_step (loop_env false) (interp (loop_env false) 20) loop_at_threshold =
    Ok false (emit (diagnostic 1 loop_ran) (count_up 1 loop_ran)) ∧
  diagnostic 1 loop_ran = EWarn (WInfiniteLoop true "a") (Some 0).
Proof.
  assert (H1 : production (loop_env false) = false) by reflexivity.
  assert (H2 : index loop_at_threshold < length (queue loop_at_threshold))
    by (vm_compute; apply le_n).
  assert (H3 : queue loop_at_threshold !!! index loop_at_threshold = 1)
    by (vm_compute; reflexivity).
  assert (H4 : run_at (interp (loop_env false) 20) 1 loop_at_threshold =
               Ok tt loop_ran) by (vm_compute; reflexivity).
  assert (H5 : bool_decide (1 ∈ has loop_ran) = true) by (vm_compute; reflexivity).
  assert (H6 : MAX_UPDATE_COUNT ≤ default 0 (circular loop_ran !! 1))
    by (vm_compute; apply le_n).
  split; [exact H1|]. split; [exact H2|]. split; [exact H3|]. split; [exact H4|].
  split; [|vm_compute; reflexivity].
  exact (proj1 (proj1 (proj2 (proj2
    (C5_runaway_guard (loop_env false) (interp (loop_env false) 20)
       loop_at_threshold loop_ran 1 H1 H2 H3 H4)))
    (bool_decide_eq_true_1 _ H5) H6)).
Defined.

(** C5 (as stated): two watches that invalidate each other are each
    enqueued again by the run of the other, never during their own run:
    after 250 iterations of one flush, in a build that is not the
    production build, node 1 has run 125 times, no counter was ever
    touched, no diagnostic was reported and the loop is still going.  In
    the production build the watch that rewrites its own dependency has
    run 150 times within one flush, with no diagnostic either. *)
Lemma C5_counterexample :
  production pingpong_env = false ∧
  (∃ s', (flush_prologue ;;
          flush_steps pingpong_env (interp pingpong_env 20) 250) pingpong_page =
         Ok true s' ∧
         queue s' = mjoin (replicate 125 [1; 2]) ++ [1] ∧
         index s' = 250 ∧
         circular s' = ∅ ∧
         log s' = [ENextTick]) ∧
  flushSchedulerQueue pingpong_env (interp pingpong_env 20) 250 pingpong_page =
    Diverge ∧
  production (loop_env true) = true ∧
  (∃ s', (flush_prologue ;;
          flush_steps (loop_env true) (interp (loop_env true) 20) 150)
           (loop_page true) = Ok true s' ∧
         queue s' = replicate 151 1 ∧
         index s' = 150 ∧
         log s' = [ENextTick]).
Proof.
  split; [reflexivity|]. split.
  { eexists. split; [vm_compute; reflexivity|].
    split; [vm_compute; reflexivity|].
    split; [vm_compute; reflexivity|].
    split; vm_compute; reflexivity. }
  split; [vm_compute; reflexivity|].
  split; [reflexivity|].
  eexists. split; [vm_compute; reflexivity|].
  split; [vm_compute; reflexivity|].
  split; vm_compute; reflexivity.
Qed.


(** ** Further properties of dep.js, watcher.js and state.js *)

Lemma State_eta (s : State) :
  MkState (heap s) (next_ref s) (cells s) (next_cell s) (observers s) (next_ob s)
    (subs s) (dep_uid s) (watchers s) (watcher_uid s) (vms s) (target s)
    (targetStack s) (shouldObserve s) (queue s) (activatedChildren s) (has s)
    (circular s) (waiting s) (flushing s) (index s) (log s) = s.
Proof. by destruct s. Qed.

Lemma push_pop_state (x : nat) (s : State) :
  is_Some (target s) ∨ targetStack s = [] →
  popped (pushed (Some x) s) = s.
Proof.
  intros H. unfold popped, pushed. destruct s as [? ? ? ? ? ? ? ? ? ? ? t st ? ? ? ? ? ? ? ? ?].
  simpl in *. destruct t as [a|]; simpl; [done|].
  destruct H as [[? ?]| ->]; done.
Qed.

Lemma pop_times_snoc (n : nat) (s : State) :
  pop_times (S n) s = (pop_times n ;; popTarget) s.
Proof.
  revert s. induction n as [|n IH]; intros s.
  - simpl. unfold bind, ret. cbv beta iota. by rewrite popTarget_result.
  - change (pop_times (S (S n))) with (popTarget ;; pop_times (S n)).
    unfold bind at 1. rewrite popTarget_result. rewrite IH.
    change (pop_times (S n)) with (popTarget ;; pop_times n).
    unfold bind. rewrite popTarget_result. reflexivity.
Qed.

(** X1: evaluations that nest properly are balanced.  Starting with an
    active node, or with an empty stack, pushing any number of nodes and
    popping as many times gives back the very state it started from. *)
Theorem push_all_pop_times (xs : list nat) (s : State) :
  is_Some (target s) ∨ targetStack s = [] →
  (push_all xs ;; pop_times (length xs)) s = Ok tt s.
Proof.
  revert s. induction xs as [|x xs IH]; intros s H; [reflexivity|].
  unfold push_all. simpl for_each. fold (push_all xs).
  unfold bind at 1. unfold bind at 1. rewrite pushTarget_result.
  fold (pushed (Some x) s).
  assert (H1 : is_Some (target (pushed (Some x) s)) ∨
               targetStack (pushed (Some x) s) = []) by (left; by eexists).
  specialize (IH _ H1).
  change (length (x :: xs)) with (S (length xs)).
  unfold bind in IH.
  destruct (push_all xs (pushed (Some x) s)) as [[] s1| |]; [|done|done].
  rewrite pop_times_snoc. unfold bind. rewrite IH.
  rewrite popTarget_result. by rewrite push_pop_state.
Qed.

Lemma push_all_pop_times_witness :
  (push_all [1; 2; 3] ;; pop_times 3) empty_state = Ok tt empty_state.
Proof. apply (push_all_pop_times [1; 2; 3] empty_state). by right. Defined.

(** X2: [getData] does not let a failure of the data function escape.
    The function is called with no active node; when it throws, the
    failure is reported with the tag [data()], a fresh empty object is
    returned in its place, and the [finally] clause has popped the
    stack. *)
Theorem getData_reports_failure (R : Rec) (data : fn) (vm : nat) (e : jsval)
    (s s1 : State) :
  r_call R data (VRef vm) [VRef vm] (pushed None s) = Exn e s1 →
  target (pushed None s) = None ∧
  ∃ s2, getData R data vm s = Ok (VRef (next_ref s1)) s2 ∧
        heap s2 !!! next_ref s1 = plain_object [] ∧
        next_ref s2 = S (next_ref s1) ∧
        log s2 = log s1 ++ [EHandleError e vm "data()"] ∧
        target s2 = target (popped s1) ∧
        targetStack s2 = targetStack (popped s1).
Proof.
  intros Hcall. split; [reflexivity|].
  unfold getData. unfold bind at 1. rewrite pushTarget_result.
  fold (pushed None s). unfold try_finally, try_catch. rewrite Hcall.
  unfold bind at 1. unfold handleError, modify at 1.
  unfold bind at 1. unfold alloc_object. unfold bind at 1. unfold gets at 1.
  unfold bind at 1. unfold modify at 1. unfold bind at 1. unfold modify at 1.
  unfold ret at 1. unfold ret at 1. rewrite popTarget_result.
  eexists. split; [reflexivity|].
  split; [|split; [|split; [|split]]].
  - unfold popped. simpl. destruct (targetStack s1); simpl;
      by rewrite lookup_total_insert_eq.
  - unfold popped. simpl. by destruct (targetStack s1).
  - unfold popped. simpl. by destruct (targetStack s1).
  - unfold popped. simpl. by destruct (targetStack s1).
  - unfold popped. simpl. by destruct (targetStack s1).
Qed.

Lemma getData_reports_failure_witness :
  ∃ s2, getData (interp failing_env 2) (FUser 3) 0 empty_state = Ok (VRef 0) s2 ∧
        log s2 = [EHandleError (VStr "bang") 0 "data()"].
Proof.
  assert (H : r_call (interp failing_env 2) (FUser 3) (VRef 0) [VRef 0]
                (pushed None empty_state) = Exn (VStr "bang") empty_state)
    by reflexivity.
  destruct (getData_reports_failure _ _ _ _ _ _ H)
    as (_ & s2 & Hrun & _ & _ & Hlog & _).
  exists s2. split; [exact Hrun|exact Hlog].
Defined.

(** X3: a computed node is lazy.  Its constructor registers it with the
    component, gives it the next identity and a fresh Subject without
    subscribers, and leaves it dirty with the value [undefined]; the
    getter is not called, whatever the entry points [R] are. *)
Theorem new_Watcher_computed_lazy (env : Env) (R : Rec) (vm : nat) (expOrFn : fn)
    (text : string) (cb : fn) (o : options) (s : State) :
  opt_computed o = true →
  ∃ s', new_Watcher env R vm expOrFn text cb (Some o) false s =
          Ok (S (watcher_uid s)) s' ∧
        w_dirty (watchers s' !!! S (watcher_uid s)) = true ∧
        w_value (watchers s' !!! S (watcher_uid s)) = VUndef ∧
        w_active (watchers s' !!! S (watcher_uid s)) = true ∧
        w_getter (watchers s' !!! S (watcher_uid s)) = expOrFn ∧
        w_deps (watchers s' !!! S (watcher_uid s)) = [] ∧
        w_dep (watchers s' !!! S (watcher_uid s)) = Some (dep_uid s) ∧
        subs s' !!! dep_uid s = [] ∧
        vm_watchers (vms s' !!! vm) = vm_watchers (vms s !!! vm) ++ [S (watcher_uid s)] ∧
        watcher_uid s' = S (watcher_uid s) ∧
        log s' = log s ∧ heap s' = heap s.
Proof.
  intros Hc. unfold new_Watcher. unfold bind at 1. unfold gets at 1.
  cbv beta zeta. simpl default. rewrite Hc.
  remember (S (watcher_uid s)) as this eqn:Hthis.
  unfold bind, gets, modify, upd_vm, upd_watcher, new_Dep, ret. simpl.
  eexists. split; [reflexivity|].
  split; [|split; [|split; [|split; [|split; [|split; [|split; [|split;
    [|split; [|split]]]]]]]]]; simpl; rewrite ?lookup_total_insert_eq; simpl;
    rewrite ?lookup_total_insert_eq; simpl; by rewrite ?lookup_total_insert_eq.
Qed.

Lemma new_Watcher_computed_lazy_witness :
  ∃ s', new_Watcher computed_env bottom 0 (FUser 0) "c" (FUser 2)
          (Some (Options false false true false None)) false empty_state =
          Ok 1 s' ∧
        w_dirty (watchers s' !!! 1) = true.
Proof.
  destruct (new_Watcher_computed_lazy computed_env bottom 0 (FUser 0) "c" (FUser 2)
              (Options false false true false None) empty_state eq_refl)
    as (s' & Hrun & Hd & _).
  exists s'. split; [exact Hrun|exact Hd].
Defined.

(** X4: [evaluate] caches.  Once it has returned a value, the node is
    clean and holds that value, and a further [evaluate] returns the same
    value without calling the getter and without changing the state. *)
Theorem evaluate_caches (R R' : Rec) (w : nat) (v : jsval) (s s' : State) :
  Watcher_evaluate R w s = Ok v s' →
  w_dirty (watchers s' !!! w) = false ∧
  w_value (watchers s' !!! w) = v ∧
  Watcher_evaluate R' w s' = Ok v s'.
Proof.
  intros Hrun.
  assert (H : w_dirty (watchers s' !!! w) = false ∧ w_value (watchers s' !!! w) = v).
  { unfold Watcher_evaluate in Hrun. unfold bind at 1 in Hrun.
    unfold the_watcher at 1, gets at 1 in Hrun.
    destruct (w_dirty (watchers s !!! w)) eqn:Hd.
    - unfold bind at 1 in Hrun. unfold bind at 1 in Hrun.
      destruct (Watcher_get R w s) as [v1 s1| |]; [|done|done].
      unfold bind, upd_watcher, modify, the_watcher, gets, ret in Hrun.
      injection Hrun as <- <-. simpl.
      by rewrite !lookup_total_insert_eq.
    - unfold bind, the_watcher, gets, ret in Hrun.
      by injection Hrun as <- <-. }
  destruct H as [Hd Hv]. split; [done|]. split; [done|].
  unfold Watcher_evaluate, bind, the_watcher, gets, ret. by rewrite Hd, Hv.
Qed.

Lemma evaluate_caches_witness :
  Watcher_evaluate (interp computed_env 20) 1 computed_page =
    Ok (VRef 1) computed_page ∧
  Watcher_evaluate bottom 1 computed_page = Ok (VRef 1) computed_page.
Proof.
  assert (H : Watcher_evaluate (interp computed_env 20) 1 computed_page =
              Ok (VRef 1) computed_page) by (vm_compute; reflexivity).
  split; [exact H|].
  exact (proj2 (proj2 (evaluate_caches _ bottom _ _ _ _ H))).
Defined.

(** X5: reading a clean computed property.  The cached value is
    returned without running the getter; with an active node [t] the
    read is recorded in the current dependency set of [t], and a Subject
    that [t] held in neither of its sets gets [t] as a subscriber; with
    no active node nothing changes. *)
Theorem computedGetter_cached (R : Rec) (w d : nat) (s : State) :
  w_dep (watchers s !!! w) = Some d →
  w_dirty (watchers s !!! w) = false →
  ∃ s', computedGetter R w s = Ok (w_value (watchers s !!! w)) s' ∧
        log s' = log s ∧ heap s' = heap s ∧ queue s' = queue s ∧
        match target s with
        | None => s' = s
        | Some t =>
            d ∈ w_newDepIds (watchers s' !!! t) ∧
            (d ∉ w_newDepIds (watchers s !!! t) →
             d ∉ w_depIds (watchers s !!! t) →
             subs s' !!! d = subs s !!! d ++ [t])
        end.
Proof.
  intros Hdep Hclean. unfold computedGetter, Watcher_depend.
  unfold bind at 1. unfold bind at 1. unfold the_watcher at 1, gets at 1.
  unfold bind at 1. unfold gets at 1. rewrite Hdep.
  destruct (target s) as [t|] eqn:Ht.
  - unfold Dep_depend. unfold bind at 1. unfold gets at 1. rewrite Ht.
    rewrite addDep_result. cbv zeta.
    unfold Watcher_evaluate. unfold bind at 1. unfold the_watcher at 1, gets at 1.
    destruct (decide (d ∈ w_newDepIds (watchers s !!! t))) as [Hin|Hnin].
    + rewrite Hclean. unfold bind, the_watcher, gets, ret.
      eexists. split; [reflexivity|].
      split; [done|]. split; [done|]. split; [done|]. split; [done|].
      intros Hn. by destruct Hn.
    + set (W' := with_depsets _ _ _ _ _).
      assert (Hw : ∀ s1, watchers s1 = <[t := W']> (watchers s) →
                         w_dirty (watchers s1 !!! w) = false ∧
                         w_value (watchers s1 !!! w) = w_value (watchers s !!! w) ∧
                         d ∈ w_newDepIds (watchers s1 !!! t)).
      { intros s1 ->. rewrite lookup_total_insert_eq.
        split; [|split].
        - destruct (decide (t = w)) as [->|Hne].
          + by rewrite lookup_total_insert_eq.
          + by rewrite lookup_total_insert_ne.
        - destruct (decide (t = w)) as [->|Hne].
          + by rewrite lookup_total_insert_eq.
          + by rewrite lookup_total_insert_ne.
        - subst W'. simpl. set_solver. }
      destruct (decide (d ∈ w_depIds (watchers s !!! t))) as [Hold|Hnew].
      * destruct (Hw (set_watchers (fun m => <[t := W']> m) s) eq_refl)
          as (Hd & Hv & Hn).
        rewrite Hd. unfold bind, the_watcher, gets, ret. rewrite Hv.
        eexists. split; [reflexivity|].
        split; [done|]. split; [done|]. split; [done|]. split; [done|].
        intros _ Hc. by destruct Hc.
      * destruct (Hw (set_subs (fun m => <[d := (m !!! d) ++ [t]]> m)
                        (set_watchers (fun m => <[t := W']> m) s)) eq_refl)
          as (Hd & Hv & Hn).
        rewrite Hd. unfold bind, the_watcher, gets, ret. rewrite Hv.
        eexists. split; [reflexivity|].
        split; [done|]. split; [done|]. split; [done|]. split; [done|].
        intros _ _. simpl. by rewrite lookup_total_insert_eq.
  - unfold Watcher_evaluate, bind, the_watcher, gets, ret. rewrite Hclean.
    eexists. by split.
Qed.

Lemma computedGetter_cached_witness :
  ∃ s', computedGetter bottom 1 (set_target (Some 2) computed_page) = Ok (VRef 1) s' ∧
        4 ∈ w_newDepIds (watchers s' !!! 2).
Proof.
  assert (H1 : w_dep (watchers (set_target (Some 2) computed_page) !!! 1) = Some 4)
    by (vm_compute; reflexivity).
  assert (H2 : w_dirty (watchers (set_target (Some 2) computed_page) !!! 1) = false)
    by (vm_compute; reflexivity).
  assert (H3 : w_value (watchers (set_target (Some 2) computed_page) !!! 1) = VRef 1)
    by (vm_compute; reflexivity).
  destruct (computedGetter_cached bottom 1 4 _ H1 H2) as (s' & Hrun & _ & _ & _ & Ht).
  exists s'. rewrite H3 in Hrun. split; [exact Hrun|exact (proj1 Ht)].
Defined.

(** ** Tearing a node down *)

Lemma teardown_loop (w : nat) (l : list nat) (s : State) :
  ∃ s', for_each l (fun dep => Dep_removeSub dep w) s = Ok tt s' ∧
        s' = set_subs (fun _ => subs s') s ∧
        (∀ d, d ∉ l → subs s' !!! d = subs s !!! d) ∧
        (∀ d x, x ∈ subs s' !!! d → x ∈ subs s !!! d) ∧
        (∀ d x, x ≠ w → x ∈ subs s !!! d → x ∈ subs s' !!! d) ∧
        (∀ d, NoDup (subs s !!! d) → NoDup (subs s' !!! d)) ∧
        (∀ d, d ∈ l → NoDup (subs s !!! d) → w ∉ subs s' !!! d).
Proof.
  revert s. induction l as [|dep l IH]; intros s.
  - exists s. split; [done|]. split; [by destruct s|].
    split; [done|]. split; [done|]. split; [done|]. split; [done|].
    intros d Hd. by apply elem_of_nil in Hd.
  - simpl for_each. unfold bind at 1. unfold Dep_removeSub at 1, modify at 1.
    set (s1 := set_subs _ s).
    assert (Hs1 : ∀ d, subs s1 !!! d =
                       if decide (dep = d) then remove w (subs s !!! dep)
                       else subs s !!! d).
    { intros d. subst s1. simpl. destruct (decide (dep = d)) as [->|Hne].
      - by rewrite lookup_total_insert_eq.
      - by rewrite lookup_total_insert_ne. }
    destruct (IH s1) as (s' & Hrun & Heq & Hout & Hsub & Hkeep & Hnd & Hgone).
    exists s'. split; [done|]. split.
    { rewrite Heq. by destruct s. }
    split; [|split; [|split; [|split]]].
    + intros d Hd. apply not_elem_of_cons in Hd as [Hne Hd].
      rewrite (Hout d Hd), Hs1. by destruct (decide (dep = d)).
    + intros d x Hx. apply Hsub in Hx. rewrite Hs1 in Hx.
      destruct (decide (dep = d)) as [->|Hne]; [|done].
      by apply elem_of_remove_inv in Hx.
    + intros d x Hxw Hx. apply Hkeep; [done|]. rewrite Hs1.
      destruct (decide (dep = d)) as [->|Hne]; [|done].
      by apply elem_of_remove_ne.
    + intros d Hd. apply Hnd. rewrite Hs1.
      destruct (decide (dep = d)) as [->|Hne]; [|done].
      by apply NoDup_remove.
    + intros d Hd Hnd' Hin.
      assert (Hnd1 : NoDup (subs s1 !!! d)).
      { rewrite Hs1. destruct (decide (dep = d)) as [->|Hne]; [|done].
        by apply NoDup_remove. }
      destruct (decide (dep = d)) as [->|Hne].
      * apply Hsub in Hin. rewrite Hs1 in Hin.
        destruct (decide (d = d)); [|done].
        by apply (not_elem_of_remove w (subs s !!! d)).
      * apply elem_of_cons in Hd as [->|Hd]; [done|].
        by apply (Hgone d Hd Hnd1).
Qed.

Lemma teardown_result (w : nat) (s : State) :
  w_active (watchers s !!! w) = true →
  ∃ s1, for_each (reverse (w_deps (watchers s !!! w)))
          (fun dep => Dep_removeSub dep w)
          (if vm_isBeingDestroyed (vms s !!! w_vm (watchers s !!! w)) then s
           else set_vms (fun m =>
                  <[w_vm (watchers s !!! w) :=
                      Component (vm_watcher (m !!! w_vm (watchers s !!! w)))
                        (remove w (vm_watchers (m !!! w_vm (watchers s !!! w))))
                        (vm_isMounted (m !!! w_vm (watchers s !!! w)))
                        (vm_isBeingDestroyed (m !!! w_vm (watchers s !!! w)))
                        (vm_inactive (m !!! w_vm (watchers s !!! w)))]> m) s) =
          Ok tt s1 ∧
        Watcher_teardown w s =
          Ok tt (set_watchers (fun m => <[w := with_active false (m !!! w)]> m) s1).
Proof.
  intros Hact. unfold Watcher_teardown.
  unfold bind at 1. unfold the_watcher at 1, gets at 1. rewrite Hact.
  unfold bind at 1. unfold the_vm at 1, gets at 1. unfold bind at 1.
  unfold for_each_rev.
  destruct (vm_isBeingDestroyed (vms s !!! w_vm (watchers s !!! w))); cbn [negb];
    cbv iota.
  - unfold ret at 1. cbv beta iota.
    destruct (teardown_loop w (reverse (w_deps (watchers s !!! w))) s)
      as (s1 & Hrun & _).
    exists s1. split; [done|]. unfold bind. by rewrite Hrun.
  - unfold upd_vm at 1, modify at 1. cbv beta iota.
    match goal with |- context [for_each _ _ ?s0] =>
      destruct (teardown_loop w (reverse (w_deps (watchers s !!! w))) s0)
        as (s1 & Hrun & _) end.
    exists s1. split; [done|]. unfold bind. by rewrite Hrun.
Qed.

(** X6: [teardown] of an active node that is subscribed only to the
    Subjects of its dependency list removes it from every subscriber
    list and leaves the other subscribers alone; the node becomes
    inactive and leaves the watcher list of its component, unless the
    component is being destroyed.  The scheduler is not touched: a node
    that is already queued stays queued. *)
Theorem teardown_unsubscribes (w : nat) (s : State) :
  w_active (watchers s !!! w) = true →
  subs_nodup s →
  (∀ d, w ∈ subs s !!! d → d ∈ w_deps (watchers s !!! w)) →
  ∃ s', Watcher_teardown w s = Ok tt s' ∧
        (∀ d, w ∉ subs s' !!! d) ∧
        (∀ d x, x ≠ w → x ∈ subs s' !!! d ↔ x ∈ subs s !!! d) ∧
        w_active (watchers s' !!! w) = false ∧
        vm_watchers (vms s' !!! w_vm (watchers s !!! w)) =
          (if vm_isBeingDestroyed (vms s !!! w_vm (watchers s !!! w))
           then vm_watchers (vms s !!! w_vm (watchers s !!! w))
           else remove w (vm_watchers (vms s !!! w_vm (watchers s !!! w)))) ∧
        queue s' = queue s ∧ has s' = has s.
Proof.
  intros Hact Hnd Hdeps.
  destruct (teardown_result w s Hact) as (s1 & Hloop & ->).
  set (s0 := if vm_isBeingDestroyed _ then s else _) in Hloop.
  assert (Hs0 : subs s0 = subs s ∧ queue s0 = queue s ∧ has s0 = has s ∧
                watchers s0 = watchers s).
  { subst s0. by destruct (vm_isBeingDestroyed _). }
  destruct Hs0 as (Hsubs0 & Hq0 & Hh0 & Hw0).
  destruct (teardown_loop w (reverse (w_deps (watchers s !!! w))) s0)
    as (s1' & Hrun & Heq & Hout & Hsub & Hkeep & Hnd' & Hgone).
  rewrite Hloop in Hrun. injection Hrun as <-.
  eexists. split; [reflexivity|].
  split; [|split; [|split; [|split; [|split]]]].
  - intros d Hin. simpl in Hin.
    destruct (decide (d ∈ w_deps (watchers s !!! w))) as [Hd|Hd].
    + apply (Hgone d); [by apply elem_of_reverse| |done].
      rewrite Hsubs0. apply Hnd.
    + apply Hd, Hdeps. rewrite <- Hsubs0. by apply Hsub.
  - intros d x Hx. simpl. rewrite <- Hsubs0. split.
    + apply Hsub.
    + by apply Hkeep.
  - simpl. by rewrite lookup_total_insert_eq.
  - rewrite Heq. simpl. subst s0.
    destruct (vm_isBeingDestroyed (vms s !!! w_vm (watchers s !!! w))) eqn:Hb;
      [done|].
    simpl. by rewrite lookup_total_insert_eq.
  - rewrite Heq. simpl. done.
  - rewrite Heq. simpl. done.
Qed.

Lemma teardown_example_subs (d : nat) :
  subs teardown_example !!! d =
  if decide (d = 0) then [1; 2] else if decide (d = 3) then [1] else [].
Proof.
  unfold teardown_example, graph_example. simpl.
  rewrite !lookup_total_insert, lookup_total_empty.
  repeat case_decide; subst; done.
Qed.

Lemma teardown_unsubscribes_witness :
  ∃ s', Watcher_teardown 1 teardown_example = Ok tt s' ∧
        (∀ d, 1 ∉ subs s' !!! d) ∧
        w_active (watchers s' !!! 1) = false.
Proof.
  assert (H1 : w_active (watchers teardown_example !!! 1) = true)
    by (vm_compute; reflexivity).
  assert (H2 : subs_nodup teardown_example).
  { intros d. rewrite teardown_example_subs.
    repeat case_decide; repeat constructor; set_solver. }
  assert (H3 : ∀ d, 1 ∈ subs teardown_example !!! d →
                    d ∈ w_deps (watchers teardown_example !!! 1)).
  { intros d. rewrite teardown_example_subs.
    assert (Hd : w_deps (watchers teardown_example !!! 1) = [0; 3])
      by (vm_compute; reflexivity).
    rewrite Hd. clear. repeat case_decide; subst; set_solver. }
  destruct (teardown_unsubscribes 1 teardown_example H1 H2 H3)
    as (s' & Hrun & Hgone & _ & Hact & _).
  exists s'. split; [exact Hrun|]. split; [exact Hgone|exact Hact].
Defined.

(** X7: a node that was torn down does nothing any more.  Whatever the
    state, [teardown] returns; after it, [run] returns at once without
    calling the getter or the callback, even for a node that is still in
    the queue, and a second [teardown] changes nothing. *)
Theorem teardown_then_run (R : Rec) (w : nat) (s : State) :
  ∃ s', Watcher_teardown w s = Ok tt s' ∧
        Watcher_run R w s' = Ok tt s' ∧
        Watcher_teardown w s' = Ok tt s'.
Proof.
  destruct (w_active (watchers s !!! w)) eqn:Hact.
  - destruct (teardown_result w s Hact) as (s1 & _ & ->).
    eexists. split; [reflexivity|].
    unfold Watcher_run, Watcher_teardown, bind, the_watcher, gets. simpl.
    rewrite lookup_total_insert_eq. simpl. done.
  - exists s. unfold Watcher_run, Watcher_teardown, bind, the_watcher, gets.
    rewrite Hact. done.
Qed.

(** ** Notification of nodes that wait for the flush *)

Lemma update_plain (R : Rec) (w : nat) (s : State) :
  w_computed (watchers s !!! w) = false →
  w_sync (watchers s !!! w) = false →
  Watcher_update R w s = queueWatcher w s.
Proof.
  intros Hc Hs. unfold Watcher_update, bind at 1, the_watcher, gets.
  by rewrite Hc, Hs.
Qed.

Lemma enqueue_all (R : Rec) (l : list nat) (s : State) :
  (∀ w, w ∈ l → w_computed (watchers s !!! w) = false ∧
                w_sync (watchers s !!! w) = false) →
  ∃ s', for_each l (Watcher_update R) s = Ok tt s' ∧
        has s' = has s ∪ list_to_set l ∧
        (flushing s = false → queue s' = queue s ++ admitted (has s) l) ∧
        waiting s' = waiting s || negb (bool_decide (admitted (has s) l = [])) ∧
        log s' = log s ++ (if waiting s || bool_decide (admitted (has s) l = [])
                           then [] else [ENextTick]) ∧
        flushing s' = flushing s ∧ index s' = index s ∧
        watchers s' = watchers s ∧ subs s' = subs s ∧ heap s' = heap s ∧
        cells s' = cells s ∧ observers s' = observers s ∧ target s' = target s.
Proof.
  revert s. induction l as [|w l IH]; intros s Hplain.
  - exists s. split; [done|]. simpl. split; [set_solver|].
    split; [by rewrite app_nil_r|]. split; [by rewrite orb_false_r|].
    split; [|done]. rewrite orb_true_r. by rewrite app_nil_r.
  - simpl for_each. unfold bind at 1.
    destruct (Hplain w) as [Hc Hs]; [by left|].
    rewrite (update_plain R w s Hc Hs), queueWatcher_result.
    set (s1 := if decide (w ∈ has s) then s else _).
    assert (H1 : watchers s1 = watchers s ∧ subs s1 = subs s ∧ heap s1 = heap s ∧
                 cells s1 = cells s ∧ observers s1 = observers s ∧
                 target s1 = target s ∧ flushing s1 = flushing s ∧
                 index s1 = index s ∧
                 has s1 = (if decide (w ∈ has s) then has s else {[w]} ∪ has s) ∧
                 (flushing s = false →
                    queue s1 = if decide (w ∈ has s) then queue s
                               else queue s ++ [w]) ∧
                 waiting s1 = (if decide (w ∈ has s) then waiting s else true) ∧
                 log s1 = if decide (w ∈ has s) then log s
                          else log s ++ (if waiting s then [] else [ENextTick])).
    { subst s1. destruct (decide (w ∈ has s)); [done|].
      cbv zeta. destruct (flushing s) eqn:Hfl, (waiting s) eqn:Hwt; simpl;
        rewrite ?Hfl, ?Hwt, ?app_nil_r; done. }
    clearbody s1.
    destruct H1 as (Hw1 & Hsu1 & Hh1 & Hc1 & Ho1 & Ht1 & Hf1 & Hi1 & Hhas1 & Hq1 &
                    Hwt1 & Hlog1).
    destruct (IH s1) as (s' & Hrun & Hhas & Hq & Hwt & Hlog & Hf & Hi & Hw & Hsu &
                         Hh & Hce & Hob & Ht).
    { intros w' Hw'. rewrite Hw1. apply Hplain. by right. }
    exists s'. split; [done|].
    rewrite Hf, Hi, Hw, Hsu, Hh, Hce, Hob, Ht.
    split; [|split; [|split; [|split; [|done]]]].
    + rewrite Hhas, Hhas1. clear. destruct (decide (w ∈ has s)); set_solver.
    + intros Hfl. rewrite Hfl in Hf1. rewrite (Hq Hf1), (Hq1 Hfl), Hhas1.
      simpl admitted. clear.
      destruct (decide (w ∈ has s)); [done|]. by rewrite <- app_assoc.
    + rewrite Hwt, Hwt1, Hhas1. simpl admitted. clear.
      destruct (decide (w ∈ has s)); [done|]. simpl.
      by rewrite orb_true_r.
    + rewrite Hlog, Hlog1, Hwt1, Hhas1. simpl admitted. clear.
      destruct (decide (w ∈ has s)); [done|]. simpl.
      destruct (waiting s); simpl; by rewrite ?app_nil_r.
Qed.

(** X8: notifying a Subject whose subscribers all wait for the flush
    runs none of them, whatever the entry points [R] are.  Every
    subscriber ends up with its presence marker set; outside a flush the
    queue grows by exactly the subscribers that were not yet marked, in
    subscription order; and a flush is scheduled only if none was
    waiting and at least one subscriber was admitted. *)
Theorem notify_enqueues (R : Rec) (d : nat) (s : State) :
  plain_subscribers s d →
  ∃ s', Dep_notify R d s = Ok tt s' ∧
        has s' = has s ∪ list_to_set (subs s !!! d) ∧
        (flushing s = false →
           queue s' = queue s ++ admitted (has s) (subs s !!! d)) ∧
        log s' = log s ++
          (if waiting s || bool_decide (admitted (has s) (subs s !!! d) = [])
           then [] else [ENextTick]) ∧
        waiting s' =
          waiting s || negb (bool_decide (admitted (has s) (subs s !!! d) = [])) ∧
        watchers s' = watchers s ∧ subs s' = subs s ∧ heap s' = heap s ∧
        cells s' = cells s.
Proof.
  intros Hplain. unfold Dep_notify, bind, the_subs, gets.
  destruct (enqueue_all R (subs s !!! d) s Hplain)
    as (s' & Hrun & Hhas & Hq & Hwt & Hlog & _ & _ & Hw & Hsu & Hh & Hce & _).
  exists s'. done.
Qed.

Lemma notify_enqueues_witness :
  ∃ s', Dep_notify bottom 0 teardown_example = Ok tt s' ∧
        queue s' = [1; 2] ∧ log s' = [ENextTick].
Proof.
  assert (H : plain_subscribers teardown_example 0).
  { intros w. rewrite teardown_example_subs. simpl.
    intros Hw. assert (Hw' : w = 1 ∨ w = 2) by set_solver.
    clear Hw. destruct Hw' as [->| ->]; split; vm_compute; reflexivity. }
  destruct (notify_enqueues bottom 0 teardown_example H)
    as (s' & Hrun & _ & Hq & Hlog & _).
  exists s'. split; [exact Hrun|]. split.
  - rewrite (Hq eq_refl). vm_compute. reflexivity.
  - rewrite Hlog. vm_compute. reflexivity.
Defined.

(** ** Reading and writing a reactive property *)

Lemma observe_non_object (env : Env) (R : Rec) (v : jsval) (b : bool) (s : State) :
  isObject v = false → observe env R v b s = Ok None s.
Proof. by destruct v. Qed.

(** X9: a write that changes a reactive property held by a plain value
    reaches every subscriber at once and runs none of them.  For a
    property without accessor of its own and without custom setter,
    whose subscribers all wait for the flush, writing a value that is
    not an object and differs from the current one stores it, marks
    every subscriber present, and outside a flush appends the
    subscribers not yet marked to the queue. *)
Theorem setter_marks_subscribers (env : Env) (n : nat) (c : nat) (newVal : jsval)
    (s : State) :
  c_getter (cells s !!! c) = None →
  c_setter (cells s !!! c) = None →
  c_customSetter (cells s !!! c) = None →
  isObject newVal = false →
  setter_unchanged newVal (c_val (cells s !!! c)) = false →
  plain_subscribers s (c_dep (cells s !!! c)) →
  ∃ s', reactiveSetter env (interp env (S n)) c newVal s = Ok tt s' ∧
        c_val (cells s' !!! c) = newVal ∧
        has s' = has s ∪ list_to_set (subs s !!! c_dep (cells s !!! c)) ∧
        (flushing s = false →
           queue s' = queue s ++
                      admitted (has s) (subs s !!! c_dep (cells s !!! c))) ∧
        log s' = log s ++
          (if waiting s ||
              bool_decide (admitted (has s) (subs s !!! c_dep (cells s !!! c)) = [])
           then [] else [ENextTick]) ∧
        watchers s' = watchers s ∧ heap s' = heap s.
Proof.
  intros Hg Hst Hcs Hobj Hdiff Hplain.
  rewrite reactiveSetter_result. cbv zeta.
  unfold cell_read. rewrite Hg. unfold bind at 1. unfold ret at 1.
  rewrite Hdiff.
  unfold setter_custom. rewrite Hcs. unfold bind at 1. unfold ret at 1.
  unfold setter_store. rewrite Hst. unfold bind at 1.
  unfold upd_cell at 1, modify at 1.
  unfold bind at 1. unfold setter_wrap.
  set (s1 := set_cells _ s).
  assert (Hw : (if negb (c_shallow (cells s !!! c))
                then r_observe (interp env (S n)) newVal false
                else ret None) s1 = Ok None s1).
  { destruct (c_shallow (cells s !!! c)); [done|].
    simpl. by apply observe_non_object. }
  rewrite Hw. unfold bind at 1. unfold upd_cell at 1, modify at 1.
  set (s2 := set_cells _ s1).
  change (r_notify (interp env (S n)) (c_dep (cells s !!! c)))
    with (Dep_notify (interp env n) (c_dep (cells s !!! c))).
  unfold Dep_notify, bind, the_subs, gets.
  destruct (enqueue_all (interp env n) (subs s2 !!! c_dep (cells s !!! c)) s2)
    as (s' & Hrun & Hhas & Hq & _ & Hlog & _ & _ & Hws & _ & Hh & Hce & _).
  { exact Hplain. }
  exists s'. split; [done|]. split.
  { rewrite Hce. subst s2 s1. simpl. rewrite !lookup_total_insert_eq. done. }
  done.
Qed.

Lemma setter_marks_subscribers_witness :
  ∃ s', reactiveSetter order_env (interp order_env 1) 1 (VNum 5) order_flushed =
          Ok tt s' ∧
        c_val (cells s' !!! 1) = VNum 5 ∧ queue s' = [2].
Proof.
  assert (H1 : c_getter (cells order_flushed !!! 1) = None) by (vm_compute; reflexivity).
  assert (H2 : c_setter (cells order_flushed !!! 1) = None) by (vm_compute; reflexivity).
  assert (H3 : c_customSetter (cells order_flushed !!! 1) = None)
    by (vm_compute; reflexivity).
  assert (H4 : setter_unchanged (VNum 5) (c_val (cells order_flushed !!! 1)) = false)
    by (vm_compute; reflexivity).
  assert (Hd : c_dep (cells order_flushed !!! 1) = 2) by (vm_compute; reflexivity).
  assert (Hs : subs order_flushed !!! 2 = [2]) by (vm_compute; reflexivity).
  assert (Hc : w_computed (watchers order_flushed !!! 2) = false)
    by (vm_compute; reflexivity).
  assert (Hy : w_sync (watchers order_flushed !!! 2) = false)
    by (vm_compute; reflexivity).
  assert (H5 : plain_subscribers order_flushed (c_dep (cells order_flushed !!! 1))).
  { rewrite Hd. intros w. rewrite Hs. intros Hw.
    apply list_elem_of_singleton in Hw. subst w. by split. }
  destruct (setter_marks_subscribers order_env 0 1 (VNum 5) order_flushed
              H1 H2 H3 eq_refl H4 H5) as (s' & Hrun & Hv & _ & Hq & _).
  exists s'. split; [exact Hrun|]. split; [exact Hv|].
  rewrite (Hq eq_refl), Hd, Hs. vm_compute. reflexivity.
Defined.

Lemma addDep_records (t d : nat) (s : State) :
  ∃ s1, Watcher_addDep t d s = Ok tt s1 ∧
        d ∈ w_newDepIds (watchers s1 !!! t) ∧
        (∀ d', d' ∈ w_newDepIds (watchers s !!! t) →
               d' ∈ w_newDepIds (watchers s1 !!! t)) ∧
        (d ∉ w_newDepIds (watchers s !!! t) → d ∉ w_depIds (watchers s !!! t) →
           subs s1 !!! d = subs s !!! d ++ [t]) ∧
        heap s1 = heap s ∧ cells s1 = cells s ∧ observers s1 = observers s ∧
        log s1 = log s ∧ target s1 = target s ∧ queue s1 = queue s ∧
        has s1 = has s.
Proof.
  rewrite addDep_result. cbv zeta. eexists. split; [reflexivity|].
  destruct (decide (d ∈ w_newDepIds (watchers s !!! t))) as [Hin|Hnin].
  { split; [done|]. split; [done|]. split; [|done]. intros H. by destruct H. }
  destruct (decide (d ∈ w_depIds (watchers s !!! t))) as [Hold|Hnew]; simpl;
    rewrite lookup_total_insert_eq; simpl.
  - split; [set_solver|]. split; [set_solver|]. split; [|done].
    intros _ H. by destruct H.
  - split; [set_solver|]. split; [set_solver|]. split; [|done].
    intros _ _. by rewrite lookup_total_insert_eq.
Qed.

(** X10: reading a reactive property records the read.  For a property
    without getter of its own whose value is not an array, the read
    returns the stored value and touches neither the heap nor the
    stored values; with no active node nothing changes at all; with an
    active node [t], the Subject of the property, and the Subject of the
    wrapper of its value if there is one, are in the current dependency
    set of [t] afterwards. *)
Theorem reactiveGetter_records (R : Rec) (c : nat) (s : State) :
  c_getter (cells s !!! c) = None →
  (∀ r, c_val (cells s !!! c) = VRef r → o_isArray (heap s !!! r) = false) →
  ∃ s', reactiveGetter R c s = Ok (c_val (cells s !!! c)) s' ∧
        heap s' = heap s ∧ cells s' = cells s ∧ log s' = log s ∧
        queue s' = queue s ∧
        match target s with
        | None => s' = s
        | Some t =>
            c_dep (cells s !!! c) ∈ w_newDepIds (watchers s' !!! t) ∧
            ∀ ob, c_childOb (cells s !!! c) = Some ob →
                  ob_dep (observers s !!! ob) ∈ w_newDepIds (watchers s' !!! t)
        end.
Proof.
  intros Hg Harr. unfold reactiveGetter.
  unfold bind at 1. unfold the_cell at 1, gets at 1. rewrite Hg.
  unfold bind at 1. unfold ret at 1. unfold bind at 1. unfold bind at 1.
  unfold gets at 1.
  destruct (target s) as [t|] eqn:Ht; [|by exists s].
  unfold bind at 1. unfold Dep_depend at 1, bind at 1, gets at 1. rewrite Ht.
  destruct (addDep_records t (c_dep (cells s !!! c)) s)
    as (s1 & Hrun1 & Hin1 & Hmono1 & _ & Hh1 & Hc1 & Ho1 & Hl1 & Ht1 & Hq1 & _).
  rewrite Hrun1. unfold bind at 1. unfold the_cell at 1, gets at 1. rewrite Hc1.
  destruct (c_childOb (cells s !!! c)) as [ob|] eqn:Hob.
  - unfold bind at 1. unfold the_observer at 1, gets at 1. rewrite Ho1.
    unfold bind at 1. unfold Dep_depend at 1, bind at 1, gets at 1. rewrite Ht1, Ht.
    destruct (addDep_records t (ob_dep (observers s !!! ob)) s1)
      as (s2 & Hrun2 & Hin2 & Hmono2 & _ & Hh2 & Hc2 & Ho2 & Hl2 & Ht2 & Hq2 & _).
    rewrite Hrun2. unfold bind at 1.
    assert (HisA : isArray (c_val (cells s !!! c)) s2 = Ok false s2).
    { unfold isArray. destruct (c_val (cells s !!! c)) as [| | | | | |r] eqn:Hv;
        try done.
      unfold bind, the_object, gets, ret. rewrite Hh2, Hh1.
      by rewrite (Harr r eq_refl). }
    rewrite HisA. unfold ret.
    exists s2. split; [done|].
    split; [by rewrite Hh2|]. split; [by rewrite Hc2|]. split; [by rewrite Hl2|].
    split; [by rewrite Hq2|]. split; [by apply Hmono2|].
    intros ob' [= <-]. done.
  - unfold ret. exists s1. split; [done|].
    split; [done|]. split; [done|]. split; [done|]. split; [done|].
    split; [done|]. intros ob' Hx. discriminate.
Qed.

Lemma reactiveGetter_records_witness :
  ∃ s', reactiveGetter bottom 1 (set_target (Some 2) computed_page) =
          Ok (VRef 1) s' ∧
        2 ∈ w_newDepIds (watchers s' !!! 2) ∧ 3 ∈ w_newDepIds (watchers s' !!! 2).
Proof.
  assert (H1 : c_getter (cells (set_target (Some 2) computed_page) !!! 1) = None)
    by (vm_compute; reflexivity).
  assert (Hv : c_val (cells (set_target (Some 2) computed_page) !!! 1) = VRef 1)
    by (vm_compute; reflexivity).
  assert (H2 : ∀ r, c_val (cells (set_target (Some 2) computed_page) !!! 1) = VRef r →
                    o_isArray (heap (set_target (Some 2) computed_page) !!! r) = false).
  { intros r. rewrite Hv. intros [= <-]. vm_compute. reflexivity. }
  assert (Hd : c_dep (cells (set_target (Some 2) computed_page) !!! 1) = 2)
    by (vm_compute; reflexivity).
  assert (Hc : c_childOb (cells (set_target (Some 2) computed_page) !!! 1) = Some 1)
    by (vm_compute; reflexivity).
  assert (Ho : ob_dep (observers (set_target (Some 2) computed_page) !!! 1) = 3)
    by (vm_compute; reflexivity).
  destruct (reactiveGetter_records bottom 1 _ H1 H2)
    as (s' & Hrun & _ & _ & _ & _ & Hrec).
  exists s'. rewrite Hv in Hrun. split; [exact Hrun|].
  change (target (set_target (Some 2) computed_page)) with (Some 2) in Hrec.
  destruct Hrec as [Ha Hb]. rewrite Hd in Ha. split; [exact Ha|].
  rewrite <- Ho. exact (Hb 1 Hc).
Defined.

(** ** observe *)

(** X11: [observe] leaves alone what it must not wrap.  For a value that
    is not an object, for a VNode, and for an object without wrapper
    that is frozen, a component instance, neither an array nor a plain
    object, or met while observation is switched off or on the server,
    it returns nothing and changes nothing, also when called with
    [asRootData]. *)
Theorem observe_refuses (env : Env) (R : Rec) (v : jsval) (b : bool) (s : State) :
  unobservable env s v → observe env R v b s = Ok None s.
Proof.
  destruct v as [| | | | | |r]; try done.
  intros [Hv|[Hob Hc]]; unfold observe, bind at 1, the_object, gets.
  - by rewrite Hv.
  - destruct (o_isVNode (heap s !!! r)); [done|]. rewrite Hob.
    unfold bind at 1. unfold bind at 1. unfold gets.
    destruct Hc as [-> | [-> | [[-> ->] | [-> | ->]]]]; simpl;
      rewrite ?andb_false_r; try done.
    all: by destruct (shouldObserve s).
Qed.

Lemma observe_refuses_witness :
  observe shallow_env bottom (VRef 0) true frozen_page = Ok None frozen_page.
Proof.
  apply (observe_refuses shallow_env bottom (VRef 0) true frozen_page).
  right. split; [reflexivity|]. right. right. right. left. reflexivity.
Defined.

(** X12: an object has at most one wrapper.  [observe] on an object that
    carries a wrapper returns that wrapper and constructs nothing; with
    [asRootData] it adds one to the wrapper's [vmCount], and otherwise
    it leaves the state as it is. *)
Theorem observe_existing (env : Env) (R : Rec) (r ob : nat) (b : bool) (s : State) :
  o_isVNode (heap s !!! r) = false →
  o_ob (heap s !!! r) = Some ob →
  ∃ s', observe env R (VRef r) b s = Ok (Some ob) s' ∧
        heap s' = heap s ∧ next_ob s' = next_ob s ∧ dep_uid s' = dep_uid s ∧
        cells s' = cells s ∧ subs s' = subs s ∧
        ob_vmCount (observers s' !!! ob) =
          (if b then S (ob_vmCount (observers s !!! ob))
           else ob_vmCount (observers s !!! ob)) ∧
        ob_dep (observers s' !!! ob) = ob_dep (observers s !!! ob) ∧
        (b = false → s' = s).
Proof.
  intros Hv Hob. unfold observe, bind at 1, the_object, gets. rewrite Hv, Hob.
  unfold bind at 1. unfold ret at 1. destruct b.
  - unfold bind, upd_observer, modify, ret. eexists. split; [reflexivity|].
    simpl. by rewrite lookup_total_insert_eq.
  - unfold bind, ret. exists s. done.
Qed.

Lemma observe_existing_witness :
  ∃ s', observe computed_env bottom (VRef 2) true computed_page = Ok (Some 0) s' ∧
        ob_vmCount (observers s' !!! 0) = 2.
Proof.
  assert (H1 : o_isVNode (heap computed_page !!! 2) = false) by (vm_compute; reflexivity).
  assert (H2 : o_ob (heap computed_page !!! 2) = Some 0) by (vm_compute; reflexivity).
  assert (H3 : ob_vmCount (observers computed_page !!! 0) = 1)
    by (vm_compute; reflexivity).
  destruct (observe_existing computed_env bottom 2 0 true computed_page H1 H2)
    as (s' & Hrun & _ & _ & _ & _ & _ & Hc & _).
  exists s'. split; [exact Hrun|]. rewrite Hc, H3. reflexivity.
Defined.

Lemma set_heap_twice (f g : gmap nat object → gmap nat object) (s : State) :
  set_heap f (set_heap g s) = set_heap (fun m => f (g m)) s.
Proof. reflexivity. Qed.

Lemma observeArray_plain (env : Env) (n : nat) (items : list jsval) (s : State) :
  Forall (fun v => isObject v = false) items →
  observeArray (interp env (S n)) items s = Ok tt s.
Proof.
  intros H. induction H as [|v items Hv _ IH]; [done|].
  unfold observeArray in *. simpl for_each. unfold bind at 1. unfold bind at 1.
  change (r_observe (interp env (S n)) v false)
    with (observe env (interp env n) v false).
  rewrite (observe_non_object _ _ _ _ _ Hv). unfold ret at 1. exact IH.
Qed.

(** X13: wrapping an array does not make its elements reactive.  For an
    observable array without wrapper whose elements are not objects,
    [observe] constructs the wrapper with a fresh Subject without
    subscribers and switches the array to the intercepted methods; the
    elements stay plain data and no reactive property is created, so
    that an assignment to an index afterwards changes the element and
    reaches no Subject, whatever the entry points [R'] are. *)
Theorem observe_array (env : Env) (n : nat) (r : nat) (b : bool) (s : State) :
  o_isArray (heap s !!! r) = true →
  o_isVNode (heap s !!! r) = false →
  o_ob (heap s !!! r) = None →
  o_extensible (heap s !!! r) = true →
  o_isVue (heap s !!! r) = false →
  shouldObserve s = true →
  serverRendering env = false →
  Forall (fun v => isObject v = false) (o_elems (heap s !!! r)) →
  ∃ s', observe env (interp env (S n)) (VRef r) b s = Ok (Some (next_ob s)) s' ∧
        o_ob (heap s' !!! r) = Some (next_ob s) ∧
        o_intercepted (heap s' !!! r) = true ∧
        o_elems (heap s' !!! r) = o_elems (heap s !!! r) ∧
        o_props (heap s' !!! r) = o_props (heap s !!! r) ∧
        ob_value (observers s' !!! next_ob s) = r ∧
        ob_vmCount (observers s' !!! next_ob s) = (if b then 1 else 0) ∧
        subs s' !!! ob_dep (observers s' !!! next_ob s) = [] ∧
        cells s' = cells s ∧ log s' = log s ∧
        ∀ R' (i : nat) (v : jsval),
          assoc_get (KNum (Z.of_nat i)) (o_props (heap s !!! r)) = None →
          ∃ s'', js_put R' (VRef r) (KNum (Z.of_nat i)) v s' = Ok tt s'' ∧
                 o_elems (heap s'' !!! r) = set_elem i v (o_elems (heap s !!! r)) ∧
                 subs s'' = subs s' ∧ has s'' = has s' ∧ queue s'' = queue s' ∧
                 log s'' = log s'.
Proof.
  intros HisA Hvn Hob Hext Hvue Hso Hssr Helems.
  assert (Hnew : new_Observer (interp env (S n)) r s =
                 Ok (next_ob s) (wrapped_array r s)).
  { unfold new_Observer. unfold bind at 1. unfold new_Dep, bind at 1, gets at 1.
    unfold bind at 1. unfold modify at 1. unfold bind at 1. unfold modify at 1.
    unfold ret at 1. fold (with_new_dep s).
    unfold bind at 1. unfold alloc_observer, bind at 1, gets at 1.
    unfold bind at 1. unfold modify at 1. unfold bind at 1. unfold modify at 1.
    unfold ret at 1.
    unfold bind at 1. unfold upd_object at 1, modify at 1.
    unfold bind at 1. unfold the_object at 1, gets at 1.
    match goal with |- context [heap ?s3 !!! r] =>
      assert (Hh3 : heap s3 !!! r = with_ob (Some (next_ob s)) (heap s !!! r))
        by (simpl; by rewrite lookup_total_insert_eq);
      rewrite !Hh3 end.
    unfold with_ob at 1. cbn [o_isArray]. rewrite HisA.
    unfold bind at 1. unfold bind at 1. unfold upd_object at 1, modify at 1.
    unfold with_ob at 1. cbn [o_elems].
    rewrite observeArray_plain by done. unfold ret. unfold wrapped_array.
    f_equal. change (next_ob (with_new_dep s)) with (next_ob s).
    rewrite set_heap_twice. unfold set_heap at 1 2. f_equal. cbv beta.
    rewrite lookup_total_insert_eq. apply insert_insert_eq. }
  unfold observe, bind at 1, the_object, gets. rewrite Hvn, Hob.
  unfold bind at 1. unfold bind at 1.
  rewrite Hso, Hssr, HisA, Hext, Hvue. cbn [andb orb negb]. cbv iota.
  unfold bind at 1. rewrite Hnew. unfold ret at 1.
  assert (Hheap : heap (wrapped_array r s) !!! r =
                  with_intercepted true (with_ob (Some (next_ob s)) (heap s !!! r))).
  { unfold wrapped_array. simpl. by rewrite lookup_total_insert_eq. }
  assert (Hput : ∀ s1 R' (i : nat) (v : jsval),
            heap s1 = heap (wrapped_array r s) →
            assoc_get (KNum (Z.of_nat i)) (o_props (heap s !!! r)) = None →
            ∃ s'', js_put R' (VRef r) (KNum (Z.of_nat i)) v s1 = Ok tt s'' ∧
                   o_elems (heap s'' !!! r) = set_elem i v (o_elems (heap s !!! r)) ∧
                   subs s'' = subs s1 ∧ has s'' = has s1 ∧ queue s'' = queue s1 ∧
                   log s'' = log s1).
  { intros s1 R' i v Hh1 Hnone. unfold js_put, bind, the_object, gets.
    rewrite Hh1, Hheap. simpl. rewrite Hnone, HisA, Hext.
    assert (Hz : (0 <=? Z.of_nat i)%Z = true) by (apply Z.leb_le; lia).
    rewrite Hz, orb_true_r. simpl. unfold upd_object, modify.
    eexists. split; [reflexivity|]. simpl.
    rewrite lookup_total_insert_eq, Hh1, Hheap. simpl. by rewrite Nat2Z.id. }
  assert (Hobs : observers (wrapped_array r s) !!! next_ob s =
                 Observer r (dep_uid s) 0).
  { unfold wrapped_array. simpl. by rewrite lookup_total_insert_eq. }
  assert (Hsubs : subs (wrapped_array r s) !!! dep_uid s = []).
  { unfold wrapped_array. simpl. by rewrite lookup_total_insert_eq. }
  destruct b.
  - unfold bind, upd_observer, modify, ret. eexists. split; [reflexivity|].
    set (s' := set_observers _ _).
    assert (Hobs' : observers s' !!! next_ob s = Observer r (dep_uid s) 1).
    { subst s'. unfold set_observers at 1. cbn [observers].
      by rewrite lookup_total_insert_eq, Hobs. }
    change (heap s') with (heap (wrapped_array r s)).
    change (subs s') with (subs (wrapped_array r s)).
    rewrite Hheap, Hobs'. cbn [ob_value ob_vmCount ob_dep]. rewrite Hsubs.
    split; [done|]. split; [done|]. split; [done|]. split; [done|].
    split; [done|]. split; [done|]. split; [done|]. split; [done|].
    split; [done|]. intros R' i v Hnone.
    destruct (Hput s' R' i v eq_refl Hnone) as (s'' & H1 & H2 & H3 & H4 & H5 & H6).
    exists s''. split; [exact H1|]. split; [exact H2|]. split; [exact H3|].
    split; [exact H4|]. split; [exact H5|exact H6].
  - unfold bind, ret. eexists. split; [reflexivity|].
    rewrite Hheap, Hobs. cbn [ob_value ob_vmCount ob_dep]. rewrite Hsubs.
    split; [done|]. split; [done|]. split; [done|]. split; [done|].
    split; [done|]. split; [done|]. split; [done|]. split; [done|].
    split; [done|]. intros R' i v Hnone. by apply Hput.
Qed.

Lemma observe_array_witness :
  ∃ s', observe shallow_env (interp shallow_env 1) (VRef 0) false array_of_numbers =
          Ok (Some 0) s' ∧
        o_intercepted (heap s' !!! 0) = true ∧
        o_elems (heap s' !!! 0) = [VNum 1; VNum 2] ∧
        cells s' = ∅.
Proof.
  assert (He : Forall (fun v => isObject v = false)
                 (o_elems (heap array_of_numbers !!! 0))).
  { assert (H : o_elems (heap array_of_numbers !!! 0) = [VNum 1; VNum 2])
      by (vm_compute; reflexivity).
    rewrite H. by repeat constructor. }
  destruct (observe_array shallow_env 0 0 false array_of_numbers
              eq_refl eq_refl eq_refl eq_refl eq_refl eq_refl eq_refl He)
    as (s' & Hrun & _ & Hi & Hel & _ & _ & _ & _ & Hc & _).
  exists s'. split; [exact Hrun|]. split; [exact Hi|]. split; [exact Hel|exact Hc].
Defined.

(** ** defineReactive and walk *)

Lemma assoc_get_put_eq (k : pkey) (p : prop) (l : list (pkey * prop)) :
  assoc_get k (assoc_put k p l) = Some p.
Proof.
  induction l as [|[k' p'] l IH]; simpl.
  - by destruct (decide (k = k)).
  - destruct (decide (k' = k)) as [->|Hne]; simpl.
    + by destruct (decide (k = k)).
    + by destruct (decide (k' = k)).
Qed.

Lemma assoc_get_put_ne (k k' : pkey) (p : prop) (l : list (pkey * prop)) :
  k' ≠ k → assoc_get k' (assoc_put k p l) = assoc_get k' l.
Proof.
  intros Hne. induction l as [|[k0 p0] l IH]; simpl.
  - by destruct (decide (k = k')); [congruence|].
  - destruct (decide (k0 = k)) as [->|Hne0]; simpl.
    + destruct (decide (k = k')); [congruence|]. done.
    + destruct (decide (k0 = k')); [done|]. exact IH.
Qed.

Lemma assoc_get_elem_of (k : pkey) (p : prop) (l : list (pkey * prop)) :
  NoDup (fst <$> l) → (k, p) ∈ l ↔ assoc_get k l = Some p.
Proof.
  induction l as [|[k0 p0] l IH]; simpl; intros Hnd.
  - split; [by intros ?%elem_of_nil|done].
  - apply NoDup_cons in Hnd as [Hk0 Hnd]. specialize (IH Hnd).
    destruct (decide (k0 = k)) as [->|Hne].
    + split.
      * intros Hin. apply elem_of_cons in Hin as [Heq|Hin]; [congruence|].
        destruct Hk0. apply list_elem_of_fmap. by exists (k, p).
      * intros [= ->]. by left.
    + rewrite <- IH. split.
      * intros Hin. apply elem_of_cons in Hin as [Heq|Hin]; [congruence|done].
      * intros Hin. by right.
Qed.

Lemma own_prop_plain (k : pkey) (o : object) :
  o_isArray o = false → own_prop k o = assoc_get k (o_props o).
Proof.
  intros H. unfold own_prop. destruct (assoc_get k (o_props o)); [done|].
  destruct k; [|done]. by rewrite H.
Qed.

Lemma defineReactive_fixed (R : Rec) (obj : nat) (key : pkey) (val : option jsval)
    (cs : option fn) (shallow : bool) (sl : slot) (e : bool) (s : State) :
  own_prop key (heap s !!! obj) = Some (MkProp sl e false) →
  defineReactive R obj key val cs shallow s = Ok tt (with_new_dep s).
Proof.
  intros Hp. unfold defineReactive.
  unfold bind at 1. unfold new_Dep, bind at 1, gets at 1.
  unfold bind at 1. unfold modify at 1. unfold bind at 1. unfold modify at 1.
  unfold ret at 1. fold (with_new_dep s).
  unfold bind at 1. unfold the_object at 1, gets at 1.
  change (heap (with_new_dep s)) with (heap s). by rewrite Hp.
Qed.

Lemma defineReactive_data (env : Env) (n : nat) (obj : nat) (key : pkey)
    (v : jsval) (e : bool) (s : State) :
  own_prop key (heap s !!! obj) = Some (MkProp (Data v) e true) →
  isObject v = false →
  defineReactive (interp env (S n)) obj key None None false s =
    Ok tt (installed obj key v (dep_uid s) None (with_new_dep s)).
Proof.
  intros Hp Hv. unfold defineReactive.
  unfold bind at 1. unfold new_Dep, bind at 1, gets at 1.
  unfold bind at 1. unfold modify at 1. unfold bind at 1. unfold modify at 1.
  unfold ret at 1. fold (with_new_dep s).
  unfold bind at 1. unfold the_object at 1, gets at 1.
  change (heap (with_new_dep s)) with (heap s). rewrite Hp.
  cbn [negb bool_decide orb]. unfold bind at 1.
  assert (Hget : js_get (interp env (S n)) (VRef obj) key (with_new_dep s) =
                 Ok v (with_new_dep s)).
  { unfold js_get, bind, the_object, gets.
    change (heap (with_new_dep s)) with (heap s). by rewrite Hp. }
  replace ((if negb (bool_decide (is_Some (@None fn))) || bool_decide (is_Some (@None fn))
            then js_get (interp env (S n)) (VRef obj) key else ret VUndef)
             (with_new_dep s)) with (Ok v (with_new_dep s) : Res jsval).
  unfold bind at 1. cbn [negb].
  change (r_observe (interp env (S n)) v false)
    with (observe env (interp env n) v false).
  rewrite (observe_non_object _ _ _ _ _ Hv).
  unfold bind at 1. unfold the_object at 1, gets at 1.
  change (heap (with_new_dep s)) with (heap s).
  unfold definable. rewrite Hp. cbn [p_configurable].
  unfold bind, alloc_cell, gets, modify, upd_object, ret. reflexivity.
Qed.

Lemma define_step (env : Env) (n obj : nat) (k : pkey) (p : prop) (s : State) :
  o_isArray (heap s !!! obj) = false →
  assoc_get k (o_props (heap s !!! obj)) = Some p →
  simple_prop p →
  ∃ s1, defineReactive (interp env (S n)) obj k None None false s = Ok tt s1 ∧
        (∀ r', r' ≠ obj → heap s1 !!! r' = heap s !!! r') ∧
        same_but_props (heap s !!! obj) (heap s1 !!! obj) ∧
        observers s1 = observers s ∧ watchers s1 = watchers s ∧ log s1 = log s ∧
        target s1 = target s ∧ queue s1 = queue s ∧ has s1 = has s ∧
        next_ob s1 = next_ob s ∧
        next_cell s ≤ next_cell s1 ∧ dep_uid s1 = S (dep_uid s) ∧
        (∀ c, c < next_cell s → cells s1 !!! c = cells s !!! c) ∧
        (∀ d, d < dep_uid s → subs s1 !!! d = subs s !!! d) ∧
        subs s1 !!! dep_uid s = [] ∧
        (∀ k', k' ≠ k → assoc_get k' (o_props (heap s1 !!! obj)) =
                        assoc_get k' (o_props (heap s !!! obj))) ∧
        (p_configurable p = false →
           assoc_get k (o_props (heap s1 !!! obj)) = Some p) ∧
        (∀ v e, p = MkProp (Data v) e true →
           assoc_get k (o_props (heap s1 !!! obj)) = Some (reactive_prop (next_cell s)) ∧
           cells s1 !!! next_cell s = Cell obj (dep_uid s) v None false None None None ∧
           next_cell s1 = S (next_cell s)).
Proof.
  intros HisA Hk Hp.
  assert (Hown : own_prop k (heap s !!! obj) = Some p)
    by (by rewrite own_prop_plain).
  assert (Hsub : ∀ d, d < dep_uid s → subs (with_new_dep s) !!! d = subs s !!! d).
  { intros d Hd. unfold with_new_dep. simpl.
    rewrite lookup_total_insert_ne; [done|lia]. }
  assert (Hsub0 : subs (with_new_dep s) !!! dep_uid s = []).
  { unfold with_new_dep. simpl. by rewrite lookup_total_insert_eq. }
  destruct Hp as [Hfix|(v & e & -> & Hv)].
  - destruct p as [sl e cf]. simpl in Hfix. subst cf.
    rewrite (defineReactive_fixed _ _ _ _ _ _ _ _ _ Hown).
    eexists. split; [reflexivity|].
    split; [done|]. split; [by unfold same_but_props; destruct (heap s !!! obj)|].
    split; [done|]. split; [done|]. split; [done|]. split; [done|].
    split; [done|]. split; [done|]. split; [done|]. split; [done|].
    split; [done|]. split; [done|]. split; [done|]. split; [done|].
    split; [done|]. split; [done|]. intros v e' [=].
  - rewrite (defineReactive_data _ _ _ _ _ _ _ Hown Hv).
    eexists. split; [reflexivity|].
    assert (Hheap : heap (installed obj k v (dep_uid s) None (with_new_dep s)) !!! obj =
              with_props (assoc_put k (reactive_prop (next_cell s))
                            (o_props (heap s !!! obj))) (heap s !!! obj)).
    { unfold installed. simpl. by rewrite lookup_total_insert_eq. }
    rewrite Hheap.
    split. { intros r' Hr'. unfold installed. simpl.
             by rewrite lookup_total_insert_ne. }
    split; [by unfold same_but_props; destruct (heap s !!! obj)|].
    split; [done|]. split; [done|]. split; [done|]. split; [done|].
    split; [done|]. split; [done|]. split; [done|].
    split; [simpl; lia|]. split; [done|].
    split. { intros c Hc. unfold installed. simpl.
             rewrite lookup_total_insert_ne; [done|lia]. }
    split; [done|]. split; [done|].
    split. { intros k' Hk'. simpl. by apply assoc_get_put_ne. }
    split; [done|].
    intros v' e' [= <- <-]. split; [simpl; apply assoc_get_put_eq|].
    split; [|done]. unfold installed. simpl. by rewrite lookup_total_insert_eq.
Qed.

Lemma for_each_cons {A} (x : A) (l : list A) (body : A → M unit) (s : State) :
  for_each (x :: l) body s = (body x ;; for_each l body) s.
Proof. reflexivity. Qed.

Lemma same_but_props_fields (o o' : object) :
  same_but_props o o' →
  o_isArray o' = o_isArray o ∧ o_elems o' = o_elems o ∧ o_ob o' = o_ob o ∧
  o_intercepted o' = o_intercepted o ∧ o_extensible o' = o_extensible o ∧
  o_plain o' = o_plain o ∧ o_isVue o' = o_isVue o ∧ o_isVNode o' = o_isVNode o.
Proof. unfold same_but_props. intros <-. by destruct o'. Qed.

Lemma same_but_props_trans (o1 o2 o3 : object) :
  same_but_props o1 o2 → same_but_props o2 o3 → same_but_props o1 o3.
Proof.
  unfold same_but_props. intros H1 H2. rewrite <- H1, <- H2.
  by destruct o3.
Qed.

Lemma walk_loop (env : Env) (n obj : nat) (ks : list pkey) (s : State) :
  NoDup ks →
  o_isArray (heap s !!! obj) = false →
  (∀ k, k ∈ ks → ∃ p, assoc_get k (o_props (heap s !!! obj)) = Some p ∧
                      simple_prop p) →
  ∃ s', for_each ks (fun key =>
          defineReactive (interp env (S n)) obj key None None false) s = Ok tt s' ∧
        (∀ r', r' ≠ obj → heap s' !!! r' = heap s !!! r') ∧
        same_but_props (heap s !!! obj) (heap s' !!! obj) ∧
        observers s' = observers s ∧ watchers s' = watchers s ∧ log s' = log s ∧
        target s' = target s ∧ queue s' = queue s ∧ has s' = has s ∧
        next_ob s' = next_ob s ∧
        next_cell s ≤ next_cell s' ∧ dep_uid s ≤ dep_uid s' ∧
        (∀ c, c < next_cell s → cells s' !!! c = cells s !!! c) ∧
        (∀ d, d < dep_uid s → subs s' !!! d = subs s !!! d) ∧
        (∀ k, k ∉ ks → assoc_get k (o_props (heap s' !!! obj)) =
                       assoc_get k (o_props (heap s !!! obj))) ∧
        (∀ k p, k ∈ ks → assoc_get k (o_props (heap s !!! obj)) = Some p →
                p_configurable p = false →
                assoc_get k (o_props (heap s' !!! obj)) = Some p) ∧
        (∀ k v e, k ∈ ks →
           assoc_get k (o_props (heap s !!! obj)) = Some (MkProp (Data v) e true) →
           ∃ c d, assoc_get k (o_props (heap s' !!! obj)) = Some (reactive_prop c) ∧
                  cells s' !!! c = Cell obj d v None false None None None ∧
                  subs s' !!! d = []).
Proof.
  revert s. induction ks as [|k ks IH]; intros s Hnd HisA Hks.
  - exists s. split; [done|]. split; [done|].
    split; [by unfold same_but_props; destruct (heap s !!! obj)|].
    split; [done|]. split; [done|]. split; [done|]. split; [done|].
    split; [done|]. split; [done|]. split; [done|]. split; [done|].
    split; [done|]. split; [done|]. split; [done|]. split; [done|].
    split; [by intros k p ?%elem_of_nil|by intros k v e ?%elem_of_nil].
  - apply NoDup_cons in Hnd as [Hk Hnd].
    destruct (Hks k) as (p & Hp & Hsimple); [by left|].
    destruct (define_step env n obj k p s HisA Hp Hsimple)
      as (s1 & Hrun1 & Hoth1 & Hsame1 & Hob1 & Hw1 & Hl1 & Ht1 & Hq1 & Hh1 & Hno1 &
          Hnc1 & Hdu1 & Hc1 & Hs1 & Hs01 & Hne1 & Hfix1 & Hdata1).
    assert (HisA1 : o_isArray (heap s1 !!! obj) = false).
    { by rewrite (proj1 (same_but_props_fields _ _ Hsame1)). }
    destruct (IH s1 Hnd HisA1)
      as (s' & Hrun & Hoth & Hsame & Hob & Hw & Hl & Ht & Hq & Hh & Hno & Hnc & Hdu &
          Hc & Hs & Hout & Hfix & Hdata).
    { intros k' Hk'. destruct (Hks k') as (p' & Hp' & Hs'); [by right|].
      exists p'. split; [|done]. rewrite Hne1; [done|]. intros ->. done. }
    exists s'. split.
    { rewrite for_each_cons. unfold bind. by rewrite Hrun1. }
    split. { intros r' Hr'. by rewrite Hoth, Hoth1. }
    split; [by apply (same_but_props_trans _ _ _ Hsame1 Hsame)|].
    split; [congruence|]. split; [congruence|]. split; [congruence|].
    split; [congruence|]. split; [congruence|]. split; [congruence|].
    split; [congruence|]. split; [lia|]. split; [lia|].
    split. { intros c Hc'. rewrite Hc by lia. by apply Hc1. }
    split. { intros d Hd'. rewrite Hs by lia. by apply Hs1. }
    split. { intros k' Hk'. apply not_elem_of_cons in Hk' as [Hne Hk'].
             rewrite Hout by done. by apply Hne1. }
    split.
    + intros k' p' Hk' Hp' Hcf. apply elem_of_cons in Hk' as [->|Hk'].
      * rewrite Hout by done. rewrite Hp in Hp'. injection Hp' as <-.
        by apply Hfix1.
      * apply Hfix; [done| |done]. rewrite Hne1; [done|]. intros ->. done.
    + intros k' v e Hk' Hp'. apply elem_of_cons in Hk' as [->|Hk'].
      * rewrite Hp in Hp'. injection Hp' as ->.
        destruct (Hdata1 v e eq_refl) as (Hg & Hcell & Hnext).
        exists (next_cell s), (dep_uid s). rewrite Hout by done.
        split; [done|]. split.
        { rewrite Hc by lia. done. }
        rewrite Hs by lia. done.
      * apply (Hdata k' v e); [done|]. rewrite Hne1; [done|]. intros ->. done.
Qed.

Lemma Object_keys_plain (o : object) (k : pkey) :
  o_isArray o = false → NoDup (fst <$> o_props o) →
  NoDup (Object_keys o) ∧
  (k ∈ Object_keys o ↔
   ∃ p, assoc_get k (o_props o) = Some p ∧ p_enumerable p = true).
Proof.
  intros HisA Hnd. unfold Object_keys. rewrite HisA. simpl. split.
  - eapply sublist_NoDup; [exact Hnd|apply fmap_sublist, sublist_filter].
  - rewrite list_elem_of_fmap. split.
    + intros ([k' p] & -> & Hin). apply list_elem_of_filter in Hin as [He Hin].
      exists p. split; [|done]. by apply assoc_get_elem_of.
    + intros (p & Hp & He). exists (k, p). split; [done|].
      apply list_elem_of_filter. split; [done|]. by apply assoc_get_elem_of.
Qed.

(** X14: observing a plain object makes its enumerable data properties
    reactive and calls nothing.  For an observable plain object without
    wrapper whose enumerable properties are data properties holding
    values that are not objects, or are not configurable, [observe]
    constructs the wrapper and replaces every enumerable configurable
    data property by a reactive one, which holds the same value and has
    a fresh Subject without subscribers; properties that are not
    enumerable or not configurable stay as they are, no key appears or
    disappears, and with no active node a read of a converted property
    still returns its value and changes nothing. *)
Theorem observe_plain_object (env : Env) (n : nat) (r : nat) (b : bool) (s : State) :
  o_isArray (heap s !!! r) = false →
  o_plain (heap s !!! r) = true →
  o_isVNode (heap s !!! r) = false →
  o_ob (heap s !!! r) = None →
  o_extensible (heap s !!! r) = true →
  o_isVue (heap s !!! r) = false →
  shouldObserve s = true →
  serverRendering env = false →
  NoDup (fst <$> o_props (heap s !!! r)) →
  (∀ k p, assoc_get k (o_props (heap s !!! r)) = Some p →
          p_enumerable p = true → simple_prop p) →
  ∃ s', observe env (interp env (S n)) (VRef r) b s = Ok (Some (next_ob s)) s' ∧
        o_ob (heap s' !!! r) = Some (next_ob s) ∧
        ob_value (observers s' !!! next_ob s) = r ∧
        ob_vmCount (observers s' !!! next_ob s) = (if b then 1 else 0) ∧
        (∀ k v, assoc_get k (o_props (heap s !!! r)) = Some (MkProp (Data v) true true) →
           ∃ c, assoc_get k (o_props (heap s' !!! r)) = Some (reactive_prop c) ∧
                c_val (cells s' !!! c) = v ∧ c_obj (cells s' !!! c) = r ∧
                c_getter (cells s' !!! c) = None ∧
                c_childOb (cells s' !!! c) = None ∧
                subs s' !!! c_dep (cells s' !!! c) = []) ∧
        (∀ k p, assoc_get k (o_props (heap s !!! r)) = Some p →
                p_enumerable p = false ∨ p_configurable p = false →
                assoc_get k (o_props (heap s' !!! r)) = Some p) ∧
        (∀ k, assoc_get k (o_props (heap s !!! r)) = None →
              assoc_get k (o_props (heap s' !!! r)) = None) ∧
        log s' = log s ∧ watchers s' = watchers s ∧ queue s' = queue s ∧
        (target s = None →
         ∀ m k v, assoc_get k (o_props (heap s !!! r)) = Some (MkProp (Data v) true true) →
                  js_get (interp env (S m)) (VRef r) k s' = Ok v s').
Proof.
  intros HisA Hplain Hvn Hob Hext Hvue Hso Hssr Hnd Hsimple.
  assert (Hh0 : heap (wrapped_object r s) !!! r =
                with_ob (Some (next_ob s)) (heap s !!! r)).
  { unfold wrapped_object. simpl. by rewrite lookup_total_insert_eq. }
  assert (HisA0 : o_isArray (heap (wrapped_object r s) !!! r) = false)
    by (by rewrite Hh0).
  assert (Hprops0 : o_props (heap (wrapped_object r s) !!! r) =
                    o_props (heap s !!! r)) by (by rewrite Hh0).
  assert (Hkeys0 : Object_keys (heap (wrapped_object r s) !!! r) =
                   Object_keys (heap s !!! r)).
  { rewrite Hh0. unfold Object_keys. cbn [with_ob o_isArray o_props o_elems].
    by rewrite HisA. }
  destruct (walk_loop env n r (Object_keys (heap s !!! r)) (wrapped_object r s))
    as (s1 & Hwalk & _ & Hsame & Hobs & Hws & Hlog & Htg & Hq & _ & _ & _ & _ &
        _ & _ & Hout & Hfix & Hdata).
  { apply (Object_keys_plain _ (KNum 0) HisA Hnd). }
  { exact HisA0. }
  { intros k Hk. apply (Object_keys_plain _ k HisA Hnd) in Hk as (p & Hp & He).
    exists p. rewrite Hprops0. split; [done|]. by apply (Hsimple k). }
  rewrite Hprops0 in Hout, Hfix, Hdata.
  destruct (same_but_props_fields _ _ Hsame)
    as (HisA1 & _ & Hob1 & _ & _ & _ & _ & _).
  rewrite Hh0 in Hob1, HisA1. cbn [with_ob o_ob o_isArray] in Hob1, HisA1.
  rewrite HisA in HisA1.
  assert (Hnew : new_Observer (interp env (S n)) r s = Ok (next_ob s) s1).
  { unfold new_Observer. unfold bind at 1. unfold new_Dep, bind at 1, gets at 1.
    unfold bind at 1. unfold modify at 1. unfold bind at 1. unfold modify at 1.
    unfold ret at 1. fold (with_new_dep s).
    unfold bind at 1. unfold alloc_observer, bind at 1, gets at 1.
    unfold bind at 1. unfold modify at 1. unfold bind at 1. unfold modify at 1.
    unfold ret at 1.
    unfold bind at 1. unfold upd_object at 1, modify at 1.
    change (next_ob (with_new_dep s)) with (next_ob s).
    fold (wrapped_object r s).
    unfold bind at 1. unfold the_object at 1, gets at 1. rewrite HisA0.
    unfold bind at 1. unfold walk, bind at 1, the_object at 1, gets at 1.
    rewrite Hkeys0, Hwalk. reflexivity. }
  assert (Hobs1 : observers s1 !!! next_ob s = Observer r (dep_uid s) 0).
  { rewrite Hobs. unfold wrapped_object. simpl. by rewrite lookup_total_insert_eq. }
  assert (Hconv : ∀ k v,
            assoc_get k (o_props (heap s !!! r)) = Some (MkProp (Data v) true true) →
            ∃ c, assoc_get k (o_props (heap s1 !!! r)) = Some (reactive_prop c) ∧
                 cells s1 !!! c = Cell r (c_dep (cells s1 !!! c)) v None false
                                    None None None ∧
                 subs s1 !!! c_dep (cells s1 !!! c) = []).
  { intros k v Hk.
    destruct (Hdata k v true) as (c & d & Hg & Hc & Hs); [|done|].
    - apply (Object_keys_plain _ k HisA Hnd). by eexists.
    - exists c. rewrite Hc. done. }
  assert (Hkeep : ∀ k p, assoc_get k (o_props (heap s !!! r)) = Some p →
            p_enumerable p = false ∨ p_configurable p = false →
            assoc_get k (o_props (heap s1 !!! r)) = Some p).
  { intros k p Hk Hp.
    destruct (p_enumerable p) eqn:He.
    - destruct Hp as [Hp|Hp]; [done|]. apply Hfix; [|done|done].
      apply (Object_keys_plain _ k HisA Hnd). by eexists.
    - rewrite Hout; [done|]. intros Hin.
      apply (Object_keys_plain _ k HisA Hnd) in Hin as (p' & Hp' & He').
      congruence. }
  assert (Hnone : ∀ k, assoc_get k (o_props (heap s !!! r)) = None →
            assoc_get k (o_props (heap s1 !!! r)) = None).
  { intros k Hk. rewrite Hout; [done|]. intros Hin.
    apply (Object_keys_plain _ k HisA Hnd) in Hin as (p' & Hp' & He').
    congruence. }
  assert (Hread : ∀ s2, heap s2 = heap s1 → cells s2 = cells s1 →
            target s2 = None →
            ∀ m k v,
              assoc_get k (o_props (heap s !!! r)) = Some (MkProp (Data v) true true) →
              js_get (interp env (S m)) (VRef r) k s2 = Ok v s2).
  { intros s2 Hh2 Hc2 Ht2 m k v Hk. destruct (Hconv k v Hk) as (c & Hg & Hc & _).
    unfold js_get, bind at 1, the_object, gets. rewrite Hh2.
    rewrite (own_prop_plain _ _ HisA1), Hg. unfold reactive_prop.
    change (r_call (interp env (S m)) (FReactiveGetter c) (VRef r) [])
      with (reactiveGetter (interp env m) c).
    unfold reactiveGetter, bind, the_cell, gets, ret. rewrite Hc2, Hc. simpl.
    by rewrite Ht2. }
  unfold observe, bind at 1, the_object, gets. rewrite Hvn, Hob.
  unfold bind at 1. unfold bind at 1.
  rewrite Hso, Hssr, HisA, Hplain, Hext, Hvue. cbn [andb orb negb]. cbv iota.
  unfold bind at 1. rewrite Hnew. unfold ret at 1.
  destruct b.
  - unfold bind, upd_observer, modify, ret. eexists. split; [reflexivity|].
    set (s' := set_observers _ _).
    assert (Hobs' : observers s' !!! next_ob s = Observer r (dep_uid s) 1).
    { subst s'. unfold set_observers at 1. cbn [observers].
      by rewrite lookup_total_insert_eq, Hobs1. }
    rewrite Hobs'.
    change (heap s') with (heap s1). change (cells s') with (cells s1).
    change (subs s') with (subs s1).
    split; [done|]. split; [done|]. split; [done|].
    split. { intros k v Hk. destruct (Hconv k v Hk) as (c & Hg & Hc & Hs).
             exists c. rewrite Hc in *. done. }
    split; [done|]. split; [done|]. split; [done|]. split; [done|].
    split; [done|]. intros Ht. apply Hread; [done|done|]. rewrite <- Ht. exact Htg.
  - unfold bind, ret. eexists. split; [reflexivity|].
    rewrite Hobs1.
    split; [done|]. split; [done|]. split; [done|].
    split. { intros k v Hk. destruct (Hconv k v Hk) as (c & Hg & Hc & Hs).
             exists c. rewrite Hc in *. done. }
    split; [done|]. split; [done|]. split; [done|]. split; [done|].
    split; [done|]. intros Ht. apply Hread; [done|done|]. rewrite <- Ht. exact Htg.
Qed.

Lemma observe_plain_object_witness :
  ∃ s', observe shallow_env (interp shallow_env 1) (VRef 0) true object_page =
          Ok (Some 0) s' ∧
        (∃ c, assoc_get (KName "a") (o_props (heap s' !!! 0)) = Some (reactive_prop c) ∧
              c_val (cells s' !!! c) = VNum 1) ∧
        assoc_get (KName "b") (o_props (heap s' !!! 0)) =
          Some (MkProp (Data (VStr "x")) false true).
Proof.
  assert (Hp : o_props (heap object_page !!! 0) =
               [(KName "a", data_prop (VNum 1));
                (KName "b", MkProp (Data (VStr "x")) false true)]) by reflexivity.
  assert (Hnd : NoDup (fst <$> o_props (heap object_page !!! 0))).
  { rewrite Hp. simpl. repeat constructor; set_solver. }
  assert (Hs : ∀ k p, assoc_get k (o_props (heap object_page !!! 0)) = Some p →
                      p_enumerable p = true → simple_prop p).
  { intros k p. rewrite Hp. simpl. repeat case_decide; intros [= <-]; try done.
    intros _. right. by exists (VNum 1), true. }
  destruct (observe_plain_object shallow_env 0 0 true object_page
              eq_refl eq_refl eq_refl eq_refl eq_refl eq_refl eq_refl eq_refl Hnd Hs)
    as (s' & Hrun & _ & _ & _ & Hconv & Hkeep & _).
  exists s'. split; [exact Hrun|]. split.
  - destruct (Hconv (KName "a") (VNum 1)) as (c & Hg & Hv & _); [by rewrite Hp|].
    exists c. by split.
  - apply Hkeep; [by rewrite Hp|]. by left.
Defined.

(** X15: a property with a getter and no setter is converted without
    calling the getter.  [defineReactive (obj, key)] returns, even when
    the getter would throw; the new reactive property keeps the getter,
    and holds no value of its own. *)
Theorem defineReactive_keeps_getter (R : Rec) (obj : nat) (key : pkey) (g : fn)
    (e : bool) (cs : option fn) (shallow : bool) (s : State) :
  own_prop key (heap s !!! obj) = Some (MkProp (Accessor (Some g) None) e true) →
  (shallow = false →
   r_observe R VUndef false (with_new_dep s) = Ok None (with_new_dep s)) →
  ∃ s', defineReactive R obj key None cs shallow s = Ok tt s' ∧
        assoc_get key (o_props (heap s' !!! obj)) =
          Some (reactive_prop (next_cell s)) ∧
        cells s' !!! next_cell s =
          Cell obj (dep_uid s) VUndef None shallow (Some g) None cs ∧
        log s' = log s ∧ watchers s' = watchers s ∧ target s' = target s.
Proof.
  intros Hp Hobs. unfold defineReactive.
  unfold bind at 1. unfold new_Dep, bind at 1, gets at 1.
  unfold bind at 1. unfold modify at 1. unfold bind at 1. unfold modify at 1.
  unfold ret at 1. fold (with_new_dep s).
  unfold bind at 1. unfold the_object at 1, gets at 1.
  change (heap (with_new_dep s)) with (heap s). rewrite Hp.
  unfold bind at 1.
  assert (Hb : negb (bool_decide (is_Some (Some g))) ||
               bool_decide (is_Some (@None fn)) = false).
  { rewrite bool_decide_eq_true_2 by (by eexists).
    rewrite bool_decide_eq_false_2; [done|]. by intros [? ?]. }
  rewrite Hb. unfold ret at 1. unfold bind at 1.
  assert (Hw : (if negb shallow then r_observe R VUndef false else ret None)
                 (with_new_dep s) = Ok None (with_new_dep s)).
  { destruct shallow; [done|]. by apply Hobs. }
  rewrite Hw. unfold bind at 1. unfold the_object at 1, gets at 1.
  change (heap (with_new_dep s)) with (heap s).
  unfold definable. rewrite Hp. cbn [p_configurable].
  unfold bind, alloc_cell, gets, modify, upd_object, ret.
  eexists. split; [reflexivity|].
  split. { simpl. rewrite lookup_total_insert_eq. simpl. apply assoc_get_put_eq. }
  assert (Hc : ∀ s1, cells s1 = <[next_cell s := Cell obj (dep_uid s) VUndef None
                                     shallow (Some g) None cs]> (cells s) →
                     cells s1 !!! next_cell s =
                     Cell obj (dep_uid s) VUndef None shallow (Some g) None cs).
  { intros s1 ->. by rewrite lookup_total_insert_eq. }
  split; [by apply Hc|]. done.
Qed.

Lemma defineReactive_keeps_getter_witness :
  ∃ s', defineReactive (interp failing_env 1) 0 (KName "x") None None false
          accessor_page = Ok tt s' ∧
        c_getter (cells s' !!! 0) = Some (FUser 3) ∧ log s' = [].
Proof.
  destruct (defineReactive_keeps_getter (interp failing_env 1) 0 (KName "x") (FUser 3)
              true None false accessor_page eq_refl (fun _ => eq_refl))
    as (s' & Hrun & _ & Hc & Hl & _).
  exists s'. split; [exact Hrun|]. split; [|exact Hl].
  change (next_cell accessor_page) with 0 in Hc. by rewrite Hc.
Defined.


(** ** del *)

Lemma del_on_object (env : Env) (R : Rec) (cd ad : warning) (r : nat) (key : pkey)
    (s : State) :
  del env R cd ad (VRef r) key s =
  (let o := heap s !!! r in
   if o_isArray o && isValidArrayIndex key then
     match key with
     | KNum z => invoke env R (VRef r) Msplice [VNum z; VNum 1] ;; ret tt
     | KName _ => ret tt
     end
   else if o_isVue o || negb (vmCount_of s o =? 0) then
     (if negb (production env) then warn ad None else ret tt)
   else if negb (hasOwn key o) then ret tt
   else
     js_delete r key ;;
     match o_ob o with
     | None => ret tt
     | Some ob => O <- the_observer ob ;; r_notify R (ob_dep O)
     end) s.
Proof.
  unfold del. cbn [isUndef isPrimitive orb]. rewrite andb_false_r.
  unfold bind at 1. unfold ret at 1.
  unfold bind at 1. unfold isArray, bind at 1, the_object at 1, gets at 1.
  unfold ret at 1. cbv zeta.
  destruct (o_isArray (heap s !!! r) && isValidArrayIndex key); [done|].
  unfold bind at 1. unfold the_object at 1, gets at 1.
  unfold bind at 1. unfold vmCount_of.
  destruct (o_ob (heap s !!! r)) as [ob|]; [|done].
  unfold bind at 1. unfold the_observer at 1, gets at 1. by unfold ret at 1.
Qed.

Lemma assoc_get_del_eq (k : pkey) (l : list (pkey * prop)) :
  NoDup (fst <$> l) → assoc_get k (assoc_del k l) = None.
Proof.
  induction l as [|[k' p] l IH]; simpl; intros Hnd; [done|].
  apply NoDup_cons in Hnd as [Hk Hnd].
  destruct (decide (k' = k)) as [->|Hne]; simpl.
  - destruct (assoc_get k l) as [p'|] eqn:Hg; [|done].
    destruct Hk. apply list_elem_of_fmap. exists (k, p'). split; [done|].
    by apply assoc_get_elem_of.
  - destruct (decide (k' = k)); [done|]. by apply IH.
Qed.

Lemma assoc_get_del_ne (k k' : pkey) (l : list (pkey * prop)) :
  k' ≠ k → assoc_get k' (assoc_del k l) = assoc_get k' l.
Proof.
  intros Hne. induction l as [|[k0 p0] l IH]; simpl; [done|].
  destruct (decide (k0 = k)) as [->|Hne0]; simpl.
  - by destruct (decide (k = k')); [congruence|].
  - destruct (decide (k0 = k')); [done|]. exact IH.
Qed.

(** X16: what [del] does on an object [r] for a key that is not a valid
    index of an array.  On a component instance or on root data it
    deletes nothing and, outside the production build, warns.  For a key
    that the object does not own it does nothing at all.  An own
    configurable property is removed: the object does not own the key
    any more, the other keys are untouched, and then the Subject of the
    wrapper is notified if the object has one, and nothing else happens
    if it has none.  A property that is not configurable makes [del]
    throw, with nothing changed. *)
Theorem del_object (env : Env) (R : Rec) (cd ad : warning) (r : nat) (key : pkey)
    (s : State) :
  o_isArray (heap s !!! r) && isValidArrayIndex key = false →
  (o_isVue (heap s !!! r) || negb (vmCount_of s (heap s !!! r) =? 0) = true →
     del env R cd ad (VRef r) key s =
       Ok tt (if production env then s else emit (EWarn ad None) s)) ∧
  (o_isVue (heap s !!! r) || negb (vmCount_of s (heap s !!! r) =? 0) = false →
     (hasOwn key (heap s !!! r) = false →
        del env R cd ad (VRef r) key s = Ok tt s) ∧
     (∀ sl e, assoc_get key (o_props (heap s !!! r)) = Some (MkProp sl e false) →
        del env R cd ad (VRef r) key s = Exn TypeError s) ∧
     (∀ sl e, assoc_get key (o_props (heap s !!! r)) = Some (MkProp sl e true) →
        ∃ s1, js_delete r key s = Ok tt s1 ∧
              o_props (heap s1 !!! r) = assoc_del key (o_props (heap s !!! r)) ∧
              (∀ k', k' ≠ key → assoc_get k' (o_props (heap s1 !!! r)) =
                                assoc_get k' (o_props (heap s !!! r))) ∧
              (NoDup (fst <$> o_props (heap s !!! r)) →
                 assoc_get key (o_props (heap s1 !!! r)) = None) ∧
              subs s1 = subs s ∧ log s1 = log s ∧ queue s1 = queue s ∧
              cells s1 = cells s ∧
              match o_ob (heap s !!! r) with
              | None => del env R cd ad (VRef r) key s = Ok tt s1
              | Some ob =>
                  del env R cd ad (VRef r) key s =
                    r_notify R (ob_dep (observers s !!! ob)) s1
              end)).
Proof.
  intros Harr. rewrite del_on_object. cbv zeta. rewrite Harr.
  split.
  - intros ->. by destruct (production env).
  - intros ->. split; [|split].
    + by intros ->.
    + intros sl e Hp.
      assert (Hown : hasOwn key (heap s !!! r) = true).
      { unfold hasOwn, own_prop. rewrite Hp.
        by rewrite bool_decide_eq_true_2 by (by eexists). }
      rewrite Hown. cbn [negb]. unfold js_delete, bind, the_object, gets.
      by rewrite Hp.
    + intros sl e Hp.
      assert (Hown : hasOwn key (heap s !!! r) = true).
      { unfold hasOwn, own_prop. rewrite Hp.
        by rewrite bool_decide_eq_true_2 by (by eexists). }
      rewrite Hown. cbn [negb].
      assert (Hdel : js_delete r key s =
                Ok tt (set_heap (fun m =>
                         <[r := with_props (assoc_del key (o_props (m !!! r)))
                                  (m !!! r)]> m) s)).
      { unfold js_delete, bind, the_object, gets. by rewrite Hp. }
      match type of Hdel with _ = Ok tt ?x => set (s1 := x) in * end.
      exists s1. split; [exact Hdel|].
      assert (Hprops : o_props (heap s1 !!! r) =
                       assoc_del key (o_props (heap s !!! r))).
      { subst s1. simpl. by rewrite lookup_total_insert_eq. }
      rewrite Hprops.
      split; [done|]. split; [by intros k' Hk'; apply assoc_get_del_ne|].
      split; [by apply assoc_get_del_eq|].
      split; [done|]. split; [done|]. split; [done|]. split; [done|].
      destruct (o_ob (heap s !!! r)) as [ob|]; unfold bind at 1; rewrite Hdel;
        [|done].
      unfold bind, the_observer, gets. done.
Qed.

Lemma del_object_witness :
  ∃ s1, del shallow_env bottom WSetOnPrimitive WAvoidAddingReactive (VRef 0)
          (KName "a") object_page = Ok tt s1 ∧
        assoc_get (KName "a") (o_props (heap s1 !!! 0)) = None ∧
        assoc_get (KName "b") (o_props (heap s1 !!! 0)) =
          Some (MkProp (Data (VStr "x")) false true).
Proof.
  destruct (del_object shallow_env bottom WSetOnPrimitive WAvoidAddingReactive 0
              (KName "a") object_page eq_refl) as [_ H].
  destruct (H eq_refl) as (_ & _ & Hdel).
  destruct (Hdel (Data (VNum 1)) true eq_refl)
    as (s1 & _ & _ & Hne & Heq & _ & _ & _ & _ & Hrun).
  exists s1. split; [exact Hrun|]. split.
  - apply Heq. simpl. repeat constructor; set_solver.
  - rewrite Hne by done. reflexivity.
Defined.

Lemma splice_one (z : Z) (l : list jsval) :
  (0 ≤ z)%Z →
  take (Z.to_nat (if (z <? 0)%Z then Z.max (Z.of_nat (length l) + z) 0
                  else Z.min z (Z.of_nat (length l)))) l ++
  drop (Z.to_nat (if (z <? 0)%Z then Z.max (Z.of_nat (length l) + z) 0
                  else Z.min z (Z.of_nat (length l))) +
        Z.to_nat (Z.min (Z.max 1 0)
                    (Z.of_nat (length l) -
                     Z.of_nat (Z.to_nat (if (z <? 0)%Z
                                         then Z.max (Z.of_nat (length l) + z) 0
                                         else Z.min z (Z.of_nat (length l))))))) l
  = delete (Z.to_nat z) l.
Proof.
  intros Hz. rewrite (proj2 (Z.ltb_ge z 0)) by lia.
  rewrite delete_take_drop.
  destruct (decide (Z.to_nat z < length l)) as [Hlt|Hge].
  - replace (Z.to_nat (z `min` Z.of_nat (length l))) with (Z.to_nat z) by lia.
    f_equal. f_equal. lia.
  - replace (Z.to_nat (z `min` Z.of_nat (length l))) with (length l) by lia.
    rewrite !take_ge by lia. rewrite !drop_ge by lia. done.
Qed.



Lemma assoc_del_put (k : pkey) (p : prop) (l : list (pkey * prop)) :
  assoc_get k l = None → assoc_del k (assoc_put k p l) = l.
Proof.
  induction l as [|[k' p'] l IH]; simpl; intros Hg.
  - by destruct (decide (k = k)).
  - destruct (decide (k' = k)) as [->|Hne]; [done|]. simpl.
    destruct (decide (k' = k)); [done|]. by rewrite IH.
Qed.

Lemma admitted_marked (h : gset nat) (l : list nat) :
  (∀ w, w ∈ l → w ∈ h) → admitted h l = [].
Proof.
  induction l as [|w l IH]; simpl; intros H; [done|].
  destruct (decide (w ∈ h)) as [Hin|Hnin].
  - apply IH. intros w' Hw'. apply H. by right.
  - destruct Hnin. apply H. by left.
Qed.

Lemma Dep_notify_result (R : Rec) (d : nat) (s : State) :
  Dep_notify R d s = for_each (subs s !!! d) (Watcher_update R) s.
Proof. reflexivity. Qed.

(** X18: [set] of a new key followed by [del] of that key.  On a wrapped
    extensible plain object that is not root data, for a key the object
    does not have and a value that is not an object, with the
    subscribers of the wrapper's Subject all waiting for the flush:
    [set] installs a reactive property for the key, [del] removes it
    again, and the heap ends up as it started; the two notifications
    together mark every subscriber present and, outside a flush, queue
    each of them at most once. *)
Theorem set_then_del (env : Env) (n : nat) (cd ad : warning) (r ob : nat) (key : pkey)
    (val : jsval) (s : State) :
  o_isArray (heap s !!! r) = false →
  o_isVue (heap s !!! r) = false →
  o_extensible (heap s !!! r) = true →
  o_ob (heap s !!! r) = Some ob →
  ob_vmCount (observers s !!! ob) = 0 →
  ob_value (observers s !!! ob) = r →
  ob_dep (observers s !!! ob) < dep_uid s →
  own_prop key (heap s !!! r) = None →
  key ≠ KName "__ob__" →
  isObject val = false →
  plain_subscribers s (ob_dep (observers s !!! ob)) →
  ∃ s1 s2,
    set env (interp env (S n)) (VRef r) key val s = Ok val s1 ∧
    assoc_get key (o_props (heap s1 !!! r)) = Some (reactive_prop (next_cell s)) ∧
    c_val (cells s1 !!! next_cell s) = val ∧
    del env (interp env (S n)) cd ad (VRef r) key s1 = Ok tt s2 ∧
    (∀ r', heap s2 !!! r' = heap s !!! r') ∧
    has s2 = has s ∪ list_to_set (subs s !!! ob_dep (observers s !!! ob)) ∧
    (flushing s = false →
       queue s2 = queue s ++
                  admitted (has s) (subs s !!! ob_dep (observers s !!! ob))) ∧
    watchers s2 = watchers s.
Proof.
  intros HisA Hvue Hext Hob Hvm Hval Hdep Hown Hkey Hv Hplain.
  set (d := ob_dep (observers s !!! ob)) in *.
  (* set *)
  assert (Hkin : key_in key (heap s !!! r) && negb (in_Object_prototype key) = false).
  { unfold key_in. rewrite Hown, HisA. destruct key as [z|k]; [done|].
    cbn [andb orb]. rewrite (bool_decide_eq_false_2 (k = "__ob__")) by congruence.
    cbn [andb orb]. by destruct (in_Object_prototype (KName k)). }
  set (s0 := installed r key val (dep_uid s) None (with_new_dep s)).
  assert (Hdef : defineReactive (interp env (S n)) r key (Some val) None false s =
                 Ok tt s0).
  { apply defineReactive_new; [done| |].
    - change (r_observe (interp env (S n)) val false)
        with (observe env (interp env n) val false).
      by apply observe_non_object.
    - change (heap (with_new_dep s)) with (heap s).
      unfold definable. by rewrite Hown. }
  assert (Hsubs0 : subs s0 !!! d = subs s !!! d).
  { subst s0. unfold installed, with_new_dep. simpl.
    rewrite lookup_total_insert_ne; [done|]. lia. }
  assert (Hh0 : heap s0 !!! r =
                with_props (assoc_put key (reactive_prop (next_cell s))
                              (o_props (heap s !!! r))) (heap s !!! r)).
  { subst s0. unfold installed. simpl. by rewrite lookup_total_insert_eq. }
  assert (Hh0' : ∀ r', r' ≠ r → heap s0 !!! r' = heap s !!! r').
  { intros r' Hr'. subst s0. unfold installed. simpl.
    by rewrite lookup_total_insert_ne. }
  assert (Hc0 : cells s0 !!! next_cell s = Cell r (dep_uid s) val None false None None None).
  { subst s0. unfold installed. simpl. by rewrite lookup_total_insert_eq. }
  destruct (enqueue_all (interp env n) (subs s0 !!! d) s0)
    as (s1 & Hrun1 & Hhas1 & Hq1 & _ & _ & Hfl1 & _ & Hw1 & Hsu1 & Hh1 & Hc1 & Hob1 & _).
  { rewrite Hsubs0. exact Hplain. }
  assert (Hset : set env (interp env (S n)) (VRef r) key val s = Ok val s1).
  { rewrite set_on_object. cbv zeta. rewrite HisA. cbn [andb]. rewrite Hkin.
    unfold vmCount_of. rewrite Hob, Hvm, Hvue. cbn [orb negb Nat.eqb].
    fold d. rewrite Hval. unfold bind at 1. rewrite Hdef.
    unfold bind at 1.
    change (r_notify (interp env (S n)) d) with (Dep_notify (interp env n) d).
    by rewrite Dep_notify_result, Hrun1. }
  (* del *)
  assert (Hg1 : assoc_get key (o_props (heap s1 !!! r)) =
                Some (reactive_prop (next_cell s))).
  { rewrite Hh1, Hh0. simpl. apply assoc_get_put_eq. }
  assert (Hown1 : hasOwn key (heap s1 !!! r) = true).
  { unfold hasOwn, own_prop. rewrite Hg1.
    by rewrite bool_decide_eq_true_2 by (by eexists). }
  set (s1' := set_heap (fun m =>
                <[r := with_props (assoc_del key (o_props (m !!! r))) (m !!! r)]> m) s1).
  assert (Hdel : js_delete r key s1 = Ok tt s1').
  { unfold js_delete, bind, the_object, gets. by rewrite Hg1. }
  assert (Hh1' : ∀ r', heap s1' !!! r' = heap s !!! r').
  { intros r'. subst s1'. simpl. destruct (decide (r' = r)) as [->|Hne].
    - rewrite lookup_total_insert_eq, Hh1, Hh0. simpl.
      rewrite assoc_del_put.
      + by destruct (heap s !!! r).
      + unfold own_prop in Hown. by destruct (assoc_get key (o_props (heap s !!! r))).
    - rewrite lookup_total_insert_ne by done. rewrite Hh1. by apply Hh0'. }
  destruct (enqueue_all (interp env n) (subs s1' !!! d) s1')
    as (s2 & Hrun2 & Hhas2 & Hq2 & _ & _ & _ & _ & Hw2 & _ & Hh2 & _).
  { intros w Hw. change (subs s1') with (subs s1) in Hw.
    change (watchers s1') with (watchers s1).
    rewrite Hsu1 in Hw. rewrite Hw1. rewrite Hsubs0 in Hw. by apply Hplain. }
  assert (Hadm : admitted (has s1') (subs s1' !!! d) = []).
  { apply admitted_marked. intros w Hw.
    change (has s1') with (has s1). change (subs s1') with (subs s1) in Hw.
    rewrite Hhas1. rewrite Hsu1 in Hw. set_solver. }
  assert (Hdelr : del env (interp env (S n)) cd ad (VRef r) key s1 = Ok tt s2).
  { rewrite del_on_object. cbv zeta. rewrite Hh1, Hh0.
    cbn [with_props o_isArray o_isVue o_ob]. rewrite HisA. cbn [andb].
    unfold vmCount_of. cbn [with_props o_ob]. rewrite Hob, Hob1.
    change (observers s0) with (observers s). rewrite Hvm, Hvue.
    cbn [orb negb Nat.eqb]. rewrite <- Hh0, <- Hh1, Hown1. cbn [negb].
    unfold bind at 1. rewrite Hdel. unfold bind at 1.
    unfold the_observer at 1, gets at 1.
    change (observers s1') with (observers s1). rewrite Hob1.
    change (observers s0) with (observers s). fold d.
    change (r_notify (interp env (S n)) d) with (Dep_notify (interp env n) d).
    by rewrite Dep_notify_result, Hrun2. }
  exists s1, s2. split; [done|]. split; [done|].
  split; [by rewrite Hc1, Hc0|]. split; [done|].
  split; [by intros r'; rewrite Hh2|].
  split.
  { rewrite Hhas2. change (has s1') with (has s1). change (subs s1') with (subs s1).
    rewrite Hhas1, Hsu1, Hsubs0. change (has s0) with (has s). set_solver. }
  split.
  { intros Hfl. rewrite Hq2, Hadm, app_nil_r.
    - change (queue s1') with (queue s1). rewrite Hq1 by done.
      by rewrite Hsubs0.
    - change (flushing s1') with (flushing s1). by rewrite Hfl1. }
  rewrite Hw2. change (watchers s1') with (watchers s1). by rewrite Hw1.
Qed.

Lemma set_then_del_witness :
  ∃ s1 s2,
    set shallow_env (interp shallow_env 1) (VRef 0) (KName "c") (VNum 3)
      observed_page = Ok (VNum 3) s1 ∧
    del shallow_env (interp shallow_env 1) WSetOnPrimitive WAvoidAddingReactive
      (VRef 0) (KName "c") s1 = Ok tt s2 ∧
    heap s2 !!! 0 = heap observed_page !!! 0.
Proof.
  assert (Hs : subs observed_page !!! ob_dep (observers observed_page !!! 0) = [])
    by (vm_compute; reflexivity).
  assert (Hp : plain_subscribers observed_page
                 (ob_dep (observers observed_page !!! 0))).
  { intros w. rewrite Hs. by intros ?%elem_of_nil. }
  assert (Hd : ob_dep (observers observed_page !!! 0) < dep_uid observed_page)
    by (vm_compute; lia).
  destruct (set_then_del shallow_env 0 WSetOnPrimitive WAvoidAddingReactive 0 0
              (KName "c") (VNum 3) observed_page
              eq_refl eq_refl eq_refl eq_refl eq_refl eq_refl Hd eq_refl) as
    (s1 & s2 & Hset & _ & _ & Hdel & Hheap & _); [done|done|exact Hp|].
  exists s1, s2. split; [exact Hset|]. split; [exact Hdel|]. exact (Hheap 0).
Defined.

(** ** A flush that is left by an exception *)

Lemma flush_at_scheduler_only (i : nat) : scheduler_only (flush_at i).
Proof. intros s s' Hq Hh Hf Hi. unfold flush_at. by rewrite Hq, Hf, Hi. Qed.

Lemma flush_at_enqueue_stable (i : nat) : enqueue_stable (flush_at i).
Proof.
  intros w s s' Hrun (Hfl & Hi & Hlen).
  destruct (queueWatcher_fields w s) as (s1 & Hrun1 & Hi1 & Hfl1 & Hin & Hnin).
  rewrite Hrun in Hrun1. injection Hrun1 as <-.
  split; [by rewrite Hfl1|]. split; [by rewrite Hi1|].
  destruct (decide (w ∈ has s)) as [Hw|Hw].
  - by rewrite (Hin Hw).
  - destruct (Hnin Hw) as [_ Hq]. rewrite Hq, Hfl. unfold splice_in.
    rewrite length_app. simpl. rewrite length_take, length_drop. lia.
Qed.

Lemma keeps_any_modify (P : State → Prop) (f : State → State) :
  (∀ s, P s → P (f s)) → keeps P (modify f).
Proof. intros H s Hs. by apply H. Qed.

Lemma flush_step_keeps (env : Env) (R : Rec) (i : nat) :
  passive R → keeps (flush_at i) (flush_step env R).
Proof.
  intros HR.
  pose proof (flush_at_scheduler_only i) as Hs.
  pose proof (flush_at_enqueue_stable i) as He.
  pose proof (HR _ Hs He) as HR1.
  unfold flush_step.
  apply keeps_bind; [apply keeps_gets|]. intros q.
  apply keeps_bind; [apply keeps_gets|]. intros j. cbv zeta.
  apply keeps_bind; [by apply keeps_the_watcher|]. intros W.
  apply keeps_bind.
  { destruct (w_before W).
    - apply keeps_bind; [apply HR1|]. intros _. apply keeps_ret.
    - apply keeps_ret. }
  intros _.
  apply keeps_bind; [by apply keeps_any_modify|]. intros _.
  apply keeps_bind; [by apply keeps_Watcher_run|]. intros _.
  apply keeps_bind; [apply keeps_gets|]. intros h.
  destruct (negb (production env) && bool_decide (q !!! j ∈ h)); [|apply keeps_ret].
  apply keeps_bind; [apply keeps_gets|]. intros c.
  apply keeps_bind; [by apply keeps_any_modify|]. intros _.
  destruct (MAX_UPDATE_COUNT <? default 0 (c !! (q !!! j)) + 1); [|apply keeps_ret].
  apply keeps_bind; [by apply keeps_the_watcher|]. intros W'.
  apply keeps_bind; [by apply keeps_warn|]. intros _. apply keeps_ret.
Qed.

Lemma flush_loop_exn (env : Env) (R : Rec) (fuel : nat) (s : State) (e : jsval)
    (s' : State) :
  passive R → flushing s = true →
  flush_loop env R fuel s = Exn e s' →
  flushing s' = true ∧ index s' < length (queue s').
Proof.
  intros HR. revert s. induction fuel as [|fuel IH]; intros s Hfl Hrun; [done|].
  simpl in Hrun. unfold bind at 1 in Hrun. unfold gets at 1 in Hrun.
  unfold bind at 1 in Hrun. unfold gets at 1 in Hrun.
  destruct (index s <? length (queue s)) eqn:Hlt; [|done].
  apply Nat.ltb_lt in Hlt.
  pose proof (flush_step_keeps env R (index s) HR s) as Hk.
  unfold bind at 1 in Hrun.
  destruct (flush_step env R s) as [b s1|e1 s1|]; [| |done].
  - destruct Hk as (Hfl1 & _); [done|]. destruct b; [|done].
    unfold bind at 1 in Hrun. unfold modify at 1 in Hrun.
    by apply (IH (set_index (S (index s1)) s1) Hfl1 Hrun).
  - injection Hrun as <- <-. destruct Hk as (Hfl1 & Hi1 & Hlen1); [done|].
    split; [done|]. by rewrite Hi1.
Qed.

Lemma hooks_return (env : Env) (a : list nat) (q : list nat) (s : State) :
  ∃ s', (resetSchedulerState env ;; callActivatedHooks a ;; callUpdatedHooks q) s =
        Ok tt s'.
Proof.
  assert (H1 : ∀ l s, ∃ s', callActivatedHooks l s = Ok tt s').
  { induction l as [|x l IH]; intros s0; [by eexists|].
    unfold callActivatedHooks in *. simpl for_each.
    unfold bind at 1. unfold bind at 1. unfold upd_vm at 1, modify at 1.
    unfold activateChildComponent at 1, modify at 1. apply IH. }
  assert (H2 : ∀ l s, ∃ s', for_each l (fun watcher =>
                 W <- the_watcher watcher ;;
                 V <- the_vm (w_vm W) ;;
                 if bool_decide (vm_watcher V = Some watcher) && vm_isMounted V
                 then callHook (w_vm W) "updated" else ret tt) s = Ok tt s').
  { induction l as [|x l IH]; intros s0; [by eexists|].
    simpl for_each. unfold bind at 1. unfold bind at 1.
    unfold the_watcher at 1, gets at 1. unfold bind at 1.
    unfold the_vm at 1, gets at 1.
    destruct (bool_decide _ && _).
    - unfold callHook at 1, modify at 1. apply IH.
    - unfold ret at 1. apply IH. }
  unfold resetSchedulerState, bind, modify.
  destruct (production env); simpl.
  - destruct (H1 a (set_flushing false (set_waiting false (set_has ∅
              (set_activatedChildren [] (set_queue [] (set_index 0 s)))))))
      as (s1 & ->).
    apply H2.
  - destruct (H1 a (set_flushing false (set_waiting false (set_circular ∅ (set_has ∅
              (set_activatedChildren [] (set_queue [] (set_index 0 s))))))))
      as (s1 & ->).
    apply H2.
Qed.

(** X19: a flush that is left by an exception leaves the scheduler as
    it was at that moment.  When [flushSchedulerQueue] throws (the
    getter of a node that is not a user watch failed, or a [before]
    hook did), the state is not reset: [flushing] is still set, and the
    cursor still points into the queue, at the node that failed. *)
Theorem flush_failure_not_reset (env : Env) (n fuel : nat) (s : State) (e : jsval)
    (s' : State) :
  flushSchedulerQueue env (interp env n) fuel s = Exn e s' →
  flushing s' = true ∧ index s' < length (queue s').
Proof.
  unfold flushSchedulerQueue.
  unfold bind at 1. unfold modify at 1. unfold bind at 1. unfold modify at 1.
  unfold bind at 1. unfold modify at 1. unfold bind at 1.
  set (s0 := set_index 0 _).
  destruct (flush_loop env (interp env n) fuel s0) as [[] s1|e1 s1|] eqn:Hloop.
  - unfold bind at 1. unfold gets at 1. unfold bind at 1. unfold gets at 1.
    destruct (hooks_return env (activatedChildren s1) (queue s1) s1) as (s2 & ->).
    done.
  - intros [= <- <-].
    apply (flush_loop_exn env (interp env n) fuel s0 e1 s1);
      [apply interp_passive|done|done].
  - done.
Qed.

Lemma flush_failure_not_reset_witness :
  ∃ s', flushSchedulerQueue failing_env (interp failing_env 20) 10
          (failing_page false) = Exn (VStr "boom") s' ∧
        flushing s' = true.
Proof.
  assert (H : flushSchedulerQueue failing_env (interp failing_env 20) 10
                (failing_page false) =
              Exn (VStr "boom")
                (state_of (flushSchedulerQueue failing_env (interp failing_env 20) 10
                             (failing_page false)))) by (vm_compute; reflexivity).
  eexists. split; [exact H|].
  exact (proj1 (flush_failure_not_reset _ _ _ _ _ _ H)).
Defined.

(** ** The hooks after a flush *)

(** X20: the [updated] hooks are called from the last entry of the queue
    to the first, and only for entries that are the render watcher of a
    mounted component; an entry that occurs twice gets two calls, a user
    watch or a computed node gets none, and nothing but the calls
    happens. *)
Theorem callUpdatedHooks_order (q : list nat) (s : State) :
  ∃ s', callUpdatedHooks q s = Ok tt s' ∧
        log s' = log s ++
          ((fun w => ECallHook (w_vm (watchers s !!! w)) "updated") <$>
           filter (fun w => render_of_mounted s w = true) (reverse q)) ∧
        watchers s' = watchers s ∧ vms s' = vms s ∧ queue s' = queue s ∧
        has s' = has s ∧ heap s' = heap s ∧ subs s' = subs s.
Proof.
  unfold callUpdatedHooks, for_each_rev. generalize (reverse q) as l. clear q.
  intros l.
  revert s. induction l as [|w l IH]; intros s.
  - exists s. split; [done|]. split; [|done]. by rewrite app_nil_r.
  - rewrite for_each_cons. unfold bind at 1. unfold bind at 1.
    unfold the_watcher at 1, gets at 1. unfold bind at 1.
    unfold the_vm at 1, gets at 1.
    rewrite filter_cons.
    change (bool_decide (vm_watcher (vms s !!! w_vm (watchers s !!! w)) = Some w) &&
            vm_isMounted (vms s !!! w_vm (watchers s !!! w)))
      with (render_of_mounted s w).
    destruct (render_of_mounted s w) eqn:Hr.
    + unfold callHook at 1, modify at 1.
      destruct (IH (emit (ECallHook (w_vm (watchers s !!! w)) "updated") s))
        as (s' & Hrun & Hlog & Hw & Hv & Hq & Hh & Hhp & Hs).
      exists s'. split; [done|]. rewrite Hlog. split; [|done].
      rewrite decide_True by done. simpl. by rewrite <- app_assoc.
    + unfold ret at 1. destruct (IH s) as (s' & Hrun & Hlog & Hrest).
      exists s'. split; [done|]. split; [|done].
      rewrite decide_False; done.
Qed.

(** ** dependArray *)

Lemma dependArray_loop (R : Rec) (t : nat) (l : list jsval) (s : State) :
  target s = Some t →
  (∀ er, VRef er ∈ l → o_isArray (heap s !!! er) = false) →
  ∃ s', for_each l (fun e =>
          (match e with
           | VRef er =>
               eo <- the_object er ;;
               match o_ob eo with
               | Some ob => O <- the_observer ob ;; Dep_depend (ob_dep O)
               | None => ret tt
               end
           | _ => ret tt
           end) ;;
          isA <- isArray e ;;
          if isA then r_dependArray R e else ret tt) s = Ok tt s' ∧
        heap s' = heap s ∧ observers s' = observers s ∧ target s' = target s ∧
        cells s' = cells s ∧ log s' = log s ∧ queue s' = queue s ∧ has s' = has s ∧
        (∀ d, d ∈ w_newDepIds (watchers s !!! t) →
              d ∈ w_newDepIds (watchers s' !!! t)) ∧
        (∀ er ob, VRef er ∈ l → o_ob (heap s !!! er) = Some ob →
                  ob_dep (observers s !!! ob) ∈ w_newDepIds (watchers s' !!! t)).
Proof.
  revert s. induction l as [|e l IH]; intros s Ht Hflat.
  - exists s. split; [done|]. split; [done|]. split; [done|]. split; [done|].
    split; [done|]. split; [done|]. split; [done|]. split; [done|].
    split; [done|]. by intros er ob ?%elem_of_nil.
  - rewrite for_each_cons. unfold bind at 1. unfold bind at 1.
    assert (Hstep : ∃ s1,
      (match e with
       | VRef er =>
           eo <- the_object er ;;
           match o_ob eo with
           | Some ob => O <- the_observer ob ;; Dep_depend (ob_dep O)
           | None => ret tt
           end
       | _ => ret tt
       end) s = Ok tt s1 ∧
      heap s1 = heap s ∧ observers s1 = observers s ∧ target s1 = target s ∧
      cells s1 = cells s ∧ log s1 = log s ∧ queue s1 = queue s ∧ has s1 = has s ∧
      (∀ d, d ∈ w_newDepIds (watchers s !!! t) →
            d ∈ w_newDepIds (watchers s1 !!! t)) ∧
      (∀ er ob, e = VRef er → o_ob (heap s !!! er) = Some ob →
                ob_dep (observers s !!! ob) ∈ w_newDepIds (watchers s1 !!! t))).
    { destruct e as [| | | | | |er]; try (exists s; by repeat (split; [done|])).
      unfold bind at 1. unfold the_object at 1, gets at 1.
      destruct (o_ob (heap s !!! er)) as [ob|] eqn:Hob.
      - unfold bind at 1. unfold the_observer at 1, gets at 1.
        unfold Dep_depend, bind at 1, gets at 1. rewrite Ht.
        destruct (addDep_records t (ob_dep (observers s !!! ob)) s)
          as (s1 & Hrun & Hin & Hmono & _ & Hh & Hc & Ho & Hl & Htg & Hq & Hhas).
        exists s1. split; [done|]. split; [done|]. split; [done|].
        split; [congruence|]. split; [done|]. split; [done|]. split; [done|].
        split; [done|]. split; [done|].
        intros er' ob' [= <-]. rewrite Hob. by intros [= <-].
      - exists s. split; [done|]. split; [done|]. split; [done|].
        split; [done|]. split; [done|]. split; [done|]. split; [done|].
        split; [done|]. split; [done|].
        intros er' ob' [= <-]. by rewrite Hob. }
    destruct Hstep as (s1 & Hrun1 & Hh1 & Ho1 & Ht1 & Hc1 & Hl1 & Hq1 & Hhas1 &
                       Hmono1 & Hrec1).
    rewrite Hrun1. unfold bind at 1.
    assert (HisA : isArray e s1 = Ok false s1).
    { unfold isArray. destruct e as [| | | | | |er]; try done.
      unfold bind, the_object, gets, ret. rewrite Hh1.
      rewrite (Hflat er); [done|]. by left. }
    rewrite HisA. unfold ret at 1.
    destruct (IH s1) as (s' & Hrun & Hh & Ho & Htg & Hc & Hl & Hq & Hhas & Hmono & Hrec).
    { by rewrite Ht1. }
    { intros er Her. rewrite Hh1. apply Hflat. by right. }
    exists s'. split; [done|]. split; [congruence|]. split; [congruence|].
    split; [congruence|]. split; [congruence|]. split; [congruence|].
    split; [congruence|]. split; [congruence|].
    split. { intros d Hd. by apply Hmono, Hmono1. }
    intros er ob Her Hob. apply elem_of_cons in Her as [<-|Her].
    + apply Hmono. by apply (Hrec1 er ob).
    + rewrite <- Ho1. apply (Hrec er ob Her). by rewrite Hh1.
Qed.

(** X21: [dependArray] records the elements of an array.  With an
    active node [t] and an array none of whose elements is an array,
    it returns without calling anything, and afterwards the Subject of
    the wrapper of every element that has one is in the current
    dependency set of [t]; elements without wrapper are skipped. *)
Theorem dependArray_records (R : Rec) (r t : nat) (s : State) :
  target s = Some t →
  flat_array s r →
  ∃ s', dependArray R (VRef r) s = Ok tt s' ∧
        heap s' = heap s ∧ cells s' = cells s ∧ log s' = log s ∧ queue s' = queue s ∧
        (∀ d, d ∈ w_newDepIds (watchers s !!! t) →
              d ∈ w_newDepIds (watchers s' !!! t)) ∧
        (∀ er ob, VRef er ∈ o_elems (heap s !!! r) →
                  o_ob (heap s !!! er) = Some ob →
                  ob_dep (observers s !!! ob) ∈ w_newDepIds (watchers s' !!! t)).
Proof.
  intros Ht Hflat. unfold dependArray, bind at 1, the_object at 1, gets at 1.
  destruct (dependArray_loop R t (o_elems (heap s !!! r)) s Ht Hflat)
    as (s' & Hrun & Hh & _ & _ & Hc & Hl & Hq & _ & Hmono & Hrec).
  exists s'. done.
Qed.

Lemma dependArray_records_witness :
  ∃ s', dependArray bottom (VRef 1) elements_page = Ok tt s' ∧
        5 ∈ w_newDepIds (watchers s' !!! 1).
Proof.
  assert (Hf : flat_array elements_page 1).
  { intros er. change (o_elems (heap elements_page !!! 1)) with [VRef 0; VNum 7].
    intros Her. assert (er = 0) as -> by set_solver. reflexivity. }
  destruct (dependArray_records bottom 1 1 elements_page eq_refl Hf)
    as (s' & Hrun & _ & _ & _ & _ & _ & Hrec).
  exists s'. split; [exact Hrun|].
  apply (Hrec 0 0); [|reflexivity].
  change (o_elems (heap elements_page !!! 1)) with [VRef 0; VNum 7]. by left.
Defined.

(** ** A flush over nodes that were torn down *)

Lemma same_core_trans (s1 s2 s3 : State) :
  same_core s1 s2 → same_core s2 s3 → same_core s1 s3.
Proof.
  intros (H1 & H2 & H3 & H4 & H5 & H6 & H7 & H8 & H9 & H10)
         (K1 & K2 & K3 & K4 & K5 & K6 & K7 & K8 & K9 & K10).
  unfold same_core. by rewrite K1, K2, K3, K4, K5, K6, K7, K8, K9, K10.
Qed.

Lemma hooks_same_core (a q : list nat) (s : State) :
  ∃ s', (callActivatedHooks a ;; callUpdatedHooks q) s = Ok tt s' ∧ same_core s s'.
Proof.
  assert (H1 : ∀ l s, ∃ s', callActivatedHooks l s = Ok tt s' ∧ same_core s s').
  { induction l as [|x l IH]; intros s0; [by exists s0|].
    unfold callActivatedHooks in *. rewrite for_each_cons.
    unfold bind at 1. unfold bind at 1. unfold upd_vm at 1, modify at 1.
    unfold activateChildComponent at 1, modify at 1.
    match goal with |- context [for_each l _ ?s1] =>
      destruct (IH s1) as (s' & Hrun & Hc) end.
    exists s'. split; [done|].
    eapply same_core_trans; [|exact Hc]. done. }
  assert (H2 : ∀ l s, ∃ s', callUpdatedHooks l s = Ok tt s' ∧ same_core s s').
  { intros l s0. unfold callUpdatedHooks, for_each_rev.
    generalize (reverse l). clear l. intros l. revert s0.
    induction l as [|x l IH]; intros s0; [by exists s0|].
    rewrite for_each_cons. unfold bind at 1. unfold bind at 1.
    unfold the_watcher at 1, gets at 1. unfold bind at 1.
    unfold the_vm at 1, gets at 1.
    destruct (bool_decide _ && _).
    - unfold callHook at 1, modify at 1.
      match goal with |- context [for_each l _ ?s1] =>
        destruct (IH s1) as (s' & Hrun & Hc) end.
      exists s'. split; [done|]. eapply same_core_trans; [|exact Hc]. done.
    - unfold ret at 1. apply IH. }
  unfold bind. destruct (H1 a s) as (s1 & -> & Hc1).
  destruct (H2 q s1) as (s2 & -> & Hc2).
  exists s2. split; [done|]. by apply (same_core_trans _ _ _ Hc1 Hc2).
Qed.

Lemma flush_loop_inactive (env : Env) (R : Rec) (fuel : nat) (s : State) :
  (∀ w, w ∈ queue s → w_active (watchers s !!! w) = false ∧
                      w_before (watchers s !!! w) = None) →
  length (queue s) - index s < fuel →
  ∃ s', flush_loop env R fuel s = Ok tt s' ∧
        queue s' = queue s ∧ heap s' = heap s ∧ watchers s' = watchers s ∧
        subs s' = subs s ∧ cells s' = cells s ∧ log s' = log s ∧ vms s' = vms s ∧
        activatedChildren s' = activatedChildren s.
Proof.
  revert s. induction fuel as [|fuel IH]; intros s Hq Hf; [lia|].
  simpl flush_loop. unfold bind at 1. unfold gets at 1.
  unfold bind at 1. unfold gets at 1.
  destruct (index s <? length (queue s)) eqn:Hlt; [|by exists s].
  apply Nat.ltb_lt in Hlt.
  destruct (Hq (queue s !!! index s)) as [Hact Hbef].
  { apply list_elem_of_lookup_total_2. done. }
  assert (Hstep : flush_step env R s =
                  Ok true (set_has (has s ∖ {[queue s !!! index s]}) s)).
  { unfold flush_step. unfold bind at 1. unfold gets at 1.
    unfold bind at 1. unfold gets at 1. cbv zeta.
    unfold bind at 1. unfold the_watcher at 1, gets at 1. rewrite Hbef.
    unfold bind at 1. unfold ret at 1. unfold bind at 1. unfold modify at 1.
    unfold bind at 1. unfold Watcher_run at 1.
    unfold bind at 1. unfold the_watcher at 1, gets at 1.
    change (watchers (set_has (has s ∖ {[queue s !!! index s]}) s))
      with (watchers s). rewrite Hact. unfold ret at 1.
    unfold bind at 1. unfold gets at 1.
    change (has (set_has (has s ∖ {[queue s !!! index s]}) s))
      with (has s ∖ {[queue s !!! index s]}).
    rewrite bool_decide_eq_false_2 by set_solver.
    by rewrite andb_false_r. }
  unfold bind at 1. rewrite Hstep. unfold bind at 1. unfold modify at 1.
  match goal with |- context [flush_loop env R fuel ?s1] =>
    destruct (IH s1) as (s' & Hrun & Hrest) end.
  { exact Hq. }
  { simpl. lia. }
  exists s'. split; [done|]. exact Hrest.
Qed.

(** X22: a flush skips the nodes that were torn down.  When every entry
    of the queue is an inactive node without [before] hook (an empty
    queue is a case of it), [flushSchedulerQueue] returns without
    calling any getter or callback, whatever the entry points are, and
    leaves the scheduler reset: no entry, no marker, neither flushing
    nor waiting; heap, nodes and subscriptions are as before. *)
Theorem flush_skips_inactive (env : Env) (R : Rec) (fuel : nat) (s : State) :
  (∀ w, w ∈ queue s → w_active (watchers s !!! w) = false ∧
                      w_before (watchers s !!! w) = None) →
  length (queue s) < fuel →
  ∃ s', flushSchedulerQueue env R fuel s = Ok tt s' ∧
        queue s' = [] ∧ has s' = ∅ ∧ flushing s' = false ∧ waiting s' = false ∧
        index s' = 0 ∧ heap s' = heap s ∧ watchers s' = watchers s ∧
        subs s' = subs s ∧ cells s' = cells s.
Proof.
  intros Hq Hf. unfold flushSchedulerQueue.
  unfold bind at 1. unfold modify at 1. unfold bind at 1. unfold modify at 1.
  unfold bind at 1. unfold modify at 1. unfold bind at 1.
  set (s0 := set_index 0 _).
  assert (Hperm : queue s0 ≡ₚ queue s) by apply merge_sort_Permutation.
  destruct (flush_loop_inactive env R fuel s0)
    as (s1 & Hloop & Hq1 & Hh1 & Hw1 & Hs1 & Hc1 & Hl1 & Hv1 & Ha1).
  { intros w Hw. change (watchers s0) with (watchers s). apply Hq.
    by rewrite <- Hperm. }
  { rewrite Hperm. change (index s0) with 0. lia. }
  rewrite Hloop. unfold bind at 1. unfold gets at 1.
  unfold bind at 1. unfold gets at 1.
  set (s2 := match resetSchedulerState env s1 with Ok _ x => x | _ => s1 end).
  assert (Hreset : resetSchedulerState env s1 = Ok tt s2 ∧
                   queue s2 = [] ∧ has s2 = ∅ ∧ flushing s2 = false ∧
                   waiting s2 = false ∧ index s2 = 0 ∧ heap s2 = heap s1 ∧
                   watchers s2 = watchers s1 ∧ subs s2 = subs s1 ∧
                   cells s2 = cells s1).
  { subst s2. unfold resetSchedulerState, bind, modify.
    destruct (production env); simpl; done. }
  destruct Hreset as (Hreset & Hq2 & Hh2 & Hf2 & Hwt2 & Hi2 & Hhp2 & Hw2 & Hs2 & Hc2).
  unfold bind at 1. rewrite Hreset.
  destruct (hooks_same_core (activatedChildren s1) (queue s1) s2)
    as (s3 & Hhooks & Hq3 & Hh3 & Hf3 & Hwt3 & Hi3 & Hhp3 & Hw3 & Hs3 & Hc3 & _).
  rewrite Hhooks. exists s3. split; [done|].
  split; [congruence|]. split; [congruence|]. split; [congruence|].
  split; [congruence|]. split; [congruence|].
  split; [by rewrite Hhp3, Hhp2, Hh1|]. split; [by rewrite Hw3, Hw2, Hw1|].
  split; [by rewrite Hs3, Hs2, Hs1|]. by rewrite Hc3, Hc2, Hc1.
Qed.

Lemma flush_skips_inactive_witness :
  ∃ s', flushSchedulerQueue shallow_env bottom 2 stale_queue = Ok tt s' ∧
        queue s' = [] ∧ has s' = ∅.
Proof.
  assert (Hq : queue stale_queue = [1]) by reflexivity.
  assert (H : ∀ w, w ∈ queue stale_queue →
                   w_active (watchers stale_queue !!! w) = false ∧
                   w_before (watchers stale_queue !!! w) = None).
  { intros w. rewrite Hq. intros ->%list_elem_of_singleton.
    split; vm_compute; reflexivity. }
  destruct (flush_skips_inactive shallow_env bottom 2 stale_queue H)
    as (s' & Hrun & Hq' & Hh' & _); [rewrite Hq; simpl; lia|].
  exists s'. split; [exact Hrun|]. split; [exact Hq'|exact Hh'].
Defined.


(** ** Invariants of the dependency graph and of the target stack

    [P i] is a family of properties of the state that looks at the
    subscriber lists, the watchers, [Dep.target] and [targetStack] only. *)
Section Invariant.
Context {I : Type}.
Variable P : I → State → Prop.
Hypothesis P_frame : ∀ i s s',
  subs s' = subs s → watchers s' = watchers s →
  target s' = target s → targetStack s' = targetStack s → P i s → P i s'.
Hypothesis P_value : ∀ i w v, keeps (P i) (upd_watcher w (with_value v)).
Hypothesis P_dirty : ∀ i w b, keeps (P i) (upd_watcher w (with_dirty b)).
Hypothesis P_new_Dep : ∀ i, keeps (P i) new_Dep.
Hypothesis P_addDep : ∀ i w d, keeps (P i) (Watcher_addDep w d).
Hypothesis P_get : ∀ R, (∀ i, Rec_keeps (P i) R) →
  ∀ i w, keeps (P i) (Watcher_get R w).

Lemma inv_modify (i : I) (f : State → State) :
  (∀ s, subs (f s) = subs s ∧ watchers (f s) = watchers s ∧
        target (f s) = target s ∧ targetStack (f s) = targetStack s) →
  keeps (P i) (modify f).
Proof.
  intros Hf s H. simpl. destruct (Hf s) as (H1 & H2 & H3 & H4).
  by apply (P_frame i s).
Qed.

Ltac inv_frame := apply inv_modify; intros ?; repeat split; reflexivity.

Ltac inv_go :=
  repeat first
    [ assumption
    | progress cbv zeta
    | match goal with
      | |- keeps _ (ret _) => apply keeps_ret
      | |- keeps _ (throw _) => apply keeps_throw
      | |- keeps _ (gets _) => apply keeps_gets
      | |- keeps _ (upd_watcher _ (with_value _)) => apply P_value
      | |- keeps _ (upd_watcher _ (with_dirty _)) => apply P_dirty
      | |- keeps _ new_Dep => apply P_new_Dep
      | |- keeps _ (Watcher_addDep _ _) => apply P_addDep
      | |- keeps _ (modify _) => inv_frame
      | |- keeps _ (for_each _ _) => apply keeps_for_each; intros ?
      | |- keeps _ (try_catch _ _) => apply keeps_try_catch; [|intros ?]
      | |- keeps _ (try_finally _ _ _) => apply keeps_try_finally; [|intros ?]
      | |- keeps _ (bind _ _) => apply keeps_bind; [|intros ?]
      | |- keeps _ (if ?b then _ else _) => destruct b
      | |- keeps _ (match ?x with _ => _ end) => destruct x
      end
    | solve [auto with keeps nocore] ].

Lemma inv_the_watcher i (w : nat) : keeps (P i) (the_watcher w).
Proof. unfold the_watcher. inv_go. Qed.
#[local] Hint Resolve inv_the_watcher : keeps.

Lemma inv_the_subs i (d : nat) : keeps (P i) (the_subs d).
Proof. unfold the_subs. inv_go. Qed.
#[local] Hint Resolve inv_the_subs : keeps.

Lemma inv_the_object i (r : nat) : keeps (P i) (the_object r).
Proof. unfold the_object. inv_go. Qed.
#[local] Hint Resolve inv_the_object : keeps.

Lemma inv_upd_object i (r : nat) (f : object → object) : keeps (P i) (upd_object r f).
Proof. unfold upd_object. inv_go. Qed.
#[local] Hint Resolve inv_upd_object : keeps.

Lemma inv_the_cell i (c : nat) : keeps (P i) (the_cell c).
Proof. unfold the_cell. inv_go. Qed.
#[local] Hint Resolve inv_the_cell : keeps.

Lemma inv_upd_cell i (c : nat) (f : cell → cell) : keeps (P i) (upd_cell c f).
Proof. unfold upd_cell. inv_go. Qed.
#[local] Hint Resolve inv_upd_cell : keeps.

Lemma inv_the_observer i (o : nat) : keeps (P i) (the_observer o).
Proof. unfold the_observer. inv_go. Qed.
#[local] Hint Resolve inv_the_observer : keeps.

Lemma inv_upd_observer i (o : nat) (f : observer → observer) :
  keeps (P i) (upd_observer o f).
Proof. unfold upd_observer. inv_go. Qed.
#[local] Hint Resolve inv_upd_observer : keeps.

Lemma inv_the_vm i (v : nat) : keeps (P i) (the_vm v).
Proof. unfold the_vm. inv_go. Qed.
#[local] Hint Resolve inv_the_vm : keeps.

Lemma inv_handleError i (e : jsval) (vm : nat) (info : string) :
  keeps (P i) (handleError e vm info).
Proof. unfold handleError. inv_go. Qed.
#[local] Hint Resolve inv_handleError : keeps.

Lemma inv_warn i (w : warning) (vm : option nat) : keeps (P i) (warn w vm).
Proof. unfold warn. inv_go. Qed.
#[local] Hint Resolve inv_warn : keeps.

Lemma inv_alloc_object i (o : object) : keeps (P i) (alloc_object o).
Proof. unfold alloc_object. inv_go. Qed.
#[local] Hint Resolve inv_alloc_object : keeps.

Lemma inv_alloc_cell i (c : cell) : keeps (P i) (alloc_cell c).
Proof. unfold alloc_cell. inv_go. Qed.
#[local] Hint Resolve inv_alloc_cell : keeps.

Lemma inv_alloc_observer i (o : observer) : keeps (P i) (alloc_observer o).
Proof. unfold alloc_observer. inv_go. Qed.
#[local] Hint Resolve inv_alloc_observer : keeps.

Lemma inv_isArray i (v : jsval) : keeps (P i) (isArray v).
Proof. unfold isArray. destruct v; inv_go. Qed.
#[local] Hint Resolve inv_isArray : keeps.

Lemma inv_queueWatcher i (w : nat) : keeps (P i) (queueWatcher w).
Proof. unfold queueWatcher, nextTick_flushSchedulerQueue. inv_go. Qed.
#[local] Hint Resolve inv_queueWatcher : keeps.

Lemma inv_Dep_depend i (d : nat) : keeps (P i) (Dep_depend d).
Proof. unfold Dep_depend. inv_go. Qed.
#[local] Hint Resolve inv_Dep_depend : keeps.

Lemma inv_Watcher_depend i (w : nat) : keeps (P i) (Watcher_depend w).
Proof. unfold Watcher_depend. inv_go. Qed.
#[local] Hint Resolve inv_Watcher_depend : keeps.

Section InvariantRec.
Variable env : Env.
Variable R : Rec.
Hypothesis HR : ∀ i, Rec_keeps (P i) R.

Lemma inv_r_call i (f : fn) (this : jsval) (args : list jsval) :
  keeps (P i) (r_call R f this args).
Proof. apply HR. Qed.
Lemma inv_r_notify i (d : nat) : keeps (P i) (r_notify R d).
Proof. apply HR. Qed.
Lemma inv_r_observe i (v : jsval) (b : bool) : keeps (P i) (r_observe R v b).
Proof. apply HR. Qed.
Lemma inv_r_traverse i (v : jsval) : keeps (P i) (r_traverse R v).
Proof. apply HR. Qed.
Lemma inv_r_dependArray i (v : jsval) : keeps (P i) (r_dependArray R v).
Proof. apply HR. Qed.
#[local] Hint Resolve inv_r_call inv_r_notify inv_r_observe inv_r_traverse
  inv_r_dependArray : keeps.

Lemma inv_Watcher_get i (w : nat) : keeps (P i) (Watcher_get R w).
Proof. by apply P_get. Qed.
#[local] Hint Resolve inv_Watcher_get : keeps.

Lemma inv_Watcher_getAndInvoke i (w : nat) (cb : jsval → list jsval → M jsval)
    (Hcb : ∀ this args, keeps (P i) (cb this args)) :
  keeps (P i) (Watcher_getAndInvoke R w cb).
Proof. unfold Watcher_getAndInvoke. inv_go. Qed.
#[local] Hint Resolve inv_Watcher_getAndInvoke : keeps.

Lemma inv_Watcher_run i (w : nat) : keeps (P i) (Watcher_run R w).
Proof.
  unfold Watcher_run. inv_go;
    apply inv_Watcher_getAndInvoke; intros ? ?; inv_go.
Qed.
#[local] Hint Resolve inv_Watcher_run : keeps.

Lemma inv_Watcher_update i (w : nat) : keeps (P i) (Watcher_update R w).
Proof.
  unfold Watcher_update. inv_go;
    apply inv_Watcher_getAndInvoke; intros ? ?; inv_go.
Qed.
#[local] Hint Resolve inv_Watcher_update : keeps.

Lemma inv_Watcher_evaluate i (w : nat) : keeps (P i) (Watcher_evaluate R w).
Proof. unfold Watcher_evaluate. inv_go. Qed.
#[local] Hint Resolve inv_Watcher_evaluate : keeps.

Lemma inv_Dep_notify i (d : nat) : keeps (P i) (Dep_notify R d).
Proof. unfold Dep_notify. inv_go. Qed.
#[local] Hint Resolve inv_Dep_notify : keeps.

Lemma inv_js_get i (o : jsval) (k : pkey) : keeps (P i) (js_get R o k).
Proof. unfold js_get. inv_go. Qed.
#[local] Hint Resolve inv_js_get : keeps.

Lemma inv_js_put i (o : jsval) (k : pkey) (v : jsval) : keeps (P i) (js_put R o k v).
Proof. unfold js_put. inv_go. Qed.
#[local] Hint Resolve inv_js_put : keeps.

Lemma inv_original i (m : method) (r : nat) (args : list jsval) :
  keeps (P i) (original env m r args).
Proof. unfold original. inv_go. Qed.
#[local] Hint Resolve inv_original : keeps.

Lemma inv_observeArray i (items : list jsval) : keeps (P i) (observeArray R items).
Proof. unfold observeArray. inv_go. Qed.
#[local] Hint Resolve inv_observeArray : keeps.

Lemma inv_defineReactive i (obj : nat) (key : pkey) (val : option jsval)
    (cs : option fn) (sh : bool) :
  keeps (P i) (defineReactive R obj key val cs sh).
Proof. unfold defineReactive. inv_go. Qed.
#[local] Hint Resolve inv_defineReactive : keeps.

Lemma inv_walk i (obj : nat) : keeps (P i) (walk R obj).
Proof. unfold walk. inv_go. Qed.
#[local] Hint Resolve inv_walk : keeps.

Lemma inv_new_Observer i (value : nat) : keeps (P i) (new_Observer R value).
Proof. unfold new_Observer. inv_go. Qed.
#[local] Hint Resolve inv_new_Observer : keeps.

Lemma inv_observe i (value : jsval) (b : bool) : keeps (P i) (observe env R value b).
Proof. unfold observe. inv_go. Qed.
#[local] Hint Resolve inv_observe : keeps.

Lemma inv_dependArray i (value : jsval) : keeps (P i) (dependArray R value).
Proof. unfold dependArray. inv_go. Qed.
#[local] Hint Resolve inv_dependArray : keeps.

Lemma inv_reactiveGetter i (c : nat) : keeps (P i) (reactiveGetter R c).
Proof. unfold reactiveGetter. inv_go. Qed.
#[local] Hint Resolve inv_reactiveGetter : keeps.

Lemma inv_reactiveSetter i (c : nat) (newVal : jsval) :
  keeps (P i) (reactiveSetter env R c newVal).
Proof. unfold reactiveSetter. inv_go. Qed.
#[local] Hint Resolve inv_reactiveSetter : keeps.

Lemma inv_mutator i (m : method) (this : nat) (args : list jsval) :
  keeps (P i) (mutator env R m this args).
Proof. unfold mutator. inv_go. Qed.
#[local] Hint Resolve inv_mutator : keeps.

Lemma inv_invoke i (a : jsval) (m : method) (args : list jsval) :
  keeps (P i) (invoke env R a m args).
Proof. unfold invoke. inv_go. Qed.
#[local] Hint Resolve inv_invoke : keeps.

Lemma inv_set i (target : jsval) (key : pkey) (val : jsval) :
  keeps (P i) (set env R target key val).
Proof. unfold set. inv_go. Qed.
#[local] Hint Resolve inv_set : keeps.

Lemma inv_computedGetter i (w : nat) : keeps (P i) (computedGetter R w).
Proof. unfold computedGetter. inv_go. Qed.
#[local] Hint Resolve inv_computedGetter : keeps.

Lemma inv_traverse i (val : jsval) : keeps (P i) (traverse R val).
Proof. unfold traverse. unfold for_each_rev; inv_go. Qed.
#[local] Hint Resolve inv_traverse : keeps.

Lemma inv_exec i (c : code) : keeps (P i) (exec env R c).
Proof.
  induction c as [v|e|o k cont IH|o k v cont IH|w cont IH|a m args cont IH
                 |t k v cont IH|tag cont IH].
  - apply keeps_ret.
  - apply keeps_throw.
  - change (keeps (P i) (bind (js_get R o k) (fun v => exec env R (cont v)))).
    inv_go.
  - change (keeps (P i) (bind (js_put R o k v) (fun _ => exec env R cont))).
    inv_go.
  - change (keeps (P i) (bind (computedGetter R w) (fun v => exec env R (cont v)))).
    inv_go.
  - change (keeps (P i) (bind (invoke env R a m args) (fun v => exec env R (cont v)))).
    inv_go.
  - change (keeps (P i) (bind (set env R t k v) (fun v => exec env R (cont v)))).
    inv_go.
  - change (keeps (P i) (bind (modify (emit (EUser tag))) (fun _ => exec env R cont))).
    inv_go.
Qed.
#[local] Hint Resolve inv_exec : keeps.

Lemma inv_call i (f : fn) (this : jsval) (args : list jsval) :
  keeps (P i) (call env R f this args).
Proof. unfold call. inv_go. Qed.
#[local] Hint Resolve inv_call : keeps.


Lemma inv_upd_vm i (v : nat) (f : component → component) : keeps (P i) (upd_vm v f).
Proof. unfold upd_vm. inv_go. Qed.
#[local] Hint Resolve inv_upd_vm : keeps.

Lemma inv_resetSchedulerState i : keeps (P i) (resetSchedulerState env).
Proof. unfold resetSchedulerState. inv_go. Qed.
#[local] Hint Resolve inv_resetSchedulerState : keeps.

Lemma inv_callUpdatedHooks i (q : list nat) : keeps (P i) (callUpdatedHooks q).
Proof. unfold callUpdatedHooks, callHook, for_each_rev. inv_go. Qed.
#[local] Hint Resolve inv_callUpdatedHooks : keeps.

Lemma inv_callActivatedHooks i (q : list nat) : keeps (P i) (callActivatedHooks q).
Proof. unfold callActivatedHooks, activateChildComponent. inv_go. Qed.
#[local] Hint Resolve inv_callActivatedHooks : keeps.

Lemma inv_flush_step i : keeps (P i) (flush_step env R).
Proof. unfold flush_step. inv_go. Qed.
#[local] Hint Resolve inv_flush_step : keeps.

Lemma inv_flush_loop i (fuel : nat) : keeps (P i) (flush_loop env R fuel).
Proof.
  induction fuel as [|fuel IH]; [by intros s _|].
  change (flush_loop env R (S fuel)) with
    (q <- gets queue ;; i <- gets index ;;
     if i <? length q then
       continue <- flush_step env R ;;
       if continue : bool then
         modify (fun s => set_index (S (index s)) s) ;; flush_loop env R fuel
       else ret tt
     else ret tt).
  inv_go.
Qed.
#[local] Hint Resolve inv_flush_loop : keeps.

Lemma inv_flushSchedulerQueue i (fuel : nat) :
  keeps (P i) (flushSchedulerQueue env R fuel).
Proof. unfold flushSchedulerQueue. inv_go. Qed.
#[local] Hint Resolve inv_flushSchedulerQueue : keeps.

Lemma inv_js_delete i (r : nat) (k : pkey) : keeps (P i) (js_delete r k).
Proof. unfold js_delete. inv_go. Qed.
#[local] Hint Resolve inv_js_delete : keeps.

Lemma inv_del i (a b : warning) (target : jsval) (key : pkey) :
  keeps (P i) (del env R a b target key).
Proof. unfold del. inv_go. Qed.
#[local] Hint Resolve inv_del : keeps.


Lemma inv_entries (i : I) (s : State) :
  P i s → entries_end_in (P i) env R s.
Proof.
  intros Hs. unfold entries_end_in.
  assert (K : ∀ A (m : M A), keeps (P i) m → ends_in (P i) (m s)).
  { intros A m Hm. exact (Hm s Hs). }
  repeat split; intros; apply K; auto with keeps nocore.
Qed.

End InvariantRec.

Lemma interp_inv (env : Env) (n : nat) (i : I) : Rec_keeps (P i) (interp env n).
Proof.
  revert i. induction n as [|n IH]; intros i.
  - repeat split; intros; intros s Hs; exact Logic.I.
  - simpl. split; [|split; [|split; [|split]]]; simpl.
    + intros f this args. by apply inv_call.
    + intros d. by apply inv_Dep_notify.
    + intros v b. by apply inv_observe.
    + intros v. by apply inv_traverse.
    + intros v. by apply inv_dependArray.
Qed.

End Invariant.

(** *** The dependency graph *)

Lemma graph_ok_frame (s s' : State) :
  subs s' = subs s → watchers s' = watchers s → graph_ok s → graph_ok s'.
Proof.
  intros Hs Hw (Hnd & Htr & Hco). unfold graph_ok, subs_nodup, subs_tracked.
  rewrite Hs, Hw. done.
Qed.

Lemma graph_ok_upd_watcher (w : nat) (f : watcher → watcher) :
  (∀ W, w_deps (f W) = w_deps W ∧ w_newDeps (f W) = w_newDeps W ∧
        w_depIds (f W) = w_depIds W ∧ w_newDepIds (f W) = w_newDepIds W) →
  keeps graph_ok (upd_watcher w f).
Proof.
  intros Hf s (Hnd & Htr & Hco). unfold upd_watcher, modify. simpl.
  assert (HW : ∀ w', (<[w := f (watchers s !!! w)]> (watchers s) : gmap nat watcher)
                       !!! w' =
                     if decide (w = w') then f (watchers s !!! w)
                     else watchers s !!! w').
  { intros w'. destruct (decide (w = w')) as [->|].
    - apply lookup_total_insert_eq.
    - by apply lookup_total_insert_ne. }
  destruct (Hf (watchers s !!! w)) as (H1 & H2 & H3 & H4).
  split; [done|]. split.
  - intros w' d Hin. simpl. rewrite HW.
    destruct (decide (w = w')) as [<-|]; [|by apply Htr].
    rewrite H3, H4. by apply Htr.
  - intros w'. simpl. rewrite HW.
    destruct (decide (w = w')) as [<-|]; [|apply Hco].
    unfold deps_consistent. rewrite H1, H2, H3, H4. apply Hco.
Qed.

Lemma graph_ok_new_Dep : keeps graph_ok new_Dep.
Proof.
  intros s (Hnd & Htr & Hco). unfold new_Dep, bind, gets, modify, ret. simpl.
  assert (Hs : ∀ d, (<[dep_uid s := []]> (subs s) : gmap nat (list nat)) !!! d =
                    if decide (dep_uid s = d) then [] else subs s !!! d).
  { intros d. destruct (decide (dep_uid s = d)) as [->|].
    - apply lookup_total_insert_eq.
    - by apply lookup_total_insert_ne. }
  split; [|split; [|done]].
  - intros d. simpl. rewrite Hs. destruct (decide (dep_uid s = d)); [constructor|apply Hnd].
  - intros w d. simpl. rewrite Hs.
    destruct (decide (dep_uid s = d)); [by intros ?%elem_of_nil|apply Htr].
Qed.

Lemma graph_ok_addDep (w d : nat) : keeps graph_ok (Watcher_addDep w d).
Proof.
  intros s Hok. pose proof (addDep_result w d s) as Hrun.
  destruct (Watcher_addDep w d s) as [[] s1|e s1|] eqn:Heq; [|done|done].
  by apply (addDep_graph_ok w d s s1).
Qed.

Lemma graph_ok_cleanupDeps (w : nat) : keeps graph_ok (Watcher_cleanupDeps w).
Proof.
  intros s (Hnd & Htr & Hco).
  destruct (cleanupDeps_result w s) as (s' & Hloop & Hres).
  destruct (cleanup_loop w (reverse (w_deps (watchers s !!! w))) s)
    as (s'' & Hrun & Hfr & Hkeep & Hsub & Hoth & Hnd' & Hrm).
  rewrite Hloop in Hrun. injection Hrun as <-.
  assert (Hws : watchers s' = watchers s) by (rewrite Hfr; done).
  rewrite Hres.
  assert (Hgone : ∀ d', d' ∈ w_depIds (watchers s !!! w) →
                   d' ∉ w_newDepIds (watchers s !!! w) → w ∉ subs s' !!! d').
  { intros d' Hd Hn. apply Hrm; [|done|apply Hnd].
    apply elem_of_reverse. by apply (Hco w). }
  split; [|split].
  - intros d'. apply Hnd', Hnd.
  - intros w' d' Hx. simpl in Hx. simpl.
    rewrite lookup_total_insert. rewrite Hws.
    destruct (decide (w = w')) as [<-|].
    + simpl. left.
      destruct (decide (d' ∈ w_newDepIds (watchers s !!! w))) as [|Hn]; [done|].
      exfalso. destruct (Htr _ _ (Hsub _ _ Hx)) as [Hd|Hd]; [|done].
      by apply (Hgone d').
    + apply Htr. by apply Hsub.
  - intros w'. simpl. rewrite lookup_total_insert, Hws.
    destruct (decide (w = w')) as [<-|]; [|apply Hco].
    destruct (Hco w) as [H1 H2]. split; simpl; [done|].
    intros d'. split; [by intros ?%elem_of_nil|by intros ?%elem_of_empty].
Qed.

Lemma graph_ok_modify (f : State → State) :
  (∀ s, subs (f s) = subs s ∧ watchers (f s) = watchers s) →
  keeps graph_ok (modify f).
Proof. intros Hf s H. destruct (Hf s). by apply (graph_ok_frame s). Qed.

Lemma graph_ok_pushTarget (t : option nat) : keeps graph_ok (pushTarget t).
Proof.
  unfold pushTarget. apply keeps_bind; [apply keeps_gets|]. intros [a|].
  - apply keeps_bind; [by apply graph_ok_modify|]. intros _.
    by apply graph_ok_modify.
  - apply keeps_bind; [apply keeps_ret|]. intros _. by apply graph_ok_modify.
Qed.

Lemma graph_ok_popTarget : keeps graph_ok popTarget.
Proof.
  unfold popTarget. apply keeps_bind; [apply keeps_gets|]. intros [|a rest].
  - by apply graph_ok_modify.
  - apply keeps_bind; [by apply graph_ok_modify|]. intros _.
    by apply graph_ok_modify.
Qed.

Lemma graph_ok_Watcher_get (R : Rec) (w : nat) :
  Rec_keeps graph_ok R → keeps graph_ok (Watcher_get R w).
Proof.
  intros (Hcall & _ & _ & Htrav & _). unfold Watcher_get.
  apply keeps_bind; [apply graph_ok_pushTarget|]. intros _.
  apply keeps_bind; [apply keeps_gets|]. intros W.
  apply keeps_try_finally.
  - apply keeps_try_catch; [apply Hcall|]. intros e.
    apply keeps_bind; [apply keeps_gets|]. intros W'.
    destruct (w_user W'); [|apply keeps_throw].
    apply keeps_bind; [|intros _; apply keeps_ret].
    unfold handleError. by apply graph_ok_modify.
  - intros value. apply keeps_bind; [apply keeps_gets|]. intros W'.
    apply keeps_bind.
    { unfold when. destruct (w_deep W'); [apply Htrav|apply keeps_ret]. }
    intros _. apply keeps_bind; [apply graph_ok_popTarget|]. intros _.
    apply graph_ok_cleanupDeps.
Qed.

Lemma interp_graph_ok (env : Env) (n : nat) : Rec_keeps graph_ok (interp env n).
Proof.
  apply (interp_inv (I := unit) (fun _ => graph_ok)).
  - intros [] s s' Hs Hw _ _. by apply graph_ok_frame.
  - intros [] w v. by apply graph_ok_upd_watcher.
  - intros [] w b. by apply graph_ok_upd_watcher.
  - intros []. apply graph_ok_new_Dep.
  - intros [] w d. apply graph_ok_addDep.
  - intros R HR [] w. apply graph_ok_Watcher_get. apply (HR tt).
  - exact tt.
Qed.

(** A sufficient condition that can be evaluated on a concrete page. *)
Lemma graph_ok_check (s : State) :
  map_Forall (λ d l, NoDup l ∧
                Forall (λ w, d ∈ w_depIds (watchers s !!! w) ∨
                             d ∈ w_newDepIds (watchers s !!! w)) l) (subs s) →
  map_Forall (λ _ W, list_to_set (w_deps W) = w_depIds W ∧
                     list_to_set (w_newDeps W) = w_newDepIds W) (watchers s) →
  graph_ok s.
Proof.
  intros Hs Hw.
  assert (Hl : ∀ d, subs s !!! d = [] ∨ subs s !! d = Some (subs s !!! d)).
  { intros d. rewrite lookup_total_alt. destruct (subs s !! d); [by right|by left]. }
  split; [|split].
  - intros d. destruct (Hl d) as [->|Hd]; [constructor|]. by apply (Hs _ _ Hd).
  - intros w d Hin. destruct (Hl d) as [He|Hd]; [rewrite He in Hin; by apply elem_of_nil in Hin|].
    destruct (Hs _ _ Hd) as [_ Hall]. rewrite Forall_forall in Hall. by apply Hall.
  - intros w. rewrite lookup_total_alt.
    destruct (watchers s !! w) as [W|] eqn:HW; simpl.
    + destruct (Hw _ _ HW) as [H1 H2]. split; intros d.
      * rewrite <- H1. by rewrite elem_of_list_to_set.
      * rewrite <- H2. by rewrite elem_of_list_to_set.
    + split; intros d; simpl; split; (by intros ?%elem_of_nil) || (by intros ?%elem_of_empty).
Qed.

Lemma order_page_graph_ok : graph_ok order_page.
Proof.
  apply graph_ok_check.
  - apply (bool_decide_unpack _). vm_compute. exact Logic.I.
  - apply (bool_decide_unpack _). vm_compute. exact Logic.I.
Qed.

(** *** [Dep.target] and the target stack *)

Lemma recording_frame (i : option nat * list nat) (s s' : State) :
  watchers s' = watchers s → target s' = target s →
  targetStack s' = targetStack s → recording i s → recording i s'.
Proof.
  intros Hw Ht Hts (H1 & H2 & H3 & H4). unfold recording, no_deep.
  rewrite Hw, Ht, Hts. done.
Qed.

Lemma recording_upd_watcher (i : option nat * list nat) (w : nat)
    (f : watcher → watcher) :
  (∀ W, w_deep (f W) = w_deep W) → keeps (recording i) (upd_watcher w f).
Proof.
  intros Hf s (H1 & H2 & H3 & H4). unfold upd_watcher, modify.
  split; [done|]. split; [done|]. split; [done|].
  intros w'. simpl. destruct (decide (w = w')) as [<-|].
  - rewrite lookup_total_insert_eq, Hf. apply H4.
  - rewrite lookup_total_insert_ne by done. apply H4.
Qed.

Lemma recording_new_Dep (i : option nat * list nat) : keeps (recording i) new_Dep.
Proof.
  intros s H. unfold new_Dep, bind, gets, modify, ret.
  by apply (recording_frame i s).
Qed.

Lemma recording_addDep (i : option nat * list nat) (w d : nat) :
  keeps (recording i) (Watcher_addDep w d).
Proof.
  intros s H. rewrite addDep_result. cbv zeta.
  destruct (decide (d ∈ w_newDepIds (watchers s !!! w))); [done|].
  assert (H1 : recording i
            (set_watchers (fun m =>
               <[w := with_depsets (w_deps (watchers s !!! w))
                        (w_newDeps (watchers s !!! w) ++ [d])
                        (w_depIds (watchers s !!! w))
                        ({[d]} ∪ w_newDepIds (watchers s !!! w))
                        (watchers s !!! w)]> m) s)).
  { pose proof (recording_upd_watcher i w
      (fun W => with_depsets (w_deps (watchers s !!! w))
                  (w_newDeps (watchers s !!! w) ++ [d])
                  (w_depIds (watchers s !!! w))
                  ({[d]} ∪ w_newDepIds (watchers s !!! w)) W)
      (fun W => eq_refl) s H) as Hk.
    exact Hk. }
  destruct (decide (d ∈ w_depIds (watchers s !!! w))); [done|].
  revert H1. apply recording_frame; reflexivity.
Qed.

Lemma recording_cleanupDeps (i : option nat * list nat) (w : nat) :
  keeps (recording i) (Watcher_cleanupDeps w).
Proof.
  intros s H.
  destruct (cleanupDeps_result w s) as (s' & Hloop & Hres).
  destruct (cleanup_loop w (reverse (w_deps (watchers s !!! w))) s)
    as (s'' & Hrun & Hfr & _).
  rewrite Hloop in Hrun. injection Hrun as <-.
  rewrite Hres.
  assert (H' : recording i s').
  { revert H. apply recording_frame; rewrite Hfr; reflexivity. }
  exact (recording_upd_watcher i w
           (fun W => with_depsets (w_newDeps W) [] (w_newDepIds W) ∅ W)
           (fun W => eq_refl) s' H').
Qed.

Lemma recording_Watcher_get (R : Rec) (w : nat) :
  (∀ i, Rec_keeps (recording i) R) →
  ∀ i, keeps (recording i) (Watcher_get R w).
Proof.
  intros HR [t ts] s (Ht & Hts & Hwn & Hdeep). simpl in Ht, Hts, Hwn.
  rewrite Watcher_get_result. unfold bind at 1. rewrite pushTarget_result.
  set (s1 := set_target (Some w) _).
  set (ts1 := match t with Some a => a :: ts | None => ts end).
  assert (Hs1 : recording (Some w, ts1) s1).
  { subst s1 ts1. rewrite Ht. destruct t as [a|]; simpl.
    - split; [done|]. split; [simpl; by rewrite Hts|]. split; [done|]. exact Hdeep.
    - split; [done|]. split; [simpl; by rewrite Hts|]. split; [done|]. exact Hdeep. }
  clearbody s1. unfold bind at 1. unfold the_watcher at 1, gets at 1.
  set (W := watchers s1 !!! w).
  assert (Hbody : keeps (recording (Some w, ts1))
            (try_catch (r_call R (w_getter W) (VRef (w_vm W)) [VRef (w_vm W)])
                       (get_catch w (w_vm W)))).
  { apply keeps_try_catch; [apply HR|]. intros e. unfold get_catch.
    apply keeps_bind; [apply keeps_gets|]. intros W'.
    destruct (w_user W'); [|apply keeps_throw].
    apply keeps_bind; [|intros _; apply keeps_ret].
    unfold handleError. intros s2 H2. revert H2. apply recording_frame; reflexivity. }
  assert (Hfin : ∀ value s2, recording (Some w, ts1) s2 →
            ends_in (recording (t, ts)) (get_finally R w value s2)).
  { intros value s2 (H1 & H2 & H3 & H4). simpl in H1, H2.
    unfold get_finally. unfold bind at 1. unfold the_watcher at 1, gets at 1.
    rewrite H4. unfold when. unfold bind at 1. unfold ret at 1.
    unfold bind at 1. rewrite popTarget_result.
    apply (recording_cleanupDeps (t, ts) w).
    unfold popped. rewrite H2. subst ts1.
    destruct t as [a|]; simpl.
    - split; [done|]. split; [done|]. split; [done|]. exact H4.
    - rewrite (Hwn eq_refl) in H2 |- *. simpl.
      split; [done|]. split; [by rewrite <- H2|]. split; [done|]. exact H4. }
  specialize (Hbody s1 Hs1). unfold try_finally.
  destruct (try_catch _ _ s1) as [v s2|e s2|]; [| |done].
  - specialize (Hfin v s2 Hbody). by destruct (get_finally R w v s2).
  - specialize (Hfin VUndef s2 Hbody). by destruct (get_finally R w VUndef s2).
Qed.

Lemma recording_hyps_frame (i : option nat * list nat) (s s' : State) :
  subs s' = subs s → watchers s' = watchers s → target s' = target s →
  targetStack s' = targetStack s → recording i s → recording i s'.
Proof. intros _. apply recording_frame. Qed.

Lemma interp_recording (env : Env) (n : nat) (i : option nat * list nat) :
  Rec_keeps (recording i) (interp env n).
Proof.
  apply (interp_inv recording).
  - apply recording_hyps_frame.
  - intros j w v. by apply recording_upd_watcher.
  - intros j w b. by apply recording_upd_watcher.
  - apply recording_new_Dep.
  - apply recording_addDep.
  - intros R HR j w. by apply recording_Watcher_get.
Qed.

Lemma ends_in_mono {A} (P Q : State → Prop) (r : Res A) :
  (∀ s, P s → Q s) → ends_in P r → ends_in Q r.
Proof. intros H. destruct r; simpl; auto. Qed.

Lemma entries_end_in_mono (P Q : State → Prop) (env : Env) (R : Rec) (s : State) :
  (∀ s', P s' → Q s') → entries_end_in P env R s → entries_end_in Q env R s.
Proof.
  intros H (H1 & H2 & H3 & H4 & H5 & H6 & H7 & H8 & H9 & H10 & H11 & H12 & H13 & H14).
  unfold entries_end_in.
  repeat split; intros; eapply ends_in_mono; try exact H; auto.
Qed.

Lemma no_deep_check (s : State) :
  map_Forall (λ _ W, w_deep W = false) (watchers s) → no_deep s.
Proof.
  intros H w. rewrite lookup_total_alt.
  destruct (watchers s !! w) as [W|] eqn:HW; simpl; [|done]. by apply (H _ _ HW).
Qed.

(** X23: the dependency graph stays well formed.  From a state in which
    every subscriber list is free of duplicates, every subscriber of a
    Subject holds it in its current or previous dependency set and the
    dependency lists of every node agree with their identity sets, each
    entry point of the reactive system - a user function, a reactive
    getter or setter, a property read or write, an array method, [set],
    [del], [notify], [observe], the methods of a watcher, a computed
    getter, the flush of the scheduler - at any call depth, ends, by a
    return or by an exception, in such a state again. *)
Theorem graph_ok_invariant (env : Env) (fuel : nat) (s : State) :
  graph_ok s → entries_end_in graph_ok env (interp env fuel) s.
Proof.
  intros Hs.
  apply (inv_entries (I := unit) (fun _ => graph_ok)) with (i := tt); [..|exact Hs].
  - intros [] s1 s2 H1 H2 _ _. by apply graph_ok_frame.
  - intros [] w v. by apply graph_ok_upd_watcher.
  - intros [] w b. by apply graph_ok_upd_watcher.
  - intros []. apply graph_ok_new_Dep.
  - intros [] w d. apply graph_ok_addDep.
  - intros R HR [] w. apply graph_ok_Watcher_get. apply (HR tt).
  - intros []. apply interp_graph_ok.
Qed.

Lemma graph_ok_invariant_witness :
  graph_ok order_page ∧
  ∃ s', flushSchedulerQueue order_env (interp order_env 10) 10 order_page = Ok tt s' ∧
        graph_ok s'.
Proof.
  split; [exact order_page_graph_ok|].
  destruct (graph_ok_invariant order_env 10 order_page order_page_graph_ok)
    as (_ & _ & _ & _ & _ & _ & _ & _ & _ & _ & _ & _ & _ & Hflush).
  specialize (Hflush 10).
  destruct (flushSchedulerQueue order_env (interp order_env 10) 10 order_page)
    as [[] s'|e s'|] eqn:Hrun.
  - exists s'. split; [reflexivity|exact Hflush].
  - exfalso. vm_compute in Hrun. discriminate Hrun.
  - exfalso. vm_compute in Hrun. discriminate Hrun.
Defined.



(** ** The intercepted array methods (observer/array.js) *)

Lemma wraps_only_refl (s : State) : wraps_only s s.
Proof.
  unfold wraps_only. split; [done|]. split; [done|]. split; [done|].
  split; [done|]. split; [done|]. split; [done|]. split; [done|].
  split; [done|]. split; [lia|]. split; [lia|]. split; [done|].
  split; [done|]. split; [done|]. done.
Qed.

Lemma wraps_only_trans (s1 s2 s3 : State) :
  wraps_only s1 s2 → wraps_only s2 s3 → wraps_only s1 s3.
Proof.
  intros (A1 & A2 & A3 & A4 & A5 & A6 & A7 & A8 & A9 & A10 & A11 & A12 & A13 & A14)
         (B1 & B2 & B3 & B4 & B5 & B6 & B7 & B8 & B9 & B10 & B11 & B12 & B13 & B14).
  unfold wraps_only.
  split; [congruence|]. split; [congruence|]. split; [congruence|].
  split; [congruence|]. split; [congruence|]. split; [congruence|].
  split; [congruence|]. split; [congruence|]. split; [lia|]. split; [lia|].
  split. { intros d Hd. rewrite B11 by lia. by apply A11. }
  split. { intros o Ho. rewrite B12 by lia. by apply A12. }
  split. { intros r Hr. rewrite B13; [by apply A13|]. by rewrite A13. }
  intros r Hr. by apply B14, A14.
Qed.

Lemma new_Observer_array (env : Env) (n r : nat) (s : State) :
  o_isArray (heap s !!! r) = true →
  Forall (fun v => isObject v = false) (o_elems (heap s !!! r)) →
  new_Observer (interp env (S n)) r s = Ok (next_ob s) (wrapped_array r s).
Proof.
  intros HisA Helems.
  unfold new_Observer. unfold bind at 1. unfold new_Dep, bind at 1, gets at 1.
  unfold bind at 1. unfold modify at 1. unfold bind at 1. unfold modify at 1.
  unfold ret at 1. fold (with_new_dep s).
  unfold bind at 1. unfold alloc_observer, bind at 1, gets at 1.
  unfold bind at 1. unfold modify at 1. unfold bind at 1. unfold modify at 1.
  unfold ret at 1.
  unfold bind at 1. unfold upd_object at 1, modify at 1.
  unfold bind at 1. unfold the_object at 1, gets at 1.
  match goal with |- context [heap ?s3 !!! r] =>
    assert (Hh3 : heap s3 !!! r = with_ob (Some (next_ob s)) (heap s !!! r))
      by (simpl; by rewrite lookup_total_insert_eq);
    rewrite !Hh3 end.
  unfold with_ob at 1. cbn [o_isArray]. rewrite HisA.
  unfold bind at 1. unfold bind at 1. unfold upd_object at 1, modify at 1.
  unfold with_ob at 1. cbn [o_elems].
  rewrite observeArray_plain by done. unfold ret. unfold wrapped_array.
  f_equal. change (next_ob (with_new_dep s)) with (next_ob s).
  rewrite set_heap_twice. unfold set_heap at 1 2. f_equal. cbv beta.
  rewrite lookup_total_insert_eq. apply insert_insert_eq.
Qed.

Lemma define_step_frame (env : Env) (n obj : nat) (k : pkey) (p : prop) (s s1 : State) :
  o_isArray (heap s !!! obj) = false →
  assoc_get k (o_props (heap s !!! obj)) = Some p →
  simple_prop p →
  defineReactive (interp env (S n)) obj k None None false s = Ok tt s1 →
  shouldObserve s1 = shouldObserve s ∧ flushing s1 = flushing s ∧
  waiting s1 = waiting s.
Proof.
  intros HisA Hk Hp.
  assert (Hown : own_prop k (heap s !!! obj) = Some p)
    by (by rewrite own_prop_plain).
  destruct Hp as [Hfix|(v & e & -> & Hv)].
  - destruct p as [sl e cf]. simpl in Hfix. subst cf.
    rewrite (defineReactive_fixed _ _ _ _ _ _ _ _ _ Hown). by intros [= <-].
  - rewrite (defineReactive_data _ _ _ _ _ _ _ Hown Hv). by intros [= <-].
Qed.

Lemma walk_loop_frame (env : Env) (n obj : nat) (ks : list pkey) (s s' : State) :
  NoDup ks →
  o_isArray (heap s !!! obj) = false →
  (∀ k, k ∈ ks → ∃ p, assoc_get k (o_props (heap s !!! obj)) = Some p ∧
                      simple_prop p) →
  for_each ks (fun key =>
    defineReactive (interp env (S n)) obj key None None false) s = Ok tt s' →
  shouldObserve s' = shouldObserve s ∧ flushing s' = flushing s ∧
  waiting s' = waiting s.
Proof.
  revert s. induction ks as [|k ks IH]; intros s Hnd HisA Hks.
  - by intros [= <-].
  - apply NoDup_cons in Hnd as [Hk Hnd].
    destruct (Hks k) as (p & Hp & Hsimple); [by left|].
    destruct (define_step env n obj k p s HisA Hp Hsimple)
      as (s1 & Hrun1 & _ & Hsame1 & _ & _ & _ & _ & _ & _ & _ & _ & _ & _ & _ & _ &
          Hne1 & _).
    destruct (define_step_frame env n obj k p s s1 HisA Hp Hsimple Hrun1)
      as (F1 & F2 & F3).
    rewrite for_each_cons. unfold bind at 1. rewrite Hrun1. intros Hrun.
    destruct (IH s1) as (G1 & G2 & G3); [done| | |exact Hrun|].
    + by rewrite (proj1 (same_but_props_fields _ _ Hsame1)).
    + intros k' Hk'. destruct (Hks k') as (p' & Hp' & Hs'); [by right|].
      exists p'. split; [|done]. rewrite Hne1; [done|]. intros ->. done.
    + split; [congruence|]. split; congruence.
Qed.

Lemma new_Observer_object (env : Env) (n r : nat) (s : State) :
  o_isArray (heap s !!! r) = false →
  NoDup (fst <$> o_props (heap s !!! r)) →
  (∀ k p, assoc_get k (o_props (heap s !!! r)) = Some p →
          p_enumerable p = true → simple_prop p) →
  ∃ s1, new_Observer (interp env (S n)) r s = Ok (next_ob s) s1 ∧
        (∀ r', r' ≠ r → heap s1 !!! r' = heap s !!! r') ∧
        same_but_props (with_ob (Some (next_ob s)) (heap s !!! r)) (heap s1 !!! r) ∧
        shouldObserve s1 = shouldObserve s ∧ watchers s1 = watchers s ∧
        log s1 = log s ∧ queue s1 = queue s ∧ has s1 = has s ∧
        flushing s1 = flushing s ∧ waiting s1 = waiting s ∧ target s1 = target s ∧
        dep_uid s ≤ dep_uid s1 ∧ next_ob s ≤ next_ob s1 ∧
        (∀ d, d < dep_uid s → subs s1 !!! d = subs s !!! d) ∧
        (∀ o, o < next_ob s → observers s1 !!! o = observers s !!! o).
Proof.
  intros HisA Hnd Hsimple.
  assert (Hh0 : heap (wrapped_object r s) !!! r =
                with_ob (Some (next_ob s)) (heap s !!! r)).
  { unfold wrapped_object. simpl. by rewrite lookup_total_insert_eq. }
  assert (HisA0 : o_isArray (heap (wrapped_object r s) !!! r) = false)
    by (by rewrite Hh0).
  assert (Hprops0 : o_props (heap (wrapped_object r s) !!! r) =
                    o_props (heap s !!! r)) by (by rewrite Hh0).
  assert (Hkeys0 : Object_keys (heap (wrapped_object r s) !!! r) =
                   Object_keys (heap s !!! r)).
  { rewrite Hh0. unfold Object_keys. cbn [with_ob o_isArray o_props o_elems].
    by rewrite HisA. }
  assert (Hks : ∀ k, k ∈ Object_keys (heap s !!! r) →
            ∃ p, assoc_get k (o_props (heap (wrapped_object r s) !!! r)) = Some p ∧
                 simple_prop p).
  { intros k Hk. apply (Object_keys_plain _ k HisA Hnd) in Hk as (p & Hp & He).
    exists p. rewrite Hprops0. split; [done|]. by apply (Hsimple k). }
  assert (Hndk : NoDup (Object_keys (heap s !!! r)))
    by apply (Object_keys_plain _ (KNum 0) HisA Hnd).
  destruct (walk_loop env n r (Object_keys (heap s !!! r)) (wrapped_object r s)
              Hndk HisA0 Hks)
    as (s1 & Hwalk & Hoth & Hsame & Hobs & Hws & Hlog & Htg & Hq & Hh & Hno & _ &
        Hdu & _ & Hsu & _).
  destruct (walk_loop_frame env n r _ _ s1 Hndk HisA0 Hks Hwalk) as (F1 & F2 & F3).
  exists s1. split.
  { unfold new_Observer. unfold bind at 1. unfold new_Dep, bind at 1, gets at 1.
    unfold bind at 1. unfold modify at 1. unfold bind at 1. unfold modify at 1.
    unfold ret at 1. fold (with_new_dep s).
    unfold bind at 1. unfold alloc_observer, bind at 1, gets at 1.
    unfold bind at 1. unfold modify at 1. unfold bind at 1. unfold modify at 1.
    unfold ret at 1.
    unfold bind at 1. unfold upd_object at 1, modify at 1.
    change (next_ob (with_new_dep s)) with (next_ob s).
    fold (wrapped_object r s).
    unfold bind at 1. unfold the_object at 1, gets at 1. rewrite HisA0.
    unfold bind at 1. unfold walk, bind at 1, the_object at 1, gets at 1.
    rewrite Hkeys0, Hwalk. reflexivity. }
  split.
  { intros r' Hr'. rewrite Hoth by done. unfold wrapped_object. simpl.
    by rewrite lookup_total_insert_ne. }
  split; [by rewrite <- Hh0|].
  split; [by rewrite F1|]. split; [by rewrite Hws|]. split; [by rewrite Hlog|].
  split; [by rewrite Hq|]. split; [by rewrite Hh|]. split; [by rewrite F2|].
  split; [by rewrite F3|]. split; [by rewrite Htg|].
  split. { change (dep_uid (wrapped_object r s)) with (S (dep_uid s)) in Hdu. lia. }
  split. { rewrite Hno. change (next_ob (wrapped_object r s)) with (S (next_ob s)). lia. }
  split.
  { intros d Hd. rewrite Hsu.
    - unfold wrapped_object, with_new_dep. simpl.
      rewrite lookup_total_insert_ne; [done|lia].
    - change (dep_uid (wrapped_object r s)) with (S (dep_uid s)). lia. }
  intros o Ho. rewrite Hobs. unfold wrapped_object. simpl.
  rewrite lookup_total_insert_ne; [done|lia].
Qed.

Lemma observe_wrappable (env : Env) (n : nat) (v : jsval) (s : State) :
  shouldObserve s = true → serverRendering env = false →
  wrappable s v →
  ∃ ob s', observe env (interp env (S n)) v false s = Ok ob s' ∧
           wraps_only s s' ∧
           ∀ r, v = VRef r → is_Some (o_ob (heap s' !!! r)).
Proof.
  intros Hso Hssr Hv.
  destruct v as [| | | | | |r];
    try (exists None, s; split; [done|]; split; [apply wraps_only_refl|done]).
  destruct Hv as (Hvn & Hcase).
  destruct (o_ob (heap s !!! r)) as [ob|] eqn:Hob.
  { exists (Some ob), s. split.
    - unfold observe, bind, the_object, gets, ret. by rewrite Hvn, Hob.
    - split; [apply wraps_only_refl|]. intros r' [= <-]. by rewrite Hob. }
  destruct Hcase as [[? ?]|(_ & Hext & Hvue & Hkind)]; [done|].
  assert (Hobs : ∀ s1,
            new_Observer (interp env (S n)) r s = Ok (next_ob s) s1 →
            observe env (interp env (S n)) (VRef r) false s = Ok (Some (next_ob s)) s1).
  { intros s1 Hnew. unfold observe, bind at 1, the_object, gets. rewrite Hvn, Hob.
    unfold bind at 1. unfold bind at 1. rewrite Hso, Hssr, Hext, Hvue.
    destruct Hkind as [(HisA & _)|(HisA & Hplain & _)];
      rewrite HisA, ?Hplain; cbn [andb orb negb]; cbv iota;
      unfold bind at 1; rewrite Hnew; reflexivity. }
  destruct Hkind as [(HisA & Helems)|(HisA & Hplain & Hnd & Hsimple)].
  - exists (Some (next_ob s)), (wrapped_array r s).
    split; [apply Hobs; by apply new_Observer_array|].
    assert (Hheap : heap (wrapped_array r s) !!! r =
                    with_intercepted true (with_ob (Some (next_ob s)) (heap s !!! r))).
    { unfold wrapped_array. simpl. by rewrite lookup_total_insert_eq. }
    assert (Hoth : ∀ r', r' ≠ r → heap (wrapped_array r s) !!! r' = heap s !!! r').
    { intros r' Hr'. unfold wrapped_array. simpl. by rewrite lookup_total_insert_ne. }
    split.
    + unfold wraps_only.
      split; [done|]. split; [done|]. split; [done|]. split; [done|].
      split; [done|]. split; [done|]. split; [done|]. split; [done|].
      split; [simpl; lia|]. split; [simpl; lia|].
      split. { intros d Hd. unfold wrapped_array, with_new_dep. simpl.
               rewrite lookup_total_insert_ne; [done|lia]. }
      split. { intros o Ho. unfold wrapped_array. simpl.
               rewrite lookup_total_insert_ne; [done|lia]. }
      split. { intros r' Hr'. apply Hoth. intros ->. rewrite Hob in Hr'.
               by destruct Hr'. }
      intros r' Hr'. destruct (decide (r' = r)) as [->|Hne].
      * rewrite Hheap. split; [done|]. left. by eexists.
      * by rewrite Hoth.
    + intros r' [= <-]. rewrite Hheap. by eexists.
  - destruct (new_Observer_object env n r s HisA Hnd Hsimple)
      as (s1 & Hnew & Hoth & Hsame & F1 & F2 & F3 & F4 & F5 & F6 & F7 & F8 & F9 &
          F10 & F11 & F12).
    destruct (same_but_props_fields _ _ Hsame)
      as (_ & _ & Hob1 & _ & _ & _ & _ & Hvn1).
    cbn [with_ob o_ob o_isVNode] in Hob1, Hvn1.
    exists (Some (next_ob s)), s1. split; [by apply Hobs|].
    split.
    + unfold wraps_only.
      split; [done|]. split; [done|]. split; [done|]. split; [done|].
      split; [done|]. split; [done|]. split; [done|]. split; [done|].
      split; [done|]. split; [done|]. split; [done|]. split; [done|].
      split. { intros r' Hr'. apply Hoth. intros ->. rewrite Hob in Hr'.
               by destruct Hr'. }
      intros r' Hr'. destruct (decide (r' = r)) as [->|Hne].
      * split; [by rewrite Hvn1|]. left. rewrite Hob1. by eexists.
      * by rewrite Hoth.
    + intros r' [= <-]. rewrite Hob1. by eexists.
Qed.

Lemma observeArray_wrappable (env : Env) (n : nat) (items : list jsval) (s : State) :
  shouldObserve s = true → serverRendering env = false →
  Forall (wrappable s) items →
  ∃ s', observeArray (interp env (S (S n))) items s = Ok tt s' ∧
        wraps_only s s' ∧
        ∀ r, VRef r ∈ items → is_Some (o_ob (heap s' !!! r)).
Proof.
  intros Hso Hssr Hall. revert s Hso Hall.
  induction items as [|v items IH]; intros s Hso Hall.
  - exists s. split; [done|]. split; [apply wraps_only_refl|].
    by intros r ?%elem_of_nil.
  - apply Forall_cons in Hall as [Hv Hall].
    destruct (observe_wrappable env n v s Hso Hssr Hv) as (ob & s1 & Hrun1 & Hw1 & Hin1).
    assert (Hso1 : shouldObserve s1 = true).
    { destruct Hw1 as (-> & _). done. }
    assert (Hall1 : Forall (wrappable s1) items).
    { eapply Forall_impl; [exact Hall|]. intros v' Hv'.
      destruct v' as [| | | | | |r']; try done.
      destruct Hw1 as (_ & _ & _ & _ & _ & _ & _ & _ & _ & _ & _ & _ & _ & Hleaf).
      by apply Hleaf. }
    destruct (IH s1 Hso1 Hall1) as (s' & Hrun & Hw & Hin).
    exists s'. split.
    { unfold observeArray in *. rewrite for_each_cons. unfold bind at 1.
      unfold bind at 1.
      change (r_observe (interp env (S (S n))) v false)
        with (observe env (interp env (S n)) v false).
      rewrite Hrun1. unfold ret at 1. exact Hrun. }
    split; [by apply (wraps_only_trans _ _ _ Hw1 Hw)|].
    intros r Hr. apply elem_of_cons in Hr as [<-|Hr]; [|by apply Hin].
    destruct Hw as (_ & _ & _ & _ & _ & _ & _ & _ & _ & _ & _ & _ & Hkeep & _).
    rewrite Hkeep; by apply Hin1.
Qed.

Lemma original_returns (env : Env) (m : method) (a : nat) (args : list jsval)
    (s : State) :
  a < next_ref s →
  grows m args (o_elems (heap s !!! a)) && negb (o_extensible (heap s !!! a)) = false →
  ∃ result s1, original env m a args s = Ok result s1 ∧
               heap_only s s1 ∧
               o_ob (heap s1 !!! a) = o_ob (heap s !!! a) ∧
               (∀ r, r ≠ a → r < next_ref s → heap s1 !!! r = heap s !!! r).
Proof.
  intros Ha Hg.
  destruct m; unfold grows in Hg; unfold original, bind, the_object, gets;
    cbv zeta.
  - rewrite Hg. unfold bind, upd_object, modify, ret.
    eexists _, _. split; [reflexivity|]. split; [by unfold heap_only; destruct s|].
    simpl. rewrite lookup_total_insert_eq. split; [done|].
    intros r Hr _. by rewrite lookup_total_insert_ne.
  - destruct (reverse (o_elems (heap s !!! a))).
    + exists VUndef, s. split; [reflexivity|]. split; [by destruct s|]. done.
    + unfold bind, upd_object, modify, ret.
      eexists _, _. split; [reflexivity|]. split; [by unfold heap_only; destruct s|].
      simpl. rewrite lookup_total_insert_eq. split; [done|].
      intros r Hr _. by rewrite lookup_total_insert_ne.
  - destruct (o_elems (heap s !!! a)).
    + exists VUndef, s. split; [reflexivity|]. split; [by destruct s|]. done.
    + unfold bind, upd_object, modify, ret.
      eexists _, _. split; [reflexivity|]. split; [by unfold heap_only; destruct s|].
      simpl. rewrite lookup_total_insert_eq. split; [done|].
      intros r Hr _. by rewrite lookup_total_insert_ne.
  - rewrite Hg. unfold bind, upd_object, modify, ret.
    eexists _, _. split; [reflexivity|]. split; [by unfold heap_only; destruct s|].
    simpl. rewrite lookup_total_insert_eq. split; [done|].
    intros r Hr _. by rewrite lookup_total_insert_ne.
  - destruct args as [|start rest].
    + unfold bind, alloc_object, gets, modify, ret.
      eexists _, _. split; [reflexivity|].
      split; [by unfold heap_only; destruct s|].
      simpl. rewrite lookup_total_insert_ne by lia. split; [done|].
      intros r Hr Hlt. rewrite lookup_total_insert_ne by lia. done.
    + cbv zeta in Hg. rewrite Hg.
      unfold bind, upd_object, alloc_object, gets, modify, ret.
      eexists _, _. split; [reflexivity|].
      split; [by unfold heap_only; destruct s|].
      simpl. rewrite lookup_total_insert_ne by lia.
      rewrite lookup_total_insert_eq. split; [done|].
      intros r Hr Hlt. rewrite lookup_total_insert_ne by lia.
      by rewrite lookup_total_insert_ne.
  - unfold bind, upd_object, modify, ret.
    eexists _, _. split; [reflexivity|]. split; [by unfold heap_only; destruct s|].
    simpl. rewrite lookup_total_insert_eq. split; [done|].
    intros r Hr _. by rewrite lookup_total_insert_ne.
  - unfold bind, upd_object, modify, ret.
    eexists _, _. split; [reflexivity|]. split; [by unfold heap_only; destruct s|].
    simpl. rewrite lookup_total_insert_eq. split; [done|].
    intros r Hr _. by rewrite lookup_total_insert_ne.
Qed.

Lemma original_throws (env : Env) (m : method) (a : nat) (args : list jsval)
    (s : State) :
  a < next_ref s →
  grows m args (o_elems (heap s !!! a)) && negb (o_extensible (heap s !!! a)) = true →
  ∃ s1, original env m a args s = Exn TypeError s1 ∧
        heap_only s s1 ∧
        o_ob (heap s1 !!! a) = o_ob (heap s !!! a) ∧
        length (o_elems (heap s1 !!! a)) = length (o_elems (heap s !!! a)) ∧
        (∀ r, r ≠ a → r < next_ref s → heap s1 !!! r = heap s !!! r).
Proof.
  intros Ha Hg.
  destruct m; unfold grows in Hg; try done;
    unfold original, bind, the_object, gets; cbv zeta.
  - rewrite Hg. exists s. split; [reflexivity|]. split; [by destruct s|]. done.
  - rewrite Hg. exists s. split; [reflexivity|]. split; [by destruct s|]. done.
  - destruct args as [|start rest]; [done|].
    cbv zeta in Hg. rewrite Hg.
    match goal with |- context [if ?c then ret tt else upd_object _ _] =>
      destruct c eqn:Hc end;
      unfold bind, alloc_object, gets, modify, ret, throw.
    + eexists. split; [reflexivity|].
      split; [by unfold heap_only; destruct s|].
      simpl. rewrite lookup_total_insert_ne by lia. split; [done|]. split; [done|].
      intros r Hr Hlt. rewrite lookup_total_insert_ne by lia. done.
    + unfold upd_object, modify.
      eexists. split; [reflexivity|].
      split; [by unfold heap_only; destruct s|].
      simpl. rewrite lookup_total_insert_eq. simpl.
      rewrite lookup_total_insert_ne by lia. split; [done|].
      split.
      { apply andb_true_iff in Hg as [Hdc _]. apply Nat.ltb_lt in Hdc.
        apply Nat.ltb_ge in Hc.
        rewrite length_app, !length_take.
        set (l := o_elems (heap s !!! a)) in *.
        set (st := Z.to_nat (if (to_integer start <? 0)%Z then _ else _)) in *.
        assert (Hst : st ≤ length l).
        { subst st. destruct (to_integer start <? 0)%Z eqn:Hrs;
            [apply Z.ltb_lt in Hrs|]; lia. }
        destruct rest as [|c rest']; simpl in *; lia. }
      intros r Hr Hlt. rewrite lookup_total_insert_ne by done.
      by rewrite lookup_total_insert_ne by lia.
Qed.

Lemma heap_only_fields (s s1 : State) :
  heap_only s s1 →
  observers s1 = observers s ∧ next_ob s1 = next_ob s ∧ subs s1 = subs s ∧
  dep_uid s1 = dep_uid s ∧ watchers s1 = watchers s ∧ cells s1 = cells s ∧
  shouldObserve s1 = shouldObserve s ∧ target s1 = target s ∧
  queue s1 = queue s ∧ has s1 = has s ∧ flushing s1 = flushing s ∧
  waiting s1 = waiting s ∧ log s1 = log s.
Proof. intros H. rewrite H. by repeat split. Qed.

(** What an intercepted method does after the native operation has
    returned, when the inserted elements are wrappable and the
    subscribers of the wrapper's Subject wait for the flush. *)
Lemma mutator_wraps_notifies (env : Env) (n : nat) (m : method) (a ob : nat)
    (args : list jsval) (s s1 : State) (result : jsval) :
  original env m a args s = Ok result s1 →
  o_ob (heap s1 !!! a) = Some ob →
  ob < next_ob s1 →
  ob_dep (observers s1 !!! ob) < dep_uid s1 →
  shouldObserve s1 = true → serverRendering env = false →
  (∀ ins, inserted_args m args = Some ins → Forall (wrappable s1) ins) →
  plain_subscribers s1 (ob_dep (observers s1 !!! ob)) →
  ∃ s', mutator env (interp env (S (S n))) m a args s = Ok result s' ∧
        heap s' !!! a = heap s1 !!! a ∧
        (∀ ins r, inserted_args m args = Some ins → VRef r ∈ ins →
                  is_Some (o_ob (heap s' !!! r))) ∧
        has s' = has s1 ∪ list_to_set (subs s1 !!! ob_dep (observers s1 !!! ob)) ∧
        (flushing s1 = false →
           queue s' = queue s1 ++
                      admitted (has s1) (subs s1 !!! ob_dep (observers s1 !!! ob))) ∧
        log s' = log s1 ++
          (if waiting s1 ||
              bool_decide (admitted (has s1)
                             (subs s1 !!! ob_dep (observers s1 !!! ob)) = [])
           then [] else [ENextTick]) ∧
        watchers s' = watchers s1.
Proof.
  intros Horig Hob Hobn Hd Hso Hssr Hins Hplain.
  set (d := ob_dep (observers s1 !!! ob)) in *.
  assert (Hwrap : ∃ s2, observe_inserted (interp env (S (S n))) m args s1 = Ok tt s2 ∧
            wraps_only s1 s2 ∧
            ∀ ins r, inserted_args m args = Some ins → VRef r ∈ ins →
                     is_Some (o_ob (heap s2 !!! r))).
  { unfold observe_inserted. destruct (inserted_args m args) as [ins|] eqn:Hi.
    - destruct (observeArray_wrappable env n ins s1 Hso Hssr (Hins ins eq_refl))
        as (s2 & Hrun & Hw & Hin).
      exists s2. split; [done|]. split; [done|]. intros ins' r [= <-]. apply Hin.
    - exists s1. split; [done|]. split; [apply wraps_only_refl|]. by intros ins r. }
  destruct Hwrap as (s2 & Hrun2 & Hw & Hin).
  destruct Hw as (W1 & W2 & W3 & W4 & W5 & W6 & W7 & W8 & W9 & W10 & W11 & W12 &
                  W13 & W14).
  assert (Hobs2 : observers s2 !!! ob = observers s1 !!! ob) by (by apply W12).
  assert (Hsubs2 : subs s2 !!! d = subs s1 !!! d) by (by apply W11).
  destruct (enqueue_all (interp env (S n)) (subs s2 !!! d) s2)
    as (s' & Hrun & Hhas & Hq & _ & Hlog & _ & _ & Hws & _ & Hh & _).
  { intros w Hw. rewrite W2. apply Hplain. by rewrite <- Hsubs2. }
  exists s'. split.
  { rewrite (mutator_result env _ m a ob args s s1 s2 result Horig Hob Hrun2).
    rewrite Hobs2. fold d.
    change (r_notify (interp env (S (S n))) d) with (Dep_notify (interp env (S n)) d).
    unfold bind. by rewrite Dep_notify_result, Hrun. }
  split. { rewrite Hh. apply W13. rewrite Hob. by eexists. }
  split. { intros ins r Hi Hr. rewrite Hh. by apply (Hin ins). }
  split; [by rewrite Hhas, W5, Hsubs2|].
  split. { intros Hfl. rewrite Hq by (by rewrite W6). by rewrite W4, W5, Hsubs2. }
  split; [by rewrite Hlog, W3, W5, W7, Hsubs2|].
  by rewrite Hws.
Qed.

Lemma addDep_listens (t d : nat) (s : State) :
  listens s t →
  ∃ s1, Watcher_addDep t d s = Ok tt s1 ∧
        listens s1 t ∧
        d ∈ w_newDepIds (watchers s1 !!! t) ∧
        (∀ d', d' ∈ w_newDepIds (watchers s !!! t) →
               d' ∈ w_newDepIds (watchers s1 !!! t)) ∧
        heap s1 = heap s ∧ cells s1 = cells s ∧ observers s1 = observers s ∧
        log s1 = log s ∧ target s1 = target s ∧ queue s1 = queue s ∧
        has s1 = has s.
Proof.
  intros Hl. rewrite addDep_result. cbv zeta. eexists. split; [reflexivity|].
  destruct (decide (d ∈ w_newDepIds (watchers s !!! t))) as [Hin|Hnin].
  { split; [done|]. split; [done|]. done. }
  assert (Hw : ∀ (m : gmap nat watcher) W, (<[t := W]> m : gmap nat watcher) !!! t = W)
    by (intros; apply lookup_total_insert_eq).
  destruct (decide (d ∈ w_depIds (watchers s !!! t))) as [Hold|Hnew]; simpl.
  - split.
    { intros d'. simpl. rewrite Hw. simpl. intros [Hd'|Hd'].
      - apply Hl. by left.
      - apply elem_of_union in Hd' as [->%elem_of_singleton|Hd'].
        + apply Hl. by left.
        + apply Hl. by right. }
    rewrite Hw. simpl. split; [set_solver|]. split; [set_solver|]. done.
  - split.
    { intros d'. simpl. rewrite Hw. simpl. intros Hd'.
      destruct (decide (d = d')) as [<-|Hne].
      - rewrite lookup_total_insert_eq. apply elem_of_app. right.
        by apply list_elem_of_singleton.
      - rewrite lookup_total_insert_ne by done. apply Hl.
        destruct Hd' as [Hd'|Hd']; [by left|]. right.
        apply elem_of_union in Hd' as [Hd'%elem_of_singleton|Hd']; [congruence|done]. }
    rewrite Hw. simpl. split; [set_solver|]. split; [set_solver|]. done.
Qed.

Lemma dependArray_listens (R : Rec) (t : nat) (l : list jsval) (s : State) :
  target s = Some t →
  listens s t →
  (∀ er, VRef er ∈ l → o_isArray (heap s !!! er) = false) →
  ∃ s', for_each l (fun e =>
          (match e with
           | VRef er =>
               eo <- the_object er ;;
               match o_ob eo with
               | Some ob => O <- the_observer ob ;; Dep_depend (ob_dep O)
               | None => ret tt
               end
           | _ => ret tt
           end) ;;
          isA <- isArray e ;;
          if isA then r_dependArray R e else ret tt) s = Ok tt s' ∧
        listens s' t ∧
        heap s' = heap s ∧ observers s' = observers s ∧ target s' = target s ∧
        cells s' = cells s ∧ log s' = log s ∧ queue s' = queue s ∧ has s' = has s ∧
        (∀ d, d ∈ w_newDepIds (watchers s !!! t) →
              d ∈ w_newDepIds (watchers s' !!! t)) ∧
        (∀ er ob, VRef er ∈ l → o_ob (heap s !!! er) = Some ob →
                  ob_dep (observers s !!! ob) ∈ w_newDepIds (watchers s' !!! t)).
Proof.
  revert s. induction l as [|e l IH]; intros s Ht Hl Hflat.
  - exists s. split; [done|]. split; [done|]. split; [done|]. split; [done|].
    split; [done|]. split; [done|]. split; [done|]. split; [done|].
    split; [done|]. split; [done|]. by intros er ob ?%elem_of_nil.
  - rewrite for_each_cons. unfold bind at 1. unfold bind at 1.
    assert (Hstep : ∃ s1,
      (match e with
       | VRef er =>
           eo <- the_object er ;;
           match o_ob eo with
           | Some ob => O <- the_observer ob ;; Dep_depend (ob_dep O)
           | None => ret tt
           end
       | _ => ret tt
       end) s = Ok tt s1 ∧
      listens s1 t ∧
      heap s1 = heap s ∧ observers s1 = observers s ∧ target s1 = target s ∧
      cells s1 = cells s ∧ log s1 = log s ∧ queue s1 = queue s ∧ has s1 = has s ∧
      (∀ d, d ∈ w_newDepIds (watchers s !!! t) →
            d ∈ w_newDepIds (watchers s1 !!! t)) ∧
      (∀ er ob, e = VRef er → o_ob (heap s !!! er) = Some ob →
                ob_dep (observers s !!! ob) ∈ w_newDepIds (watchers s1 !!! t))).
    { destruct e as [| | | | | |er]; try (exists s; by repeat (split; [done|])).
      unfold bind at 1. unfold the_object at 1, gets at 1.
      destruct (o_ob (heap s !!! er)) as [ob|] eqn:Hob.
      - unfold bind at 1. unfold the_observer at 1, gets at 1.
        unfold Dep_depend, bind at 1, gets at 1. rewrite Ht.
        destruct (addDep_listens t (ob_dep (observers s !!! ob)) s Hl)
          as (s1 & Hrun & Hl1 & Hin & Hmono & Hh & Hc & Ho & Hlg & Htg & Hq & Hhas).
        exists s1. split; [done|]. split; [done|]. split; [done|]. split; [done|].
        split; [congruence|]. split; [done|]. split; [done|]. split; [done|].
        split; [done|]. split; [done|].
        intros er' ob' [= <-]. rewrite Hob. by intros [= <-].
      - exists s. split; [done|]. split; [done|]. split; [done|]. split; [done|].
        split; [done|]. split; [done|]. split; [done|]. split; [done|].
        split; [done|]. split; [done|].
        intros er' ob' [= <-]. by rewrite Hob. }
    destruct Hstep as (s1 & Hrun1 & Hl1 & Hh1 & Ho1 & Ht1 & Hc1 & Hlg1 & Hq1 & Hhas1 &
                       Hmono1 & Hrec1).
    rewrite Hrun1. unfold bind at 1.
    assert (HisA : isArray e s1 = Ok false s1).
    { unfold isArray. destruct e as [| | | | | |er]; try done.
      unfold bind, the_object, gets, ret. rewrite Hh1.
      rewrite (Hflat er); [done|]. by left. }
    rewrite HisA. unfold ret at 1.
    destruct (IH s1) as (s' & Hrun & Hl' & Hh & Ho & Htg & Hc & Hlg & Hq & Hhas &
                         Hmono & Hrec).
    { by rewrite Ht1. }
    { exact Hl1. }
    { intros er Her. rewrite Hh1. apply Hflat. by right. }
    exists s'. split; [done|]. split; [done|]. split; [congruence|].
    split; [congruence|]. split; [congruence|]. split; [congruence|].
    split; [congruence|]. split; [congruence|]. split; [congruence|].
    split. { intros d Hd. by apply Hmono, Hmono1. }
    intros er ob Her Hob. apply elem_of_cons in Her as [<-|Her].
    + apply Hmono. by apply (Hrec1 er ob).
    + rewrite <- Ho1. apply (Hrec er ob Her). by rewrite Hh1.
Qed.

(** A node that reads a property holding a wrapped array becomes a
    subscriber of the wrapper's Subject and of the Subjects of the
    wrappers of its elements. *)
Lemma read_array_subscribes (R : Rec) (c t a ob : nat) (s : State) :
  c_getter (cells s !!! c) = None →
  c_val (cells s !!! c) = VRef a →
  c_childOb (cells s !!! c) = Some ob →
  o_isArray (heap s !!! a) = true →
  flat_array s a →
  target s = Some t →
  listens s t →
  ∃ s', reactiveGetter R c s = Ok (VRef a) s' ∧
        listens s' t ∧
        t ∈ subs s' !!! ob_dep (observers s !!! ob) ∧
        (∀ er eob, VRef er ∈ o_elems (heap s !!! a) →
                   o_ob (heap s !!! er) = Some eob →
                   t ∈ subs s' !!! ob_dep (observers s !!! eob)) ∧
        heap s' = heap s ∧ observers s' = observers s ∧ log s' = log s ∧
        queue s' = queue s ∧ has s' = has s.
Proof.
  intros Hg Hv Hcob HisA Hflat Ht Hl. unfold reactiveGetter.
  unfold bind at 1. unfold the_cell at 1, gets at 1. rewrite Hg, Hv.
  unfold bind at 1. unfold ret at 1. unfold bind at 1. unfold bind at 1.
  unfold gets at 1. rewrite Ht.
  unfold bind at 1. unfold Dep_depend at 1, bind at 1, gets at 1. rewrite Ht.
  destruct (addDep_listens t (c_dep (cells s !!! c)) s Hl)
    as (s1 & Hrun1 & Hl1 & _ & Hmono1 & Hh1 & Hc1 & Ho1 & Hlg1 & Ht1 & Hq1 & Hhas1).
  rewrite Hrun1. unfold bind at 1. unfold the_cell at 1, gets at 1.
  rewrite Hc1, Hcob.
  unfold bind at 1. unfold the_observer at 1, gets at 1. rewrite Ho1.
  unfold bind at 1. unfold Dep_depend at 1, bind at 1, gets at 1. rewrite Ht1, Ht.
  destruct (addDep_listens t (ob_dep (observers s !!! ob)) s1 Hl1)
    as (s2 & Hrun2 & Hl2 & Hin2 & Hmono2 & Hh2 & Hc2 & Ho2 & Hlg2 & Ht2 & Hq2 & Hhas2).
  rewrite Hrun2. unfold bind at 1.
  assert (HisA2 : isArray (VRef a) s2 = Ok true s2).
  { unfold isArray, bind, the_object, gets, ret. by rewrite Hh2, Hh1, HisA. }
  rewrite HisA2.
  unfold dependArray. unfold bind at 1. unfold the_object at 1, gets at 1.
  rewrite Hh2, Hh1.
  destruct (dependArray_listens R t (o_elems (heap s !!! a)) s2)
    as (s' & Hrun & Hl' & Hh & Ho & Htg & Hc & Hlg & Hq & Hhas & Hmono & Hrec).
  { by rewrite Ht2, Ht1. }
  { exact Hl2. }
  { intros er Her. rewrite Hh2, Hh1. by apply Hflat. }
  rewrite Hrun. unfold bind, ret.
  exists s'. split; [done|]. split; [done|].
  split. { apply Hl'. right. by apply Hmono. }
  split.
  { intros er eob Her Hob. apply Hl'. right.
    rewrite <- Ho1, <- Ho2. apply (Hrec er eob Her). by rewrite Hh2, Hh1. }
  split; [congruence|]. split; [congruence|]. split; [congruence|].
  split; congruence.
Qed.



